(* ===== verification/_CoqProject ===== *)
-Q . S2P
Prelude.v
Text.v
Json.v
JsonFacts.v
Sha256.v
Vocabulary.v
Derivation.v
ObjectKey.v
Records.v
Envelope.v
Inventory.v
Scheduler.v
Pressure.v
Guard.v
Authority.v
TrustCache.v
AttemptSequence.v
InferenceRecord.v
AttemptReconstruction.v
Framing.v
Ingest.v
Store.v
Commit.v
Pool.v
CommitSafety.v
CommitProgress.v
CommitWitness.v
ControlRecord.v
ControlRecordFacts.v
TrustView.v
RequestVerification.v
AuthWitness.v
FrozenInventory.v
Collection.v
CollectionSafety.v
CollectionRun.v
CollectionWitness.v
Receipt.v
ReceiptFacts.v
ReceiptIssue.v
ReceiptWitness.v
ClientState.v
Spool.v
Upload.v
Acknowledgement.v
ClientSafety.v
ClientFacts.v
SpoolFacts.v
ClientWitness.v
FileCapture.v
ClaudeCapture.v
CaptureFacts.v
CaptureRun.v
CaptureWitness.v
