(* ===== verification/Prelude.v ===== *)
(** * Agent-archivist: a verification development

    Agent-archivist collects the session records of coding agents on client
    machines, ships them to an ingestion server and keeps them in tenant-owned
    object storage.  This library models the parts of the system that carry its
    own logic and proves that they keep their contracts.  Paths below are
    relative to [src/crates/].

    ** The program's parts

    - [archivist-protocol] fixes the wire: canonical JSON, SHA-256, the closed
      vocabulary, identity derivations and object keys.  Every other crate
      names, signs and addresses records through it.  It also sequences the
      records of exact inference capture and folds them back into attempts.
    - [archivist-auth] decides whom to trust: a tenant's authority key is
      pinned once, rotated through a chain of signed links, and verifies every
      control record; a bounded cache sits in front of the chain walk.  Control
      records link clients, rotate and revoke their keys and let one client
      relay for another; an upload attempt is admitted against them.
    - [archivist-client-core] runs on the collecting machine: it inventories
      what has been captured and acknowledged, plans each upload cycle and
      stops materializing when the spool fills.  A captured range is a bundle
      file in the spool and a row in a SQLite database; it is frozen into a
      request, retried, and removed once a verified receipt is retained.
    - [archivist-server] admits uploads under a process cap, a per-client share
      and a token bucket, and reads each body through a bounded window.
    - [archivist-storage] commits each accepted upload as three objects: a
      content-addressed blob streamed through a multipart session, then the
      occurrence manifest that names it, then the attestation that names the
      occurrence.  It also deletes the blobs no retained occurrence names, from
      two frozen inventories and a journal.
    - [archivist-adapter-sdk] and the adapters find the agents' session files
      and capture them: complete records only, in generations that end when a
      file is replaced or rewritten.
    - [archivist-storage-s3] and the command line move bytes between these and
      the outside.

    ** Files

    - [Prelude.v] (this file): the [result] monad with Rust's [?], machine-width
      integers as bounded [Z], big-endian encodings, sorting, shared lemmas and
      tactics.
    - [Text.v]: Rust strings as lists of Unicode scalar values, UTF-8 and UTF-16
      encodings, decimal integers.
    - [Json.v], [JsonFacts.v] for [archivist-protocol/src/json.rs]: [Value],
      [Object] with its binary-search slot, [parse_with_limits] and the
      recursive-descent parser under it, [canonical_bytes].
    - [Sha256.v] for [sha256.rs]: the streaming hasher [new]/[update]/[finalize]
      and the hex codec, against a whole-message FIPS 180-4 specification.
    - [Vocabulary.v] for [vocabulary.rs] and the identifier minting of
      [correlation.rs]: grammars, newtypes, timestamps, closed enums.
    - [Derivation.v] for [derivation.rs]: [FrameBuilder], [PreimageBuilder] (two
      instances of the class [Framing]) and the identities hashed over them.
    - [ObjectKey.v] for [object_key.rs]: the three object-key layouts.
    - [Records.v]: the member readers ([require], [typed], [optional], [u63])
      and the table of members that the record codecs share, and the class
      [WireType] of the types a member's text parses into.
    - [Envelope.v] for [envelope.rs]: the ingest envelope, its checks and its
      re-derived identities.
    - [Inventory.v] for [archivist-adapter-sdk/src/status.rs] and
      [archivist-client-core/src/inventory.rs]: status vocabulary, row loaders,
      per-source measurement and the aggregated report.
    - [Scheduler.v] for [scheduler.rs]: [plan] with its freshness reservations
      and backfill, and the abstract plan [plan_spec] it implements.
    - [Pressure.v] for [spool/pressure.rs]: the pressure gate's latch.
    - [Guard.v] for [archivist-server/src/guard.rs]: admission as a step
      relation on the gate, and the token bucket.
    - [Authority.v] for [archivist-auth/src/authority.rs]: rotation links, the
      walk [resolve_authority], the acceptance window, control-record
      verification and the publication gate, against the step relation
      [adopts].
    - [TrustCache.v] for [trust_cache.rs]: the 60-second cache, its calls
      interleaved as a step relation.
    - [ControlRecord.v] for [revocation.rs], [delegation.rs] and [link.rs]: the
      control records read ([RevocationRecord_verify] and its like), published
      ([publish_revocation] and its like), scopes and the link request;
      [ControlRecordFacts.v] has their theorems and the class [LawfulSigner].
    - [TrustView.v] for [ClientTrustView] of [revocation.rs]: the records folded
      into a client's view and the decision [evaluate_at], against the decision
      table [verdict].
    - [RequestVerification.v] for [request_verification.rs]: the attempt record
      and [verify_request].  [AuthWitness.v] applies the theorems of these four
      files at a tenant, a client and its history.
    - [Receipt.v] for [receipt.rs]: receipt-key certificates and records, the
      rotation schedule, and receipts signed and verified offline;
      [ReceiptFacts.v] has the calendar and the schedule, [ReceiptIssue.v] what
      is issued and verified, [ReceiptWitness.v] two keys and a receipt.
    - [AttemptSequence.v] for [attempt_sequence.rs], with the record types of
      [inference_artifact.rs] and the attempt counter of [correlation.rs]: the
      sequencer's operations, and [performs], the steps they take.
    - [InferenceRecord.v] for [inference_artifact.rs]: parsing and rendering of
      the six kinds of inference record.
    - [AttemptReconstruction.v] for [attempt_reconstruction.rs]: the fold of a
      record stream into per-attempt views.
    - [Framing.v] for [archivist-server/src/parse/framing.rs]: the multipart
      tokenizer over the classes [ByteSource] and [LawfulSource], against
      [ref_body], which reads the whole body at once.
    - [Ingest.v] for [parse/parts.rs] and [parse/ingest.rs]: the two-part policy
      over the tokenizer, the payload reader, the composition with the envelope
      parser and the rendering of every rejection.
    - [Store.v] for [archivist-storage/src/raw_write.rs], [commit.rs] (its
      traits), [capability.rs], [error.rs] and the registry of [multipart.rs]:
      the classes [RawWriteStore] and [LawfulStore], asynchronous code as
      programs [prog], and a store in memory with scheduled faults that meets
      the laws.
    - [Commit.v] for [multipart.rs], [blob.rs], [commit.rs], [manifests.rs] and
      [sequence.rs]: the writer, the blob commit, the manifest decision, the
      manifests and [commit_sequence], as programs.
    - [Pool.v]: many tasks on one store and registry, their steps and
      cancellation; the judgement [safe] and its soundness [inv_reachable].
    - [CommitSafety.v]: the programs of [Commit.v] are [safe], and what follows
      for every execution; the class [LawfulEncoder].
    - [CommitProgress.v]: uploads to a store that answers are committed; the
      sweep of abandoned uploads.
    - [CommitWitness.v]: an upload to the store in memory, at which the theorems
      above are applied.
    - [FrozenInventory.v] for [audit_restore.rs] and [metadata.rs]: the pages of
      an enumeration folded into one canonical inventory with its digest.
    - [Collection.v] for [collection.rs]: retention decisions, reference scans,
      the plan [build], its evidence, the audit journal and both executions as
      programs [cprog]; [CollectionSafety.v] has what a plan selects,
      [CollectionRun.v] the collectors, stores, journals and other writers as a
      step relation, the judgement [sound] and the answered programs, and
      [CollectionWitness.v] a tenant at which the theorems are applied.
    - [ClientState.v] for [archivist-client-core/src/state/migrations.rs]: the
      tables with their constraints, the spool directory as the process sees it
      and as a power failure would leave it, and the computations [act] whose
      every call may be refused, cut short or the last one.
    - [Spool.v] for [spool.rs], [Upload.v] for [upload.rs], [Acknowledgement.v]
      for [acknowledgement.rs]: each function as an [act].
    - [ClientSafety.v]: triples for [act], the invariant [client_inv], the calls
      as the steps [client_step] and what holds after any of them;
      [ClientFacts.v] has acknowledgements, backoff and claims, [SpoolFacts.v]
      reconciliation, [ClientWitness.v] a bundle from capture to receipt.
    - [FileCapture.v] for [archivist-adapter-sdk/src/file_capture.rs],
      [file_generation.rs] and the generations of [artifact.rs]: boundaries, the
      cursor, detection and the tracker; [ClaudeCapture.v] for
      [archivist-adapter-claude/src/lib.rs]: formats, the adapter's SHA-256 and
      the two capture streams.  A panic is [None].  [CaptureFacts.v] has the
      hash, records and detection, [CaptureRun.v] the streams over many passes,
      [CaptureWitness.v] a session file.

    ** What the theorems show

    - Canonical JSON is a normal form: what the writer writes parses back to the
      same value, distinct values have distinct bytes, the parser is total and
      accepts only well-formed values within its bounds, and objects behave as
      finite maps in canonical order.
    - Identities mean what they say: the streaming hash is FIPS 180-4 on the
      concatenation, each identity hashes exactly its framed inputs, framing is
      injective and domain-separated, and object keys parse exactly what they
      assemble.
    - Trust is anchored: the chain walk resolves exactly the signers an unbroken
      chain of verified links reaches, each link verified under the half already
      trusted; the dual-key window has the documented ends; a control record
      verifies exactly when it is authentic; an admitted publication extends the
      chain and nothing else; the cache never serves a resolution older than its
      lease.
    - Control records mean what was published: each verification accepts exactly
      one closed, signed table; what the authority publishes verifies as what it
      meant; a link request that is approved links the installation that wrote
      it.  A client's view decides by its table, whatever order its records came
      in; a revocation is permanent and a delivery never admits more than the
      previous half of the current rotation.  An attempt is admitted exactly when
      bytes, freshness, linkage, signature, scopes and delegation agree, and its
      signature is then of a key the control plane holds in force.
    - Receipts are evidence: a rotated schedule has a signer at every instant it
      covers, the receipt it signs parses and verifies under the pinned root, and
      nothing verifies but what a certified key signed within its window; a key
      comes back from its published record, certificate and seed file.
    - Client planning is safe and live: the cursor never passes unacknowledged
      bytes, the report's counters are those of the rows, a plan stays within
      capacity, serves freshness first, grants nothing twice and leaves no
      usable capacity idle.
    - Backpressure holds: the gate never admits materialization past its limits
      and resumes only below its threshold; in-flight admissions stay within
      both caps in every interleaving; the bucket's rate is bounded and it
      recovers.
    - Capture is of whole records, each once: a generation ends exactly on a
      discontinuity of the file, with its cause; whatever a file does between
      passes, the chunks of the open generation are the complete records last
      read, in order, contiguous and digested, and no pass panics; the adapter's
      own hash is SHA-256.
    - The client loses nothing it captured: whatever calls fail and wherever the
      process dies, a recorded bundle stays in the spool with the bytes its row
      names until a receipt that verified and answers its frozen request is
      retained; the acknowledgement is all or nothing; a materialized bundle
      survives a power failure; reconciliation settles in one pass; a claim
      schedules its retry, of the first due entry, before the attempt, and the
      backoff is the ideal doubling under its cap.
    - Exact capture is exact: the sequencer's records come in the documented
      order with contiguous ordinals and a closed attempt records nothing more;
      reconstructing its stream gives back every attempt, every record and the
      sequencer's own terminal state.
    - Upload bodies are framed exactly: the windowed tokenizer agrees with the
      reading of the whole body however the source splits it, and accepts
      exactly the pinned framing of the parts it yields, in bounded memory.
    - Records survive the wire: what an envelope or inference-record parser
      accepts satisfies every rule of the record and renders back to the value
      read; a valid record parses back from its canonical bytes; reserved
      members are refused; declared identities are the derived ones; the
      sequencer's records are valid on the wire.
    - Ingest is the composition: a request is accepted exactly when its body is
      the framing of a valid envelope within the cap and one payload, the
      payload is read without loss through two windows of memory, and every
      rejection has a registered code and a safe message.

    - The archive is always well-formed: however uploads and sweeps interleave,
      fail midway or are cancelled, a visible blob hashes to its address, a
      visible occurrence names a visible blob and a visible attestation a
      visible occurrence; results and failures tell the truth about what is
      durable; no registered session is lost; parts respect the portable
      bounds; replays change nothing; and an upload to a store that answers is
      committed with exactly the parts it needs.
    - Collection only takes what nothing keeps: a plan selects exactly the blobs
      that both scans saw unchanged and whose every reference was released thirty
      days ago; whatever stores, journals and other writers do, collectors remove
      only such blobs, still unchanged, each announced in a journal that stays a
      valid chain; reports say what was deleted, and the inventories they rest on
      are canonical.

    Where the code disagrees with its own documentation the disagreement is a
    theorem too, for instance [Authority.publication_can_close_a_loop],
    [TrustCache.clock_at_zero_serves], [Guard.bucket_rewind_double_credit],
    [Framing.straddling_header_refused],
    [Scheduler.backfill_starves_below_a_chunk],
    [Pressure.pressure_resume_above_cap],
    [CommitWitness.occurrence_manifest_conflict],
    [CommitWitness.nothing_durable_understates],
    [CollectionSafety.scan_separation_truncates],
    [ClientWitness.orphan_indexed_before_directory_sync],
    [CaptureWitness.object_sequence_not_reset],
    [CaptureWitness.append_changes_dialect] and
    [Vocabulary.uuid_v7_repeats_two_bits].

    ** Fuel and bounds

    The source's [loop]s recurse on fuel and give [OutOfFuel] without it.  JSON
    loops get one unit per unread byte, and nesting recurses on the remaining
    depth; the chain walks get one unit more than the store has links; a
    tokenizer call gets two units more than the source has bytes, and draining
    it three more than twice as many; a loop over its events gets one more than
    the events the unread bytes can give.  [JsonFacts.json_parse_total],
    [Authority.authority_walk_exact], [Authority.active_authority_is_tip],
    [Framing.framing_tokenizer_refines] and [Ingest.ingest_exact] prove that none
    ever runs out.  The part loop of [Commit.write_loop] gets as many turns as
    the chunk has bytes, one at least per turn.  Every other loop is
    structural.

    ** Inputs and parameters

    Clocks, entropy, the process id, filesystem and SQLite answers are
    arguments; [ClientState.World] carries the readings and an [answer] for each
    call.  SQLite's [strftime] is a parameter of a claim, and the order in which
    a directory is listed is the class [ClientState.ReadDir].  What a pass reads of
    a session file is [ClaudeCapture.Reads]; where a decision rests on digests,
    SHA-256 is assumed to tell the byte strings at hand apart, and no others.  The store a walk reads is a finite map that does not change
    during one call.  The Ed25519 verdict is the class
    [Authority.SignatureScheme]: the theorems hold for every verdict; signing is
    the class [ControlRecord.Signer], with the laws of Ed25519 in
    [ControlRecordFacts.LawfulSigner].  The
    object store and the blob encoder are parameters with the laws their traits
    document ([Store.LawfulStore], [CommitSafety.LawfulEncoder]): a call that
    fails may or may not have taken effect, a handle names one session, creation
    is atomic, and the stored form is a function of the content.  The deletion
    identity and the audit journal are the steps of [CollectionRun.world_step]:
    a deletion is conditional on the observed metadata and an occupied journal
    sequence is never replaced, as their traits require.

    ** Not modelled, and why

    Network, filesystem and database access, the command line and service glue
    have no logic of their own to state; the generated bindings repeat the
    schemas; zstd and SQLite are third-party.  Left out for their size, with
    logic of their own: the other record families of the protocol and of the
    authority chain, the other adapters, catalogs and exports, and the Ed25519 and SHA-512
    arithmetic, used here through its laws. *)

(** Shared vocabulary of the development: the [result] monad every fallible
    operation returns in, bytes and machine-width integers as bounded [Z],
    byte literals, big-endian encodings, lexicographic order, and the list
    lemmas and tactics the component files use. *)

From Stdlib Require Export ZArith Lia Bool.
From stdpp Require Export base list strings gmap sorting.
Open Scope Z_scope.

#[global] Set Default Goal Selector "!".

(** * Results

    [Ok] and [Err] are Rust's [Result].  [OutOfFuel] is not a value of the
    code: a definition that models a [loop] recurses on a fuel argument and
    returns [OutOfFuel] when it runs out, and each such definition comes with
    a theorem that it never does. *)

Inductive result (E A : Type) : Type :=
| Ok (a : A)
| Err (e : E)
| OutOfFuel.
Arguments Ok {E A} _.
Arguments Err {E A} _.
Arguments OutOfFuel {E A}.

Definition rbind {E A B} (m : result E A) (k : A -> result E B) : result E B :=
  match m with
  | Ok a => k a
  | Err e => Err e
  | OutOfFuel => OutOfFuel
  end.

Declare Scope result_scope.
Delimit Scope result_scope with result.

(** Rust's [?] operator. *)
Notation "'let!' x := m 'in' k" := (rbind m (fun x => k))
  (at level 10, x name, m at level 100, k at level 200) : result_scope.
Notation "'let!' ' p := m 'in' k" := (rbind m (fun x => match x with p => k end))
  (at level 10, p strict pattern, m at level 100, k at level 200) : result_scope.
Open Scope result_scope.

Definition is_ok {E A} (m : result E A) : bool :=
  match m with Ok _ => true | _ => false end.

Definition ok_or {E A} (o : option A) (e : E) : result E A :=
  match o with Some a => Ok a | None => Err e end.

Definition map_err {E F A} (f : E -> F) (m : result E A) : result F A :=
  match m with
  | Ok a => Ok a
  | Err e => Err (f e)
  | OutOfFuel => OutOfFuel
  end.

Lemma rbind_Ok {E A B} (m : result E A) (k : A -> result E B) b :
  rbind m k = Ok b <-> exists a, m = Ok a /\ k a = Ok b.
Proof. split; [destruct m; simpl; naive_solver|]. intros (a & -> & ?). done. Qed.

Lemma rbind_OutOfFuel {E A B} (m : result E A) (k : A -> result E B) :
  rbind m k = OutOfFuel <->
  m = OutOfFuel \/ exists a, m = Ok a /\ k a = OutOfFuel.
Proof.
  split; [destruct m; simpl; eauto; discriminate|].
  intros [-> | (a & -> & ?)]; done.
Qed.

Lemma rbind_fuel {E A B} (m : result E A) (k : A -> result E B) :
  m <> OutOfFuel -> (forall a, m = Ok a -> k a <> OutOfFuel) -> rbind m k <> OutOfFuel.
Proof. intros Hm Hk [Hb|(a & Ha & Hb)]%rbind_OutOfFuel; [done|]. by apply (Hk a). Qed.

(** Lemmas that an operation always decides, [_ <> OutOfFuel]. *)
Create HintDb fuel discriminated.

(** Split every [rbind .. = Ok _] hypothesis into its steps. *)
Ltac inv_ok :=
  repeat match goal with
  | H : rbind _ _ = Ok _ |- _ =>
      let a := fresh "a" in let Ha := fresh "Ha" in
      apply rbind_Ok in H as (a & Ha & H)
  | H : Ok _ = Ok _ |- _ => injection H as H; try subst
  | H : Err _ = Ok _ |- _ => discriminate H
  | H : OutOfFuel = Ok _ |- _ => discriminate H
  | H : (_, _) = (_, _) |- _ => injection H as H; try subst
  end.

(** Case analysis on the first boolean test of a hypothesis. *)
Ltac case_if H :=
  match type of H with
  | context [if ?b then _ else _] => destruct b eqn:?; try discriminate H
  end.

(** * Bytes and machine-width integers

    A byte and a [w]-bit integer are integers of [Z] in range; where the code
    can wrap or saturate the operation says so. *)

Definition is_byte (b : Z) : Prop := 0 <= b < 256.

Definition u32_modulus : Z := 2 ^ 32.
Definition u64_modulus : Z := 2 ^ 64.
Definition U64_MAX : Z := 2 ^ 64 - 1.
Definition I64_MIN : Z := - 2 ^ 63.
Definition I64_MAX : Z := 2 ^ 63 - 1.

Definition is_u64 (n : Z) : Prop := 0 <= n <= U64_MAX.
Definition is_i64 (n : Z) : Prop := I64_MIN <= n <= I64_MAX.

(** [u64::saturating_add], [saturating_sub] and [saturating_mul]. *)
Definition sat_add64 (a b : Z) : Z := Z.min U64_MAX (a + b).
Definition sat_sub (a b : Z) : Z := Z.max 0 (a - b).
Definition sat_mul64 (a b : Z) : Z := Z.min U64_MAX (a * b).

(** [u64::wrapping_add] and [wrapping_mul]. *)
Definition wrap_add64 (a b : Z) : Z := (a + b) mod u64_modulus.
Definition wrap_mul64 (a b : Z) : Z := (a * b) mod u64_modulus.

(** [usize] lengths. *)
Definition zlen {A} (l : list A) : Z := Z.of_nat (length l).

(** A byte-string literal [b"..."]. *)
Definition lit (s : string) : list Z :=
  map (fun c => Z.of_N (Ascii.N_of_ascii c)) (String.list_ascii_of_string s).

(** [starts_with] on slices. *)
Fixpoint starts_with (l prefix : list Z) {struct prefix} : bool :=
  match prefix, l with
  | [], _ => true
  | p :: prefix', b :: l' => (p =? b) && starts_with l' prefix'
  | _ :: _, [] => false
  end.

(** [uN::to_be_bytes] for an [n]-byte integer. *)
Fixpoint to_be_bytes (n : nat) (z : Z) : list Z :=
  match n with
  | O => []
  | S n' => (z / 256 ^ Z.of_nat n') mod 256 :: to_be_bytes n' z
  end.

Fixpoint from_be_acc (acc : Z) (l : list Z) : Z :=
  match l with
  | [] => acc
  | b :: l' => from_be_acc (acc * 256 + b) l'
  end.

(** [uN::from_be_bytes]. *)
Definition from_be_bytes (l : list Z) : Z := from_be_acc 0 l.

(** Number of elements satisfying a test, as the code's counters count. *)
Definition count {A} (f : A -> bool) (l : list A) : Z := zlen (List.filter f l).

Fixpoint zsum (l : list Z) : Z :=
  match l with [] => 0 | x :: l' => x + zsum l' end.

(** Lexicographic comparison of integer sequences ([Ord] on slices). *)
Fixpoint lex_compare (a b : list Z) : comparison :=
  match a, b with
  | [], [] => Eq
  | [], _ :: _ => Lt
  | _ :: _, [] => Gt
  | x :: a', y :: b' =>
      match x ?= y with
      | Eq => lex_compare a' b'
      | c => c
      end
  end.

(** * Lemmas *)

Ltac zify_divmod := Z.to_euclidean_division_equations; nia.

Lemma starts_with_app l r : starts_with (l ++ r) l = true.
Proof. induction l as [|x l IH]; simpl; [done|]. by rewrite Z.eqb_refl. Qed.

Lemma starts_with_spec l p : starts_with l p = true <-> exists r, l = p ++ r.
Proof.
  split.
  - revert l; induction p as [|x p IH]; intros [|y l]; simpl; eauto; try discriminate.
    rewrite andb_true_iff, Z.eqb_eq. intros [-> (r & ->)%IH]. eauto.
  - intros [r ->]. apply starts_with_app.
Qed.

Lemma length_to_be_bytes n z : length (to_be_bytes n z) = n.
Proof. induction n; simpl; auto. Qed.

Lemma to_be_bytes_byte n z : Forall is_byte (to_be_bytes n z).
Proof.
  induction n; simpl; constructor; [|done]. unfold is_byte.
  apply Z.mod_pos_bound. lia.
Qed.

Lemma from_be_acc_app acc l r :
  from_be_acc acc (l ++ r) = from_be_acc (from_be_acc acc l) r.
Proof. revert acc; induction l; simpl; auto. Qed.

Lemma to_be_bytes_snoc n z :
  to_be_bytes (S n) z = to_be_bytes n (z / 256) ++ [z mod 256].
Proof.
  induction n as [|n IH].
  { cbn. by rewrite Z.div_1_r. }
  cbn [to_be_bytes] in IH |- *. rewrite IH. cbn [app]. f_equal.
  rewrite Nat2Z.inj_succ, Z.pow_succ_r, Z.div_div by (try apply Z.pow_pos_nonneg; lia).
  done.
Qed.

Lemma from_be_acc_to n acc z :
  0 <= z < 256 ^ Z.of_nat n ->
  from_be_acc acc (to_be_bytes n z) = acc * 256 ^ Z.of_nat n + z.
Proof.
  revert acc z; induction n as [|n IH]; intros acc z Hz.
  { simpl in *. lia. }
  rewrite Nat2Z.inj_succ, Z.pow_succ_r in * by lia.
  rewrite to_be_bytes_snoc, from_be_acc_app, IH.
  - simpl. pose proof (Z.div_mod z 256). lia.
  - split; [apply Z.div_pos; lia|]. apply Z.div_lt_upper_bound; lia.
Qed.

Lemma from_be_to_be n z :
  0 <= z < 256 ^ Z.of_nat n -> from_be_bytes (to_be_bytes n z) = z.
Proof. intros H. unfold from_be_bytes. rewrite from_be_acc_to by done. lia. Qed.

Lemma to_be_bytes_inj n a b :
  0 <= a < 256 ^ Z.of_nat n -> 0 <= b < 256 ^ Z.of_nat n ->
  to_be_bytes n a = to_be_bytes n b -> a = b.
Proof. intros Ha Hb H. by rewrite <- (from_be_to_be n a), H, from_be_to_be. Qed.

Lemma lex_compare_refl a : lex_compare a a = Eq.
Proof. induction a; simpl; [done|]. by rewrite Z.compare_refl. Qed.

Lemma lex_compare_eq a b : lex_compare a b = Eq -> a = b.
Proof.
  revert b; induction a as [|x a IH]; intros [|y b]; simpl; try done.
  destruct (x ?= y) eqn:E; try done. apply Z.compare_eq in E as ->.
  intros H. f_equal; auto.
Qed.

Lemma lex_compare_antisym a b : lex_compare b a = CompOpp (lex_compare a b).
Proof.
  revert b; induction a as [|x a IH]; intros [|y b]; simpl; try done.
  rewrite Z.compare_antisym. destruct (x ?= y); simpl; auto.
Qed.

Lemma lex_compare_trans a b c :
  lex_compare a b = Lt -> lex_compare b c = Lt -> lex_compare a c = Lt.
Proof.
  revert b c; induction a as [|x a IH]; intros [|y b] [|z c]; simpl; try done.
  destruct (Z.compare_spec x y), (Z.compare_spec y z); try done; subst.
  - rewrite Z.compare_refl. eauto.
  - intros _ _. by replace (y ?= z) with Lt by (symmetry; apply Z.compare_lt_iff; lia).
  - intros _ _. by replace (x ?= z) with Lt by (symmetry; apply Z.compare_lt_iff; lia).
  - intros _ _. by replace (x ?= z) with Lt by (symmetry; apply Z.compare_lt_iff; lia).
Qed.

Lemma cons_eq {A} (x y : A) l m : x :: l = y :: m -> x = y /\ l = m.
Proof. by intros [= -> ->]. Qed.

Lemma zlen_app {A} (l r : list A) : zlen (l ++ r) = zlen l + zlen r.
Proof. unfold zlen. rewrite length_app. lia. Qed.

Lemma zlen_cons {A} (x : A) l : zlen (x :: l) = 1 + zlen l.
Proof. unfold zlen. simpl. lia. Qed.

Lemma count_cons {A} (f : A -> bool) x l : count f (x :: l) = (if f x then 1 else 0) + count f l.
Proof. unfold count. simpl. destruct (f x); rewrite ?zlen_cons; lia. Qed.

Lemma zlen_nonneg {A} (l : list A) : 0 <= zlen l.
Proof. unfold zlen. lia. Qed.

Lemma zsum_app l r : zsum (l ++ r) = zsum l + zsum r.
Proof. induction l; simpl; lia. Qed.

(** * Sorting

    [sort_by leb] is the sorted arrangement [sort_unstable_by] and
    [sort_by_key] produce; on keys the order separates, it is the only one. *)

Section Sorting.
Context {A : Type} (leb : A -> A -> bool).

Fixpoint insert_by (x : A) (l : list A) : list A :=
  match l with
  | [] => [x]
  | y :: l' => if leb x y then x :: l else y :: insert_by x l'
  end.

Fixpoint sort_by (l : list A) : list A :=
  match l with [] => [] | x :: l' => insert_by x (sort_by l') end.

Lemma insert_by_perm x l : Permutation (insert_by x l) (x :: l).
Proof.
  induction l as [|y l IH]; simpl; [done|]. destruct (leb x y); [done|].
  rewrite IH. apply Permutation_swap.
Qed.

Lemma sort_by_perm l : Permutation (sort_by l) l.
Proof. induction l; simpl; [done|]. rewrite insert_by_perm. by constructor. Qed.

Lemma length_sort_by l : length (sort_by l) = length l.
Proof. apply Permutation_length, sort_by_perm. Qed.

Lemma elem_of_sort_by x l : x ∈ sort_by l <-> x ∈ l.
Proof. by rewrite sort_by_perm. Qed.

Hypothesis leb_total : forall x y, leb x y = true \/ leb y x = true.
Hypothesis leb_trans : forall x y z, leb x y = true -> leb y z = true -> leb x z = true.

Lemma insert_by_sorted x l :
  StronglySorted leb l -> StronglySorted leb (insert_by x l).
Proof.
  induction 1 as [|y l Hl IH Hy]; simpl; [by repeat constructor|].
  destruct (leb x y) eqn:E.
  - constructor; [by constructor|]. constructor; [by rewrite E|].
    eapply Forall_impl; [exact Hy|]. intros z Hz. apply Is_true_eq_left.
    apply (leb_trans x y z); [done|]. by apply Is_true_eq_true.
  - constructor; [done|]. rewrite insert_by_perm. constructor; [|done].
    apply Is_true_eq_left. destruct (leb_total x y) as [H|H]; congruence.
Qed.

Lemma sort_by_sorted l : StronglySorted leb (sort_by l).
Proof. induction l; simpl; [constructor|]. by apply insert_by_sorted. Qed.

(** Two sorted arrangements of the same elements agree when the order
    separates the elements. *)
Lemma sorted_unique l1 l2 :
  (forall x y, x ∈ l1 -> y ∈ l1 -> leb x y = true -> leb y x = true -> x = y) ->
  StronglySorted leb l1 -> StronglySorted leb l2 -> Permutation l1 l2 -> l1 = l2.
Proof.
  intros Hanti H1. revert l2. induction H1 as [|x l1 H1 IH Hx]; intros l2 H2 Hp.
  { by apply Permutation_nil in Hp as ->. }
  destruct H2 as [|y l2 H2 Hy]; [by apply Permutation_sym, Permutation_nil_cons in Hp|].
  assert (x = y) as ->.
  { assert (Hyin : y ∈ x :: l1) by (rewrite Hp; apply elem_of_cons; by left).
    assert (Hxin : x ∈ y :: l2) by (rewrite <- Hp; apply elem_of_cons; by left).
    apply elem_of_cons in Hyin as Hy'. apply elem_of_cons in Hxin as [->|Hx']; [done|].
    destruct Hy' as [->|Hy']; [done|]. rewrite Forall_forall in Hx, Hy.
    apply Hanti; [apply elem_of_cons; by left|done| |].
    - apply Is_true_eq_true, Hx, Hy'.
    - apply Is_true_eq_true, Hy, Hx'. }
  f_equal. apply IH; [|done|by apply Permutation_cons_inv in Hp].
  intros a b Ha Hb. apply Hanti; apply elem_of_cons; by right.
Qed.

Lemma sort_by_unique l1 l2 :
  (forall x y, x ∈ l1 -> y ∈ l1 -> leb x y = true -> leb y x = true -> x = y) ->
  Permutation l1 l2 -> sort_by l1 = sort_by l2.
Proof.
  intros Hanti Hp. apply sorted_unique; [|apply sort_by_sorted..|].
  - intros x y Hx Hy. apply Hanti; by apply elem_of_sort_by.
  - by rewrite !sort_by_perm.
Qed.
End Sorting.

Lemma sort_by_id {A} (leb : A -> A -> bool) l : StronglySorted leb l -> sort_by leb l = l.
Proof.
  induction 1 as [|x l Hl IH Hx]; simpl; [done|]. rewrite IH.
  destruct Hx as [|y l' Hy _]; simpl; [done|]. by rewrite (Is_true_eq_true _ Hy).
Qed.

Lemma sort_by_map {A C} (f : A -> C) (leb : C -> C -> bool) l :
  map f (sort_by (fun a b => leb (f a) (f b)) l) = sort_by leb (map f l).
Proof.
  assert (Hi : forall x l, map f (insert_by (fun a b => leb (f a) (f b)) x l)
                           = insert_by leb (f x) (map f l)).
  { intros x l'. induction l' as [|y l' IH]; simpl; [done|].
    destruct (leb (f x) (f y)); simpl; by rewrite ?IH. }
  induction l as [|x l IH]; simpl; [done|]. by rewrite Hi, IH.
Qed.

(** Rust's [Ord] on [str] and byte slices as a test. *)
Definition lex_leb (a b : list Z) : bool :=
  match lex_compare a b with Gt => false | _ => true end.

Lemma lex_leb_total a b : lex_leb a b = true \/ lex_leb b a = true.
Proof.
  unfold lex_leb. rewrite (lex_compare_antisym a b). destruct (lex_compare a b); simpl; auto.
Qed.

Lemma lex_leb_trans a b c : lex_leb a b = true -> lex_leb b c = true -> lex_leb a c = true.
Proof.
  unfold lex_leb. destruct (lex_compare a b) eqn:E1; try done.
  - apply lex_compare_eq in E1 as ->. done.
  - destruct (lex_compare b c) eqn:E2; try done.
    + apply lex_compare_eq in E2 as ->. by rewrite E1.
    + by rewrite (lex_compare_trans _ _ _ E1 E2).
Qed.

Lemma lex_leb_antisym a b : lex_leb a b = true -> lex_leb b a = true -> a = b.
Proof.
  unfold lex_leb. rewrite (lex_compare_antisym a b).
  destruct (lex_compare a b) eqn:E; simpl; try done. intros _ _. by apply lex_compare_eq.
Qed.
