(* ===== verification/Text.v ===== *)
(** Rust's [char], [str] and integer text as far as the sources use them.  A
    [str] is the list of its Unicode scalar values; [as_bytes] is its UTF-8
    encoding, [from_utf8] the strict decoder of [std::str::from_utf8],
    [encode_utf16] the code-unit iterator, [i64_to_string] and [parse_i64]
    decimal rendering and [str::parse::<i64>].  The lemmas are the codec
    facts: both decoders invert their encoders and encodings are canonical. *)

From S2P Require Import Prelude.

(** * Scalar values *)

Definition is_scalar (c : Z) : Prop :=
  0 <= c < 0xD800 \/ 0xE000 <= c <= 0x10FFFF.

(** [char::from_u32]. *)
Definition char_from_u32 (c : Z) : option Z :=
  if ((0 <=? c) && (c <? 0xD800)) || ((0xE000 <=? c) && (c <=? 0x10FFFF))
  then Some c else None.

(** * UTF-8 *)

(** [char::encode_utf8]. *)
Definition encode_utf8 (c : Z) : list Z :=
  if c <? 0x80 then [c]
  else if c <? 0x800 then [0xC0 + c / 64; 0x80 + c mod 64]
  else if c <? 0x10000 then
    [0xE0 + c / 4096; 0x80 + c / 64 mod 64; 0x80 + c mod 64]
  else
    [0xF0 + c / 262144; 0x80 + c / 4096 mod 64; 0x80 + c / 64 mod 64;
     0x80 + c mod 64].

(** [str::as_bytes]. *)
Definition as_bytes (t : list Z) : list Z := flat_map encode_utf8 t.

Definition in_range (lo b hi : Z) : bool := (lo <=? b) && (b <=? hi).

Definition continuation (b : Z) : bool := in_range 0x80 b 0xBF.

(** The second byte a three- or four-byte sequence admits after [b0]. *)
Definition second_of_3 (b0 b1 : Z) : bool :=
  if b0 =? 0xE0 then in_range 0xA0 b1 0xBF
  else if b0 =? 0xED then in_range 0x80 b1 0x9F
  else continuation b1.

Definition second_of_4 (b0 b1 : Z) : bool :=
  if b0 =? 0xF0 then in_range 0x90 b1 0xBF
  else if b0 =? 0xF4 then in_range 0x80 b1 0x8F
  else continuation b1.

(** [std::str::from_utf8]: overlong forms, surrogates and values past
    U+10FFFF are rejected. *)
Fixpoint from_utf8 (l : list Z) : option (list Z) :=
  match l with
  | [] => Some []
  | b0 :: t0 =>
      if in_range 0 b0 0x7F then cons b0 <$> from_utf8 t0
      else
        match t0 with
        | [] => None
        | b1 :: t1 =>
            if in_range 0xC2 b0 0xDF then
              if continuation b1
              then cons ((b0 - 0xC0) * 64 + (b1 - 0x80)) <$> from_utf8 t1
              else None
            else
              match t1 with
              | [] => None
              | b2 :: t2 =>
                  if in_range 0xE0 b0 0xEF then
                    if second_of_3 b0 b1 && continuation b2
                    then cons ((b0 - 0xE0) * 4096 + (b1 - 0x80) * 64 + (b2 - 0x80))
                           <$> from_utf8 t2
                    else None
                  else
                    match t2 with
                    | [] => None
                    | b3 :: t3 =>
                        if in_range 0xF0 b0 0xF4 then
                          if second_of_4 b0 b1 && continuation b2 && continuation b3
                          then cons ((b0 - 0xF0) * 262144 + (b1 - 0x80) * 4096
                                     + (b2 - 0x80) * 64 + (b3 - 0x80))
                                 <$> from_utf8 t3
                          else None
                        else None
                    end
              end
        end
  end.

(** * UTF-16 *)

Definition encode_utf16_char (c : Z) : list Z :=
  if c <? 0x10000 then [c]
  else [0xD800 + (c - 0x10000) / 1024; 0xDC00 + (c - 0x10000) mod 1024].

(** [str::encode_utf16]. *)
Definition encode_utf16 (t : list Z) : list Z := flat_map encode_utf16_char t.

(** * Decimal text *)

Definition is_digit (b : Z) : bool := in_range 48 b 57.

Fixpoint dec_digits (fuel : nat) (n : Z) (acc : list Z) : list Z :=
  let acc' := 48 + n mod 10 :: acc in
  if n <? 10 then acc'
  else match fuel with O => acc' | S f => dec_digits f (n / 10) acc' end.

(** [i64::to_string]: nineteen digits hold every magnitude. *)
Definition i64_to_string (n : Z) : list Z :=
  if n <? 0 then 45 :: dec_digits 18 (- n) [] else dec_digits 18 n [].

Fixpoint dec_value (acc : Z) (l : list Z) : Z :=
  match l with [] => acc | d :: l' => dec_value (acc * 10 + (d - 48)) l' end.

(** [str::parse::<i64>] on the number texts the parsers scan, an optional
    minus sign and digits: [None] when empty or past the [i64] range. *)
Definition parse_i64 (l : list Z) : option Z :=
  match l with
  | [] => None
  | s :: ds =>
      let n := if s =? 45 then - dec_value 0 ds else dec_value 0 l in
      if (I64_MIN <=? n) && (n <=? I64_MAX) then Some n else None
  end.

(** * Lemmas *)

Ltac unrange :=
  cbv beta in *; unfold is_digit, second_of_3, second_of_4, continuation, in_range in *;
  repeat match goal with
  | H : (if ?b then _ else _) = true |- _ => destruct b eqn:?
  | H : (if ?b then _ else _) = false |- _ => destruct b eqn:?
  | H : _ && _ = true |- _ => apply andb_true_iff in H as [? ?]
  | H : _ && _ = false |- _ => apply andb_false_iff in H
  | H : (_ <=? _) = true |- _ => apply Z.leb_le in H
  | H : (_ <=? _) = false |- _ => apply Z.leb_gt in H
  | H : (_ <? _) = true |- _ => apply Z.ltb_lt in H
  | H : (_ <? _) = false |- _ => apply Z.ltb_ge in H
  | H : (_ =? _) = true |- _ => apply Z.eqb_eq in H
  | H : (_ =? _) = false |- _ => apply Z.eqb_neq in H
  end.

Lemma char_from_u32_scalar c d : char_from_u32 c = Some d -> d = c /\ is_scalar c.
Proof.
  unfold char_from_u32, is_scalar. destruct (_ || _) eqn:E; [|done].
  apply orb_true_iff in E as [E|E]; unrange; intros [= ->]; lia.
Qed.

Ltac rtrue := rewrite ?(proj2 (Z.leb_le _ _)) by lia.

Ltac decide_tests :=
  repeat match goal with
  | |- context [?a <=? ?b] =>
      first [ rewrite (proj2 (Z.leb_le a b)) by lia
            | rewrite (proj2 (Z.leb_gt a b)) by lia ]
  | |- context [?a <? ?b] =>
      first [ rewrite (proj2 (Z.ltb_lt a b)) by lia
            | rewrite (proj2 (Z.ltb_ge a b)) by lia ]
  | |- context [?a =? ?b] =>
      first [ rewrite (proj2 (Z.eqb_eq a b)) by lia
            | rewrite (proj2 (Z.eqb_neq a b)) by lia ]
  end; cbn [andb orb].

(** Name the base-64 digits of [c] with their bounds. *)
Lemma base64_digits c : 0 <= c ->
  c = (c / 262144) * 262144 + (c / 4096 mod 64) * 4096 + (c / 64 mod 64) * 64 + c mod 64 /\
  c / 4096 = (c / 262144) * 64 + c / 4096 mod 64 /\
  c / 64 = (c / 4096) * 64 + c / 64 mod 64 /\
  0 <= c / 262144 /\ 0 <= c / 4096 /\ 0 <= c / 64 /\
  0 <= c / 4096 mod 64 < 64 /\ 0 <= c / 64 mod 64 < 64 /\ 0 <= c mod 64 < 64.
Proof.
  intros Hc.
  assert (E1 : c / 4096 = c / 64 / 64) by (by rewrite Z.div_div by lia).
  assert (E2 : c / 262144 = c / 4096 / 64) by (by rewrite Z.div_div by lia).
  pose proof (Z.div_mod c 64). pose proof (Z.div_mod (c / 64) 64).
  pose proof (Z.div_mod (c / 4096) 64).
  pose proof (Z.mod_pos_bound c 64). pose proof (Z.mod_pos_bound (c / 64) 64).
  pose proof (Z.mod_pos_bound (c / 4096) 64).
  assert (0 <= c / 64) by (apply Z.div_pos; lia).
  assert (0 <= c / 4096) by (apply Z.div_pos; lia).
  assert (0 <= c / 262144) by (apply Z.div_pos; lia).
  lia.
Qed.

Lemma from_utf8_encode c l :
  is_scalar c -> from_utf8 (encode_utf8 c ++ l) = cons c <$> from_utf8 l.
Proof.
  unfold is_scalar. intros Hc.
  destruct (base64_digits c) as (H1 & H2 & H3 & H4 & H5 & H6 & H7 & H8 & H9); [lia|].
  set (q3 := c / 262144) in *. set (q2 := c / 4096) in *. set (q1 := c / 64) in *.
  unfold encode_utf8. fold q1 q2 q3.
  set (d2 := q2 mod 64) in *. set (d1 := q1 mod 64) in *. set (d0 := c mod 64) in *.
  clearbody q3 q2 q1 d2 d1 d0.
  destruct (c <? 0x80) eqn:?; unrange;
    [|destruct (c <? 0x800) eqn:?; unrange;
      [|destruct (c <? 0x10000) eqn:?; unrange]];
    cbn [app from_utf8]; unfold second_of_3, second_of_4, continuation, in_range;
    decide_tests; try done;
    repeat case_match; unrange; try lia; f_equal; f_equal; lia.
Qed.

Lemma from_utf8_as_bytes t : Forall is_scalar t -> from_utf8 (as_bytes t) = Some t.
Proof.
  induction 1 as [|c t Hc _ IH]; [done|].
  unfold as_bytes in *. cbn [flat_map]. by rewrite from_utf8_encode, IH.
Qed.

Lemma encode_utf8_1 c : 0 <= c <= 0x7F -> encode_utf8 c = [c].
Proof. intros. unfold encode_utf8. by decide_tests. Qed.

Lemma encode_utf8_2 b0 b1 :
  0xC2 <= b0 <= 0xDF -> 0x80 <= b1 <= 0xBF ->
  encode_utf8 ((b0 - 0xC0) * 64 + (b1 - 0x80)) = [b0; b1].
Proof.
  intros. unfold encode_utf8. decide_tests.
  f_equal; [|f_equal]; Z.to_euclidean_division_equations; lia.
Qed.

Lemma encode_utf8_3 b0 b1 b2 c :
  0xE0 <= b0 <= 0xEF -> 0x80 <= b1 <= 0xBF -> 0x80 <= b2 <= 0xBF ->
  c = (b0 - 0xE0) * 4096 + (b1 - 0x80) * 64 + (b2 - 0x80) ->
  0x800 <= c -> encode_utf8 c = [b0; b1; b2].
Proof.
  intros. unfold encode_utf8. decide_tests.
  destruct (base64_digits c) as (?&?&?&?&?&?&?&?&?); [lia|].
  f_equal; [|f_equal; [|f_equal]]; lia.
Qed.

Lemma encode_utf8_4 b0 b1 b2 b3 c :
  0xF0 <= b0 -> 0x80 <= b1 <= 0xBF -> 0x80 <= b2 <= 0xBF -> 0x80 <= b3 <= 0xBF ->
  c = (b0 - 0xF0) * 262144 + (b1 - 0x80) * 4096 + (b2 - 0x80) * 64 + (b3 - 0x80) ->
  0x10000 <= c -> encode_utf8 c = [b0; b1; b2; b3].
Proof.
  intros. unfold encode_utf8. decide_tests.
  destruct (base64_digits c) as (?&?&?&?&?&?&?&?&?); [lia|].
  f_equal; [|f_equal; [|f_equal; [|f_equal]]]; lia.
Qed.

(** Decoding is strict: what decodes is the encoding of scalar values. *)
Lemma from_utf8_sound l t :
  from_utf8 l = Some t -> as_bytes t = l /\ Forall is_scalar t.
Proof.
  revert t. induction l as [l IH] using (induction_ltof1 _ (@length Z)).
  unfold ltof in IH. intros t H. destruct l as [|b0 t0].
  { injection H as <-. done. }
  assert (Hstep : forall c pre r, b0 :: t0 = pre ++ r -> encode_utf8 c = pre ->
            is_scalar c -> cons c <$> from_utf8 r = Some t ->
            as_bytes t = b0 :: t0 /\ Forall is_scalar t).
  { intros c pre r Heq Henc Hsc Hr. destruct (from_utf8 r) as [t'|] eqn:E; [|done].
    injection Hr as <-. rewrite Heq in *.
    destruct (IH r) with (t := t') as [<- ?]; [|done|].
    { rewrite length_app, <- Henc. unfold encode_utf8. repeat case_match; simpl; lia. }
    split; [|by constructor]. unfold as_bytes. cbn [flat_map]. by rewrite Henc. }
  clear IH. cbn [from_utf8] in H. destruct (in_range 0 b0 0x7F) eqn:E0.
  { unrange. apply (Hstep b0 [b0] t0); auto; [|left; lia]. apply encode_utf8_1; lia. }
  destruct t0 as [|b1 t1]; [done|]. destruct (in_range 0xC2 b0 0xDF) eqn:E1.
  { destruct (continuation b1) eqn:Ec; [|done]. clear E0. unrange.
    eapply (Hstep _ [b0; b1] t1); eauto; [|left; lia]. apply encode_utf8_2; lia. }
  destruct t1 as [|b2 t2]; [done|]. destruct (in_range 0xE0 b0 0xEF) eqn:E2.
  { destruct (_ && _) eqn:Ec; [|done]. clear E0 E1. unrange.
    all: eapply (Hstep _ [b0; b1; b2] t2); eauto; [|unfold is_scalar; lia].
    all: apply encode_utf8_3; lia. }
  destruct t2 as [|b3 t3]; [done|]. destruct (in_range 0xF0 b0 0xF4) eqn:E3; [|done].
  destruct (_ && _) eqn:Ec; [|done]. clear E0 E1 E2. unrange.
  all: eapply (Hstep _ [b0; b1; b2; b3] t3); eauto; [|unfold is_scalar; lia].
  all: apply encode_utf8_4; lia.
Qed.

Lemma encode_utf8_byte c : is_scalar c -> Forall is_byte (encode_utf8 c).
Proof.
  unfold is_scalar, is_byte. intros Hc. unfold encode_utf8.
  repeat case_match; unrange; repeat constructor;
    Z.to_euclidean_division_equations; lia.
Qed.

Lemma as_bytes_byte t : Forall is_scalar t -> Forall is_byte (as_bytes t).
Proof.
  induction 1; [constructor|]. unfold as_bytes. cbn [flat_map].
  apply Forall_app; auto using encode_utf8_byte.
Qed.

Lemma as_bytes_app t u : as_bytes (t ++ u) = as_bytes t ++ as_bytes u.
Proof. apply flat_map_app. Qed.

Lemma as_bytes_inj t u :
  Forall is_scalar t -> Forall is_scalar u -> as_bytes t = as_bytes u -> t = u.
Proof.
  intros Ht Hu H. apply (f_equal from_utf8) in H.
  rewrite !from_utf8_as_bytes in H by done. by injection H.
Qed.

Lemma as_bytes_ascii t : Forall (fun c => 0 <= c <= 0x7F) t -> as_bytes t = t.
Proof.
  induction 1; [done|]. unfold as_bytes in *. cbn [flat_map].
  rewrite encode_utf8_1 by lia. simpl. by f_equal.
Qed.

(** ASCII text, decided by evaluation. *)
Lemma ascii_scalar t : forallb (fun c => in_range 0 c 0x7F) t = true -> Forall is_scalar t.
Proof.
  rewrite forallb_forall. intros H. apply Forall_forall. intros c Hc.
  specialize (H c (proj1 (list_elem_of_In _ _) Hc)). unfold in_range in H. unfold is_scalar. lia.
Qed.

Lemma encode_utf16_inj t u :
  Forall is_scalar t -> Forall is_scalar u -> encode_utf16 t = encode_utf16 u -> t = u.
Proof.
  intros Ht. revert u. induction Ht as [|c t Hc _ IH]; intros u Hu H.
  { destruct u as [|d u]; [done|]. unfold encode_utf16, encode_utf16_char in H.
    cbn [flat_map] in H. by destruct (_ <? _) in H. }
  destruct Hu as [|d u Hd Hu].
  { unfold encode_utf16, encode_utf16_char in H. cbn [flat_map] in H.
    by destruct (_ <? _) in H. }
  unfold encode_utf16 in H. cbn [flat_map] in H. fold (encode_utf16 t) in H.
  fold (encode_utf16 u) in H. unfold encode_utf16_char, is_scalar in *.
  destruct (c <? 0x10000) eqn:Ec, (d <? 0x10000) eqn:Ed; unrange; simpl in H.
  - injection H as -> H. f_equal. auto.
  - exfalso. injection H as H _. Z.to_euclidean_division_equations; lia.
  - exfalso. injection H as H _. Z.to_euclidean_division_equations; lia.
  - injection H as H1 H2 H. f_equal; [|auto].
    Z.to_euclidean_division_equations; lia.
Qed.

(** ** Decimal text *)

Lemma dec_value_app a l r : dec_value a (l ++ r) = dec_value (dec_value a l) r.
Proof. revert a; induction l; simpl; auto. Qed.

(** A digit string with no superfluous leading zero. *)
Definition canonical_digits (ds : list Z) : Prop :=
  Forall (fun d => is_digit d = true) ds /\
  match ds with
  | [] => False
  | d :: rest => d = 48 -> rest = []
  end.

Lemma dec_digits_spec f n acc :
  0 <= n < 10 ^ (Z.of_nat f + 1) ->
  exists ds, dec_digits f n acc = ds ++ acc /\ canonical_digits ds /\
             dec_value 0 ds = n /\ (n <> 0 -> hd 0 ds <> 48).
Proof.
  revert n acc; induction f as [|f IH]; intros n acc Hn.
  - change (10 ^ (Z.of_nat 0 + 1)) with 10 in Hn. simpl.
    assert ((n <? 10) = true) as -> by (apply Z.ltb_lt; lia).
    exists [48 + n mod 10]. rewrite Z.mod_small by lia. unfold canonical_digits.
    repeat split; simpl; try lia; repeat constructor.
    unfold is_digit, in_range. decide_tests. done.
  - cbn [dec_digits]. destruct (n <? 10) eqn:E; unrange.
    + exists [48 + n mod 10]. rewrite Z.mod_small by lia. unfold canonical_digits.
      repeat split; simpl; try lia; repeat constructor.
      unfold is_digit, in_range. decide_tests. done.
    + replace (Z.of_nat (S f) + 1) with (Z.succ (Z.of_nat f + 1)) in Hn by lia.
      rewrite Z.pow_succ_r in Hn by lia.
      destruct (IH (n / 10) (48 + n mod 10 :: acc)) as (ds & -> & [Hd Hh] & Hv & Hnz).
      { split; [apply Z.div_pos; lia|]. apply Z.div_lt_upper_bound; lia. }
      assert (n / 10 <> 0) by (Z.to_euclidean_division_equations; lia).
      pose proof (Z.mod_pos_bound n 10 ltac:(lia)). pose proof (Z.div_mod n 10).
      exists (ds ++ [48 + n mod 10]). rewrite <- app_assoc. unfold canonical_digits.
      repeat split.
      * apply Forall_app. split; [done|]. repeat constructor.
        unfold is_digit, in_range. decide_tests. done.
      * destruct ds as [|d ds]; [done|]. simpl in *. intros ->. exfalso. by apply Hnz.
      * rewrite dec_value_app, Hv. simpl. lia.
      * intros _. destruct ds; simpl in *; [done|]. auto.
Qed.

Lemma dec_value_bound l a :
  Forall (fun d => is_digit d = true) l ->
  a * 10 ^ zlen l <= dec_value a l < (a + 1) * 10 ^ zlen l.
Proof.
  intros Hl. revert a. unfold zlen. induction Hl as [|d l Hd Hl IH]; intros a.
  { simpl. lia. }
  cbn [dec_value length]. unrange. rewrite Nat2Z.inj_succ, Z.pow_succ_r by lia.
  specialize (IH (a * 10 + (d - 48))).
  assert (Hp : 0 < 10 ^ Z.of_nat (length l)) by (apply Z.pow_pos_nonneg; lia).
  set (p := 10 ^ Z.of_nat (length l)) in *. clearbody p.
  assert (0 <= (d - 48) * p) by (apply Z.mul_nonneg_nonneg; lia).
  assert (0 <= (57 - d) * p) by (apply Z.mul_nonneg_nonneg; lia).
  rewrite !Z.mul_add_distr_r, !Z.mul_sub_distr_r in *. lia.
Qed.

(** Canonical digit strings are what rendering produces. *)
Lemma dec_digits_canonical f ds acc :
  canonical_digits ds -> (length ds <= S f)%nat ->
  dec_digits f (dec_value 0 ds) acc = ds ++ acc.
Proof.
  revert f acc; induction ds as [|d ds IH] using rev_ind; intros f acc [Hd Hh] Hlen.
  { done. }
  apply Forall_app in Hd as [Hds Hd]. apply Forall_inv in Hd.
  rewrite length_app in Hlen. simpl in Hlen.
  rewrite dec_value_app. cbn [dec_value]. rewrite <- app_assoc. cbn [app]. unrange.
  destruct ds as [|e ds].
  - cbn [dec_value app]. replace (0 * 10 + (d - 48)) with (d - 48) by lia.
    assert (dec_digits f (d - 48) acc = 48 + (d - 48) mod 10 :: acc) as ->.
    { assert ((d - 48 <? 10) = true) as E by (apply Z.ltb_lt; lia).
      destruct f; simpl; by rewrite E. }
    rewrite Z.mod_small by lia. f_equal. lia.
  - assert (Hc : canonical_digits (e :: ds)).
    { split; [done|]. simpl in *. intros ->. by destruct ds; discriminate Hh. }
    assert (He : 49 <= e <= 57).
    { apply Forall_inv in Hds. unrange. destruct (decide (e = 48)); [|lia].
      simpl in Hh. subst. by destruct ds; discriminate Hh. }
    destruct f as [|f]; [simpl in Hlen; lia|].
    assert (1 <= dec_value 0 (e :: ds)).
    { cbn [dec_value]. apply Forall_inv_tail in Hds as Ht.
      pose proof (dec_value_bound ds (0 * 10 + (e - 48)) Ht).
      assert (0 < 10 ^ zlen ds) by (apply Z.pow_pos_nonneg; unfold zlen; lia). nia. }
    set (v := dec_value 0 (e :: ds)) in *.
    cbn [dec_digits]. assert ((v * 10 + (d - 48) <? 10) = false) as ->
      by (apply Z.ltb_ge; lia).
    replace ((v * 10 + (d - 48)) / 10) with v by (Z.to_euclidean_division_equations; lia).
    replace ((v * 10 + (d - 48)) mod 10) with (d - 48)
      by (Z.to_euclidean_division_equations; lia).
    unfold v. rewrite IH by (auto; lia). simpl. do 3 f_equal. lia.
Qed.

(** The text of an [i64]: a sign, then canonical digits of its magnitude. *)
Lemma i64_to_string_spec n : is_i64 n ->
  exists ds, canonical_digits ds /\ dec_value 0 ds = Z.abs n /\
    i64_to_string n = (if n <? 0 then 45 :: ds else ds).
Proof.
  unfold is_i64, I64_MIN, I64_MAX, i64_to_string. intros Hn.
  assert (0 <= Z.abs n < 10 ^ (Z.of_nat 18 + 1)) as Ha by lia.
  destruct (dec_digits_spec 18 (Z.abs n) [] Ha) as (ds & Hds & Hc & Hv & _).
  rewrite app_nil_r in Hds. exists ds. split_and!; [done..|].
  destruct (n <? 0) eqn:E; unrange.
  - f_equal. by rewrite <- Hds, Z.abs_neq by lia.
  - by rewrite <- Hds, Z.abs_eq by lia.
Qed.

Lemma canonical_digits_cons ds : canonical_digits ds ->
  exists d rest, ds = d :: rest /\ is_digit d = true.
Proof. intros [Hd Hh]. destruct ds; [done|]. apply Forall_inv in Hd. eauto. Qed.

Lemma parse_i64_to_string n : is_i64 n -> parse_i64 (i64_to_string n) = Some n.
Proof.
  intros Hn. destruct (i64_to_string_spec n Hn) as (ds & Hc & Hv & ->).
  destruct (canonical_digits_cons ds Hc) as (d & rest & -> & Hd).
  unfold is_i64 in Hn. unrange. destruct (n <? 0) eqn:E; unrange; unfold parse_i64.
  - rewrite Z.eqb_refl, Hv. replace (- Z.abs n) with n by lia. by decide_tests.
  - rewrite (proj2 (Z.eqb_neq d 45)) by lia. rewrite Hv.
    replace (Z.abs n) with n by lia. by decide_tests.
Qed.
