(* ===== verification/Json.v ===== *)
(** Canonical JSON over the no-float value domain
    ([crates/archivist-protocol/src/json.rs]): the value type, objects kept in
    UTF-16 order with unique names, the bounded recursive-descent parser and
    the RFC 8785 writer.

    The parser's cursor [bytes, pos] is kept as the position and the bytes not
    yet consumed.  Recursion depth is structural: the argument [levels] of
    [value] is [max_depth + 1 - depth], so the source's [depth > max_depth]
    test is the [O] case.  The source's [loop]s carry fuel, one unit per
    remaining byte; [JsonFacts] proves they never exhaust it. *)

From S2P Require Import Prelude Text.

(** * Values *)

Inductive Value : Type :=
| VNull
| VBool (b : bool)
| VInt (n : Z)
| VText (t : list Z)
| VArray (items : list Value)
| VObject (members : list (list Z * Value)).

Abbreviation Object := (list (list Z * Value)).

Inductive ParseError : Type :=
| Malformed (offset : nat) (reason : string)
| NumberOutsideDomain (offset : nat)
| LengthExceeded
| DepthExceeded (offset : nat)
| DuplicateMember.

Definition DEFAULT_MAX_BYTES : Z := 8 * 1024 * 1024.
Definition DEFAULT_MAX_DEPTH : nat := 64.

(** * Objects *)

(** [<[T]>::binary_search_by]: [inl] is [Ok], [inr] is [Err] with the
    insertion point. *)
Fixpoint binary_search_loop {A} (f : A -> comparison) (l : list A)
    (fuel base size : nat) : nat :=
  match fuel with
  | O => base
  | S fuel' =>
      if (1 <? size)%nat then
        let half := (size / 2)%nat in
        let mid := (base + half)%nat in
        let base' := match f <$> l !! mid with
                     | Some Gt | None => base
                     | Some _ => mid
                     end in
        binary_search_loop f l fuel' base' (size - half)
      else base
  end.

Definition binary_search_by {A} (f : A -> comparison) (l : list A) : nat + nat :=
  match l with
  | [] => inr 0%nat
  | _ =>
      let base := binary_search_loop f l (length l) 0 (length l) in
      match f <$> l !! base with
      | Some Eq => inl base
      | Some Lt => inr (S base)
      | _ => inr base
      end
  end.

(** [cmp_utf16]. *)
Definition cmp_utf16 (a b : list Z) : comparison :=
  lex_compare (encode_utf16 a) (encode_utf16 b).

Definition slot (o : Object) (name : list Z) : nat + nat :=
  binary_search_by (fun m => cmp_utf16 m.1 name) o.

(** [Vec::insert]. *)
Definition vec_insert {A} (i : nat) (x : A) (l : list A) : list A :=
  take i l ++ x :: drop i l.

Definition object_insert (o : Object) (name : list Z) (v : Value)
    : result ParseError Object :=
  match slot o name with
  | inl _ => Err DuplicateMember
  | inr i => Ok (vec_insert i (name, v) o)
  end.

Definition object_set (o : Object) (name : list Z) (v : Value) : Object :=
  match slot o name with
  | inl i => alter (fun m => (m.1, v)) i o
  | inr i => vec_insert i (name, v) o
  end.

Definition object_get (o : Object) (name : list Z) : option Value :=
  match slot o name with
  | inl i => snd <$> o !! i
  | inr _ => None
  end.

Definition object_remove (o : Object) (name : list Z) : option Value * Object :=
  match slot o name with
  | inl i => (snd <$> o !! i, delete i o)
  | inr _ => (None, o)
  end.

Definition object_contains (o : Object) (name : list Z) : bool :=
  match object_get o name with Some _ => true | None => false end.

(** * Parser *)

Record Parser := mkParser { pos : nat; rest : list Z }.

Definition malformed (p : Parser) (reason : string) : ParseError :=
  Malformed (pos p) reason.

Definition peek (p : Parser) : option Z := head (rest p).

(** [self.pos += n]. *)
Definition advance (n : nat) (p : Parser) : Parser :=
  mkParser (pos p + n) (drop n (rest p)).

Definition is_ws (b : Z) : bool :=
  (b =? 0x20) || (b =? 0x09) || (b =? 0x0a) || (b =? 0x0d).

(** Length of the longest prefix satisfying a test: how far a
    [while matches!(self.peek(), ..)] loop advances. *)
Fixpoint prefix_len (f : Z -> bool) (l : list Z) : nat :=
  match l with
  | b :: l' => if f b then S (prefix_len f l') else O
  | [] => O
  end.

Definition skip_ws (p : Parser) : Parser := advance (prefix_len is_ws (rest p)) p.

Definition peek_is (p : Parser) (b : Z) : bool :=
  match peek p with Some c => c =? b | None => false end.

Definition expect (b : Z) (p : Parser) : result ParseError Parser :=
  if peek_is p b then Ok (advance 1 p) else Err (malformed p "unexpected byte").

Definition literal (word : list Z) (p : Parser) : result ParseError Parser :=
  if starts_with (rest p) word then Ok (advance (length word) p)
  else Err (malformed p "unrecognized literal").

(** ** Strings *)

Definition hex_digit (c : Z) : option Z :=
  if in_range 48 c 57 then Some (c - 48)
  else if in_range 97 c 102 then Some (c - 97 + 10)
  else if in_range 65 c 70 then Some (c - 65 + 10)
  else None.

Fixpoint hex4_loop (n : nat) (p : Parser) (value : Z) : result ParseError (Z * Parser) :=
  match n with
  | O => Ok (value, p)
  | S n' =>
      match (c ← peek p; hex_digit c) with
      | Some digit => hex4_loop n' (advance 1 p) (value * 16 + digit)
      | None => Err (malformed p "invalid hex digit in \u escape")
      end
  end.

Definition hex4 (p : Parser) : result ParseError (Z * Parser) :=
  if (length (rest p) <? 4)%nat then Err (malformed p "truncated \u escape")
  else hex4_loop 4 p 0.

Definition simple_escape (c : Z) : option Z :=
  if c =? 34 then Some 34
  else if c =? 92 then Some 92
  else if c =? 47 then Some 47
  else if c =? 98 then Some 8
  else if c =? 102 then Some 12
  else if c =? 110 then Some 10
  else if c =? 114 then Some 13
  else if c =? 116 then Some 9
  else None.

(** One escape, the backslash already consumed: the character pushed. *)
Definition escape (p : Parser) : result ParseError (Z * Parser) :=
  match peek p with
  | None => Err (malformed p "unknown escape")
  | Some c =>
      match simple_escape c with
      | Some ch => Ok (ch, advance 1 p)
      | None =>
          if negb (c =? 117) then Err (malformed p "unknown escape")
          else
            let! '(first, p) := hex4 (advance 1 p) in
            if (0xd800 <=? first) && (first <? 0xdc00) then
              if negb (peek_is p 92) then Err (malformed p "lone surrogate")
              else
                let p := advance 1 p in
                if negb (peek_is p 117) then Err (malformed p "lone surrogate")
                else
                  let! '(second, p) := hex4 (advance 1 p) in
                  if negb ((0xdc00 <=? second) && (second <? 0xe000))
                  then Err (malformed p "invalid low surrogate")
                  else
                    let combined :=
                      0x10000 + Z.shiftl (first - 0xd800) 10 + (second - 0xdc00) in
                    let! ch := ok_or (char_from_u32 combined)
                                 (malformed p "invalid code point") in
                    Ok (ch, p)
            else if (0xdc00 <=? first) && (first <? 0xe000)
            then Err (malformed p "lone surrogate")
            else
              let! ch := ok_or (char_from_u32 first) (malformed p "invalid code point") in
              Ok (ch, p)
      end
  end.

Definition is_plain (c : Z) : bool := negb ((c =? 34) || (c =? 92) || (c <? 0x20)).

Fixpoint string_loop (fuel : nat) (p : Parser) (out : list Z)
    : result ParseError (list Z * Parser) :=
  match fuel with
  | O => OutOfFuel
  | S fuel' =>
      let n := prefix_len is_plain (rest p) in
      let chunk := take n (rest p) in
      let p := advance n p in
      let! out :=
        match chunk with
        | [] => Ok out
        | _ => match from_utf8 chunk with
               | Some t => Ok (out ++ t)
               | None => Err (malformed p "string is not valid UTF-8")
               end
        end in
      match peek p with
      | Some c =>
          if c =? 34 then Ok (out, advance 1 p)
          else if c =? 92 then
            let! '(ch, p) := escape (advance 1 p) in
            string_loop fuel' p (out ++ [ch])
          else if c <? 0x20 then Err (malformed p "raw control character in string")
          else Err (malformed p "unterminated string")
      | None => Err (malformed p "unterminated string")
      end
  end.

Definition parse_string (p : Parser) : result ParseError (list Z * Parser) :=
  let! p := expect 34 p in
  string_loop (S (length (rest p))) p [].

(** ** Numbers *)

Definition peek_digit (p : Parser) : bool :=
  match peek p with Some c => is_digit c | None => false end.

Definition number (p0 : Parser) : result ParseError (Value * Parser) :=
  let p := if peek_is p0 45 then advance 1 p0 else p0 in
  let! p :=
    if peek_is p 48 then
      let p := advance 1 p in
      if peek_digit p then Err (malformed p "leading zero in number") else Ok p
    else if peek_digit p then Ok (advance (prefix_len is_digit (rest p)) p)
    else Err (malformed p "invalid number") in
  if peek_is p 46 || peek_is p 101 || peek_is p 69
  then Err (NumberOutsideDomain (pos p0))
  else
    let! text := ok_or (from_utf8 (take (pos p - pos p0) (rest p0)))
                   (malformed p "invalid number") in
    let! n := ok_or (parse_i64 text) (NumberOutsideDomain (pos p0)) in
    Ok (VInt n, p).

(** ** Arrays, objects and values *)

Section Containers.
Variable value_rec : Parser -> result ParseError (Value * Parser).

Fixpoint object_loop (fuel : nat) (p : Parser) (out : Object)
    : result ParseError (Value * Parser) :=
  match fuel with
  | O => OutOfFuel
  | S fuel' =>
      let! '(name, p) := parse_string (skip_ws p) in
      let! p := expect 58 (skip_ws p) in
      let! '(v, p) := value_rec (skip_ws p) in
      let! out := object_insert out name v in
      let p := skip_ws p in
      if peek_is p 44 then object_loop fuel' (advance 1 p) out
      else if peek_is p 125 then Ok (VObject out, advance 1 p)
      else Err (malformed p "expected ',' or '}' in object")
  end.

Definition object (p : Parser) : result ParseError (Value * Parser) :=
  let! p := expect 123 p in
  let p := skip_ws p in
  if peek_is p 125 then Ok (VObject [], advance 1 p)
  else object_loop (S (length (rest p))) p [].

Fixpoint array_loop (fuel : nat) (p : Parser) (out : list Value)
    : result ParseError (Value * Parser) :=
  match fuel with
  | O => OutOfFuel
  | S fuel' =>
      let! '(v, p) := value_rec (skip_ws p) in
      let out := out ++ [v] in
      let p := skip_ws p in
      if peek_is p 44 then array_loop fuel' (advance 1 p) out
      else if peek_is p 93 then Ok (VArray out, advance 1 p)
      else Err (malformed p "expected ',' or ']' in array")
  end.

Definition array (p : Parser) : result ParseError (Value * Parser) :=
  let! p := expect 91 p in
  let p := skip_ws p in
  if peek_is p 93 then Ok (VArray [], advance 1 p)
  else array_loop (S (length (rest p))) p [].
End Containers.

Fixpoint value (levels : nat) (p : Parser) : result ParseError (Value * Parser) :=
  match levels with
  | O => Err (DepthExceeded (pos p))
  | S inner =>
      match peek p with
      | Some c =>
          if c =? 123 then object (value inner) p
          else if c =? 91 then array (value inner) p
          else if c =? 34 then let! '(t, p) := parse_string p in Ok (VText t, p)
          else if c =? 116 then let! p := literal (lit "true") p in Ok (VBool true, p)
          else if c =? 102 then let! p := literal (lit "false") p in Ok (VBool false, p)
          else if c =? 110 then let! p := literal (lit "null") p in Ok (VNull, p)
          else if (c =? 45) || is_digit c then number p
          else Err (malformed p "expected a value")
      | None => Err (malformed p "expected a value")
      end
  end.

Definition parse_with_limits (input : list Z) (max_bytes : Z) (max_depth : nat)
    : result ParseError Value :=
  if max_bytes <? zlen input then Err LengthExceeded
  else
    let! '(v, p) := value (S max_depth) (skip_ws (mkParser 0 input)) in
    let p := skip_ws p in
    match rest p with
    | [] => Ok v
    | _ => Err (malformed p "trailing content after the value")
    end.

Definition parse (input : list Z) : result ParseError Value :=
  parse_with_limits input DEFAULT_MAX_BYTES DEFAULT_MAX_DEPTH.

(** * Canonical writer *)

Definition hex_char (d : Z) : Z := if d <? 10 then 48 + d else 87 + d.

Definition write_char (c : Z) : list Z :=
  if c =? 34 then [92; 34]
  else if c =? 92 then [92; 92]
  else if c =? 8 then [92; 98]
  else if c =? 12 then [92; 102]
  else if c =? 10 then [92; 110]
  else if c =? 13 then [92; 114]
  else if c =? 9 then [92; 116]
  else if c <? 0x20 then
    lit "\u00" ++ [hex_char (Z.land (Z.shiftr c 4) 0xf); hex_char (Z.land c 0xf)]
  else encode_utf8 c.

Definition write_string (t : list Z) : list Z := 34 :: flat_map write_char t ++ [34].

(** The [if i > 0 { out.push(b',') }] of both container writers. *)
Fixpoint comma_separated (l : list (list Z)) : list Z :=
  match l with
  | [] => []
  | [x] => x
  | x :: l' => x ++ 44 :: comma_separated l'
  end.

Fixpoint canonical_bytes (v : Value) : list Z :=
  match v with
  | VNull => lit "null"
  | VBool true => lit "true"
  | VBool false => lit "false"
  | VInt n => i64_to_string n
  | VText t => write_string t
  | VArray items => 91 :: comma_separated (map canonical_bytes items) ++ [93]
  | VObject members =>
      123 :: comma_separated
               (map (fun '(name, v) => write_string name ++ 58 :: canonical_bytes v)
                  members) ++ [125]
  end.
