(* ===== verification/JsonFacts.v ===== *)
(** Theorems on the canonical JSON component: objects refine finite maps, the
    parser is total, accepts only well-formed values within its bounds,
    canonical bytes parse back to the value they were written from, and
    canonicalization is a normal form. *)

From S2P Require Import Prelude Text Json.

(** * Well-formed values *)

Definition name_lt (a b : list Z * Value) : Prop := cmp_utf16 a.1 b.1 = Lt.

Inductive wf_value : Value -> Prop :=
| wf_null : wf_value VNull
| wf_bool b : wf_value (VBool b)
| wf_int n : is_i64 n -> wf_value (VInt n)
| wf_text t : Forall is_scalar t -> wf_value (VText t)
| wf_array items : Forall wf_value items -> wf_value (VArray items)
| wf_object members :
    StronglySorted name_lt members ->
    Forall (fun m => Forall is_scalar m.1) members ->
    Forall (fun m => wf_value m.2) members ->
    wf_value (VObject members).

(** Container levels above the deepest leaf: what [max_depth] bounds. *)
Fixpoint depth (v : Value) : nat :=
  match v with
  | VArray items => foldr (fun v d => Nat.max (S (depth v)) d) 0%nat items
  | VObject members => foldr (fun m d => Nat.max (S (depth m.2)) d) 0%nat members
  | _ => 0%nat
  end.

Definition Value_nested_ind (P : Value -> Prop)
    (Hnull : P VNull) (Hbool : forall b, P (VBool b)) (Hint : forall n, P (VInt n))
    (Htext : forall t, P (VText t))
    (Harray : forall items, Forall P items -> P (VArray items))
    (Hobject : forall members, Forall (fun m => P m.2) members -> P (VObject members)) :
    forall v, P v :=
  fix go v :=
    match v with
    | VNull => Hnull
    | VBool b => Hbool b
    | VInt n => Hint n
    | VText t => Htext t
    | VArray items =>
        Harray items
          ((fix all l : Forall P l :=
              match l with
              | [] => Forall_nil_2 P
              | x :: l' => Forall_cons_2 P x l' (go x) (all l')
              end) items)
    | VObject members =>
        Hobject members
          ((fix all l : Forall (fun m => P m.2) l :=
              match l with
              | [] => Forall_nil_2 _
              | x :: l' => Forall_cons_2 _ x l' (go x.2) (all l')
              end) members)
    end.

(** The finite map an object stands for. *)
Definition object_map (o : Object) : gmap (list Z) Value := list_to_map o.

Definition wf_members (o : Object) : Prop :=
  StronglySorted name_lt o /\ Forall (fun m => Forall is_scalar m.1) o.

(** * Objects *)

Lemma binary_search_loop_spec {A} (f : A -> comparison) (l : list A) m fuel base size :
  (forall i x, l !! i = Some x -> (i < m)%nat <-> f x <> Gt) ->
  (size <= fuel)%nat -> (1 <= size)%nat -> (base + size <= length l)%nat ->
  (base = 0 \/ base < m)%nat -> (m <= base + size)%nat ->
  let b := binary_search_loop f l fuel base size in
  (b < length l)%nat /\ (b = 0 \/ b < m)%nat /\ (m <= S b)%nat.
Proof.
  intros Hm. revert base size; induction fuel as [|fuel IH]; intros base size; [lia|].
  intros Hf H1 Hb Hbase Hsz. cbn [binary_search_loop].
  destruct (Nat.ltb_spec 1 size); [|simpl; lia].
  pose proof (Nat.div_mod_eq size 2). pose proof (Nat.mod_upper_bound size 2).
  set (half := (size / 2)%nat) in *. clearbody half.
  destruct (lookup_lt_is_Some_2 l (base + half)) as [x Hx]; [lia|]. rewrite Hx. simpl.
  pose proof (Hm _ _ Hx) as Hmx.
  assert (f x = Gt /\ ~ (base + half < m)%nat \/ f x <> Gt /\ (base + half < m)%nat)
    as [[-> ?]|[? ?]] by (destruct (f x); naive_solver).
  - apply IH; lia.
  - replace (match f x with Gt => base | _ => (base + half)%nat end) with (base + half)%nat
      by (destruct (f x); congruence).
    apply IH; lia.
Qed.

Lemma binary_search_by_spec {A} (f : A -> comparison) (a b : list A) :
  Forall (fun x => f x = Lt) a ->
  (Forall (fun x => f x = Gt) b -> binary_search_by f (a ++ b) = inr (length a)) /\
  (forall x b', b = x :: b' -> f x = Eq -> Forall (fun x => f x = Gt) b' ->
     binary_search_by f (a ++ b) = inl (length a)).
Proof.
  intros Ha. rewrite Forall_lookup in Ha. split.
  - intros Hb. rewrite Forall_lookup in Hb. unfold binary_search_by.
    destruct (a ++ b) as [|y l] eqn:E; [apply app_nil in E as [-> ->]; done|].
    rewrite <- E. set (l0 := a ++ b) in *.
    assert (Hl1 : (1 <= length l0)%nat) by (rewrite E; simpl; lia).
    assert (Hl2 : (length a <= length l0)%nat) by (unfold l0; rewrite length_app; lia).
    destruct (binary_search_loop_spec f l0 (length a) (length l0) 0 (length l0))
      as (H1 & H2 & H3); try lia.
    { intros i z Hz. unfold l0 in Hz. rewrite lookup_app in Hz. split.
      - intros Hi. destruct (lookup_lt_is_Some_2 a i Hi) as [w Hw].
        rewrite Hw in Hz. injection Hz as <-. by rewrite (Ha _ _ Hw).
      - intros Hz'. destruct (a !! i) eqn:Ea; [by apply lookup_lt_Some in Ea|].
        by rewrite (Hb _ _ Hz) in Hz'. }
    set (base := binary_search_loop _ _ _ _ _) in *. clearbody base.
    destruct (decide (base < length a)%nat).
    + destruct (lookup_lt_is_Some_2 a base) as [w Hw]; [done|].
      unfold l0. rewrite (lookup_app_l_Some _ _ _ _ Hw). simpl. rewrite (Ha _ _ Hw).
      f_equal. lia.
    + destruct (lookup_lt_is_Some_2 l0 base) as [w Hw]; [done|]. rewrite Hw. simpl.
      assert (base = 0 /\ length a = 0)%nat as [-> Hz] by lia.
      unfold l0 in Hw. rewrite lookup_app_r in Hw by lia. rewrite Hz in Hw.
      rewrite (Hb _ _ Hw). by rewrite Hz.
  - intros x b' -> Hx Hb. rewrite Forall_lookup in Hb. unfold binary_search_by.
    set (l0 := a ++ x :: b') in *.
    assert (Hlx : l0 !! length a = Some x) by (unfold l0; by apply list_lookup_middle).
    assert (Hl1 : (length a < length l0)%nat) by (by apply lookup_lt_Some in Hlx).
    destruct l0 as [|y l] eqn:E; [done|]. rewrite <- E in *. clear y l E.
    destruct (binary_search_loop_spec f l0 (S (length a)) (length l0) 0 (length l0))
      as (H1 & H2 & H3); try lia.
    { intros i z Hz. split.
      - intros Hi. destruct (decide (i = length a)) as [->|]; [congruence|].
        destruct (lookup_lt_is_Some_2 a i) as [w Hw]; [lia|].
        unfold l0 in Hz. rewrite (lookup_app_l_Some _ _ _ _ Hw) in Hz.
        injection Hz as <-. by rewrite (Ha _ _ Hw).
      - intros Hz'. destruct (decide (i < S (length a))%nat); [done|].
        unfold l0 in Hz. rewrite lookup_app_r, lookup_cons_ne_0 in Hz by lia.
        by rewrite (Hb _ _ Hz) in Hz'. }
    set (base := binary_search_loop _ _ _ _ _) in *. clearbody base.
    destruct (decide (base = length a)) as [->|]; [by rewrite Hlx; simpl; rewrite Hx|].
    exfalso. lia.
Qed.

Lemma cmp_utf16_antisym a b : cmp_utf16 b a = CompOpp (cmp_utf16 a b).
Proof. apply lex_compare_antisym. Qed.

Lemma cmp_utf16_trans a b c :
  cmp_utf16 a b = Lt -> cmp_utf16 b c = Lt -> cmp_utf16 a c = Lt.
Proof. apply lex_compare_trans. Qed.

Lemma cmp_utf16_eq a b :
  Forall is_scalar a -> Forall is_scalar b -> cmp_utf16 a b = Eq -> a = b.
Proof. intros Ha Hb H%lex_compare_eq. by apply encode_utf16_inj. Qed.

Lemma cmp_utf16_refl a : cmp_utf16 a a = Eq.
Proof. apply lex_compare_refl. Qed.

(** Where [slot] finds [name]: the members below it, it, the members above. *)
Definition slot_found (o : Object) (name : list Z) (i : nat) : Prop :=
  exists a v b, o = a ++ (name, v) :: b /\ length a = i /\
    Forall (fun m => cmp_utf16 m.1 name = Lt) a /\
    Forall (fun m => cmp_utf16 m.1 name = Gt) b.

Definition slot_absent (o : Object) (name : list Z) (i : nat) : Prop :=
  exists a b, o = a ++ b /\ length a = i /\
    Forall (fun m => cmp_utf16 m.1 name = Lt) a /\
    Forall (fun m => cmp_utf16 m.1 name = Gt) b.

Lemma above_name (o : Object) name m :
  Forall (name_lt m) o -> cmp_utf16 m.1 name <> Lt ->
  Forall (fun m' => cmp_utf16 m'.1 name = Gt) o.
Proof.
  intros Ho Hm. eapply Forall_impl; [exact Ho|]. intros m' H. unfold name_lt in H.
  rewrite cmp_utf16_antisym. destruct (cmp_utf16 m.1 name) eqn:E; [| done |].
  - apply lex_compare_eq in E. unfold cmp_utf16 in *. rewrite E in H. by rewrite H.
  - assert (cmp_utf16 name m.1 = Lt) by (by rewrite cmp_utf16_antisym, E).
    by rewrite (cmp_utf16_trans _ _ _ H0 H).
Qed.

Lemma slot_spec o name :
  wf_members o -> Forall is_scalar name ->
  match slot o name with
  | inl i => slot_found o name i
  | inr i => slot_absent o name i
  end.
Proof.
  intros [Hs Hn] Hname.
  assert (Hpart : exists a b, o = a ++ b /\
    Forall (fun m => cmp_utf16 m.1 name = Lt) a /\
    (Forall (fun m => cmp_utf16 m.1 name = Gt) b \/
     exists v b', b = (name, v) :: b' /\ Forall (fun m => cmp_utf16 m.1 name = Gt) b')).
  { induction Hs as [|[n v] o Hs IH Ho].
    { exists [], []. split_and!; auto. }
    apply Forall_cons in Hn as [Hn1 Hn]. destruct (IH Hn) as (a & b & -> & Ha & Hb).
    destruct (cmp_utf16 n name) eqn:E.
    - apply cmp_utf16_eq in E as ->; [|done..].
      exists [], ((name, v) :: a ++ b). split_and!; auto. right. exists v, (a ++ b).
      split; [done|]. eapply above_name; [exact Ho|]. simpl. by rewrite cmp_utf16_refl.
    - exists ((n, v) :: a), b. split_and!; auto.
    - exists [], ((n, v) :: a ++ b). split_and!; auto. left. constructor; [done|].
      eapply above_name; [exact Ho|]. simpl. by rewrite E. }
  destruct Hpart as (a & b & -> & Ha & Hb). unfold slot.
  destruct (binary_search_by_spec (fun m : list Z * Value => cmp_utf16 m.1 name) a b Ha)
    as [Hin Heq].
  destruct Hb as [Hb | (v & b' & -> & Hb)].
  - rewrite Hin by done. by exists a, b.
  - rewrite (Heq _ _ eq_refl (cmp_utf16_refl name) Hb). by exists a, v, b'.
Qed.

Lemma wf_members_middle a b name v :
  wf_members (a ++ b) -> Forall is_scalar name ->
  Forall (fun m => cmp_utf16 m.1 name = Lt) a ->
  Forall (fun m => cmp_utf16 m.1 name = Gt) b ->
  wf_members (a ++ (name, v) :: b).
Proof.
  intros [Hs Hn] Hname Ha Hb.
  apply StronglySorted_app in Hs as (Hab & Hsa & Hsb).
  apply Forall_app in Hn as [Hna Hnb].
  rewrite Forall_forall in Ha, Hb. split.
  - apply StronglySorted_app. split_and!; [|done|].
    + intros x y Hx [->|Hy]%elem_of_cons; [|by apply Hab]. apply (Ha _ Hx).
    + constructor; [done|]. apply Forall_forall. intros y Hy. unfold name_lt. simpl.
      by rewrite cmp_utf16_antisym, (Hb _ Hy).
  - apply Forall_app. split; [done|]. by constructor.
Qed.

Lemma wf_members_drop a b m : wf_members (a ++ m :: b) -> wf_members (a ++ b).
Proof.
  intros [Hs Hn]. apply StronglySorted_app in Hs as (Hab & Hsa & Hsb).
  apply StronglySorted_inv in Hsb as [Hsb _].
  apply Forall_app in Hn as [Hna Hnb]. apply Forall_cons in Hnb as [_ Hnb]. split.
  - apply StronglySorted_app. split_and!; [|done..]. intros x y Hx Hy.
    apply Hab; [done|]. by apply elem_of_cons; right.
  - by apply Forall_app.
Qed.

Lemma wf_members_NoDup o : wf_members o -> NoDup o.*1.
Proof.
  intros [Hs _]. induction Hs as [|m o _ IH Ho]; simpl; constructor; [|done].
  rewrite list_elem_of_fmap. intros (m' & Heq & Hin).
  rewrite Forall_forall in Ho. specialize (Ho _ Hin). unfold name_lt in Ho.
  by rewrite Heq, cmp_utf16_refl in Ho.
Qed.

Lemma object_map_middle a b name v :
  wf_members (a ++ (name, v) :: b) ->
  object_map (a ++ (name, v) :: b) = <[name := v]> (object_map (a ++ b)).
Proof.
  intros Hw. unfold object_map.
  rewrite (list_to_map_proper _ ((name, v) :: a ++ b)).
  - done.
  - by apply wf_members_NoDup.
  - symmetry. apply Permutation_middle.
Qed.

Lemma object_map_absent o name i :
  slot_absent o name i -> object_map o !! name = None.
Proof.
  intros (a & b & -> & _ & Ha & Hb). apply not_elem_of_list_to_map_1.
  rewrite list_elem_of_fmap. intros ([n v] & -> & Hin). simpl in *.
  apply elem_of_app in Hin. rewrite Forall_forall in Ha, Hb.
  destruct Hin as [Hin|Hin]; [specialize (Ha _ Hin)|specialize (Hb _ Hin)];
    simpl in *; by rewrite cmp_utf16_refl in *.
Qed.

Lemma alter_middle {A} (f : A -> A) (a b : list A) x :
  alter f (length a) (a ++ x :: b) = a ++ f x :: b.
Proof. induction a as [|y a IH]; [done|]. simpl. unfold alter in *. simpl. by rewrite IH. Qed.

Lemma object_map_remove a b name v :
  wf_members (a ++ (name, v) :: b) ->
  object_map (a ++ b) = delete name (object_map (a ++ (name, v) :: b)).
Proof.
  intros Hw. rewrite object_map_middle by done. rewrite delete_insert_id; [done|].
  apply not_elem_of_list_to_map_1. pose proof (wf_members_NoDup _ Hw) as Hnd.
  rewrite fmap_app in Hnd. rewrite fmap_app. simpl in Hnd.
  apply NoDup_app in Hnd as (_ & Hd & Hnd). apply NoDup_cons in Hnd as [Hnb _].
  rewrite elem_of_app. intros [Hin|Hin]; [|done].
  apply (Hd _ Hin). apply elem_of_cons. by left.
Qed.

(** Every object operation, at once, against the finite-map specification. *)
Definition object_ops_spec (o : Object) (name : list Z) (v : Value) : Prop :=
  object_get o name = object_map o !! name /\
  object_contains o name = bool_decide (is_Some (object_map o !! name)) /\
  (wf_members (object_set o name v) /\
   object_map (object_set o name v) = <[name := v]> (object_map o)) /\
  (let '(r, o') := object_remove o name in
   r = object_map o !! name /\ wf_members o' /\
   object_map o' = delete name (object_map o)) /\
  match object_insert o name v with
  | Ok o' => object_map o !! name = None /\ wf_members o' /\
             object_map o' = <[name := v]> (object_map o)
  | Err e => e = DuplicateMember /\ is_Some (object_map o !! name)
  | OutOfFuel => False
  end.

Lemma object_ops_refine o name v :
  wf_members o -> Forall is_scalar name -> object_ops_spec o name v.
Proof.
  intros Hw Hname. pose proof (slot_spec o name Hw Hname) as Hslot.
  unfold object_ops_spec, object_contains, object_get, object_set, object_remove,
    object_insert.
  destruct (slot o name) as [i|i].
  - destruct Hslot as (a & w & b & -> & <- & Ha & Hb).
    assert (Hl : object_map (a ++ (name, w) :: b) !! name = Some w)
      by (rewrite object_map_middle by done; apply lookup_insert_eq).
    pose proof (wf_members_drop _ _ _ Hw) as Hw'.
    pose proof (wf_members_middle a b name v Hw' Hname Ha Hb) as Hwv.
    rewrite list_lookup_middle by done. rewrite alter_middle, delete_middle. simpl.
    rewrite Hl. split_and!; try done.
    + rewrite !object_map_middle by done. by rewrite insert_insert_eq.
    + by apply object_map_remove.
  - pose proof (object_map_absent _ _ _ Hslot) as Hl.
    destruct Hslot as (a & b & -> & <- & Ha & Hb).
    pose proof (wf_members_middle a b name v Hw Hname Ha Hb) as Hwv.
    unfold vec_insert. rewrite take_app_length, drop_app_length. rewrite Hl.
    split_and!; try done.
    + by rewrite object_map_middle.
    + by rewrite delete_id.
    + by rewrite object_map_middle.
Qed.

(** * What the parser accepts

    [left p] is the number of bytes not yet consumed.  Each lemma states, for
    one parser function, that a success leaves a well-formed result whose
    canonical text is no longer than the bytes consumed for it. *)

Definition left (p : Parser) : nat := length (rest p).

Lemma left_advance n p : left (advance n p) = (left p - n)%nat.
Proof. unfold left, advance. simpl. by rewrite length_drop. Qed.

Lemma prefix_len_le f l : (prefix_len f l <= length l)%nat.
Proof. induction l as [|b l IH]; simpl; [lia|]. destruct (f b); lia. Qed.

Lemma prefix_len_take f l : Forall (fun b => f b = true) (take (prefix_len f l) l).
Proof.
  induction l as [|b l IH]; simpl; [constructor|]. destruct (f b) eqn:E; simpl; auto.
Qed.

Lemma prefix_len_app f l r :
  Forall (fun b => f b = true) l ->
  (match r with b :: _ => f b = false | [] => True end) ->
  prefix_len f (l ++ r) = length l.
Proof.
  induction 1 as [|b l Hb _ IH]; simpl; intros Hr.
  - destruct r; simpl; [done|]. by rewrite Hr.
  - rewrite Hb. by f_equal; apply IH.
Qed.

Lemma left_skip_ws p : (left (skip_ws p) <= left p)%nat.
Proof. unfold skip_ws. rewrite left_advance. lia. Qed.

Lemma peek_is_true p b : peek_is p b = true -> exists r, rest p = b :: r.
Proof.
  unfold peek_is, peek. destruct (rest p) as [|c r]; simpl; [done|].
  intros ->%Z.eqb_eq. eauto.
Qed.

Lemma left_peek_is p b : peek_is p b = true -> left p = S (left (advance 1 p)).
Proof.
  intros [r Hr]%peek_is_true. unfold left, advance. simpl. by rewrite Hr.
Qed.

Lemma left_peek p c : peek p = Some c -> left p = S (left (advance 1 p)).
Proof. unfold peek, left, advance. simpl. by destruct (rest p). Qed.

Lemma expect_ok b p p' : expect b p = Ok p' -> left p = S (left p').
Proof.
  unfold expect. destruct (peek_is p b) eqn:E; [|done]. intros [= <-].
  by apply left_peek_is in E.
Qed.

Lemma literal_ok w p p' : literal w p = Ok p' -> left p = (length w + left p')%nat.
Proof.
  unfold literal. destruct (starts_with _ _) eqn:E; [|done]. intros [= <-].
  apply starts_with_spec in E as [r Hr]. unfold left, advance. simpl.
  rewrite Hr, drop_app_length, length_app. done.
Qed.

Lemma hex_digit_range c d : hex_digit c = Some d -> 0 <= d < 16.
Proof. unfold hex_digit. repeat case_match; unrange; intros [= <-]; lia. Qed.

Lemma hex4_loop_ok n p v v' p' :
  hex4_loop n p v = Ok (v', p') -> 0 <= v ->
  left p = (n + left p')%nat /\ 0 <= v' < (v + 1) * 16 ^ Z.of_nat n.
Proof.
  revert p v; induction n as [|n IH]; intros p v; cbn [hex4_loop].
  { intros [= <- <-]. simpl. lia. }
  unfold peek. destruct (rest p) as [|c r] eqn:Hr; [done|]. simpl.
  destruct (hex_digit c) as [d|] eqn:Hd; [|done]. intros H Hv.
  apply hex_digit_range in Hd. apply IH in H as [Hl Hb]; [|lia].
  assert (left p = S (left (advance 1 p)))
    by (unfold left, advance; simpl; by rewrite Hr).
  split; [lia|]. rewrite Nat2Z.inj_succ, Z.pow_succ_r by lia.
  assert (0 < 16 ^ Z.of_nat n) by (apply Z.pow_pos_nonneg; lia). nia.
Qed.

Lemma hex4_ok p v p' : hex4 p = Ok (v, p') -> left p = (4 + left p')%nat /\ 0 <= v < 65536.
Proof.
  unfold hex4. destruct (_ <? _)%nat; [done|]. intros H.
  apply hex4_loop_ok in H as [Hl Hv]; [|lia]. simpl in Hv. lia.
Qed.

Lemma write_char_length c : (length (write_char c) <= 6)%nat.
Proof. unfold write_char, encode_utf8. repeat case_match; simpl; lia. Qed.

Lemma simple_escape_ok c d : simple_escape c = Some d ->
  is_scalar d /\ (length (write_char d) <= 2)%nat.
Proof.
  unfold simple_escape, is_scalar. repeat case_match; intros [= <-]; (split; [lia|]);
    unfold write_char, encode_utf8; simpl; lia.
Qed.

Lemma escape_ok p c p' : escape p = Ok (c, p') ->
  is_scalar c /\ (length (write_char c) + left p' <= S (left p))%nat /\
  (left p' < left p)%nat.
Proof.
  unfold escape. intros H. destruct (peek p) as [b|] eqn:Hp; [|done].
  apply left_peek in Hp as Hl.
  destruct (simple_escape b) as [d|] eqn:Hs.
  { injection H as <- <-. apply simple_escape_ok in Hs as [? ?]. split; [done|lia]. }
  pose proof (write_char_length c).
  case_if H. apply rbind_Ok in H as ([first p1] & H4 & H). apply hex4_ok in H4 as [Hl4 Hf].
  case_if H.
  - do 2 case_if H.
    match goal with H : negb (peek_is p1 92) = false |- _ =>
      apply negb_false_iff, left_peek_is in H end.
    match goal with H : negb (peek_is _ 117) = false |- _ =>
      apply negb_false_iff, left_peek_is in H end.
    apply rbind_Ok in H as ([second p2] & H4' & H). apply hex4_ok in H4' as [Hl4' _].
    case_if H. apply rbind_Ok in H as (ch & Hch & H).
    injection H as <- <-. destruct (char_from_u32 _) eqn:Hc; [|done].
    injection Hch as <-. apply char_from_u32_scalar in Hc as [-> Hc]. split; [done|lia].
  - case_if H. apply rbind_Ok in H as (ch & Hch & H).
    injection H as <- <-. destruct (char_from_u32 _) eqn:Hc; [|done].
    injection Hch as <-. apply char_from_u32_scalar in Hc as [-> Hc]. split; [done|lia].
Qed.

Lemma hex4_fuel p : hex4 p <> OutOfFuel.
Proof.
  unfold hex4. destruct (_ <? _)%nat; [done|]. generalize 4%nat as k, 0 as v.
  intros k. revert p. induction k as [|k IH]; intros p v; cbn [hex4_loop]; [done|].
  destruct (_ ≫= _); [apply IH|done].
Qed.

Lemma ok_or_fuel {E A} (o : option A) (e : E) : ok_or o e <> OutOfFuel.
Proof. by destruct o. Qed.

Lemma escape_fuel p : escape p <> OutOfFuel.
Proof.
  unfold escape. intros H. destruct (peek _); [|done]. destruct (simple_escape z); [done|].
  case_if H. apply rbind_OutOfFuel in H as [H|([f q] & _ & H)]; [by apply hex4_fuel in H|].
  case_if H.
  - do 2 case_if H.
    apply rbind_OutOfFuel in H as [H|([f' q'] & _ & H)]; [by apply hex4_fuel in H|].
    case_if H. apply rbind_OutOfFuel in H as [H|(c & _ & H)]; [by apply ok_or_fuel in H|done].
  - case_if H. apply rbind_OutOfFuel in H as [H|(c & _ & H)]; [by apply ok_or_fuel in H|done].
Qed.

Lemma write_char_plain c : is_plain c = true -> write_char c = encode_utf8 c.
Proof.
  unfold is_plain, write_char. intros H. apply negb_true_iff in H.
  apply orb_false_iff in H as [H H3]. apply orb_false_iff in H as [H1 H2].
  unrange. by decide_tests.
Qed.

Lemma write_plain_text t :
  Forall (fun b => is_plain b = true) (as_bytes t) -> Forall is_scalar t ->
  flat_map write_char t = as_bytes t.
Proof.
  unfold as_bytes. induction t as [|c t IH]; [done|]. cbn [flat_map].
  rewrite Forall_app. intros [Hc Ht] Hs. apply Forall_cons in Hs as [Hsc Hst].
  rewrite IH by done. f_equal. apply write_char_plain. unfold is_scalar in Hsc.
  destruct (decide (c <= 0x7F)).
  - rewrite encode_utf8_1 in Hc by lia. by apply Forall_inv in Hc.
  - unfold is_plain. by decide_tests.
Qed.

(** A chunk of plain bytes that decodes is its own canonical text. *)
Lemma plain_chunk_text l t :
  Forall (fun b => is_plain b = true) l -> from_utf8 l = Some t ->
  flat_map write_char t = l /\ Forall is_scalar t.
Proof.
  intros Hl H. apply from_utf8_sound in H as [<- Ht]. by rewrite write_plain_text.
Qed.

Lemma string_loop_ok fuel p out t p' :
  string_loop fuel p out = Ok (t, p') ->
  exists s, t = out ++ s /\ Forall is_scalar s /\
    (S (length (flat_map write_char s)) + left p' <= left p)%nat.
Proof.
  revert p out; induction fuel as [|fuel IH]; intros p out; [done|].
  cbn [string_loop]. set (n := prefix_len is_plain (rest p)). intros H.
  apply rbind_Ok in H as (out1 & Hout & H).
  assert (exists s0, out1 = out ++ s0 /\ Forall is_scalar s0 /\
    (length (flat_map write_char s0) + left (advance n p) <= left p)%nat)
    as (s0 & -> & Hs0 & Hl0).
  { destruct (take n (rest p)) as [|b ch] eqn:Hch.
    - injection Hout as <-. exists []. rewrite app_nil_r, left_advance.
      split_and!; [done..|simpl; lia].
    - destruct (from_utf8 (b :: ch)) as [s0|] eqn:Hu; [|done]. injection Hout as <-.
      exists s0. destruct (plain_chunk_text (b :: ch) s0) as [Hw Hs]; [|done|].
      + rewrite <- Hch. apply prefix_len_take.
      + rewrite Hw, left_advance. split_and!; [done..|].
        rewrite <- Hch, length_take. unfold left. lia. }
  destruct (peek (advance n p)) as [c|] eqn:Hp; [|done].
  apply left_peek in Hp as Hl1.
  destruct (c =? 34).
  { injection H as <- <-. exists s0. split_and!; [done..|lia]. }
  destruct (c =? 92); [|by destruct (c <? 0x20)].
  apply rbind_Ok in H as ([ch p2] & Hesc & H). apply escape_ok in Hesc as (Hsc & Hl2 & _).
  apply IH in H as (s & -> & Hs & Hl3). exists (s0 ++ ch :: s).
  rewrite <- !app_assoc. split_and!; [done|by apply Forall_app; auto|].
  rewrite flat_map_app, length_app. cbn [flat_map]. rewrite length_app. lia.
Qed.

Lemma string_loop_fuel fuel p out :
  (left p < fuel)%nat -> string_loop fuel p out <> OutOfFuel.
Proof.
  revert p out; induction fuel as [|fuel IH]; intros p out Hf; [lia|].
  cbn [string_loop]. set (n := prefix_len is_plain (rest p)). intros H.
  apply rbind_OutOfFuel in H as [H|(out1 & _ & H)].
  { destruct (take n (rest p)); [done|]. by destruct (from_utf8 _). }
  destruct (peek (advance n p)) as [c|] eqn:Hp; [|done].
  destruct (c =? 34); [done|]. destruct (c =? 92); [|by destruct (c <? 0x20)].
  apply rbind_OutOfFuel in H as [H|([ch p2] & Hesc & H)].
  { by apply escape_fuel in H. }
  apply escape_ok in Hesc as (_ & _ & Hl). rewrite !left_advance in Hl.
  apply IH in H; [done|]. lia.
Qed.

Lemma parse_string_ok p t p' : parse_string p = Ok (t, p') ->
  Forall is_scalar t /\ (length (write_string t) + left p' <= left p)%nat.
Proof.
  unfold parse_string. intros H. apply rbind_Ok in H as (p1 & He & H).
  apply expect_ok in He. apply string_loop_ok in H as (s & -> & Hs & Hl).
  split; [done|]. unfold write_string. simpl. rewrite length_app. simpl. lia.
Qed.

Lemma parse_string_fuel p : parse_string p <> OutOfFuel.
Proof.
  unfold parse_string. intros H. apply rbind_OutOfFuel in H as [H|(p1 & _ & H)].
  - unfold expect in H. by destruct (peek_is _ _).
  - apply string_loop_fuel in H; [done|]. unfold left. lia.
Qed.

Lemma peek_digit_true p : peek_digit p = true ->
  exists c r, rest p = c :: r /\ is_digit c = true.
Proof. unfold peek_digit, peek. destruct (rest p); simpl; [done|]. eauto. Qed.

(** The integer part a number scan consumes. *)
Definition scan_digits (p : Parser) : result ParseError Parser :=
  if peek_is p 48 then
    let p := advance 1 p in
    if peek_digit p then Err (malformed p "leading zero in number") else Ok p
  else if peek_digit p then Ok (advance (prefix_len is_digit (rest p)) p)
  else Err (malformed p "invalid number").

Lemma scan_digits_ok p p' : scan_digits p = Ok p' ->
  exists ds, rest p = ds ++ rest p' /\ canonical_digits ds /\
             pos p' = (pos p + length ds)%nat.
Proof.
  unfold scan_digits. intros H. destruct (peek_is p 48) eqn:E0.
  - apply peek_is_true in E0 as [r Hr]. case_if H. injection H as <-.
    exists [48]. simpl. rewrite Hr. split_and!; [done| |done].
    split; [by repeat constructor|done].
  - case_if H. injection H as <-. exists (take (prefix_len is_digit (rest p)) (rest p)).
    split_and!.
    + simpl. by rewrite take_drop.
    + split; [apply prefix_len_take|].
      apply peek_digit_true in Heqb as (c & r & Hr & Hc). rewrite Hr. simpl. rewrite Hc.
      intros ->. unfold peek_is, peek in E0. by rewrite Hr in E0.
    + simpl. rewrite length_take. pose proof (prefix_len_le is_digit (rest p)). lia.
Qed.

Lemma canonical_digits_length ds :
  canonical_digits ds -> dec_value 0 ds <= 2 ^ 63 -> (length ds <= 19)%nat.
Proof.
  intros [Hd Hh] Hv. destruct ds as [|d ds]; [done|].
  apply Forall_cons in Hd as [Hd Hds]. destruct (decide (d = 48)) as [->|Hne].
  { rewrite Hh by done. simpl. lia. }
  cbn [dec_value] in Hv. pose proof (dec_value_bound ds (0 * 10 + (d - 48)) Hds) as [Hb _].
  unrange. destruct (decide (length ds <= 18)%nat) as [|Hlen]; [cbn; lia|].
  assert (Hd' : 1 <= 0 * 10 + (d - 48)) by lia.
  assert (10 ^ 19 <= 10 ^ zlen ds) by (apply Z.pow_le_mono_r; [lia|unfold zlen; lia]).
  assert (1 * 10 ^ zlen ds <= (0 * 10 + (d - 48)) * 10 ^ zlen ds)
    by (apply Z.mul_le_mono_nonneg_r; [apply Z.pow_nonneg|]; lia).
  lia.
Qed.

Lemma canonical_digits_ascii ds : canonical_digits ds ->
  Forall (fun c => 0 <= c <= 0x7F) ds.
Proof. intros [Hd _]. eapply Forall_impl; [exact Hd|]. intros d ?. unrange. lia. Qed.

Lemma from_utf8_ascii l : Forall (fun c => 0 <= c <= 0x7F) l -> from_utf8 l = Some l.
Proof.
  intros Hl. rewrite <- (as_bytes_ascii l Hl) at 1. apply from_utf8_as_bytes.
  eapply Forall_impl; [exact Hl|]. intros c Hc. cbv beta in Hc. unfold is_scalar. lia.
Qed.

Lemma parse_i64_digits ds n : canonical_digits ds -> parse_i64 ds = Some n ->
  is_i64 n /\ i64_to_string n = ds.
Proof.
  intros Hc H. destruct (canonical_digits_cons ds Hc) as (d & r & -> & Hd).
  unrange. unfold parse_i64 in H. rewrite (proj2 (Z.eqb_neq d 45)) in H by lia.
  case_if H. assert (n = dec_value 0 (d :: r)) as -> by congruence.
  unrange. split; [unfold is_i64; lia|].
  set (v := dec_value 0 (d :: r)) in *.
  assert (0 <= v).
  { destruct Hc as [Hc _]. pose proof (dec_value_bound _ 0 Hc). lia. }
  unfold i64_to_string. rewrite (proj2 (Z.ltb_ge v 0)) by lia.
  unfold v. rewrite dec_digits_canonical; [by rewrite app_nil_r|done|].
  apply canonical_digits_length; [done|]. unfold v, I64_MAX in *. lia.
Qed.

Lemma parse_i64_minus ds n : canonical_digits ds -> parse_i64 (45 :: ds) = Some n ->
  is_i64 n /\ (length (i64_to_string n) <= S (length ds))%nat.
Proof.
  intros Hc H. unfold parse_i64 in H. rewrite Z.eqb_refl in H.
  case_if H. injection H as <-. unrange. split; [unfold is_i64; lia|].
  set (v := dec_value 0 ds) in *.
  assert (0 <= v).
  { destruct Hc as [Hc _]. pose proof (dec_value_bound _ 0 Hc). lia. }
  assert (Hdec : dec_digits 18 v [] = ds).
  { unfold v. rewrite dec_digits_canonical; [by rewrite app_nil_r|done|].
    apply canonical_digits_length; [done|]. unfold v, I64_MIN in *. lia. }
  unfold i64_to_string. destruct (- v <? 0) eqn:E; unrange.
  - by rewrite Z.opp_involutive, Hdec.
  - replace (- v) with v by lia. rewrite Hdec. lia.
Qed.

Lemma number_ok p v p' : number p = Ok (v, p') ->
  exists n, v = VInt n /\ is_i64 n /\ (length (i64_to_string n) + left p' <= left p)%nat.
Proof.
  unfold number. intros H. apply rbind_Ok in H as (p2 & Hscan & H).
  case_if H. apply rbind_Ok in H as (t & Ht & H). apply rbind_Ok in H as (n & Hn & H).
  injection H as <- <-. exists n. split; [done|].
  destruct (peek_is p 45) eqn:E45.
  - apply peek_is_true in E45 as [r Hr]. apply scan_digits_ok in Hscan as (ds & Hrest & Hc & Hpos).
    simpl in Hrest, Hpos. rewrite Hr in Hrest. simpl in Hrest. rewrite drop_0 in Hrest. subst r.
    replace (pos p2 - pos p)%nat with (S (length ds)) in Ht by lia. rewrite Hr in Ht.
    cbn [take] in Ht. rewrite take_app_length in Ht.
    rewrite from_utf8_ascii in Ht
      by (constructor; [lia|]; by apply canonical_digits_ascii).
    injection Ht as <-. destruct (parse_i64 _) eqn:Hp; [|done]. injection Hn as ->.
    apply parse_i64_minus in Hp as [Hi Hl]; [|done]. split; [done|].
    unfold left. rewrite Hr. simpl. rewrite length_app. lia.
  - apply scan_digits_ok in Hscan as (ds & Hrest & Hc & Hpos).
    replace (pos p2 - pos p)%nat with (length ds) in Ht by lia. rewrite Hrest in Ht.
    rewrite take_app_length, from_utf8_ascii in Ht by (by apply canonical_digits_ascii).
    injection Ht as <-. destruct (parse_i64 _) eqn:Hp; [|done]. injection Hn as ->.
    apply parse_i64_digits in Hp as [Hi Hl]; [|done]. split; [done|].
    unfold left. rewrite Hrest, Hl, length_app. lia.
Qed.

Lemma number_fuel p : number p <> OutOfFuel.
Proof.
  unfold number. intros H. apply rbind_OutOfFuel in H as [H|(p2 & _ & H)].
  - change (scan_digits (if peek_is p 45 then advance 1 p else p) = OutOfFuel) in H.
    unfold scan_digits in H. destruct (peek_is _ 48); [|by destruct (peek_digit _)].
    by destruct (peek_digit _).
  - case_if H. apply rbind_OutOfFuel in H as [H|(t & _ & H)]; [by apply ok_or_fuel in H|].
    apply rbind_OutOfFuel in H as [H|(n & _ & H)]; [by apply ok_or_fuel in H|done].
Qed.

(** ** Containers *)

(** One more than the length of a comma-separated list, however ordered. *)
Definition sum_lengths (l : list (list Z)) : nat := sum_list (map (fun x => S (length x)) l).

Lemma length_comma_separated l :
  (length (comma_separated l) <= sum_lengths l - 1)%nat.
Proof.
  induction l as [|x [|y l] IH]; [done| |].
  - unfold sum_lengths. simpl. lia.
  - change (comma_separated (x :: y :: l)) with (x ++ 44 :: comma_separated (y :: l)).
    rewrite length_app. cbn [length]. unfold sum_lengths in *. cbn [map sum_list foldr] in *.
    simpl in *. lia.
Qed.

Definition member_bytes (m : list Z * Value) : list Z :=
  write_string m.1 ++ 58 :: canonical_bytes m.2.

Lemma canonical_bytes_object members :
  canonical_bytes (VObject members)
  = 123 :: comma_separated (map member_bytes members) ++ [125].
Proof.
  cbn [canonical_bytes]. do 3 f_equal. apply map_ext. by intros [? ?].
Qed.

Lemma sum_lengths_app a b : sum_lengths (a ++ b) = (sum_lengths a + sum_lengths b)%nat.
Proof. unfold sum_lengths. by rewrite map_app, sum_list_with_app. Qed.

Lemma object_insert_ok o name v o' :
  wf_members o -> Forall is_scalar name -> object_insert o name v = Ok o' ->
  wf_members o' /\ exists a b, o = a ++ b /\ o' = a ++ (name, v) :: b.
Proof.
  intros Hw Hn H. pose proof (slot_spec o name Hw Hn) as Hs.
  unfold object_insert in H. destruct (slot o name) as [i|i]; [done|]. injection H as <-.
  destruct Hs as (a & b & -> & <- & Ha & Hb).
  unfold vec_insert. rewrite take_app_length, drop_app_length.
  split; [by apply wf_members_middle|eauto].
Qed.

Section ContainerFacts.
Variable rec : Parser -> result ParseError (Value * Parser).
Variable n : nat.
Hypothesis rec_ok : forall p v p', rec p = Ok (v, p') ->
  wf_value v /\ (depth v < n)%nat /\ (length (canonical_bytes v) + left p' <= left p)%nat.
Hypothesis rec_fuel : forall p, rec p <> OutOfFuel.

Lemma array_loop_ok fuel p out v p' :
  array_loop rec fuel p out = Ok (v, p') ->
  exists items, v = VArray (out ++ items) /\ items <> [] /\
    Forall wf_value items /\ Forall (fun v => depth v < n)%nat items /\
    (sum_lengths (map canonical_bytes items) + left p' <= left p)%nat.
Proof.
  revert p out; induction fuel as [|fuel IH]; intros p out; [done|].
  cbn [array_loop]. intros H. apply rbind_Ok in H as ([w p1] & Hw & H).
  apply rec_ok in Hw as (Hwf & Hd & Hl). pose proof (left_skip_ws p).
  pose proof (left_skip_ws p1). destruct (peek_is (skip_ws p1) 44) eqn:E44.
  - apply left_peek_is in E44. apply IH in H as (items & -> & _ & Hi & Hdi & Hli).
    exists (w :: items). rewrite <- app_assoc. simpl.
    split_and!; [done|done|by constructor|by constructor|].
    unfold sum_lengths in *. simpl. lia.
  - case_if H. injection H as <- <-. apply left_peek_is in Heqb. exists [w].
    split_and!; [done|done|by constructor|by constructor|].
    unfold sum_lengths. simpl. lia.
Qed.

Lemma array_loop_fuel fuel p out :
  (left p < fuel)%nat -> array_loop rec fuel p out <> OutOfFuel.
Proof.
  revert p out; induction fuel as [|fuel IH]; intros p out Hf; [lia|].
  cbn [array_loop]. intros H.
  apply rbind_OutOfFuel in H as [H|([w p1] & Hw & H)]; [by apply rec_fuel in H|].
  apply rec_ok in Hw as (_ & _ & Hl). pose proof (left_skip_ws p).
  pose proof (left_skip_ws p1). destruct (peek_is (skip_ws p1) 44) eqn:E44.
  - apply left_peek_is in E44. apply IH in H; [done|]. lia.
  - by destruct (peek_is _ 93).
Qed.

Lemma array_ok p v p' : array rec p = Ok (v, p') ->
  wf_value v /\ (depth v < S n)%nat /\ (length (canonical_bytes v) + left p' <= left p)%nat.
Proof.
  unfold array. intros H. apply rbind_Ok in H as (p1 & He & H). apply expect_ok in He.
  pose proof (left_skip_ws p1). destruct (peek_is (skip_ws p1) 93) eqn:E.
  - injection H as <- <-. apply left_peek_is in E. split_and!.
    + by repeat constructor.
    + simpl. lia.
    + simpl. lia.
  - apply array_loop_ok in H as (items & -> & Hne & Hwf & Hd & Hl).
    split_and!; [by constructor| |].
    + simpl. clear -Hd. induction Hd; simpl; lia.
    + cbn [canonical_bytes]. cbn [length app]. rewrite length_app.
      pose proof (length_comma_separated (map canonical_bytes items)).
      destruct items as [|w items]; [done|]. unfold sum_lengths in *. simpl in *. lia.
Qed.

Lemma array_fuel p : array rec p <> OutOfFuel.
Proof.
  unfold array. intros H. apply rbind_OutOfFuel in H as [H|(p1 & _ & H)].
  - unfold expect in H. by destruct (peek_is _ _).
  - destruct (peek_is (skip_ws p1) 93); [done|].
    apply array_loop_fuel in H; [done|]. unfold left. lia.
Qed.

Definition members_ok (o : Object) : Prop :=
  wf_members o /\ Forall (fun m => wf_value m.2) o /\
  Forall (fun m => depth m.2 < n)%nat o.

Lemma object_loop_ok fuel p out v p' :
  members_ok out -> object_loop rec fuel p out = Ok (v, p') ->
  exists o, v = VObject o /\ members_ok o /\ o <> [] /\
    (sum_lengths (map member_bytes o) + left p'
     <= sum_lengths (map member_bytes out) + left p)%nat.
Proof.
  revert p out; induction fuel as [|fuel IH]; intros p out Hout; [done|].
  cbn [object_loop]. intros H. apply rbind_Ok in H as ([name p1] & Hs & H).
  apply parse_string_ok in Hs as [Hname Hl1].
  apply rbind_Ok in H as (p2 & He & H). apply expect_ok in He.
  apply rbind_Ok in H as ([w p3] & Hw & H). apply rec_ok in Hw as (Hwf & Hd & Hl3).
  apply rbind_Ok in H as (o' & Hins & H). destruct Hout as (Ho1 & Ho2 & Ho3).
  apply object_insert_ok in Hins as (Hwo & a & b & -> & ->); [|done..].
  assert (Hok : members_ok (a ++ (name, w) :: b)).
  { apply Forall_app in Ho2 as [? ?]. apply Forall_app in Ho3 as [? ?].
    split_and!; [done|apply Forall_app; auto..]. }
  assert (Hsum : sum_lengths (map member_bytes (a ++ (name, w) :: b))
    = (S (length (member_bytes (name, w))) + sum_lengths (map member_bytes (a ++ b)))%nat).
  { rewrite !map_app, !sum_lengths_app. cbn [map]. unfold sum_lengths. simpl. lia. }
  assert (Hm : length (member_bytes (name, w))
    = (length (write_string name) + S (length (canonical_bytes w)))%nat).
  { unfold member_bytes. rewrite length_app. done. }
  pose proof (left_skip_ws p). pose proof (left_skip_ws p1). pose proof (left_skip_ws p2).
  pose proof (left_skip_ws p3). destruct (peek_is (skip_ws p3) 44) eqn:E44.
  - apply left_peek_is in E44. apply IH in H as (o & -> & Ho & Hne & Hl); [|done].
    exists o. split_and!; [done..|]. lia.
  - destruct (peek_is (skip_ws p3) 125) eqn:E125; [|done].
    injection H as <- <-. apply left_peek_is in E125.
    exists (a ++ (name, w) :: b). split_and!; [done|done|by destruct a|]. lia.
Qed.

Lemma object_loop_fuel fuel p out :
  (left p < fuel)%nat -> object_loop rec fuel p out <> OutOfFuel.
Proof.
  revert p out; induction fuel as [|fuel IH]; intros p out Hf; [lia|].
  cbn [object_loop]. intros H.
  apply rbind_OutOfFuel in H as [H|([name p1] & Hs & H)]; [by apply parse_string_fuel in H|].
  apply parse_string_ok in Hs as [_ Hl1].
  apply rbind_OutOfFuel in H as [H|(p2 & He & H)].
  { unfold expect in H. by destruct (peek_is _ _). }
  apply expect_ok in He.
  apply rbind_OutOfFuel in H as [H|([w p3] & Hw & H)]; [by apply rec_fuel in H|].
  apply rec_ok in Hw as (_ & _ & Hl3).
  apply rbind_OutOfFuel in H as [H|(o' & _ & H)].
  { unfold object_insert in H. by destruct (slot _ _). }
  pose proof (left_skip_ws p). pose proof (left_skip_ws p1). pose proof (left_skip_ws p2).
  pose proof (left_skip_ws p3). destruct (peek_is (skip_ws p3) 44) eqn:E44.
  - apply left_peek_is in E44. apply IH in H; [done|]. lia.
  - by destruct (peek_is _ 125).
Qed.

Lemma object_ok p v p' : object rec p = Ok (v, p') ->
  wf_value v /\ (depth v < S n)%nat /\ (length (canonical_bytes v) + left p' <= left p)%nat.
Proof.
  unfold object. intros H. apply rbind_Ok in H as (p1 & He & H). apply expect_ok in He.
  pose proof (left_skip_ws p1). destruct (peek_is (skip_ws p1) 125) eqn:E.
  - injection H as <- <-. apply left_peek_is in E. split_and!.
    + by repeat constructor.
    + simpl. lia.
    + simpl. lia.
  - apply object_loop_ok in H as (o & -> & ((Hs & Hn) & Hwf & Hd) & Hne & Hl);
      [|split_and!; try constructor; constructor].
    split_and!; [by constructor| |].
    + simpl. clear -Hd. induction Hd; simpl; lia.
    + rewrite canonical_bytes_object. cbn [length app]. rewrite length_app.
      pose proof (length_comma_separated (map member_bytes o)).
      destruct o as [|w o]; [done|]. unfold sum_lengths in *. simpl in *. lia.
Qed.

Lemma object_fuel p : object rec p <> OutOfFuel.
Proof.
  unfold object. intros H. apply rbind_OutOfFuel in H as [H|(p1 & _ & H)].
  - unfold expect in H. by destruct (peek_is _ _).
  - destruct (peek_is (skip_ws p1) 125); [done|].
    apply object_loop_fuel in H; [done|]. unfold left. lia.
Qed.
End ContainerFacts.

Lemma value_sound levels :
  (forall p v p', value levels p = Ok (v, p') ->
     wf_value v /\ (depth v < levels)%nat /\
     (length (canonical_bytes v) + left p' <= left p)%nat) /\
  (forall p, value levels p <> OutOfFuel).
Proof.
  induction levels as [|n [IHok IHfuel]]; [done|]. split.
  - intros p v p'. cbn [value]. intros H. destruct (peek p) as [c|]; [|done].
    case_if H; [by apply (object_ok (value n) n) in H|].
    case_if H; [by apply (array_ok (value n) n) in H|].
    case_if H.
    { apply rbind_Ok in H as ([t p1] & Hs & H). injection H as <- <-.
      apply parse_string_ok in Hs as [? ?]. split_and!; [by constructor|simpl; lia|done]. }
    do 3 (case_if H;
      [apply rbind_Ok in H as (p1 & Hl & H); injection H as <- <-; apply literal_ok in Hl;
       split_and!; [by constructor|simpl; lia|cbn [canonical_bytes]; lia]|]).
    case_if H. apply number_ok in H as (i & -> & ? & ?).
    split_and!; [by constructor|simpl; lia|done].
  - intros p. cbn [value]. intros H. destruct (peek p) as [c|]; [|done].
    case_if H; [by apply (object_fuel (value n) n) in H|].
    case_if H; [by apply (array_fuel (value n) n) in H|].
    case_if H.
    { apply rbind_OutOfFuel in H as [H|([t p1] & _ & H)]; [|done].
      by apply parse_string_fuel in H. }
    do 3 (case_if H;
      [apply rbind_OutOfFuel in H as [H|(p1 & _ & H)]; [|done];
       unfold literal in H; by destruct (starts_with _ _)|]).
    case_if H. by apply number_fuel in H.
Qed.

(** * Canonical bytes parse back *)

Lemma advance_app l r q : advance (length l) (mkParser q (l ++ r)) = mkParser (q + length l) r.
Proof. unfold advance. simpl. by rewrite drop_app_length. Qed.

Lemma advance_cons q b r : advance 1 (mkParser q (b :: r)) = mkParser (q + 1) r.
Proof. unfold advance. simpl. by rewrite drop_0. Qed.

Lemma skip_ws_id q b r : is_ws b = false -> skip_ws (mkParser q (b :: r)) = mkParser q (b :: r).
Proof. intros H. unfold skip_ws, advance. simpl. rewrite H. simpl. by rewrite Nat.add_0_r. Qed.

Lemma plain_char_bytes c : is_scalar c -> is_plain c = true ->
  Forall (fun b => is_plain b = true) (encode_utf8 c).
Proof.
  intros Hs Hc. destruct (decide (c <= 0x7F)) as [|Hbig].
  { unfold is_scalar in Hs. rewrite encode_utf8_1 by lia. by constructor. }
  assert (Hb : forall b, 0x80 <= b -> is_plain b = true)
    by (intros; unfold is_plain; by decide_tests).
  unfold is_scalar in Hs. unfold encode_utf8.
  pose proof (base64_digits c) as H64.
  repeat case_match; unrange; repeat constructor; apply Hb; lia.
Qed.

Lemma plain_text_bytes t : Forall is_scalar t -> Forall (fun c => is_plain c = true) t ->
  Forall (fun b => is_plain b = true) (as_bytes t).
Proof.
  unfold as_bytes. induction 1; intros Hp; [constructor|]. apply Forall_cons in Hp as [? ?].
  cbn [flat_map]. apply Forall_app. auto using plain_char_bytes.
Qed.

(** The writer escapes exactly the characters the reader does not take raw,
    and the reader undoes each escape. *)
Lemma escape_write_char c r q : is_scalar c -> is_plain c = false ->
  exists e, write_char c = 92 :: e /\
    escape (mkParser q (e ++ r)) = Ok (c, mkParser (q + length e) r).
Proof.
  intros Hs Hp. unfold is_plain in Hp. apply negb_false_iff in Hp.
  apply orb_true_iff in Hp as [Hp|Hp]; [apply orb_true_iff in Hp as [Hp|Hp]|]; unrange.
  - subst. eexists. split; [reflexivity|]. reflexivity.
  - subst. eexists. split; [reflexivity|]. reflexivity.
  - assert (In c (map Z.of_nat (seq 0 32))) as Hin.
    { unfold is_scalar in Hs. apply in_map_iff. exists (Z.to_nat c).
      split; [lia|]. apply in_seq. lia. }
    cbn in Hin. clear Hs Hp.
    repeat (destruct Hin as [<-|Hin]; [eexists; split; [vm_compute; reflexivity|];
      cbv -[Nat.add]; do 3 f_equal; lia|]).
    done.
Qed.

(** Split a text at its first character that needs an escape. *)
Lemma plain_prefix t : exists u w, t = u ++ w /\
  Forall (fun c => is_plain c = true) u /\
  match w with [] => True | c :: _ => is_plain c = false end.
Proof.
  induction t as [|c t (u & w & -> & Hu & Hw)].
  { by exists [], []. }
  destruct (is_plain c) eqn:E.
  - exists (c :: u), w. by split_and!; [|constructor|].
  - exists [], (c :: u ++ w). by split_and!.
Qed.

Lemma as_bytes_nil t : as_bytes t = [] -> t = [].
Proof.
  destruct t as [|c t]; [done|]. unfold as_bytes, encode_utf8. cbn [flat_map].
  repeat case_match; done.
Qed.

Lemma string_loop_write t : Forall is_scalar t ->
  forall fuel q tail out, (length t < fuel)%nat ->
  string_loop fuel (mkParser q (flat_map write_char t ++ 34 :: tail)) out
  = Ok (out ++ t, mkParser (q + S (length (flat_map write_char t))) tail).
Proof.
  induction t as [t IH] using (induction_ltof1 _ (@length Z)). unfold ltof in IH.
  intros Hs fuel q tail out Hf. destruct fuel as [|fuel]; [lia|].
  destruct (plain_prefix t) as (u & w & -> & Hu & Hw).
  apply Forall_app in Hs as [Hsu Hsw].
  pose proof (plain_text_bytes u Hsu Hu) as Hub.
  rewrite flat_map_app, (write_plain_text u) by done.
  rewrite <- app_assoc. cbn [string_loop rest].
  assert (Hn : prefix_len is_plain (as_bytes u ++ flat_map write_char w ++ 34 :: tail)
               = length (as_bytes u)).
  { apply prefix_len_app; [done|]. destruct w as [|c w]; [done|]. cbn [flat_map].
    apply Forall_inv in Hsw.
    destruct (escape_write_char c [] 0 Hsw Hw) as (e & -> & _). done. }
  rewrite Hn, take_app_length, advance_app.
  assert (Hout : match as_bytes u with
    | [] => Ok out
    | _ :: _ => match from_utf8 (as_bytes u) with
                | Some t => Ok (out ++ t)
                | None => Err (malformed (mkParser (q + length (as_bytes u))
                    (flat_map write_char w ++ 34 :: tail)) "string is not valid UTF-8")
                end
    end = Ok (out ++ u)).
  { rewrite from_utf8_as_bytes by done. destruct (as_bytes u) eqn:E; [|done].
    apply as_bytes_nil in E as ->. by rewrite app_nil_r. }
  rewrite Hout. cbn [rbind]. destruct w as [|c w].
  { cbn. rewrite !app_nil_r. do 2 f_equal. unfold advance. simpl. f_equal. lia. }
  apply Forall_cons in Hsw as [Hsc Hsw]. rewrite length_app in Hf, IH. cbn [length] in *.
  destruct (escape_write_char c (flat_map write_char w ++ 34 :: tail)
              (q + length (as_bytes u) + 1) Hsc Hw) as (e & He & Hesc).
  cbn [flat_map]. rewrite He. cbn [app peek head rest]. cbn [Z.eqb Pos.eqb].
  rewrite advance_cons, <- app_assoc, Hesc. cbn [rbind].
  rewrite IH by (auto; lia). do 2 f_equal.
  - by rewrite <- !app_assoc.
  - f_equal. rewrite !length_app. cbn [length]. rewrite length_app. lia.
Qed.

Lemma length_write_chars t : (length t <= length (flat_map write_char t))%nat.
Proof.
  induction t as [|c t IH]; [done|]. cbn [flat_map]. rewrite length_app.
  assert (1 <= length (write_char c))%nat; [|simpl; lia].
  unfold write_char, encode_utf8. repeat case_match; simpl; lia.
Qed.

Lemma parse_write_string t q tail : Forall is_scalar t ->
  parse_string (mkParser q (write_string t ++ tail))
  = Ok (t, mkParser (q + length (write_string t)) tail).
Proof.
  intros Hs. unfold parse_string, write_string, expect, peek_is, peek.
  cbn [rest head app Z.eqb Pos.eqb rbind]. rewrite advance_cons, <- app_assoc. cbn [app].
  rewrite string_loop_write; [|done|].
  - do 3 f_equal. cbn [length]. rewrite length_app. simpl. lia.
  - cbn [rest]. rewrite length_app. pose proof (length_write_chars t). lia.
Qed.

(** ** Numbers *)

(** What may follow a number: nothing that would extend it. *)
Definition follow_ok (tail : list Z) : Prop :=
  match tail with
  | [] => True
  | c :: _ => is_digit c = false /\ c <> 46 /\ c <> 101 /\ c <> 69
  end.

Lemma scan_digits_write ds tail q :
  canonical_digits ds -> follow_ok tail ->
  scan_digits (mkParser q (ds ++ tail)) = Ok (mkParser (q + length ds) tail).
Proof.
  intros [Hd Hh] Ht. destruct ds as [|d ds]; [done|]. unfold scan_digits.
  assert (Hpd : peek_digit (mkParser (q + 1) tail) = false).
  { unfold peek_digit, peek. destruct tail; [done|]. apply Ht. }
  unfold peek_is, peek. cbn [rest app head]. destruct (d =? 48) eqn:E.
  - apply Z.eqb_eq in E. rewrite Hh by done. cbn [app]. unfold advance. simpl.
    rewrite drop_0. by rewrite Hpd.
  - unfold peek_digit, peek. cbn [rest head]. rewrite (Forall_inv Hd).
    rewrite app_comm_cons, prefix_len_app; [by rewrite advance_app|done|].
    destruct tail; [done|]. apply Ht.
Qed.

Lemma number_write n q tail : is_i64 n -> follow_ok tail ->
  number (mkParser q (i64_to_string n ++ tail))
  = Ok (VInt n, mkParser (q + length (i64_to_string n)) tail).
Proof.
  intros Hn Ht. pose proof (parse_i64_to_string n Hn) as Hparse.
  destruct (i64_to_string_spec n Hn) as (ds & Hc & _ & Hs).
  destruct (canonical_digits_cons ds Hc) as (d & rs & Hds & Hd).
  assert (Hascii : Forall (fun c => 0 <= c <= 0x7F) (i64_to_string n)).
  { rewrite Hs. pose proof (canonical_digits_ascii ds Hc).
    destruct (n <? 0); [|done]. constructor; [lia|done]. }
  set (p0 := mkParser q (i64_to_string n ++ tail)).
  assert (Hsign : scan_digits (if peek_is p0 45 then advance 1 p0 else p0)
    = Ok (mkParser (q + length (i64_to_string n)) tail)).
  { unfold p0. rewrite Hs. destruct (n <? 0).
    - cbn [peek_is peek rest head app Z.eqb Pos.eqb]. rewrite advance_cons, scan_digits_write by done. do 2 f_equal. simpl. lia.
    - unfold peek_is, peek. rewrite Hds at 1. cbn [rest head app].
      unrange. rewrite (proj2 (Z.eqb_neq d 45)) by lia. by apply scan_digits_write. }
  unfold number. fold (scan_digits (if peek_is p0 45 then advance 1 p0 else p0)).
  rewrite Hsign. cbn [rbind].
  assert (Hstop : peek_is (mkParser (q + length (i64_to_string n)) tail) 46
    || peek_is (mkParser (q + length (i64_to_string n)) tail) 101
    || peek_is (mkParser (q + length (i64_to_string n)) tail) 69 = false).
  { unfold peek_is, peek. destruct tail as [|c tail]; [done|]. cbn [rest head].
    destruct Ht as (_ & ? & ? & ?). by decide_tests. }
  rewrite Hstop. unfold p0. cbn [pos rest].
  replace (q + length (i64_to_string n) - q)%nat with (length (i64_to_string n)) by lia.
  rewrite take_app_length, from_utf8_ascii by done. cbn [ok_or rbind].
  by rewrite Hparse.
Qed.

(** ** Containers and values *)

(** A canonical text starts with a byte no whitespace skip removes. *)
Lemma canonical_bytes_head v : wf_value v ->
  exists b r, canonical_bytes v = b :: r /\ is_ws b = false /\ b <> 93 /\ b <> 125.
Proof.
  intros Hw. destruct v as [|[]|n|t|items|members];
    try (eexists _, _; split; [reflexivity|]; by vm_compute).
  inversion Hw as [| |? Hn| | |]; subst. cbn [canonical_bytes].
  destruct (i64_to_string_spec n Hn) as (ds & Hc & _ & ->).
  destruct (canonical_digits_cons ds Hc) as (d & r & -> & Hd).
  destruct (n <? 0); [by eexists _, _|]. exists d, r. unrange.
  split_and!; [done| |lia|lia]. unfold is_ws. by decide_tests.
Qed.

Definition reads_back (levels : nat) (v : Value) : Prop :=
  forall q tail, follow_ok tail ->
    value levels (mkParser q (canonical_bytes v ++ tail))
    = Ok (v, mkParser (q + length (canonical_bytes v)) tail).

Lemma skip_ws_canonical v q tail : wf_value v ->
  skip_ws (mkParser q (canonical_bytes v ++ tail)) = mkParser q (canonical_bytes v ++ tail).
Proof.
  intros Hw. destruct (canonical_bytes_head v Hw) as (b & r & -> & Hb & _).
  cbn [app]. by rewrite skip_ws_id.
Qed.

Lemma array_loop_write levels items :
  items <> [] -> Forall wf_value items -> Forall (reads_back levels) items ->
  forall fuel q tail out, (length items <= fuel)%nat ->
  array_loop (value levels) fuel
    (mkParser q (comma_separated (map canonical_bytes items) ++ 93 :: tail)) out
  = Ok (VArray (out ++ items),
        mkParser (q + S (length (comma_separated (map canonical_bytes items)))) tail).
Proof.
  intros Hne Hwf Hrb. revert Hne.
  induction items as [|v items IH]; [done|]. intros _ fuel q tail out Hf.
  apply Forall_cons in Hwf as [Hv Hwf]. apply Forall_cons in Hrb as [Hrv Hrb].
  destruct fuel as [|fuel]; [simpl in Hf; lia|].
  destruct items as [|w items].
  - cbn [map comma_separated array_loop]. rewrite skip_ws_canonical, Hrv by done.
    cbn [rbind]. rewrite skip_ws_id by done. unfold peek_is, peek.
    cbn [rest head Z.eqb Pos.eqb]. rewrite advance_cons.
    do 3 f_equal. lia.
  - assert (Hc : comma_separated (map canonical_bytes (v :: w :: items))
      = canonical_bytes v ++ 44 :: comma_separated (map canonical_bytes (w :: items)))
      by done.
    rewrite Hc, <- app_assoc. cbn [array_loop app].
    rewrite skip_ws_canonical, Hrv by done. cbn [rbind]. rewrite skip_ws_id by done.
    unfold peek_is at 1, peek. cbn [rest head Z.eqb Pos.eqb].
    rewrite advance_cons.
    rewrite IH by (try done; simpl in *; lia). rewrite <- app_assoc. do 3 f_equal.
    rewrite length_app. cbn [length]. lia.
Qed.

Lemma length_comma_separated_ge l :
  Forall (fun x => x <> []) l -> (length l <= length (comma_separated l))%nat.
Proof.
  induction 1 as [|x l Hx Hl IH]; [done|]. destruct x as [|b x]; [done|].
  destruct l as [|y l]; [simpl; lia|].
  change (comma_separated ((b :: x) :: y :: l))
    with ((b :: x) ++ 44 :: comma_separated (y :: l)).
  rewrite length_app. cbn [length]. simpl in *. lia.
Qed.

Lemma object_append o name v : wf_members o -> Forall is_scalar name ->
  Forall (fun m => cmp_utf16 m.1 name = Lt) o ->
  object_insert o name v = Ok (o ++ [(name, v)]).
Proof.
  intros Hw Hn Ho. unfold object_insert, slot.
  destruct (binary_search_by_spec (fun m : list Z * Value => cmp_utf16 m.1 name) o [] Ho)
    as [H _].
  rewrite app_nil_r in H. rewrite H by constructor.
  unfold vec_insert. by rewrite take_ge, drop_ge by done.
Qed.

Lemma skip_ws_string t q tail :
  skip_ws (mkParser q (write_string t ++ tail)) = mkParser q (write_string t ++ tail).
Proof. by apply skip_ws_id. Qed.

Lemma object_loop_write levels b :
  b <> [] -> Forall (fun m => wf_value m.2) b ->
  Forall (fun m => reads_back levels m.2) b ->
  forall fuel q tail a, wf_members (a ++ b) -> (length b <= fuel)%nat ->
  object_loop (value levels) fuel
    (mkParser q (comma_separated (map member_bytes b) ++ 125 :: tail)) a
  = Ok (VObject (a ++ b),
        mkParser (q + S (length (comma_separated (map member_bytes b)))) tail).
Proof.
  intros Hne Hwf Hrb. revert Hne.
  induction b as [|[name v] b IH]; [done|]. intros _ fuel q tail a Hab Hf.
  apply Forall_cons in Hwf as [Hv Hwf]. apply Forall_cons in Hrb as [Hrv Hrb].
  destruct fuel as [|fuel]; [simpl in Hf; lia|]. simpl in Hv, Hrv.
  assert (Ha : wf_members a /\ Forall is_scalar name /\
               Forall (fun m => cmp_utf16 m.1 name = Lt) a).
  { destruct Hab as [Hs Hn]. apply StronglySorted_app in Hs as (Hlt & Hsa & _).
    apply Forall_app in Hn as [Hna Hn]. apply Forall_inv in Hn.
    split_and!; [by split|done|]. apply Forall_forall. intros m Hm.
    apply (Hlt m (name, v)); [done|]. apply elem_of_cons. by left. }
  destruct Ha as (Hwa & Hname & Hlt).
  (* one member, up to the separator [sep :: rst] *)
  assert (Hstep : forall sep rst, follow_ok (sep :: rst) -> is_ws sep = false ->
    object_loop (value levels) (S fuel) (mkParser q (member_bytes (name, v) ++ sep :: rst)) a
    = let p := mkParser (q + length (member_bytes (name, v))) (sep :: rst) in
      if sep =? 44 then object_loop (value levels) fuel (advance 1 p) (a ++ [(name, v)])
      else if sep =? 125 then Ok (VObject (a ++ [(name, v)]), advance 1 p)
      else Err (malformed p "expected ',' or '}' in object")).
  { intros sep rst Hfo Hws. cbn [object_loop]. unfold member_bytes. cbn [fst snd].
    rewrite <- app_assoc, skip_ws_string, parse_write_string by done.
    cbn [rbind app]. rewrite skip_ws_id by done. unfold expect, peek_is at 1, peek.
    cbn [rest head Z.eqb Pos.eqb rbind]. rewrite advance_cons, skip_ws_canonical, Hrv by done. cbn [rbind].
    rewrite object_append by done. cbn [rbind]. rewrite skip_ws_id by done.
    unfold peek_is, peek. cbn [rest head].
    replace (q + length (write_string name) + 1 + length (canonical_bytes v))%nat
      with (q + length (write_string name ++ 58%Z :: canonical_bytes v))%nat
      by (rewrite length_app; cbn [length]; lia).
    done. }
  destruct b as [|m b].
  - cbn [map comma_separated]. rewrite Hstep by done. cbn zeta.
    cbn [Z.eqb Pos.eqb]. rewrite advance_cons.
    do 3 f_equal. lia.
  - assert (Hc : comma_separated (map member_bytes ((name, v) :: m :: b))
      = member_bytes (name, v) ++ 44 :: comma_separated (map member_bytes (m :: b)))
      by done.
    rewrite Hc, <- app_assoc. cbn [app]. rewrite Hstep by done. cbn zeta.
    cbn [Z.eqb Pos.eqb]. rewrite advance_cons.
    rewrite IH by (rewrite <- ?app_assoc; try done; simpl in *; lia).
    rewrite <- app_assoc. do 3 f_equal. rewrite length_app. cbn [length]. lia.
Qed.

Lemma canonical_bytes_nonempty v : wf_value v -> canonical_bytes v <> [].
Proof. intros H. by destruct (canonical_bytes_head v H) as (b & r & -> & _). Qed.

Lemma depth_items (items : list Value) n :
  (depth (VArray items) < S n)%nat -> Forall (fun v => depth v < n)%nat items.
Proof. simpl. induction items; simpl; constructor; [lia|]. apply IHitems. lia. Qed.

Lemma depth_members (members : Object) n :
  (depth (VObject members) < S n)%nat -> Forall (fun m => depth m.2 < n)%nat members.
Proof. simpl. induction members; simpl; constructor; [lia|]. apply IHmembers. lia. Qed.

Lemma Forall_mp {A} (P Q : A -> Prop) l :
  Forall (fun x => P x -> Q x) l -> Forall P l -> Forall Q l.
Proof. intros H. induction H; intros HP; inversion HP; constructor; auto. Qed.

Lemma array_write levels items :
  Forall wf_value items -> Forall (reads_back levels) items ->
  reads_back (S levels) (VArray items).
Proof.
  intros Hwf Hrb q tail _. cbn [canonical_bytes app value].
  unfold peek. cbn [rest head Z.eqb Pos.eqb]. unfold array, expect, peek_is at 1, peek.
  cbn [rest head Z.eqb Pos.eqb rbind]. rewrite advance_cons. destruct items as [|v items].
  { cbn [map comma_separated app]. rewrite skip_ws_id by done. unfold peek_is, peek.
    cbn [rest head Z.eqb Pos.eqb]. rewrite advance_cons. simpl. do 3 f_equal. lia. }
  set (items' := v :: items) in *.
  assert (Hhd : exists b r, comma_separated (map canonical_bytes items') = b :: r /\
            is_ws b = false /\ b <> 93).
  { unfold items'. apply Forall_inv in Hwf.
    destruct (canonical_bytes_head v Hwf) as (b & r & Hb & ? & ? & _).
    destruct items as [|w items]; cbn [map comma_separated]; rewrite Hb; by eexists _, _. }
  destruct Hhd as (b & r & Hb & Hws & Hne).
  rewrite <- app_assoc. cbn [app].
  assert (skip_ws (mkParser (q + 1) (comma_separated (map canonical_bytes items') ++ 93 :: tail))
    = mkParser (q + 1) (comma_separated (map canonical_bytes items') ++ 93 :: tail)) as ->.
  { rewrite Hb. cbn [app]. by rewrite skip_ws_id. }
  unfold peek_is at 1, peek. cbn [rest]. rewrite Hb at 1. cbn [app head].
  rewrite (proj2 (Z.eqb_neq b 93)) by done.
  rewrite array_loop_write; [|done..|].
  - do 3 f_equal. cbn [length]. rewrite length_app. simpl. lia.
  - pose proof (length_comma_separated_ge (map canonical_bytes items')) as Hge.
    rewrite length_map in Hge. rewrite length_app.
    assert (length items' <= length (comma_separated (map canonical_bytes items')))%nat; [|lia].
    apply Hge. apply Forall_map. eapply Forall_impl; [exact Hwf|].
    intros x. apply canonical_bytes_nonempty.
Qed.

Lemma object_write levels members :
  wf_members members -> Forall (fun m => wf_value m.2) members ->
  Forall (fun m => reads_back levels m.2) members ->
  reads_back (S levels) (VObject members).
Proof.
  intros Hm Hwf Hrb q tail _. rewrite canonical_bytes_object. cbn [app value].
  unfold peek. cbn [rest head Z.eqb Pos.eqb]. unfold object, expect, peek_is at 1, peek.
  cbn [rest head Z.eqb Pos.eqb rbind]. rewrite advance_cons. destruct members as [|m members].
  { cbn [map comma_separated app]. rewrite skip_ws_id by done. unfold peek_is, peek.
    cbn [rest head Z.eqb Pos.eqb]. rewrite advance_cons. simpl. do 3 f_equal. lia. }
  set (members' := m :: members) in *.
  assert (Hhd : exists r, comma_separated (map member_bytes members') = 34 :: r).
  { unfold members'. destruct members; cbn; by eexists. }
  destruct Hhd as (r & Hb). rewrite <- app_assoc. cbn [app].
  assert (skip_ws (mkParser (q + 1) (comma_separated (map member_bytes members') ++ 125 :: tail))
    = mkParser (q + 1) (comma_separated (map member_bytes members') ++ 125 :: tail)) as ->.
  { rewrite Hb. cbn [app]. by rewrite skip_ws_id. }
  unfold peek_is at 1, peek. cbn [rest]. rewrite Hb at 1. cbn [app head Z.eqb Pos.eqb].
  rewrite (object_loop_write levels members'); [|done..|].
  - do 3 f_equal. cbn [length]. rewrite length_app. simpl. lia.
  - pose proof (length_comma_separated_ge (map member_bytes members')) as Hge.
    rewrite length_map in Hge. rewrite length_app.
    assert (length members' <= length (comma_separated (map member_bytes members')))%nat; [|lia].
    apply Hge. apply Forall_map. apply Forall_forall. by intros [? ?] _.
Qed.

Lemma value_write v : wf_value v -> forall levels, (depth v < levels)%nat -> reads_back levels v.
Proof.
  induction v as [|b|n|t|items IH|members IH] using Value_nested_ind;
    intros Hw levels Hd; (destruct levels as [|levels]; [lia|]); inversion Hw; subst.
  - intros q tail _. reflexivity.
  - intros q tail _. by destruct b.
  - intros q tail Ht. cbn [canonical_bytes value].
    destruct (canonical_bytes_head (VInt n) Hw) as (b & r & Hb & _). cbn [canonical_bytes] in Hb.
    rewrite <- number_write by done.
    destruct (i64_to_string_spec n) as (ds & Hc & _ & Hs); [done|].
    destruct (canonical_digits_cons ds Hc) as (d & rs & -> & Hdig).
    unfold peek. cbn [rest]. rewrite Hs. unrange.
    destruct (n <? 0); cbn [app head]; [done|].
    rewrite !(proj2 (Z.eqb_neq d _)) by lia. cbn [orb].
    unfold is_digit, in_range. by decide_tests.
  - intros q tail _. cbn [canonical_bytes value]. unfold peek.
    change (head (rest (mkParser q (write_string t ++ tail)))) with (Some 34).
    cbn [Z.eqb Pos.eqb]. by rewrite parse_write_string.
  - apply array_write; [done|]. apply depth_items in Hd.
    eapply Forall_mp; [|exact Hd]. eapply Forall_mp; [|eassumption].
    eapply Forall_impl; [exact IH|]. simpl. auto.
  - apply object_write; [by split|done|]. apply depth_members in Hd.
    eapply (Forall_mp (fun m => depth m.2 < levels)%nat); [|exact Hd].
    eapply (Forall_mp (fun m => wf_value m.2)); [|eassumption].
    eapply Forall_impl; [exact IH|]. simpl. auto.
Qed.

(** * Properties *)

Lemma parse_canonical v max_bytes max_depth :
  wf_value v -> (depth v <= max_depth)%nat -> zlen (canonical_bytes v) <= max_bytes ->
  parse_with_limits (canonical_bytes v) max_bytes max_depth = Ok v.
Proof.
  intros Hw Hd Hl. unfold parse_with_limits. rewrite (proj2 (Z.ltb_ge _ _)) by done.
  pose proof (value_write v Hw (S max_depth) ltac:(lia) 0%nat [] I) as H.
  rewrite <- (app_nil_r (canonical_bytes v)) at 1.
  rewrite skip_ws_canonical by done. by rewrite H.
Qed.

Lemma parse_accepts input max_bytes max_depth v :
  parse_with_limits input max_bytes max_depth = Ok v ->
  wf_value v /\ (depth v <= max_depth)%nat /\ zlen input <= max_bytes /\
  zlen (canonical_bytes v) <= zlen input.
Proof.
  unfold parse_with_limits. destruct (max_bytes <? zlen input) eqn:E; [done|]. intros H.
  apply rbind_Ok in H as ([w p] & Hv & H).
  destruct (rest (skip_ws p)); [|done]. injection H as <-.
  apply (proj1 (value_sound (S max_depth))) in Hv as (Hw & Hd & Hl).
  unrange. pose proof (left_skip_ws (mkParser 0 input)) as Hs.
  change (left (mkParser 0 input)) with (length input) in Hs.
  unfold zlen in *. split_and!; [done|lia..].
Qed.

Lemma parse_no_fuel input max_bytes max_depth :
  parse_with_limits input max_bytes max_depth <> OutOfFuel.
Proof.
  unfold parse_with_limits. destruct (_ <? _); [done|]. intros H.
  apply rbind_OutOfFuel in H as [H|([w p] & _ & H)].
  - by apply (proj2 (value_sound (S max_depth))) in H.
  - by destruct (rest (skip_ws p)).
Qed.

(** C1: The canonical bytes of every well-formed value within the parser's
    bounds parse back to exactly that value. *)
Theorem json_roundtrip v max_bytes max_depth :
  wf_value v -> (depth v <= max_depth)%nat -> zlen (canonical_bytes v) <= max_bytes ->
  parse_with_limits (canonical_bytes v) max_bytes max_depth = Ok v.
Proof. apply parse_canonical. Qed.

(** C2: Whatever the parser accepts, members in any order, whitespace and
    escapes of any form, is a well-formed value (integers in [i64], scalar
    text, members strictly sorted by UTF-16 units) within both bounds, and its
    canonical text is no longer than the input. *)
Theorem json_parse_sound input max_bytes max_depth v :
  parse_with_limits input max_bytes max_depth = Ok v ->
  wf_value v /\ (depth v <= max_depth)%nat /\ zlen input <= max_bytes /\
  zlen (canonical_bytes v) <= zlen input.
Proof. apply parse_accepts. Qed.

(** Canonicalization is idempotent: re-parsing the canonical bytes of an
    accepted input, under the same bounds, gives the same value. *)
Theorem json_canonicalization_idempotent input max_bytes max_depth v :
  parse_with_limits input max_bytes max_depth = Ok v ->
  parse_with_limits (canonical_bytes v) max_bytes max_depth = Ok v.
Proof.
  intros H. apply parse_accepts in H as (Hw & Hd & Hl & Hc).
  apply parse_canonical; [done..|lia].
Qed.

(** Canonical bytes determine the value, so a digest over them covers the
    value and nothing but the value. *)
Theorem json_canonical_injective v w :
  wf_value v -> wf_value w -> canonical_bytes v = canonical_bytes w -> v = w.
Proof.
  intros Hv Hw H.
  pose proof (parse_canonical v (zlen (canonical_bytes v)) (depth v `max` depth w) Hv) as Pv.
  pose proof (parse_canonical w (zlen (canonical_bytes w)) (depth v `max` depth w) Hw) as Pw.
  rewrite H in Pv. assert (Ok w = Ok (E := ParseError) v) as [= ->]; [|done].
  rewrite <- Pw, Pv by lia. done.
Qed.

(** C3: The parser is total: on every input and under every bound its loops
    finish within the bytes that are left. *)
Theorem json_parse_total input max_bytes max_depth :
  parse_with_limits input max_bytes max_depth <> OutOfFuel.
Proof. apply parse_no_fuel. Qed.

(** On objects in canonical order every operation implements the finite
    map from names to values: lookup, upsert, removal, and insertion that
    refuses exactly the names already present; all keep the canonical order. *)
Theorem json_object_refines_map o name v :
  wf_members o -> Forall is_scalar name -> object_ops_spec o name v.
Proof. apply object_ops_refine. Qed.

(** * Witnesses *)

Definition sample_text : list Z :=
  lit "{ 'b' : [1, -20, null], 'a' : { 'x' : 'q' } }".

(** The sample with its quotes: single quotes stand for double ones. *)
Definition sample_bytes : list Z := map (fun b => if b =? 39 then 34 else b) sample_text.

Definition sample_value : Value :=
  VObject [(lit "a", VObject [(lit "x", VText (lit "q"))]);
           (lit "b", VArray [VInt 1; VInt (-20); VNull])].

Lemma sample_wf : wf_value sample_value.
Proof.
  repeat first [ done | apply ascii_scalar; reflexivity
               | constructor | unfold is_i64, I64_MIN, I64_MAX; lia ].
Qed.

Lemma json_roundtrip_witness :
  parse_with_limits (canonical_bytes sample_value) 64 2 = Ok sample_value.
Proof. apply json_roundtrip; [exact sample_wf|vm_compute; lia|vm_compute; discriminate]. Defined.

Lemma json_parse_sound_witness :
  wf_value sample_value /\ (depth sample_value <= 2)%nat /\ zlen sample_bytes <= 64 /\
  zlen (canonical_bytes sample_value) <= zlen sample_bytes.
Proof. apply json_parse_sound. vm_compute. reflexivity. Defined.

Lemma json_canonicalization_idempotent_witness :
  parse_with_limits (canonical_bytes sample_value) 64 2 = Ok sample_value.
Proof. apply (json_canonicalization_idempotent sample_bytes). vm_compute. reflexivity. Defined.

Lemma json_canonical_injective_witness : sample_value = sample_value.
Proof. apply json_canonical_injective; [exact sample_wf|exact sample_wf|reflexivity]. Defined.

Lemma json_object_refines_map_witness :
  object_ops_spec [(lit "a", VNull); (lit "b", VBool true)] (lit "ab") (VInt 7).
Proof.
  apply json_object_refines_map.
  - split; repeat first [ done | apply ascii_scalar; vm_compute; reflexivity | constructor ].
  - apply ascii_scalar. reflexivity.
Defined.
