(* ===== verification/Sha256.v ===== *)
(** SHA-256 and the lowercase-hex codec
    ([crates/archivist-protocol/src/sha256.rs]): the incremental hasher with
    its 64-byte block buffer, padding, and compression function, and the
    theorems that hashing in pieces is hashing the concatenation, by the
    block-at-a-time definition of FIPS 180-4. *)

From S2P Require Import Prelude Text.

(** * 32-bit words *)

Definition add32 (a b : Z) : Z := (a + b) mod u32_modulus.
Definition not32 (a : Z) : Z := u32_modulus - 1 - a.
Definition rotate_right (x n : Z) : Z :=
  Z.lor (Z.shiftr x n) (Z.shiftl x (32 - n) mod u32_modulus).

Definition H0 : list Z :=
  [0x6a09_e667; 0xbb67_ae85; 0x3c6e_f372; 0xa54f_f53a;
   0x510e_527f; 0x9b05_688c; 0x1f83_d9ab; 0x5be0_cd19].

Definition K : list Z :=
  [0x428a_2f98; 0x7137_4491; 0xb5c0_fbcf; 0xe9b5_dba5;
   0x3956_c25b; 0x59f1_11f1; 0x923f_82a4; 0xab1c_5ed5;
   0xd807_aa98; 0x1283_5b01; 0x2431_85be; 0x550c_7dc3;
   0x72be_5d74; 0x80de_b1fe; 0x9bdc_06a7; 0xc19b_f174;
   0xe49b_69c1; 0xefbe_4786; 0x0fc1_9dc6; 0x240c_a1cc;
   0x2de9_2c6f; 0x4a74_84aa; 0x5cb0_a9dc; 0x76f9_88da;
   0x983e_5152; 0xa831_c66d; 0xb003_27c8; 0xbf59_7fc7;
   0xc6e0_0bf3; 0xd5a7_9147; 0x06ca_6351; 0x1429_2967;
   0x27b7_0a85; 0x2e1b_2138; 0x4d2c_6dfc; 0x5338_0d13;
   0x650a_7354; 0x766a_0abb; 0x81c2_c92e; 0x9272_2c85;
   0xa2bf_e8a1; 0xa81a_664b; 0xc24b_8b70; 0xc76c_51a3;
   0xd192_e819; 0xd699_0624; 0xf40e_3585; 0x106a_a070;
   0x19a4_c116; 0x1e37_6c08; 0x2748_774c; 0x34b0_bcb5;
   0x391c_0cb3; 0x4ed8_aa4a; 0x5b9c_ca4f; 0x682e_6ff3;
   0x748f_82ee; 0x78a5_636f; 0x84c8_7814; 0x8cc7_0208;
   0x90be_fffa; 0xa450_6ceb; 0xbef9_a3f7; 0xc671_78f2].

(** * Compression *)

(** [u32::from_be_bytes] on four consecutive bytes, for the whole block. *)
Fixpoint be_words (block : list Z) : list Z :=
  match block with
  | b0 :: b1 :: b2 :: b3 :: r => from_be_bytes [b0; b1; b2; b3] :: be_words r
  | _ => []
  end.

Definition word (w : list Z) (i : nat) : Z := nth i w 0.

(** [w[i]] for [16 <= i]. *)
Definition schedule_word (w : list Z) (i : nat) : Z :=
  let a := word w (i - 15) in
  let b := word w (i - 2) in
  let s0 := Z.lxor (Z.lxor (rotate_right a 7) (rotate_right a 18)) (Z.shiftr a 3) in
  let s1 := Z.lxor (Z.lxor (rotate_right b 17) (rotate_right b 19)) (Z.shiftr b 10) in
  add32 (add32 (add32 (word w (i - 16)) s0) (word w (i - 7))) s1.

Fixpoint extend_schedule (n i : nat) (w : list Z) : list Z :=
  match n with
  | O => w
  | S n' => extend_schedule n' (S i) (w ++ [schedule_word w i])
  end.

Definition schedule (block : list Z) : list Z := extend_schedule 48 16 (be_words block).

Record working := mkWorking
  { va : Z; vb : Z; vc : Z; vd : Z; ve : Z; vf : Z; vg : Z; vh : Z }.

Definition round (v : working) (kw : Z * Z) : working :=
  let '(k, w) := kw in
  let s1 := Z.lxor (Z.lxor (rotate_right (ve v) 6) (rotate_right (ve v) 11))
              (rotate_right (ve v) 25) in
  let ch := Z.lxor (Z.land (ve v) (vf v)) (Z.land (not32 (ve v)) (vg v)) in
  let t1 := add32 (add32 (add32 (add32 (vh v) s1) ch) k) w in
  let s0 := Z.lxor (Z.lxor (rotate_right (va v) 2) (rotate_right (va v) 13))
              (rotate_right (va v) 22) in
  let maj := Z.lxor (Z.lxor (Z.land (va v) (vb v)) (Z.land (va v) (vc v)))
               (Z.land (vb v) (vc v)) in
  let t2 := add32 s0 maj in
  mkWorking (add32 t1 t2) (va v) (vb v) (vc v) (add32 (vd v) t1) (ve v) (vf v) (vg v).

Definition load (s : list Z) : working :=
  mkWorking (word s 0) (word s 1) (word s 2) (word s 3)
            (word s 4) (word s 5) (word s 6) (word s 7).

Definition compress (state block : list Z) : list Z :=
  let v := fold_left round (zip K (schedule block)) (load state) in
  zip_with add32 state [va v; vb v; vc v; vd v; ve v; vf v; vg v; vh v].

(** * The incremental hasher *)

Record Sha256 := mkSha256
  { state : list Z; buffer : list Z; buffered : nat; len : Z }.

Definition new : Sha256 := mkSha256 H0 (replicate 64 0) 0 0.

(** [dst[i..i + src.len()].copy_from_slice(src)]. *)
Definition copy_into (dst : list Z) (i : nat) (src : list Z) : list Z :=
  take i dst ++ src ++ drop (i + length src) dst.

(** The first stage of [update]: top up a partly filled buffer. *)
Definition fill_buffer (h : Sha256) (data : list Z) : Sha256 * list Z :=
  if (0 <? buffered h)%nat then
    let taken := Nat.min (64 - buffered h) (length data) in
    let buf := copy_into (buffer h) (buffered h) (take taken data) in
    let n := (buffered h + taken)%nat in
    (if (n =? 64)%nat
     then mkSha256 (compress (state h) buf) buf 0 (len h)
     else mkSha256 (state h) buf n (len h),
     drop taken data)
  else (h, data).

(** [while rest.len() >= 64], which runs [len / 64] times. *)
Fixpoint absorb_blocks (n : nat) (st data : list Z) : list Z * list Z :=
  match n with
  | O => (st, data)
  | S n' => absorb_blocks n' (compress st (take 64 data)) (drop 64 data)
  end.

Definition update (h : Sha256) (data : list Z) : Sha256 :=
  let h := mkSha256 (state h) (buffer h) (buffered h) (wrap_add64 (len h) (zlen data)) in
  let '(h, data) := fill_buffer h data in
  let '(st, data) := absorb_blocks (length data / 64) (state h) data in
  match data with
  | [] => mkSha256 st (buffer h) (buffered h) (len h)
  | _ => mkSha256 st (copy_into (buffer h) 0 data) (length data) (len h)
  end.

(** How often [while self.buffered != 56 { self.update(&[0]) }] runs. *)
Definition pad_count (n : nat) : nat := if (n <=? 56)%nat then 56 - n else 120 - n.

Definition pad_zeros (h : Sha256) : Sha256 :=
  Nat.iter (pad_count (buffered h)) (fun h => update h [0]) h.

Definition finalize (h : Sha256) : list Z :=
  let bit_len := wrap_mul64 (len h) 8 in
  let h := pad_zeros (update h [0x80]) in
  let len_block := take 56 (buffer h) ++ to_be_bytes 8 bit_len in
  flat_map (to_be_bytes 4) (compress (state h) len_block).

Definition digest (data : list Z) : list Z := finalize (update new data).

(** * Hexadecimal *)

Definition hex_of_nibble (d : Z) : Z := if d <? 10 then 48 + d else 87 + d.

Definition encode_hex (bytes : list Z) : list Z :=
  flat_map (fun b => [hex_of_nibble (Z.shiftr b 4); hex_of_nibble (Z.land b 0x0f)]) bytes.

Definition nibble_value (c : Z) : option Z :=
  if in_range 48 c 57 then Some (c - 48)
  else if in_range 97 c 102 then Some (c - 97 + 10)
  else None.

(** The [chunks_exact(2)] loop over the bytes of a text of even length. *)
Fixpoint decode_pairs (raw : list Z) : option (list Z) :=
  match raw with
  | [] => Some []
  | [_] => None
  | c0 :: c1 :: r =>
      h ← nibble_value c0; l ← nibble_value c1;
      cons (Z.lor (Z.shiftl h 4) l) <$> decode_pairs r
  end.

Definition decode_hex (text : list Z) : option (list Z) :=
  if Nat.even (length (as_bytes text)) then decode_pairs (as_bytes text) else None.

(** * The reference definition of FIPS 180-4 *)

Fixpoint chunks64 (n : nat) (m : list Z) : list (list Z) :=
  match n with
  | O => []
  | S n' => take 64 m :: chunks64 n' (drop 64 m)
  end.

(** The padded message: a one bit, zeros up to 448 bits modulo 512, and the
    bit length as a 64-bit integer. *)
Definition pad (m : list Z) : list Z :=
  m ++ 0x80 :: replicate (pad_count (S (length m) mod 64)) 0
    ++ to_be_bytes 8 (wrap_mul64 (zlen m mod u64_modulus) 8).

Definition sha256_spec (m : list Z) : list Z :=
  flat_map (to_be_bytes 4)
    (fold_left compress (chunks64 (length (pad m) / 64) (pad m)) H0).

(** * Streaming

    [holds h m]: the hasher's chaining state and buffered bytes are those of
    the message [m], whole blocks compressed and the remainder buffered;
    [absorbed] adds the running length.  Bytes of the buffer past [buffered]
    are stale and unconstrained. *)

Definition is_block (b : list Z) : Prop := length b = 64%nat.

Definition holds (h : Sha256) (m : list Z) : Prop :=
  exists bs r, m = concat bs ++ r /\ Forall is_block bs /\ (length r < 64)%nat /\
    state h = fold_left compress bs H0 /\ buffered h = length r /\
    take (length r) (buffer h) = r /\ length (buffer h) = 64%nat.

Definition absorbed (h : Sha256) (m : list Z) : Prop :=
  holds h m /\ len h = zlen m mod u64_modulus.

Lemma length_copy_into dst i src :
  (i + length src <= length dst)%nat -> length (copy_into dst i src) = length dst.
Proof. intros H. unfold copy_into. rewrite !length_app, length_take, length_drop. lia. Qed.

Lemma take_copy_into dst i src :
  (i + length src <= length dst)%nat ->
  take (i + length src) (copy_into dst i src) = take i dst ++ src.
Proof.
  intros H. unfold copy_into. rewrite app_assoc, take_app_length'; [done|].
  rewrite length_app, length_take. lia.
Qed.

Lemma absorb_blocks_spec n st data :
  (64 * n <= length data)%nat ->
  exists bs r, data = concat bs ++ r /\ Forall is_block bs /\ length bs = n /\
    absorb_blocks n st data = (fold_left compress bs st, r).
Proof.
  revert st data; induction n as [|n IH]; intros st data Hn.
  { exists [], data. by split_and!. }
  cbn [absorb_blocks].
  destruct (IH (compress st (take 64 data)) (drop 64 data)) as (bs & r & Hd & Hbs & Hl & ->).
  { rewrite length_drop. lia. }
  exists (take 64 data :: bs), r. split_and!.
  - cbn [concat]. by rewrite <- app_assoc, <- Hd, take_drop.
  - constructor; [|done]. unfold is_block. rewrite length_take. lia.
  - simpl. lia.
  - done.
Qed.

Lemma length_concat_blocks bs :
  Forall is_block bs -> length (concat bs) = (64 * length bs)%nat.
Proof.
  induction 1 as [|b bs Hb _ IH]; [done|]. cbn [concat length].
  rewrite length_app, IH, Hb. lia.
Qed.

Lemma absorb_all st data :
  exists bs r, data = concat bs ++ r /\ Forall is_block bs /\ (length r < 64)%nat /\
    absorb_blocks (length data / 64) st data = (fold_left compress bs st, r).
Proof.
  pose proof (Nat.div_mod_eq (length data) 64). pose proof (Nat.mod_upper_bound (length data) 64).
  destruct (absorb_blocks_spec (length data / 64) st data) as (bs & r & -> & Hbs & Hl & ->); [lia|].
  exists bs, r. split_and!; [done..| |done].
  rewrite length_app, (length_concat_blocks bs) in * by done. lia.
Qed.

Lemma holds_blocks h m bs :
  holds h m -> buffered h = 0%nat -> Forall is_block bs ->
  holds (mkSha256 (fold_left compress bs (state h)) (buffer h) 0 (len h)) (m ++ concat bs).
Proof.
  intros (bs0 & r & -> & Hbs0 & Hr & Hst & Hb & _ & Hlen) H0 Hbs.
  destruct r; [|simpl in *; lia]. exists (bs0 ++ bs), []. simpl.
  rewrite concat_app, !app_nil_r, fold_left_app, Hst.
  split_and!; [done|by apply Forall_app|lia|done..].
Qed.

Lemma holds_buffer h m d :
  holds h m -> buffered h = 0%nat -> (length d < 64)%nat ->
  holds (mkSha256 (state h) (copy_into (buffer h) 0 d) (length d) (len h)) (m ++ d).
Proof.
  intros (bs & r & -> & Hbs & Hr & Hst & Hb & _ & Hlen) H0 Hd.
  destruct r; [|simpl in *; lia]. exists bs, d. simpl. rewrite app_nil_r.
  split_and!; [done..| |].
  - rewrite (take_copy_into _ 0 d) by (simpl; lia). done.
  - rewrite length_copy_into; simpl; lia.
Qed.

Lemma fill_buffer_holds h m data :
  holds h m ->
  exists c d h1, fill_buffer h data = (h1, d) /\ data = c ++ d /\
    holds h1 (m ++ c) /\ len h1 = len h /\ (d = [] \/ buffered h1 = 0%nat).
Proof.
  intros Hh. unfold fill_buffer. destruct (Nat.ltb_spec 0 (buffered h)) as [Hpos|Hz].
  2:{ exists [], data, h. rewrite app_nil_r. split_and!; [done..|]. right. lia. }
  destruct Hh as (bs & r & -> & Hbs & Hr & Hst & Hb & Ht & Hlen).
  set (taken := Nat.min (64 - buffered h) (length data)).
  set (c := take taken data).
  assert (Hc : length c = taken) by (unfold c; rewrite length_take; lia).
  set (buf := copy_into (buffer h) (buffered h) c).
  assert (Hbl : length buf = 64%nat) by (unfold buf; rewrite length_copy_into; lia).
  assert (Hbt : take (length r + taken) buf = r ++ c).
  { unfold buf. rewrite Hb, <- Hc, take_copy_into by lia. by rewrite Ht. }
  exists c, (drop taken data). destruct (Nat.eqb_spec (buffered h + taken) 64) as [Hfull|Hpart].
  - eexists. split; [reflexivity|]. split_and!.
    + unfold c. by rewrite take_drop.
    + rewrite take_ge in Hbt by lia.
      exists (bs ++ [buf]), []. cbn [buffered state buffer].
      rewrite concat_app, fold_left_app. cbn [concat fold_left].
      rewrite !app_nil_r, <- app_assoc, <- Hbt, Hst.
      split_and!; [done| |simpl; lia|done..].
      apply Forall_app. split; [done|]. by constructor.
    + done.
    + by right.
  - eexists. split; [reflexivity|]. split_and!.
    + unfold c. by rewrite take_drop.
    + exists bs, (r ++ c). cbn [buffered state buffer]. rewrite length_app, Hc.
      rewrite <- app_assoc. split_and!; [done|done|lia|done|lia|done|done].
    + done.
    + left. apply length_zero_iff_nil. rewrite length_drop. lia.
Qed.

Lemma absorbed_new : absorbed new [].
Proof. split; [|done]. exists [], []. simpl. split_and!; first [done|lia]. Qed.

Lemma absorbed_update h m d : absorbed h m -> absorbed (update h d) (m ++ d).
Proof.
  intros [Hh Hlen]. unfold update.
  set (h0 := mkSha256 _ _ _ (wrap_add64 _ _)).
  assert (Hh0 : holds h0 m) by exact Hh.
  assert (Hlen0 : len h0 = zlen (m ++ d) mod u64_modulus).
  { unfold h0, wrap_add64. cbn [len]. rewrite Hlen, zlen_app.
    by rewrite Z.add_mod_idemp_l by done. }
  destruct (fill_buffer_holds h0 m d Hh0) as (c & d1 & h1 & -> & -> & Hh1 & Hl1 & Hor).
  destruct (absorb_all (state h1) d1) as (bs & r & -> & Hbs & Hr & ->).
  rewrite <- Hl1 in Hlen0.
  assert (Hm : m ++ c ++ concat bs ++ r = ((m ++ c) ++ concat bs) ++ r)
    by (by rewrite <- !app_assoc).
  rewrite Hm in Hlen0 |- *.
  split; [|by destruct r].
  destruct Hor as [Hnil|Hz].
  - apply app_nil in Hnil as [Hbsnil ->]. rewrite app_nil_r.
    assert (bs = []) as ->.
    { apply length_zero_iff_nil.
      apply (f_equal length) in Hbsnil. rewrite length_concat_blocks in Hbsnil by done.
      simpl in Hbsnil. lia. }
    simpl. rewrite app_nil_r. exact Hh1.
  - pose proof (holds_blocks h1 _ bs Hh1 Hz Hbs) as Hb. destruct r as [|x r].
    + rewrite app_nil_r, Hz. exact Hb.
    + apply (holds_buffer _ _ (x :: r) Hb); done.
Qed.

Lemma absorbed_updates cs h m :
  absorbed h m -> absorbed (fold_left update cs h) (m ++ concat cs).
Proof.
  revert h m; induction cs as [|c cs IH]; intros h m Hh; cbn [fold_left concat].
  { by rewrite app_nil_r. }
  rewrite app_assoc. by apply IH, absorbed_update.
Qed.

Lemma absorbed_buffered h m : absorbed h m -> buffered h = (length m mod 64)%nat.
Proof.
  intros [(bs & r & -> & Hbs & Hr & _ & -> & _) _].
  rewrite length_app, length_concat_blocks by done.
  replace (64 * length bs + length r)%nat with (length r + length bs * 64)%nat by lia.
  by rewrite Nat.Div0.mod_add, Nat.mod_small.
Qed.

Lemma absorbed_iter_zero k h m :
  absorbed h m -> absorbed (Nat.iter k (fun h => update h [0]) h) (m ++ replicate k 0).
Proof.
  intros Hh. induction k as [|k IH]; [by rewrite app_nil_r|].
  rewrite replicate_S_end, app_assoc. by apply absorbed_update.
Qed.

Lemma pad_count_exact n j : (n < 64)%nat -> (j < pad_count n)%nat -> ((n + j) mod 64 <> 56)%nat.
Proof.
  unfold pad_count. intros Hn Hj. destruct (Nat.leb_spec n 56).
  - rewrite Nat.mod_small; lia.
  - destruct (decide (n + j < 64)%nat); [rewrite Nat.mod_small; lia|].
    replace (n + j)%nat with (n + j - 64 + 1 * 64)%nat by lia.
    rewrite Nat.Div0.mod_add, Nat.mod_small by lia. lia.
Qed.

Lemma pad_count_stops n : (n < 64)%nat -> ((n + pad_count n) mod 64 = 56)%nat.
Proof.
  unfold pad_count. intros Hn. destruct (Nat.leb_spec n 56).
  - replace (n + (56 - n))%nat with 56%nat by lia. done.
  - by replace (n + (120 - n))%nat with (56 + 1 * 64)%nat by lia.
Qed.

Lemma chunks64_concat bs :
  Forall is_block bs -> chunks64 (length bs) (concat bs) = bs.
Proof.
  induction 1 as [|b bs Hb _ IH]; [done|]. unfold is_block in Hb. cbn [length chunks64 concat].
  by rewrite take_app_length', drop_app_length', IH by done.
Qed.

(** The last block: 56 bytes of padded remainder and the bit length. *)
Lemma finalize_blocks h m suffix :
  holds h m -> length suffix = 8%nat -> (length m mod 64 = 56)%nat ->
  let l := take 56 (buffer h) ++ suffix in
  compress (state h) l
  = fold_left compress (chunks64 (length (m ++ suffix) / 64) (m ++ suffix)) H0.
Proof.
  intros (bs & r & -> & Hbs & Hr & Hst & Hb & Ht & Hl) Hs Hm l.
  rewrite length_app, length_concat_blocks in Hm by done.
  replace (64 * length bs + length r)%nat with (length r + length bs * 64)%nat in Hm by lia.
  rewrite Nat.Div0.mod_add, Nat.mod_small in Hm by done.
  assert (Hlb : l = r ++ suffix) by (unfold l; by rewrite <- Hm, Ht).
  assert (Hlen : length l = 64%nat) by (rewrite Hlb, length_app; lia).
  assert (Heq : (concat bs ++ r) ++ suffix = concat (bs ++ [l])).
  { rewrite concat_app. cbn [concat]. by rewrite app_nil_r, <- app_assoc, Hlb. }
  assert (Hbl : Forall is_block (bs ++ [l])) by (apply Forall_app; auto).
  rewrite Heq, (length_concat_blocks (bs ++ [l])) by done.
  rewrite (Nat.mul_comm 64), Nat.div_mul, chunks64_concat by done.
  rewrite fold_left_app, Hst. done.
Qed.

Lemma finalize_absorbed h m : absorbed h m -> finalize h = sha256_spec m.
Proof.
  intros Hh. unfold finalize, sha256_spec. f_equal.
  pose proof (absorbed_update h m [0x80] Hh) as H1.
  pose proof (absorbed_buffered _ _ H1) as Hb1.
  pose proof (absorbed_iter_zero (pad_count (buffered (update h [0x80]))) _ _ H1) as H2.
  fold (pad_zeros (update h [0x80])) in H2. rewrite Hb1 in H2.
  destruct Hh as [_ Hlen]. rewrite Hlen.
  assert (Hpad : pad m = ((m ++ [0x80]) ++ replicate (pad_count (length (m ++ [0x80]) mod 64)) 0)
    ++ to_be_bytes 8 (wrap_mul64 (zlen m mod u64_modulus) 8)).
  { unfold pad. rewrite length_app. replace (length m + length [128%Z])%nat with (S (length m))
      by (simpl; lia). by rewrite <- !app_assoc. }
  rewrite Hpad. apply finalize_blocks.
  - apply H2.
  - apply length_to_be_bytes.
  - rewrite length_app, length_replicate. set (n := length (m ++ [128])).
    rewrite <- (Nat.Div0.add_mod_idemp_l n).
    apply pad_count_stops. by apply Nat.mod_upper_bound.
Qed.

(** * Hex codec *)

Lemma nibble_hex d : 0 <= d < 16 -> nibble_value (hex_of_nibble d) = Some d.
Proof.
  intros Hd. unfold hex_of_nibble, nibble_value.
  destruct (d <? 10) eqn:E; unrange; decide_tests; f_equal; lia.
Qed.

Lemma hex_nibble c d : nibble_value c = Some d -> hex_of_nibble d = c /\ 0 <= d < 16.
Proof.
  unfold nibble_value. repeat case_match; intros [= <-]; unrange; unfold hex_of_nibble;
    decide_tests; lia.
Qed.

Lemma byte_nibbles b : is_byte b ->
  0 <= Z.shiftr b 4 < 16 /\ 0 <= Z.land b 0x0f < 16 /\
  Z.lor (Z.shiftl (Z.shiftr b 4) 4) (Z.land b 0x0f) = b.
Proof.
  intros Hb. assert (In b (map Z.of_nat (seq 0 256))) as Hin.
  { unfold is_byte in Hb. apply in_map_iff. exists (Z.to_nat b). split; [lia|].
    apply in_seq. lia. }
  assert (Hall : forallb (fun b => (0 <=? Z.shiftr b 4) && (Z.shiftr b 4 <? 16) &&
      (0 <=? Z.land b 0x0f) && (Z.land b 0x0f <? 16) &&
      (Z.lor (Z.shiftl (Z.shiftr b 4) 4) (Z.land b 0x0f) =? b))
      (map Z.of_nat (seq 0 256)) = true) by (vm_compute; reflexivity).
  rewrite forallb_forall in Hall. apply Hall in Hin. clear Hall.
  unrange. lia.
Qed.

Lemma nibbles_byte h l : 0 <= h < 16 -> 0 <= l < 16 ->
  let b := Z.lor (Z.shiftl h 4) l in
  is_byte b /\ Z.shiftr b 4 = h /\ Z.land b 0x0f = l.
Proof.
  intros Hh Hl b.
  assert (Hin : In (h, l) (list_prod (map Z.of_nat (seq 0 16)) (map Z.of_nat (seq 0 16)))).
  { apply in_prod; apply in_map_iff; [exists (Z.to_nat h)|exists (Z.to_nat l)];
      (split; [lia|apply in_seq; lia]). }
  assert (Hall : forallb (fun '(h, l) =>
      let b := Z.lor (Z.shiftl h 4) l in
      (0 <=? b) && (b <? 256) && (Z.shiftr b 4 =? h) && (Z.land b 0x0f =? l))
      (list_prod (map Z.of_nat (seq 0 16)) (map Z.of_nat (seq 0 16))) = true)
    by (vm_compute; reflexivity).
  rewrite forallb_forall in Hall. apply Hall in Hin. clear Hall. cbv zeta in Hin.
  fold b in Hin. clearbody b. unfold is_byte. unrange. lia.
Qed.

Lemma hex_ascii d : 0 <= d < 16 -> 0 <= hex_of_nibble d <= 0x7F.
Proof. unfold hex_of_nibble. destruct (d <? 10) eqn:E; unrange; lia. Qed.

Lemma encode_hex_ascii bs : Forall is_byte bs -> Forall (fun c => 0 <= c <= 0x7F) (encode_hex bs).
Proof.
  induction 1 as [|b bs Hb _ IH]; [constructor|]. unfold encode_hex in *. cbn [flat_map app].
  destruct (byte_nibbles b Hb) as (H1 & H2 & _).
  repeat constructor; try apply hex_ascii; auto; apply hex_ascii; auto.
Qed.

Lemma length_encode_hex bs : length (encode_hex bs) = (2 * length bs)%nat.
Proof. unfold encode_hex. induction bs; [done|]. cbn [flat_map app length]. lia. Qed.

Lemma decode_pairs_encode bs : Forall is_byte bs -> decode_pairs (encode_hex bs) = Some bs.
Proof.
  induction 1 as [|b bs Hb _ IH]; [done|]. unfold encode_hex in *. cbn [flat_map app decode_pairs].
  destruct (byte_nibbles b Hb) as (H1 & H2 & H3).
  rewrite !nibble_hex by done. cbn [mbind option_bind]. by rewrite IH, H3.
Qed.

Lemma decode_encode_hex bs : Forall is_byte bs -> decode_hex (encode_hex bs) = Some bs.
Proof.
  intros Hb. unfold decode_hex. rewrite as_bytes_ascii by (by apply encode_hex_ascii).
  rewrite length_encode_hex, decode_pairs_encode by done.
  by rewrite (proj2 (Nat.even_spec _)) by (by exists (length bs)).
Qed.

Lemma decode_pairs_sound raw bs : decode_pairs raw = Some bs ->
  encode_hex bs = raw /\ Forall is_byte bs.
Proof.
  revert bs. induction raw as [raw IH] using (induction_ltof1 _ (@length Z)).
  unfold ltof in IH. intros bs H. destruct raw as [|c0 [|c1 r]]; [by injection H as <-|done|].
  cbn [decode_pairs] in H. destruct (nibble_value c0) as [h|] eqn:E0; [|done].
  destruct (nibble_value c1) as [l|] eqn:E1; [|done]. simpl in H.
  destruct (decode_pairs r) as [bs'|] eqn:Er; [|done]. injection H as <-.
  apply hex_nibble in E0 as [<- Hh]. apply hex_nibble in E1 as [<- Hl].
  destruct (IH r) with (bs := bs') as [<- Hbs]; [simpl; lia|done|].
  destruct (nibbles_byte h l Hh Hl) as (Hb & E1 & E2).
  split; [|by constructor]. unfold encode_hex. cbn [flat_map app]. by rewrite E1, E2.
Qed.

Lemma decode_hex_sound text bs : Forall is_scalar text -> decode_hex text = Some bs ->
  text = encode_hex bs /\ Forall is_byte bs.
Proof.
  intros Hs H. unfold decode_hex in H. case_if H.
  apply decode_pairs_sound in H as [Henc Hb]. split; [|done].
  apply as_bytes_inj; [done| |].
  - eapply Forall_impl; [by apply encode_hex_ascii|]. intros c Hc. cbv beta in Hc.
    unfold is_scalar. lia.
  - by rewrite (as_bytes_ascii (encode_hex bs)) by (by apply encode_hex_ascii).
Qed.

(** * Properties *)


Lemma digest_spec data : digest data = sha256_spec data.
Proof. apply finalize_absorbed. apply (absorbed_update new []), absorbed_new. Qed.

(** The zero-padding loop of [finalize] stops at 56 buffered bytes and not
    earlier: the iteration count is the loop's. *)
Lemma pad_zeros_exact h m : absorbed h m ->
  buffered (pad_zeros h) = 56%nat /\
  forall j, (j < pad_count (buffered h))%nat ->
    buffered (Nat.iter j (fun h => update h [0]) h) <> 56%nat.
Proof.
  intros Hh. pose proof (absorbed_buffered h m Hh) as Hb.
  assert (Hn : (buffered h < 64)%nat) by (rewrite Hb; by apply Nat.mod_upper_bound).
  assert (Hj : forall j, buffered (Nat.iter j (fun h => update h [0]) h)
                         = ((buffered h + j) mod 64)%nat).
  { intros j. pose proof (absorbed_iter_zero j h m Hh) as Hi.
    rewrite (absorbed_buffered _ _ Hi), length_app, length_replicate, Hb.
    by rewrite Nat.Div0.add_mod_idemp_l. }
  unfold pad_zeros. rewrite Hj. split; [by apply pad_count_stops|].
  intros j Hlt. rewrite Hj. by apply pad_count_exact.
Qed.

(** The hex codec: every byte string decodes from its encoding, and
    every text that decodes is the lowercase encoding of what it decodes to,
    so a digest has exactly one wire text. *)
Theorem hex_codec bs text :
  (Forall is_byte bs -> decode_hex (encode_hex bs) = Some bs) /\
  (Forall is_scalar text -> decode_hex text = Some bs ->
   text = encode_hex bs /\ Forall is_byte bs).
Proof.
  split; [apply decode_encode_hex|apply decode_hex_sound].
Qed.

(** The FIPS vectors the source's tests pin. *)
Example fips_empty : digest [] = match decode_hex
    (lit "e3b0c44298fc1c149afbf4c8996fb92427ae41e4649b934ca495991b7852b855") with
  | Some d => d | None => [] end.
Proof. vm_compute. reflexivity. Qed.

Example fips_abc : digest (lit "abc") = match decode_hex
    (lit "ba7816bf8f01cfea414140de5dae2223b00361a396177a9cb410ff61f20015ad") with
  | Some d => d | None => [] end.
Proof. vm_compute. reflexivity. Qed.

Lemma length_compress st block : length st = 8%nat -> length (compress st block) = 8%nat.
Proof. intros H. unfold compress. rewrite length_zip_with, H. done. Qed.

Lemma length_digest m : length (digest m) = 32%nat.
Proof.
  rewrite digest_spec. unfold sha256_spec.
  assert (Hl : forall bs st, length st = 8%nat -> length (fold_left compress bs st) = 8%nat).
  { induction bs as [|b bs IH]; intros st Hst; simpl; [done|]. apply IH. by apply length_compress. }
  specialize (Hl (chunks64 (length (pad m) / 64) (pad m)) H0 eq_refl).
  set (st := fold_left _ _ _) in *. clearbody st.
  do 8 (destruct st as [|? st]; [done|]). by destruct st.
Qed.

Lemma digest_bytes m : Forall is_byte (digest m).
Proof.
  rewrite digest_spec. unfold sha256_spec. apply Forall_flat_map.
  apply Forall_forall. intros w _. apply to_be_bytes_byte.
Qed.
