(* ===== verification/Vocabulary.v ===== *)
(** The wire vocabulary ([crates/archivist-protocol/src/vocabulary.rs]) and
    the minting of identity handles ([correlation.rs]): identifier grammars,
    the digest newtypes, the closed enums and canonical UUID text.

    A text newtype is the text its [parse] admitted, a digest newtype its 32
    raw bytes.  The closed-enum macro is the class [ClosedEnum]; each
    instance supplies the variant list and the token of each variant. *)

From S2P Require Import Prelude Text Sha256.

Inductive GrammarError : Type := NotCanonical.

(** * Grammars *)

Definition is_lower_hex (c : Z) : bool := is_digit c || in_range 97 c 102.
Definition is_lowercase (c : Z) : bool := in_range 97 c 122.
Definition is_alphanumeric (c : Z) : bool :=
  is_digit c || in_range 65 c 90 || in_range 97 c 122.

(** Membership in a [matches!] byte set. *)
Definition one_of (c : Z) (set : list Z) : bool := existsb (Z.eqb c) set.

Definition uuid_char_ok (version : Z) (i : nat) (c : Z) : bool :=
  match i with
  | 8%nat | 13%nat | 18%nat | 23%nat => c =? 45
  | 14%nat => c =? 48 + version
  | 19%nat => one_of c (lit "89ab")
  | _ => is_lower_hex c
  end.

Fixpoint uuid_scan (version : Z) (i : nat) (raw : list Z) : bool :=
  match raw with
  | [] => true
  | c :: r => uuid_char_ok version i c && uuid_scan version (S i) r
  end.

Definition uuid_grammar (text : list Z) (version : Z) : bool :=
  let raw := as_bytes text in
  (length raw =? 36)%nat && uuid_scan version 0 raw.

Definition short_token_grammar (text : list Z) : bool :=
  match as_bytes text with
  | [] => false
  | c :: r =>
      (length (c :: r) <=? 64)%nat && (is_lowercase c || is_digit c) &&
      forallb (fun c => is_lowercase c || is_digit c || one_of c (lit "._-")) r
  end.

Definition version_token_grammar (text : list Z) : bool :=
  let raw := as_bytes text in
  (1 <=? length raw)%nat && (length raw <=? 32)%nat &&
  forallb (fun c => is_alphanumeric c || one_of c (lit "._+-")) raw.

Definition opaque_id_grammar (text : list Z) : bool :=
  (1 <=? length (as_bytes text))%nat && (length (as_bytes text) <=? 1024)%nat.

(** [&raw[i..j]]. *)
Definition slice (raw : list Z) (i j : nat) : list Z := take (j - i) (drop i raw).

Definition byte_at (raw : list Z) (i : nat) : Z := nth i raw 0.

Definition timestamp_grammar (text : list Z) : bool :=
  let raw := as_bytes text in
  let digits := forallb is_digit in
  if (35 <? length raw)%nat then false
  else if (length raw <? 20)%nat then false
  else if negb ((byte_at raw 4 =? 45) && (byte_at raw 7 =? 45) && (byte_at raw 10 =? 84)
                && (byte_at raw 13 =? 58) && (byte_at raw 16 =? 58)) then false
  else if negb (digits (slice raw 0 4) && digits (slice raw 5 7) && digits (slice raw 8 10))
  then false
  else if negb (digits (slice raw 11 13) && digits (slice raw 14 16)
                && digits (slice raw 17 19)) then false
  else
    let tail := drop 19 raw in
    let n := length tail in
    if negb (byte_at tail (n - 1) =? 90) then false
    else if (n =? 1)%nat then true
    else if (3 <=? n)%nat && (byte_at tail 0 =? 46)
    then digits (slice tail 1 (n - 1)) && (2 <=? n - 1)%nat && (n - 1 <=? 10)%nat
    else false.

Definition content_type_prefix : list Z := lit "multipart/related; boundary=".

Definition boundary_char (c : Z) : bool :=
  is_alphanumeric c || one_of c (lit "'()+_,.:=?-").

Definition content_type_grammar (text : list Z) : bool :=
  let raw := as_bytes text in
  if (100 <? length raw)%nat || negb (starts_with raw content_type_prefix) then false
  else
    let boundary := drop (length content_type_prefix) raw in
    (1 <=? length boundary)%nat && (length boundary <=? 70)%nat &&
    forallb boundary_char boundary.

Definition code_segment (s : list Z) : bool :=
  match s with
  | [] => false
  | c :: r =>
      (length s <=? 24)%nat && is_lowercase c &&
      forallb (fun c => is_lowercase c || is_digit c || (c =? 95)) r
  end.

(** [iter().position(..)]. *)
Fixpoint position (f : Z -> bool) (l : list Z) : option nat :=
  match l with
  | [] => None
  | x :: r => if f x then Some O else S <$> position f r
  end.

Definition error_code_grammar (text : list Z) : bool :=
  let raw := as_bytes text in
  match position (fun c => c =? 46) raw with
  | Some (S n) => code_segment (take (S n) raw) && code_segment (drop (S (S n)) raw)
  | _ => false
  end.

(** * Newtypes *)

(** [text_newtype!]: adopt the text when its grammar admits it. *)
Definition text_parse (validate : list Z -> bool) (text : list Z) : result GrammarError (list Z) :=
  if validate text then Ok text else Err NotCanonical.

Definition TenantId_parse := text_parse (fun t => uuid_grammar t 4).
Definition ClientId_parse := text_parse (fun t => uuid_grammar t 4).
Definition HarnessId_parse := text_parse short_token_grammar.
Definition GenerationId_parse := text_parse (fun t => uuid_grammar t 7).
Definition RequestId_parse := text_parse (fun t => uuid_grammar t 7).
Definition ProviderAttemptId_parse := text_parse (fun t => uuid_grammar t 7).
Definition TraceId_parse := text_parse (fun t => uuid_grammar t 7).
Definition InferenceRequestId_parse := text_parse (fun t => uuid_grammar t 7).
Definition AdapterId_parse := text_parse short_token_grammar.
Definition VersionToken_parse := text_parse version_token_grammar.
Definition Timestamp_parse := text_parse timestamp_grammar.
Definition ErrorCode_parse := text_parse error_code_grammar.
Definition SafeMessage_parse :=
  text_parse (fun t => (length t <=? 200)%nat &&
    forallb (fun b => in_range 0x20 b 0x7a || (b =? 0x7c) || (b =? 0x7e)) (as_bytes t)).
Definition OpaqueId_parse := text_parse opaque_id_grammar.
Definition ContentType_parse := text_parse content_type_grammar.

(** [ContentType::boundary]. *)
Definition ContentType_boundary (t : list Z) : list Z := drop (length content_type_prefix) t.

(** [digest_newtype!]: 64 lowercase hex characters naming 32 raw bytes. *)
Definition digest_parse (text : list Z) : result GrammarError (list Z) :=
  if negb (length (as_bytes text) =? 64)%nat || negb (forallb is_lower_hex (as_bytes text))
  then Err NotCanonical
  else ok_or (decode_hex text) NotCanonical.

Definition to_hex (raw : list Z) : list Z := encode_hex raw.

(** [Ed25519Signature::parse]: 128 lowercase hex characters, 64 raw bytes. *)
Definition Ed25519Signature_parse (text : list Z) : result GrammarError (list Z) :=
  if negb (length (as_bytes text) =? 128)%nat || negb (forallb is_lower_hex (as_bytes text))
  then Err NotCanonical
  else ok_or (decode_hex text) NotCanonical.

(** [KeyId::from_public_key]. *)
Definition KeyId_from_public_key (public : list Z) : list Z := digest public.

(** * Timestamps *)

Definition decimal (l : list Z) : Z := fold_left (fun acc c => acc * 10 + (c - 48)) l 0.

Definition days_in_month (year month : Z) : option Z :=
  let leap := (year mod 4 =? 0) && (negb (year mod 100 =? 0) || (year mod 400 =? 0)) in
  if one_of month [1; 3; 5; 7; 8; 10; 12] then Some 31
  else if one_of month [4; 6; 9; 11] then Some 30
  else if month =? 2 then Some (if leap then 29 else 28)
  else None.

Definition calendar_valid (text : list Z) : bool :=
  let raw := as_bytes text in
  let year := decimal (slice raw 0 4) in
  let month := decimal (slice raw 5 7) in
  let day := decimal (slice raw 8 10) in
  let hour := decimal (slice raw 11 13) in
  let minute := decimal (slice raw 14 16) in
  let second := decimal (slice raw 17 19) in
  if negb (in_range 1 month 12) then false
  else
    match days_in_month year month with
    | None => false
    | Some days =>
        in_range 1 day days && (hour <? 24) && (minute <? 60) && (second <=? 60)
    end.

(** * Closed enums *)

Class ClosedEnum (E : Type) := {
  variants : list E;
  token : E -> list Z;
  variants_complete : forall e, e ∈ variants;
  token_inj : forall a b, token a = token b -> a = b;
}.

(** [closed_enum!]'s [parse]: the variant whose token the text is. *)
Definition enum_parse {E} `{ClosedEnum E} (text : list Z) : result GrammarError E :=
  ok_or (List.find (fun e => bool_decide (text = token e)) variants) NotCanonical.

Inductive ArtifactKind := FileSlice | DatabaseProjection.
Inductive RangeKind := ByteRange | EventRange.
Inductive IdSource := Upstream | Synthetic.
Inductive TransportEncoding := Identity | Zstd.
Inductive ChecksumAlgorithm := ChecksumSha256.
Inductive StorageOutcome :=
| Created | AlreadyPresent | ReplacedEquivalent | LogicallyCommittedUnknownPhysicalResult.
Inductive SignatureAlgorithm := Ed25519.
Inductive StorageProfile := ZstdV1.
Inductive InferenceArtifactKind :=
| KProviderRequest | KProviderResponse | KStreamingEvent | KRetry | KUsage | KTransportError.
Inductive RetryReason :=
| RHttpStatus | RRateLimit | RTransportError | RStreamIncomplete | RTimeout.
Inductive UsageSource := ResponseBody | StreamEvent.
Inductive TransportErrorClass :=
| Connect | Dns | TlsHandshake | ReadTimeout | WriteTimeout | ConnectionReset
| StreamInterrupted | TransferDecode | Other.

Definition ArtifactKind_token (k : ArtifactKind) : list Z :=
  match k with FileSlice => lit "file-slice" | DatabaseProjection => lit "database-projection" end.
Definition RangeKind_token (k : RangeKind) : list Z :=
  match k with ByteRange => lit "byte" | EventRange => lit "event" end.
Definition IdSource_token (i : IdSource) : list Z :=
  match i with Upstream => lit "upstream" | Synthetic => lit "synthetic" end.
Definition TransportEncoding_token (e : TransportEncoding) : list Z :=
  match e with Identity => lit "identity" | Zstd => lit "zstd" end.
Definition ChecksumAlgorithm_token (a : ChecksumAlgorithm) : list Z :=
  match a with ChecksumSha256 => lit "sha256" end.
Definition StorageOutcome_token (o : StorageOutcome) : list Z :=
  match o with
  | Created => lit "created"
  | AlreadyPresent => lit "already_present"
  | ReplacedEquivalent => lit "replaced_equivalent"
  | LogicallyCommittedUnknownPhysicalResult =>
      lit "logically_committed_unknown_physical_result"
  end.
Definition SignatureAlgorithm_token (a : SignatureAlgorithm) : list Z :=
  match a with Ed25519 => lit "ed25519" end.
Definition StorageProfile_token (p : StorageProfile) : list Z :=
  match p with ZstdV1 => lit "zstd-v1" end.
Definition RetryReason_token (r : RetryReason) : list Z :=
  match r with
  | RHttpStatus => lit "http-status"
  | RRateLimit => lit "rate-limit"
  | RTransportError => lit "transport-error"
  | RStreamIncomplete => lit "stream-incomplete"
  | RTimeout => lit "timeout"
  end.
Definition UsageSource_token (u : UsageSource) : list Z :=
  match u with ResponseBody => lit "response-body" | StreamEvent => lit "stream-event" end.
Definition InferenceArtifactKind_token (k : InferenceArtifactKind) : list Z :=
  match k with
  | KProviderRequest => lit "provider-request"
  | KProviderResponse => lit "provider-response"
  | KStreamingEvent => lit "streaming-event"
  | KRetry => lit "retry"
  | KUsage => lit "usage"
  | KTransportError => lit "transport-error"
  end.
Definition TransportErrorClass_token (c : TransportErrorClass) : list Z :=
  match c with
  | Connect => lit "connect"
  | Dns => lit "dns"
  | TlsHandshake => lit "tls-handshake"
  | ReadTimeout => lit "read-timeout"
  | WriteTimeout => lit "write-timeout"
  | ConnectionReset => lit "connection-reset"
  | StreamInterrupted => lit "stream-interrupted"
  | TransferDecode => lit "transfer-decode"
  | Other => lit "other"
  end.

#[local] Ltac solve_complete := intros []; apply list_elem_of_In; simpl; tauto.
#[local] Ltac solve_token_inj := intros [] []; vm_compute; congruence.

#[export] Program Instance ArtifactKind_enum : ClosedEnum ArtifactKind :=
  {| variants := [FileSlice; DatabaseProjection]; token := ArtifactKind_token |}.
Next Obligation. solve_complete. Qed.
Next Obligation. solve_token_inj. Qed.

#[export] Program Instance RangeKind_enum : ClosedEnum RangeKind :=
  {| variants := [ByteRange; EventRange]; token := RangeKind_token |}.
Next Obligation. solve_complete. Qed.
Next Obligation. solve_token_inj. Qed.

#[export] Program Instance IdSource_enum : ClosedEnum IdSource :=
  {| variants := [Upstream; Synthetic]; token := IdSource_token |}.
Next Obligation. solve_complete. Qed.
Next Obligation. solve_token_inj. Qed.

#[export] Program Instance TransportEncoding_enum : ClosedEnum TransportEncoding :=
  {| variants := [Identity; Zstd]; token := TransportEncoding_token |}.
Next Obligation. solve_complete. Qed.
Next Obligation. solve_token_inj. Qed.

#[export] Program Instance ChecksumAlgorithm_enum : ClosedEnum ChecksumAlgorithm :=
  {| variants := [ChecksumSha256]; token := ChecksumAlgorithm_token |}.
Next Obligation. solve_complete. Qed.
Next Obligation. solve_token_inj. Qed.

#[export] Program Instance StorageOutcome_enum : ClosedEnum StorageOutcome :=
  {| variants := [Created; AlreadyPresent; ReplacedEquivalent;
                  LogicallyCommittedUnknownPhysicalResult];
     token := StorageOutcome_token |}.
Next Obligation. solve_complete. Qed.
Next Obligation. solve_token_inj. Qed.

#[export] Program Instance SignatureAlgorithm_enum : ClosedEnum SignatureAlgorithm :=
  {| variants := [Ed25519]; token := SignatureAlgorithm_token |}.
Next Obligation. solve_complete. Qed.
Next Obligation. solve_token_inj. Qed.

#[export] Program Instance StorageProfile_enum : ClosedEnum StorageProfile :=
  {| variants := [ZstdV1]; token := StorageProfile_token |}.
Next Obligation. solve_complete. Qed.
Next Obligation. solve_token_inj. Qed.

#[export] Program Instance RetryReason_enum : ClosedEnum RetryReason :=
  {| variants := [RHttpStatus; RRateLimit; RTransportError; RStreamIncomplete; RTimeout];
     token := RetryReason_token |}.
Next Obligation. solve_complete. Qed.
Next Obligation. solve_token_inj. Qed.

#[export] Program Instance UsageSource_enum : ClosedEnum UsageSource :=
  {| variants := [ResponseBody; StreamEvent]; token := UsageSource_token |}.
Next Obligation. solve_complete. Qed.
Next Obligation. solve_token_inj. Qed.

#[export] Program Instance InferenceArtifactKind_enum : ClosedEnum InferenceArtifactKind :=
  {| variants := [KProviderRequest; KProviderResponse; KStreamingEvent; KRetry; KUsage;
                  KTransportError];
     token := InferenceArtifactKind_token |}.
Next Obligation. solve_complete. Qed.
Next Obligation. solve_token_inj. Qed.

#[export] Program Instance TransportErrorClass_enum : ClosedEnum TransportErrorClass :=
  {| variants := [Connect; Dns; TlsHandshake; ReadTimeout; WriteTimeout; ConnectionReset;
                  StreamInterrupted; TransferDecode; Other];
     token := TransportErrorClass_token |}.
Next Obligation. solve_complete. Qed.
Next Obligation. solve_token_inj. Qed.

(** * Minting UUID text *)

(** [canonical_uuid_text]: two hex digits per byte, a hyphen before bytes
    4, 6, 8 and 10. *)
Fixpoint uuid_text_from (i : nat) (bytes : list Z) : list Z :=
  match bytes with
  | [] => []
  | b :: r =>
      (if existsb (Nat.eqb i) [4; 6; 8; 10]%nat then [45] else [])
      ++ hex_of_nibble (Z.shiftr b 4) :: hex_of_nibble (Z.land b 0x0f)
      :: uuid_text_from (S i) r
  end.

Definition canonical_uuid_text (bytes : list Z) : list Z := uuid_text_from 0 bytes.

(** [splitmix64] and [fill_fallback], the generator used when no entropy
    device can be read, on a clock reading, a process id and a counter. *)
Definition splitmix64 (value : Z) : Z :=
  let value := wrap_add64 value 0x9e3779b97f4a7c15 in
  let value := wrap_mul64 (Z.lxor value (Z.shiftr value 30)) 0xbf58476d1ce4e5b9 in
  let value := wrap_mul64 (Z.lxor value (Z.shiftr value 27)) 0x94d049bb133111eb in
  Z.lxor value (Z.shiftr value 31).

Definition rotate_left64 (x k : Z) : Z :=
  Z.lor (Z.shiftl x k mod u64_modulus) (Z.shiftr x (64 - k)).

Fixpoint fallback_bytes (n : nat) (index state : Z) : list Z :=
  match n with
  | O => []
  | S n' =>
      let state := splitmix64 (wrap_add64 state index) in
      Z.shiftr state 56 :: fallback_bytes n' (index + 1) state
  end.

Definition fill_fallback (now pid sequence : Z) (n : nat) : list Z :=
  fallback_bytes n 0 (Z.lxor (Z.lxor now (rotate_left64 pid 17)) sequence).

(** [mint_uuid_v7_text] on a clock reading and nine random bytes. *)
Definition uuid_v7_bytes (milliseconds : Z) (random : list Z) : list Z :=
  drop 2 (to_be_bytes 8 milliseconds)
  ++ [Z.lor 0x70 (Z.shiftr (byte_at random 0) 4);
      Z.lor (Z.shiftl (byte_at random 0) 4 mod 256) (Z.shiftr (byte_at random 1) 4);
      Z.lor 0x80 (Z.land (byte_at random 1) 0x3f)]
  ++ drop 2 random.

Definition mint_uuid_v7_text (milliseconds : Z) (random : list Z) : list Z :=
  canonical_uuid_text (uuid_v7_bytes milliseconds random).

(** [mint_uuid_v4_text] on sixteen random bytes. *)
Definition uuid_v4_bytes (random : list Z) : list Z :=
  let bytes := <[6%nat := Z.lor 0x40 (Z.land (byte_at random 6) 0x0f)]> random in
  <[8%nat := Z.lor 0x80 (Z.land (byte_at random 8) 0x3f)]> bytes.

Definition mint_uuid_v4_text (random : list Z) : list Z :=
  canonical_uuid_text (uuid_v4_bytes random).

(** * Facts *)

Lemma enum_parse_iff {E} `{ClosedEnum E} t (e : E) : enum_parse t = Ok e <-> t = token e.
Proof.
  unfold enum_parse, ok_or. split.
  - destruct (List.find _ _) as [e'|] eqn:Hf; intros [= <-].
    apply List.find_some in Hf as [_ Hb]. by apply bool_decide_eq_true in Hb.
  - intros ->. destruct (List.find _ _) as [e'|] eqn:Hf.
    + apply List.find_some in Hf as [_ Hb]. apply bool_decide_eq_true in Hb.
      by rewrite (token_inj e e' Hb).
    + apply (List.find_none _ _ ) with (x := e) in Hf; [|apply list_elem_of_In, variants_complete].
      apply bool_decide_eq_false in Hf. done.
Qed.

Lemma hex_nibble_lower d : 0 <= d < 16 -> is_lower_hex (hex_of_nibble d) = true.
Proof.
  intros Hd. unfold is_lower_hex, is_digit, in_range, hex_of_nibble.
  destruct (d <? 10) eqn:?; lia.
Qed.

Lemma byte_high b : is_byte b -> 0 <= Z.shiftr b 4 < 16.
Proof. unfold is_byte. rewrite Z.shiftr_div_pow2 by lia. zify_divmod. Qed.

Lemma byte_low b : 0 <= Z.land b 0x0f < 16.
Proof. change 0x0f with (Z.ones 4). rewrite Z.land_ones by lia. apply Z.mod_pos_bound. lia. Qed.

Lemma encode_hex_lower bs : Forall is_byte bs -> forallb is_lower_hex (encode_hex bs) = true.
Proof.
  induction 1 as [|b bs Hb _ IH]; [done|]. simpl.
  rewrite !hex_nibble_lower, IH; auto using byte_high, byte_low.
Qed.

Lemma digest_parse_to_hex raw : Forall is_byte raw -> length raw = 32%nat ->
  digest_parse (to_hex raw) = Ok raw.
Proof.
  intros Hb Hl. unfold digest_parse, to_hex.
  rewrite as_bytes_ascii by auto using encode_hex_ascii.
  rewrite length_encode_hex, Hl, encode_hex_lower, decode_encode_hex by done. done.
Qed.

Lemma is_lower_hex_ascii c : is_lower_hex c = true -> 0 <= c <= 0x7F.
Proof. unfold is_lower_hex, is_digit, in_range. lia. Qed.

(** A text whose UTF-8 bytes are all below 0x80 is its own byte string. *)
Lemma encode_utf8_high c : is_scalar c -> 0x7F < c -> exists b r, encode_utf8 c = b :: r /\ 0x7F < b.
Proof.
  unfold is_scalar, encode_utf8. intros Hc Hgt.
  repeat case_match; unrange; try lia; eexists _, _; (split; [reflexivity|]).
  all: rewrite ?Z.shiftr_div_pow2 by lia; zify_divmod.
Qed.

Lemma as_bytes_ascii_inv (P : Z -> bool) t : Forall is_scalar t ->
  (forall b, P b = true -> 0 <= b <= 0x7F) -> forallb P (as_bytes t) = true -> as_bytes t = t.
Proof.
  intros Ht HP. induction Ht as [|c t Hc Ht IH]; [done|].
  change (c :: t) with ([c] ++ t). rewrite as_bytes_app, forallb_app. intros [H1 H2]%andb_true_iff.
  rewrite IH by done. f_equal. unfold as_bytes in *. simpl in *. rewrite app_nil_r in *.
  destruct (decide (0x7F < c)) as [Hgt|].
  - destruct (encode_utf8_high c Hc Hgt) as (b & r & E & Hb). rewrite E in H1. simpl in H1.
    apply andb_true_iff in H1 as [H1 _]. apply HP in H1. lia.
  - apply encode_utf8_1. unfold is_scalar in Hc. lia.
Qed.

Lemma digest_parse_sound t raw : Forall is_scalar t -> digest_parse t = Ok raw ->
  t = to_hex raw /\ length raw = 32%nat /\ Forall is_byte raw.
Proof.
  intros Ht. unfold digest_parse, to_hex, ok_or.
  destruct (_ || _) eqn:E; [discriminate|]. apply orb_false_iff in E as [E1 _].
  apply negb_false_iff, Nat.eqb_eq in E1.
  destruct (decode_hex t) as [bs|] eqn:Hd; intros [= <-].
  apply decode_hex_sound in Hd as [-> Hb]; [|done].
  rewrite as_bytes_ascii, length_encode_hex in E1 by (by apply encode_hex_ascii). split_and!; [done|lia|done].
Qed.

Lemma signature_parse_sound t raw : Forall is_scalar t -> Ed25519Signature_parse t = Ok raw ->
  t = to_hex raw /\ length raw = 64%nat /\ Forall is_byte raw.
Proof.
  intros Ht. unfold Ed25519Signature_parse, to_hex, ok_or.
  destruct (_ || _) eqn:E; [discriminate|]. apply orb_false_iff in E as [E1 _].
  apply negb_false_iff, Nat.eqb_eq in E1.
  destruct (decode_hex t) as [bs|] eqn:Hd; intros [= <-].
  apply decode_hex_sound in Hd as [-> Hb]; [|done].
  rewrite as_bytes_ascii, length_encode_hex in E1 by (by apply encode_hex_ascii). split_and!; [done|lia|done].
Qed.

(** Sixteen bytes with version and variant nibbles in place print as
    canonical UUID text. *)
Lemma uuid_text_grammar v b0 b1 b2 b3 b4 b5 b6 b7 b8 b9 b10 b11 b12 b13 b14 b15 :
  let bs := [b0; b1; b2; b3; b4; b5; b6; b7; b8; b9; b10; b11; b12; b13; b14; b15] in
  Forall is_byte bs -> 0 <= v < 10 -> Z.shiftr b6 4 = v -> 8 <= Z.shiftr b8 4 <= 11 ->
  uuid_grammar (canonical_uuid_text bs) v = true.
Proof.
  intros bs Hb Hv H6 H8.
  assert (Hasc : Forall (fun c => 0 <= c <= 0x7F) (canonical_uuid_text bs)).
  { repeat apply Forall_cons in Hb as [? Hb].
    unfold bs, canonical_uuid_text. simpl.
    repeat (apply Forall_cons; split; [first [apply hex_ascii; auto using byte_high, byte_low | lia]|]).
    constructor. }
  unfold uuid_grammar. rewrite (as_bytes_ascii _ Hasc).
  repeat apply Forall_cons in Hb as [? Hb].
  unfold bs, canonical_uuid_text. simpl. rewrite H6.
  rewrite !hex_nibble_lower by auto using byte_high, byte_low.
  assert (E6 : (hex_of_nibble v =? 48 + v) = true) by (unfold hex_of_nibble; destruct (v <? 10) eqn:?; lia).
  assert (E8 : one_of (hex_of_nibble (Z.shiftr b8 4)) (lit "89ab") = true).
  { assert (Z.shiftr b8 4 = 8 \/ Z.shiftr b8 4 = 9 \/ Z.shiftr b8 4 = 10 \/ Z.shiftr b8 4 = 11)
      as [E|[E|[E|E]]] by lia; rewrite E; reflexivity. }
  simpl in E6, E8. rewrite E6, E8. reflexivity.
Qed.

Lemma is_byte_land b : is_byte b <-> Z.land b (Z.ones 8) = b.
Proof.
  rewrite Z.land_ones by lia. unfold is_byte. split.
  - intros. by apply Z.mod_small.
  - intros <-. by apply Z.mod_pos_bound.
Qed.

Lemma lor_byte a b : is_byte a -> is_byte b -> is_byte (Z.lor a b).
Proof. rewrite !is_byte_land, Z.land_lor_distr_l. by intros -> ->. Qed.

Lemma land_byte a b : is_byte a -> is_byte (Z.land a b).
Proof.
  rewrite !is_byte_land. intros Ha.
  by rewrite <- Z.land_assoc, (Z.land_comm b), Z.land_assoc, Ha.
Qed.

Lemma shiftr_byte b k : 0 <= k -> is_byte b -> is_byte (Z.shiftr b k).
Proof.
  unfold is_byte. intros Hk Hb. rewrite Z.shiftr_div_pow2 by done.
  split; [apply Z.div_pos; lia|]. apply Z.le_lt_trans with b; [|lia].
  apply Z.div_le_upper_bound; nia.
Qed.

(** A test of every byte value, decided by evaluation. *)
Lemma every_byte (P : Z -> bool) : forallb P (seqZ 0 256) = true -> forall b, is_byte b -> P b = true.
Proof.
  intros H b Hb. rewrite forallb_forall in H. apply H, list_elem_of_In, elem_of_seqZ.
  unfold is_byte in Hb. lia.
Qed.

Lemma version_nibble k b : k = 0x40 \/ k = 0x70 -> is_byte b -> 0 <= b < 16 ->
  Z.shiftr (Z.lor k b) 4 = k / 16.
Proof.
  intros Hk Hb Hlt. rewrite Z.shiftr_lor, (Z.shiftr_div_pow2 b), (Z.div_small b) by lia.
  by destruct Hk as [-> | ->].
Qed.

Lemma variant_nibble b : is_byte b -> 8 <= Z.shiftr (Z.lor 0x80 (Z.land b 0x3f)) 4 <= 11.
Proof.
  intros Hb. cut (in_range 8 (Z.shiftr (Z.lor 0x80 (Z.land b 0x3f)) 4) 11 = true).
  { unfold in_range. lia. }
  by apply (every_byte (fun b => in_range 8 (Z.shiftr (Z.lor 0x80 (Z.land b 0x3f)) 4) 11)).
Qed.

#[local] Ltac solve_bytes :=
  repeat (apply Forall_cons; split); try done; try apply lor_byte;
  first [apply shiftr_byte; [lia|done] | apply land_byte; done
        | apply Z.mod_pos_bound; lia | unfold is_byte; lia].

Lemma mint_v7_grammar ms random : length random = 9%nat -> Forall is_byte random ->
  uuid_grammar (mint_uuid_v7_text ms random) 7 = true.
Proof.
  intros Hl Hb. destruct random as [|r0 [|r1 [|r2 [|r3 [|r4 [|r5 [|r6 [|r7 [|r8 [|]]]]]]]]]];
    try discriminate Hl.
  pose proof (to_be_bytes_byte 8 ms) as Ht.
  unfold mint_uuid_v7_text, uuid_v7_bytes, byte_at. simpl in *.
  repeat match goal with H : Forall _ (_ :: _) |- _ => apply Forall_cons in H as [? H] end.
  apply uuid_text_grammar; [solve_bytes|lia| |by apply variant_nibble].
  apply (version_nibble 0x70); [auto|by apply shiftr_byte|by apply byte_high].
Qed.

Lemma mint_v4_grammar random : length random = 16%nat -> Forall is_byte random ->
  uuid_grammar (mint_uuid_v4_text random) 4 = true.
Proof.
  intros Hl Hb.
  do 16 (destruct random as [|? random]; [discriminate Hl|]). destruct random; [|discriminate Hl].
  unfold mint_uuid_v4_text, uuid_v4_bytes, byte_at. simpl in *.
  repeat match goal with H : Forall _ (_ :: _) |- _ => apply Forall_cons in H as [? H] end.
  apply uuid_text_grammar; [solve_bytes|lia| |by apply variant_nibble].
  apply (version_nibble 0x40); [auto|by apply land_byte|by apply byte_low].
Qed.

Lemma uuid_grammar_length t v : uuid_grammar t v = true -> length (as_bytes t) = 36%nat.
Proof. unfold uuid_grammar. intros [H _]%andb_true_iff. by apply Nat.eqb_eq. Qed.

Lemma splitmix64_u64 v : is_u64 v -> is_u64 (splitmix64 v).
Proof.
  intros Hv. unfold splitmix64. set (w := wrap_mul64 _ 0x94d049bb133111eb).
  assert (Hw : 0 <= w < 2 ^ 64) by (apply Z.mod_pos_bound; done).
  assert (0 <= Z.shiftr w 31 < 2 ^ 64).
  { rewrite Z.shiftr_div_pow2 by lia. split; [apply Z.div_pos; lia|].
    apply Z.div_lt_upper_bound; lia. }
  unfold is_u64, U64_MAX. rewrite <- (Z.mod_small (Z.lxor w (Z.shiftr w 31)) (2 ^ 64)).
  { pose proof (Z.mod_pos_bound (Z.lxor w (Z.shiftr w 31)) (2 ^ 64)). lia. }
  split; [by apply Z.lxor_nonneg; lia|].
  destruct (decide (Z.lxor w (Z.shiftr w 31) = 0)) as [->|Hne]; [lia|].
  apply Z.log2_lt_pow2; [pose proof (proj2 (Z.lxor_nonneg w (Z.shiftr w 31))); lia|].
  eapply Z.le_lt_trans; [apply Z.log2_lxor; lia|].
  apply Z.max_lub_lt.
  - destruct (decide (w = 0)) as [->|]; [done|]. apply Z.log2_lt_pow2; lia.
  - destruct (decide (Z.shiftr w 31 = 0)) as [->|]; [done|]. apply Z.log2_lt_pow2; lia.
Qed.

Lemma fallback_bytes_ok n index state :
  length (fallback_bytes n index state) = n /\ Forall is_byte (fallback_bytes n index state).
Proof.
  revert index state. induction n as [|n IH]; intros index state; simpl; [done|].
  destruct (IH (index + 1) (splitmix64 (wrap_add64 state index))) as [-> HF].
  split; [done|]. constructor; [|done].
  assert (Hs : is_u64 (splitmix64 (wrap_add64 state index))).
  { apply splitmix64_u64. unfold is_u64, U64_MAX, wrap_add64.
    pose proof (Z.mod_pos_bound (state + index) u64_modulus eq_refl). unfold u64_modulus in *. lia. }
  unfold is_u64, U64_MAX in Hs. unfold is_byte. rewrite Z.shiftr_div_pow2 by lia.
  split; [apply Z.div_pos; lia|apply Z.div_lt_upper_bound; lia].
Qed.

(** * Properties *)

(** Minting cannot panic.  Whatever the clock and the entropy source
    return, the version 7 text is accepted by every UUIDv7 identifier's
    [parse] and the version 4 text by the UUIDv4 and opaque-id grammars; the
    clock-and-counter fallback supplies valid bytes for both. *)
Theorem minted_ids_canonical :
  (forall ms random, length random = 9%nat -> Forall is_byte random ->
     RequestId_parse (mint_uuid_v7_text ms random) = Ok (mint_uuid_v7_text ms random) /\
     ProviderAttemptId_parse (mint_uuid_v7_text ms random) = Ok (mint_uuid_v7_text ms random)) /\
  (forall random, length random = 16%nat -> Forall is_byte random ->
     ClientId_parse (mint_uuid_v4_text random) = Ok (mint_uuid_v4_text random) /\
     OpaqueId_parse (mint_uuid_v4_text random) = Ok (mint_uuid_v4_text random)) /\
  (forall now pid sequence n,
     length (fill_fallback now pid sequence n) = n /\
     Forall is_byte (fill_fallback now pid sequence n)).
Proof.
  split_and!.
  - intros ms random Hl Hb. unfold RequestId_parse, ProviderAttemptId_parse, text_parse.
    by rewrite mint_v7_grammar.
  - intros random Hl Hb. unfold ClientId_parse, OpaqueId_parse, text_parse, opaque_id_grammar.
    pose proof (mint_v4_grammar random Hl Hb) as Hg.
    by rewrite (uuid_grammar_length _ _ Hg), Hg.
  - intros. apply fallback_bytes_ok.
Qed.

(** The closed enums fail closed: a text parses to a variant exactly
    when it is that variant's token. *)
Theorem closed_enum_exact {E} `{ClosedEnum E} t (e : E) :
  enum_parse t = Ok e <-> t = token e.
Proof. apply enum_parse_iff. Qed.

(** Digest newtypes have one wire text: parsing returns 32 bytes and
    only for their lowercase hex, and every 32-byte digest parses back. *)
Theorem digest_wire_text t raw :
  (Forall is_byte raw /\ length raw = 32%nat -> digest_parse (to_hex raw) = Ok raw) /\
  (Forall is_scalar t -> digest_parse t = Ok raw ->
   t = to_hex raw /\ length raw = 32%nat /\ Forall is_byte raw).
Proof. split; [intros []; by apply digest_parse_to_hex | apply digest_parse_sound]. Qed.

(** The nine random bytes of a version 7 UUID are not 74 independent
    bits: the low two bits of byte 7 always equal bits 4 and 5 of byte 8. *)
Theorem uuid_v7_repeats_two_bits ms random :
  length random = 9%nat -> Forall is_byte random ->
  let bytes := uuid_v7_bytes ms random in
  Z.land (byte_at bytes 7) 3 = Z.land (Z.shiftr (byte_at bytes 8) 4) 3.
Proof.
  intros Hl Hb. do 2 (destruct random as [|? random]; [discriminate Hl|]).
  repeat match goal with H : Forall _ (_ :: _) |- _ => apply Forall_cons in H as [? H] end.
  unfold uuid_v7_bytes, byte_at. simpl nth. cbv beta.
  rewrite Z.land_lor_distr_l.
  assert (E0 : Z.land (Z.shiftl z 4 mod 256) 3 = 0).
  { apply Z.eqb_eq. by apply (every_byte (fun b => Z.land (Z.shiftl b 4 mod 256) 3 =? 0)). }
  rewrite E0. apply Z.eqb_eq. by apply (every_byte (fun b =>
    Z.lor 0 (Z.land (Z.shiftr b 4) 3) =? Z.land (Z.shiftr (Z.lor 0x80 (Z.land b 0x3f)) 4) 3)).
Qed.

Lemma uuid_v7_repeats_two_bits_witness :
  Z.land (byte_at (uuid_v7_bytes 1789000000000 [255; 170; 1; 2; 3; 4; 5; 6; 7]) 7) 3 = 2.
Proof.
  rewrite (uuid_v7_repeats_two_bits 1789000000000 [255; 170; 1; 2; 3; 4; 5; 6; 7]).
  - reflexivity.
  - reflexivity.
  - repeat constructor; discriminate.
Defined.
