(* ===== verification/Derivation.v ===== *)
(** Identity derivations ([crates/archivist-protocol/src/derivation.rs]): the
    hashing and the in-the-clear frame builders, and the labelled identities
    built with them.

    [FrameBuilder] is the code's hasher-backed builder and [PreimageBuilder]
    its byte-backed twin; both satisfy the interface [Framing], so that what
    a sequence of pushes means is proved once.  A text is a list of scalar
    values and hashes as its UTF-8 bytes, a digest is its 32 raw bytes. *)

From S2P Require Import Prelude Text Sha256 Vocabulary.

Definition LABEL_DELIMITER : Z := 0x00.

(** * The hashing builder *)

Definition FrameBuilder := Sha256.Sha256.

Definition FrameBuilder_new (label : list Z) : FrameBuilder :=
  update (update Sha256.new (as_bytes label)) [LABEL_DELIMITER].

Definition FrameBuilder_push_text (b : FrameBuilder) (text : list Z) : FrameBuilder :=
  let bytes := as_bytes text in
  update (update b (to_be_bytes 8 (zlen bytes))) bytes.

Definition FrameBuilder_push_digest32 (b : FrameBuilder) (bytes : list Z) : FrameBuilder :=
  update (update b (to_be_bytes 8 32)) bytes.

Definition FrameBuilder_push_u63 (b : FrameBuilder) (value : Z) : FrameBuilder :=
  update (update b (to_be_bytes 8 8)) (to_be_bytes 8 value).

Definition FrameBuilder_push_bytes (b : FrameBuilder) (bytes : list Z) : FrameBuilder :=
  update (update b (to_be_bytes 8 (zlen bytes))) bytes.

Definition FrameBuilder_finish (b : FrameBuilder) : list Z := finalize b.

(** * The byte builder *)

Record PreimageBuilder := mkPreimage { bytes : list Z }.

Definition PreimageBuilder_new (label : list Z) : PreimageBuilder :=
  mkPreimage (as_bytes label ++ [LABEL_DELIMITER]).

Definition push_len (b : PreimageBuilder) (len : Z) : PreimageBuilder :=
  mkPreimage (bytes b ++ to_be_bytes 8 len).

Definition PreimageBuilder_push_text (b : PreimageBuilder) (text : list Z) : PreimageBuilder :=
  mkPreimage (bytes (push_len b (zlen (as_bytes text))) ++ as_bytes text).

Definition PreimageBuilder_push_digest32 (b : PreimageBuilder) (raw : list Z) : PreimageBuilder :=
  mkPreimage (bytes (push_len b 32) ++ raw).

Definition PreimageBuilder_push_u63 (b : PreimageBuilder) (value : Z) : PreimageBuilder :=
  mkPreimage (bytes (push_len b 8) ++ to_be_bytes 8 value).

Definition PreimageBuilder_finish (b : PreimageBuilder) : list Z := bytes b.

(** * Identities *)

Definition session_hash (tenant_id origin_client_id harness upstream_session_id : list Z)
  : list Z :=
  let frame := FrameBuilder_new (lit "session-v1") in
  let frame := FrameBuilder_push_text frame tenant_id in
  let frame := FrameBuilder_push_text frame origin_client_id in
  let frame := FrameBuilder_push_text frame harness in
  let frame := FrameBuilder_push_text frame upstream_session_id in
  FrameBuilder_finish frame.

Definition artifact_hash (session : list Z) (artifact_kind : ArtifactKind)
  (adapter_id adapter_projection_version adapter_artifact_id : list Z) : list Z :=
  let frame := FrameBuilder_new (lit "artifact-v1") in
  let frame := FrameBuilder_push_digest32 frame session in
  let frame := FrameBuilder_push_text frame (token artifact_kind) in
  let frame := FrameBuilder_push_text frame adapter_id in
  let frame := FrameBuilder_push_text frame adapter_projection_version in
  let frame := FrameBuilder_push_text frame adapter_artifact_id in
  FrameBuilder_finish frame.

Definition blob_digest (canonical_uncompressed_bytes : list Z) : list Z :=
  digest canonical_uncompressed_bytes.

Definition occurrence_id (session artifact generation : list Z) (range_kind : RangeKind)
  (range_start range_end : Z) (blob : list Z) : list Z :=
  let frame := FrameBuilder_new (lit "occurrence-v1") in
  let frame := FrameBuilder_push_digest32 frame session in
  let frame := FrameBuilder_push_digest32 frame artifact in
  let frame := FrameBuilder_push_text frame generation in
  let frame := FrameBuilder_push_text frame (token range_kind) in
  let frame := FrameBuilder_push_u63 frame range_start in
  let frame := FrameBuilder_push_u63 frame range_end in
  let frame := FrameBuilder_push_digest32 frame blob in
  FrameBuilder_finish frame.

Definition attestation_id (occurrence uploader_client_id request_id : list Z) : list Z :=
  let frame := FrameBuilder_new (lit "attestation-v1") in
  let frame := FrameBuilder_push_digest32 frame occurrence in
  let frame := FrameBuilder_push_text frame uploader_client_id in
  let frame := FrameBuilder_push_text frame request_id in
  FrameBuilder_finish frame.

(** [str]'s order is the order of the UTF-8 bytes. *)
Definition text_leb (a b : list Z) : bool := lex_leb (as_bytes a) (as_bytes b).

Definition export_selection_digest (tenant_id inventory_digest : list Z)
  (occurrence_keys : list (list Z)) : list Z :=
  let ordered := sort_by text_leb occurrence_keys in
  let frame := FrameBuilder_new (lit "export-selection-v1") in
  let frame := FrameBuilder_push_text frame tenant_id in
  let frame := FrameBuilder_push_digest32 frame inventory_digest in
  let frame := FrameBuilder_push_u63 frame (zlen ordered) in
  let frame := fold_left FrameBuilder_push_text ordered frame in
  FrameBuilder_finish frame.

Definition ingest_attempt_signing_input
  (http_method route content_type request_content_digest envelope_digest
   payload_canonical_digest payload_transport_digest uploader_key_id : list Z)
  (authorization_epoch : Z) (authorization_timestamp : list Z) : list Z :=
  let frame := PreimageBuilder_new (lit "ingest-attempt-v1") in
  let frame := PreimageBuilder_push_text frame http_method in
  let frame := PreimageBuilder_push_text frame route in
  let frame := PreimageBuilder_push_text frame content_type in
  let frame := PreimageBuilder_push_digest32 frame request_content_digest in
  let frame := PreimageBuilder_push_digest32 frame envelope_digest in
  let frame := PreimageBuilder_push_digest32 frame payload_canonical_digest in
  let frame := PreimageBuilder_push_digest32 frame payload_transport_digest in
  let frame := PreimageBuilder_push_digest32 frame uploader_key_id in
  let frame := PreimageBuilder_push_u63 frame authorization_epoch in
  let frame := PreimageBuilder_push_text frame authorization_timestamp in
  PreimageBuilder_finish frame.

(** * Specification: labelled, length-prefixed frames *)

(** A field of the construction registry. *)
Inductive Field :=
| FText (text : list Z)
| FDigest (raw : list Z)
| FU63 (value : Z).

Definition content (f : Field) : list Z :=
  match f with
  | FText t => as_bytes t
  | FDigest raw => raw
  | FU63 v => to_be_bytes 8 v
  end.

(** What the type of a field guarantees: a [String] fits in memory, a digest
    has 32 bytes, an integer 64 bits. *)
Definition wf_field (f : Field) : Prop :=
  match f with
  | FText t => Forall is_scalar t /\ zlen (as_bytes t) < u64_modulus
  | FDigest raw => length raw = 32%nat
  | FU63 v => 0 <= v < u64_modulus
  end.

(** [u64be(len) || content]. *)
Definition field_bytes (f : Field) : list Z := to_be_bytes 8 (zlen (content f)) ++ content f.

(** [label || 0x00 || field_1 .. field_n]. *)
Definition frame_bytes (label : list Z) (fields : list Field) : list Z :=
  as_bytes label ++ [LABEL_DELIMITER] ++ flat_map field_bytes fields.

(** What both builders promise: [contents b m] says [m] was pushed to [b]. *)
Class Framing (B : Type) := {
  contents : B -> list Z -> Prop;
  frame_new : list Z -> B;
  push_text : B -> list Z -> B;
  push_digest32 : B -> list Z -> B;
  push_u63 : B -> Z -> B;
  frame_new_contents label : contents (frame_new label) (as_bytes label ++ [LABEL_DELIMITER]);
  push_text_contents b m t :
    contents b m -> contents (push_text b t) (m ++ field_bytes (FText t));
  push_digest32_contents b m raw : length raw = 32%nat ->
    contents b m -> contents (push_digest32 b raw) (m ++ field_bytes (FDigest raw));
  push_u63_contents b m v :
    contents b m -> contents (push_u63 b v) (m ++ field_bytes (FU63 v));
}.

Definition push {B} `{Framing B} (b : B) (f : Field) : B :=
  match f with
  | FText t => push_text b t
  | FDigest raw => push_digest32 b raw
  | FU63 v => push_u63 b v
  end.

Lemma absorbed_update2 h m d e : absorbed h m -> absorbed (update (update h d) e) (m ++ d ++ e).
Proof. intros Hh. rewrite app_assoc. by apply absorbed_update, absorbed_update. Qed.

#[export] Program Instance FrameBuilder_framing : Framing FrameBuilder := {|
  contents := absorbed;
  frame_new := FrameBuilder_new;
  push_text := FrameBuilder_push_text;
  push_digest32 := FrameBuilder_push_digest32;
  push_u63 := FrameBuilder_push_u63;
|}.
Next Obligation. intros label. apply (absorbed_update2 _ []), absorbed_new. Qed.
Next Obligation. intros b m t Hb. by apply absorbed_update2. Qed.
Next Obligation.
  intros b m raw Hl Hb. unfold field_bytes, content, zlen. rewrite Hl. by apply absorbed_update2.
Qed.
Next Obligation. intros b m v Hb. by apply absorbed_update2. Qed.

#[export] Program Instance PreimageBuilder_framing : Framing PreimageBuilder := {|
  contents := fun b m => bytes b = m;
  frame_new := PreimageBuilder_new;
  push_text := PreimageBuilder_push_text;
  push_digest32 := PreimageBuilder_push_digest32;
  push_u63 := PreimageBuilder_push_u63;
|}.
Next Obligation. done. Qed.
Next Obligation. intros b m t <-. by unfold field_bytes; rewrite app_assoc. Qed.
Next Obligation.
  intros b m raw Hl <-. unfold field_bytes, content, zlen. by rewrite Hl, app_assoc.
Qed.
Next Obligation. intros b m v <-. by unfold field_bytes; rewrite app_assoc. Qed.

Section Client.
Context {B : Type} `{Framing B}.

Lemma push_contents b m f : wf_field f -> contents b m -> contents (push b f) (m ++ field_bytes f).
Proof.
  destruct f; simpl; intros Hf Hb;
    auto using push_text_contents, push_digest32_contents, push_u63_contents.
Qed.

Lemma pushes_contents fields b m : Forall wf_field fields -> contents b m ->
  contents (fold_left push fields b) (m ++ flat_map field_bytes fields).
Proof.
  intros Hf. revert b m. induction Hf as [|f fields Hf _ IH]; intros b m Hb; cbn [fold_left flat_map].
  { by rewrite app_nil_r. }
  rewrite app_assoc. apply IH. by apply push_contents.
Qed.

(** Any sequence of pushes builds the frame of its fields. *)
Lemma frame_contents label fields : Forall wf_field fields ->
  contents (fold_left push fields (frame_new label)) (frame_bytes label fields).
Proof.
  intros Hf. unfold frame_bytes. rewrite app_assoc.
  apply pushes_contents; [done|apply frame_new_contents].
Qed.
End Client.

Lemma FrameBuilder_finish_frame label fields : Forall wf_field fields ->
  FrameBuilder_finish (fold_left push fields (FrameBuilder_new label))
  = sha256_spec (frame_bytes label fields).
Proof.
  intros Hf. apply finalize_absorbed. exact (frame_contents (B := FrameBuilder) label fields Hf).
Qed.

Lemma PreimageBuilder_finish_frame label fields : Forall wf_field fields ->
  PreimageBuilder_finish (fold_left push fields (PreimageBuilder_new label))
  = frame_bytes label fields.
Proof. intros Hf. exact (frame_contents (B := PreimageBuilder) label fields Hf). Qed.

(** * Frames are unambiguous *)

Definition nul_free (label : list Z) : Prop := Forall (fun c => 0 < c <= 0x7F) label.

Lemma content_length f : wf_field f -> 0 <= zlen (content f) < 256 ^ Z.of_nat 8.
Proof.
  destruct f; unfold wf_field, zlen; cbn [content]; [intros [_ H]|intros H|intros H].
  - unfold zlen, u64_modulus in H. lia.
  - rewrite H. lia.
  - rewrite length_to_be_bytes. lia.
Qed.

Lemma nul_free_split l1 l2 r1 r2 : nul_free l1 -> nul_free l2 ->
  l1 ++ LABEL_DELIMITER :: r1 = l2 ++ LABEL_DELIMITER :: r2 -> l1 = l2 /\ r1 = r2.
Proof.
  unfold LABEL_DELIMITER. intros H1. revert l2. induction H1 as [|c l1 Hc _ IH]; intros l2 H2 E.
  - destruct l2 as [|d l2]; [by injection E as ->|]. apply Forall_cons in H2 as [? _].
    injection E as <- _. lia.
  - destruct l2 as [|d l2]; [injection E as -> _; lia|].
    apply Forall_cons in H2 as [_ H2]. injection E as <- E.
    destruct (IH l2 H2 E) as [-> ->]. done.
Qed.

Lemma nul_free_bytes l : nul_free l -> as_bytes l = l.
Proof. intros Hl. apply as_bytes_ascii. eapply Forall_impl; [exact Hl|]. simpl. lia. Qed.

(** Two frames with the same bytes have the same label and, field by field,
    the same contents. *)
Lemma frame_injective l1 l2 fs1 fs2 :
  nul_free l1 -> nul_free l2 -> Forall wf_field fs1 -> Forall wf_field fs2 ->
  frame_bytes l1 fs1 = frame_bytes l2 fs2 -> l1 = l2 /\ map content fs1 = map content fs2.
Proof.
  intros Hl1 Hl2 Hf1 Hf2. unfold frame_bytes. rewrite !nul_free_bytes by done. intros E.
  apply nul_free_split in E as [-> E]; [|done..]. split; [done|]. clear Hl1 Hl2.
  revert fs2 Hf2 E. induction Hf1 as [|f fs1 Hf _ IH]; intros fs2 Hf2 E.
  - destruct fs2 as [|g fs2]; [done|]. exfalso. apply (f_equal length) in E.
    cbn [flat_map] in E. unfold field_bytes in E. rewrite !length_app, length_to_be_bytes in E.
    simpl in E. lia.
  - destruct fs2 as [|g fs2].
    { exfalso. apply (f_equal length) in E. cbn [flat_map] in E. unfold field_bytes in E.
      rewrite !length_app, length_to_be_bytes in E. simpl in E. lia. }
    apply Forall_cons in Hf2 as [Hg Hf2]. cbn [flat_map] in E. unfold field_bytes at 1 3 in E.
    rewrite <- !app_assoc in E.
    apply app_inj_1 in E as [En E]; [|by rewrite !length_to_be_bytes].
    apply to_be_bytes_inj in En; [|by apply content_length..].
    apply app_inj_1 in E as [Ec E]; [|unfold zlen in En; lia].
    cbn [map]. rewrite Ec. f_equal. by apply IH.
Qed.

Lemma text_content_inj t u : wf_field (FText t) -> wf_field (FText u) ->
  content (FText t) = content (FText u) -> t = u.
Proof. intros [Ht _] [Hu _]. by apply as_bytes_inj. Qed.

Lemma u63_content_inj a b : wf_field (FU63 a) -> wf_field (FU63 b) ->
  content (FU63 a) = content (FU63 b) -> a = b.
Proof. intros Ha Hb. apply to_be_bytes_inj; simpl in *; unfold u64_modulus in *; lia. Qed.

Lemma lit_scalar s : Forall is_scalar (lit s).
Proof.
  unfold lit. apply Forall_map, Forall_true. intros c. simpl.
  pose proof (Ascii.N_ascii_bounded c). unfold is_scalar. lia.
Qed.

(** * The registry's frames *)

Definition session_frame (tenant_id origin_client_id harness upstream_session_id : list Z) :=
  [FText tenant_id; FText origin_client_id; FText harness; FText upstream_session_id].

Definition artifact_frame (session : list Z) (k : ArtifactKind) (adapter version artifact : list Z) :=
  [FDigest session; FText (token k); FText adapter; FText version; FText artifact].

Definition occurrence_frame (session artifact generation : list Z) (k : RangeKind) (s e : Z)
  (blob : list Z) :=
  [FDigest session; FDigest artifact; FText generation; FText (token k); FU63 s; FU63 e;
   FDigest blob].

Definition attestation_frame (occurrence uploader request : list Z) :=
  [FDigest occurrence; FText uploader; FText request].

Definition export_frame (tenant inventory : list Z) (keys : list (list Z)) :=
  [FText tenant; FDigest inventory; FU63 (zlen keys)] ++ map FText (sort_by text_leb keys).

Definition signing_frame (m r c d1 d2 d3 d4 d5 : list Z) (epoch : Z) (ts : list Z) :=
  [FText m; FText r; FText c; FDigest d1; FDigest d2; FDigest d3; FDigest d4; FDigest d5;
   FU63 epoch; FText ts].

Lemma pushes_text keys (b : FrameBuilder) :
  fold_left push (map FText keys) b = fold_left FrameBuilder_push_text keys b.
Proof. revert b. induction keys as [|k keys IH]; intros b; simpl; auto. Qed.

(** A construction is the pushes of its frame, one by one. *)
#[local] Ltac by_frame lem :=
  let Hf := fresh in intros Hf; etrans; [|exact (lem _ _ Hf)];
  lazy [fold_left push push_text push_digest32 push_u63 FrameBuilder_framing
        PreimageBuilder_framing session_frame artifact_frame occurrence_frame
        attestation_frame signing_frame];
  lazy delta [session_hash artifact_hash occurrence_id attestation_id
              ingest_attempt_signing_input];
  lazy beta zeta; reflexivity.

Lemma session_hash_frame t o h u : Forall wf_field (session_frame t o h u) ->
  session_hash t o h u = sha256_spec (frame_bytes (lit "session-v1") (session_frame t o h u)).
Proof. by_frame FrameBuilder_finish_frame. Qed.

Lemma artifact_hash_frame s k a v i : Forall wf_field (artifact_frame s k a v i) ->
  artifact_hash s k a v i
  = sha256_spec (frame_bytes (lit "artifact-v1") (artifact_frame s k a v i)).
Proof. by_frame FrameBuilder_finish_frame. Qed.

Lemma occurrence_id_frame s a g k rs re b : Forall wf_field (occurrence_frame s a g k rs re b) ->
  occurrence_id s a g k rs re b
  = sha256_spec (frame_bytes (lit "occurrence-v1") (occurrence_frame s a g k rs re b)).
Proof. by_frame FrameBuilder_finish_frame. Qed.

Lemma attestation_id_frame o u r : Forall wf_field (attestation_frame o u r) ->
  attestation_id o u r
  = sha256_spec (frame_bytes (lit "attestation-v1") (attestation_frame o u r)).
Proof. by_frame FrameBuilder_finish_frame. Qed.

Lemma export_selection_digest_frame t i keys : Forall wf_field (export_frame t i keys) ->
  export_selection_digest t i keys
  = sha256_spec (frame_bytes (lit "export-selection-v1") (export_frame t i keys)).
Proof.
  intros Hf. etrans; [|exact (FrameBuilder_finish_frame _ _ Hf)].
  unfold export_frame, export_selection_digest, zlen. rewrite fold_left_app, pushes_text, length_sort_by.
  lazy [fold_left push push_text push_digest32 push_u63 FrameBuilder_framing]. reflexivity.
Qed.

Lemma signing_input_frame m r c d1 d2 d3 d4 d5 e ts :
  Forall wf_field (signing_frame m r c d1 d2 d3 d4 d5 e ts) ->
  ingest_attempt_signing_input m r c d1 d2 d3 d4 d5 e ts
  = frame_bytes (lit "ingest-attempt-v1") (signing_frame m r c d1 d2 d3 d4 d5 e ts).
Proof. by_frame PreimageBuilder_finish_frame. Qed.

(** The selection frame depends on the keys' bytes in sorted order only. *)
Lemma export_fields_perm t i k1 k2 : Permutation k1 k2 ->
  flat_map field_bytes (export_frame t i k1) = flat_map field_bytes (export_frame t i k2).
Proof.
  intros Hp. unfold export_frame, zlen. rewrite (Permutation_length Hp), !flat_map_app. f_equal.
  assert (Hs : map as_bytes (sort_by text_leb k1) = map as_bytes (sort_by text_leb k2)).
  { unfold text_leb. rewrite !(sort_by_map as_bytes lex_leb).
    apply sort_by_unique; [apply lex_leb_total|apply lex_leb_trans| |by rewrite Hp].
    intros x y _ _. apply lex_leb_antisym. }
  assert (Hf : forall ks, flat_map field_bytes (map FText ks)
                          = flat_map (fun c => to_be_bytes 8 (zlen c) ++ c) (map as_bytes ks)).
  { intros ks. induction ks as [|k ks IH]; [done|]. cbn [map flat_map]. by rewrite IH. }
  by rewrite !Hf, Hs.
Qed.

Lemma map_content_text_inj l1 l2 : Forall wf_field (map FText l1) -> Forall wf_field (map FText l2) ->
  map content (map FText l1) = map content (map FText l2) -> l1 = l2.
Proof.
  revert l2. induction l1 as [|a l1 IH]; intros [|b l2] H1 H2 E; try done.
  apply Forall_cons in H1 as [Ha H1], H2 as [Hb H2]. cbn [map] in E. injection E as Ea E.
  f_equal; [by apply text_content_inj | by apply IH].
Qed.

#[local] Ltac nul_free_lit := vm_compute; repeat constructor; discriminate.

(** Split an equality of two frames into equalities of the inputs. *)
#[local] Ltac split_frames H :=
  apply frame_injective in H as [_ H]; [|nul_free_lit|nul_free_lit|done|done];
  unfold session_frame, artifact_frame, occurrence_frame, attestation_frame, signing_frame in *;
  cbn [map] in H;
  repeat match goal with
  | F : Forall wf_field (_ :: _) |- _ => apply Forall_cons in F as [? F]
  | E : _ :: _ = _ :: _ |- _ => apply cons_eq in E as [? E]
  end;
  repeat match goal with
  | E : content (FText _) = content (FText _) |- _ => apply text_content_inj in E; [|done|done]
  | E : content (FU63 _) = content (FU63 _) |- _ => apply u63_content_inj in E; [|done|done]
  | E : content (FDigest ?a) = content (FDigest ?b) |- _ => change (a = b) in E
  | E : token _ = token _ |- _ => apply token_inj in E
  end; subst.

(** * Properties *)

(** C5: Every labelled identity is the SHA-256 of its registered frame:
    label, NUL, then each field as an eight-byte big-endian length and its
    content, in the registry's order; the signing input is that frame in the
    clear. *)
Theorem identity_preimages :
  (forall t o h u, Forall wf_field (session_frame t o h u) -> session_hash t o h u
     = sha256_spec (frame_bytes (lit "session-v1") (session_frame t o h u))) /\
  (forall s k a v i, Forall wf_field (artifact_frame s k a v i) -> artifact_hash s k a v i
     = sha256_spec (frame_bytes (lit "artifact-v1") (artifact_frame s k a v i))) /\
  (forall s a g k rs re b, Forall wf_field (occurrence_frame s a g k rs re b) ->
     occurrence_id s a g k rs re b
     = sha256_spec (frame_bytes (lit "occurrence-v1") (occurrence_frame s a g k rs re b))) /\
  (forall o u r, Forall wf_field (attestation_frame o u r) -> attestation_id o u r
     = sha256_spec (frame_bytes (lit "attestation-v1") (attestation_frame o u r))) /\
  (forall t i keys, Forall wf_field (export_frame t i keys) -> export_selection_digest t i keys
     = sha256_spec (frame_bytes (lit "export-selection-v1") (export_frame t i keys))) /\
  (forall m r c d1 d2 d3 d4 d5 e ts, Forall wf_field (signing_frame m r c d1 d2 d3 d4 d5 e ts) ->
     ingest_attempt_signing_input m r c d1 d2 d3 d4 d5 e ts
     = frame_bytes (lit "ingest-attempt-v1") (signing_frame m r c d1 d2 d3 d4 d5 e ts)) /\
  (forall data, blob_digest data = sha256_spec data).
Proof.
  split_and!; intros;
    auto using session_hash_frame, artifact_hash_frame, occurrence_id_frame,
      attestation_id_frame, export_selection_digest_frame, signing_input_frame, digest_spec.
Qed.

(** No two different sets of identity inputs share a preimage: the
    occurrence, session and attestation frames and the signing input
    determine every one of their inputs. *)
Theorem identity_inputs_determined :
  (forall t o h u t' o' h' u',
     Forall wf_field (session_frame t o h u) -> Forall wf_field (session_frame t' o' h' u') ->
     frame_bytes (lit "session-v1") (session_frame t o h u)
     = frame_bytes (lit "session-v1") (session_frame t' o' h' u') ->
     t = t' /\ o = o' /\ h = h' /\ u = u') /\
  (forall s k a v i s' k' a' v' i',
     Forall wf_field (artifact_frame s k a v i) -> Forall wf_field (artifact_frame s' k' a' v' i') ->
     frame_bytes (lit "artifact-v1") (artifact_frame s k a v i)
     = frame_bytes (lit "artifact-v1") (artifact_frame s' k' a' v' i') ->
     s = s' /\ k = k' /\ a = a' /\ v = v' /\ i = i') /\
  (forall s a g k rs re b s' a' g' k' rs' re' b',
     Forall wf_field (occurrence_frame s a g k rs re b) ->
     Forall wf_field (occurrence_frame s' a' g' k' rs' re' b') ->
     frame_bytes (lit "occurrence-v1") (occurrence_frame s a g k rs re b)
     = frame_bytes (lit "occurrence-v1") (occurrence_frame s' a' g' k' rs' re' b') ->
     s = s' /\ a = a' /\ g = g' /\ k = k' /\ rs = rs' /\ re = re' /\ b = b') /\
  (forall o u r o' u' r',
     Forall wf_field (attestation_frame o u r) -> Forall wf_field (attestation_frame o' u' r') ->
     frame_bytes (lit "attestation-v1") (attestation_frame o u r)
     = frame_bytes (lit "attestation-v1") (attestation_frame o' u' r') ->
     o = o' /\ u = u' /\ r = r') /\
  (forall m r c d1 d2 d3 d4 d5 e ts m' r' c' d1' d2' d3' d4' d5' e' ts',
     Forall wf_field (signing_frame m r c d1 d2 d3 d4 d5 e ts) ->
     Forall wf_field (signing_frame m' r' c' d1' d2' d3' d4' d5' e' ts') ->
     ingest_attempt_signing_input m r c d1 d2 d3 d4 d5 e ts
     = ingest_attempt_signing_input m' r' c' d1' d2' d3' d4' d5' e' ts' ->
     m = m' /\ r = r' /\ c = c' /\ d1 = d1' /\ d2 = d2' /\ d3 = d3' /\ d4 = d4' /\ d5 = d5' /\
     e = e' /\ ts = ts').
Proof.
  split_and!; intros; try rewrite !signing_input_frame in * by done;
    match goal with E : frame_bytes _ _ = frame_bytes _ _ |- _ => split_frames E end; done.
Qed.

(** The six labels of the registry. *)
Definition registry_labels : list (list Z) :=
  map lit ["session-v1"; "artifact-v1"; "occurrence-v1"; "attestation-v1";
           "export-selection-v1"; "ingest-attempt-v1"]%string.

(** Domain separation: frames under two different labels of the registry
    never have the same bytes, whatever their fields, so a preimage of one
    construction is never a preimage of another. *)
Theorem identity_domains_separated l1 l2 fs1 fs2 :
  l1 ∈ registry_labels -> l2 ∈ registry_labels -> l1 <> l2 ->
  Forall wf_field fs1 -> Forall wf_field fs2 ->
  frame_bytes l1 fs1 <> frame_bytes l2 fs2.
Proof.
  intros H1 H2 Hne Hf1 Hf2 E.
  assert (Hr : Forall nul_free registry_labels) by nul_free_lit.
  rewrite Forall_forall in Hr. by destruct (frame_injective l1 l2 fs1 fs2); auto.
Qed.

Lemma identity_domains_separated_witness :
  frame_bytes (lit "session-v1") (attestation_frame (replicate 32 7) (lit "u") (lit "r"))
  <> frame_bytes (lit "attestation-v1") (attestation_frame (replicate 32 7) (lit "u") (lit "r")).
Proof.
  apply identity_domains_separated.
  - apply list_elem_of_In. vm_compute. auto.
  - apply list_elem_of_In. vm_compute. auto 10.
  - discriminate.
  - repeat constructor; try discriminate; apply lit_scalar.
  - repeat constructor; try discriminate; apply lit_scalar.
Defined.

(** An export approval's digest is independent of the order the keys
    are supplied in, and its preimage determines tenant, inventory and the
    multiset of selected keys, so a subset or superset has another one. *)
Theorem export_selection_exact t i keys t' i' keys' :
  Forall wf_field (export_frame t i keys) -> Forall wf_field (export_frame t' i' keys') ->
  (Permutation keys keys' -> export_selection_digest t i keys = export_selection_digest t i keys') /\
  (frame_bytes (lit "export-selection-v1") (export_frame t i keys)
   = frame_bytes (lit "export-selection-v1") (export_frame t' i' keys') ->
   t = t' /\ i = i' /\ Permutation keys keys').
Proof.
  intros Hf Hf'. split.
  - intros Hp. assert (Hf2 : Forall wf_field (export_frame t i keys')).
    { unfold export_frame in *. apply Forall_app in Hf as [H1 _], Hf' as [_ H2].
      apply Forall_app. split; [|done]. unfold zlen in *. by rewrite <- (Permutation_length Hp). }
    rewrite !export_selection_digest_frame by done. unfold frame_bytes.
    by rewrite (export_fields_perm _ _ _ _ Hp).
  - intros E. apply frame_injective in E as [_ E]; [|nul_free_lit|nul_free_lit|done|done].
    unfold export_frame in *. rewrite !map_app in E.
    apply Forall_app in Hf as [Hf Hk], Hf' as [Hf' Hk'].
    apply app_inj_1 in E as [Eh Ek]; [|done].
    apply map_content_text_inj in Ek; [|done..].
    cbn [map] in Eh. apply cons_eq in Eh as [Et Eh]. apply cons_eq in Eh as [Ei _].
    apply Forall_cons in Hf as [Ht _], Hf' as [Ht' _].
    split_and!; [by apply text_content_inj|done|].
    by rewrite <- (sort_by_perm text_leb keys), Ek, sort_by_perm.
Qed.

Lemma export_selection_exact_witness :
  export_selection_digest (lit "t") (replicate 32 7) [lit "a"; lit "b"]
  = export_selection_digest (lit "t") (replicate 32 7) [lit "b"; lit "a"].
Proof.
  eapply (export_selection_exact (lit "t") (replicate 32 7) [lit "a"; lit "b"]
            (lit "t") (replicate 32 7) [lit "b"; lit "a"]).
  - repeat constructor; try discriminate; apply lit_scalar.
  - repeat constructor; try discriminate; apply lit_scalar.
  - apply perm_swap.
Defined.
