(* ===== verification/ObjectKey.v ===== *)
(** Server-derived object keys ([crates/archivist-protocol/src/object_key.rs]):
    the three key layouts, their assembly from validated inputs and the parser
    that cross-checks segment grammars and shard segments. *)

From S2P Require Import Prelude Text Sha256 Vocabulary.

Definition SLASH : Z := 47.

(** [str::split('/')]. *)
Fixpoint split_slash (text : list Z) : list (list Z) :=
  match text with
  | [] => [[]]
  | c :: r =>
      if c =? SLASH then [] :: split_slash r
      else match split_slash r with
           | [] => [[c]]
           | s :: ss => (c :: s) :: ss
           end
  end.

Definition split_exact (text : list Z) (n : nat) : option (list (list Z)) :=
  let segments := split_slash text in
  if (length segments =? n)%nat then Some segments else None.

(** [str::ends_with]. *)
Definition ends_with (text suffix : list Z) : bool :=
  bool_decide (drop (length text - length suffix) text = suffix).

(** The text before an ASCII [suffix], when that leaves [hex_len] bytes. *)
Definition hex_member (member : list Z) (hex_len : nat) (suffix : list Z) : option (list Z) :=
  if negb (length (as_bytes member) =? hex_len + length suffix)%nat
     || negb (ends_with member suffix)
  then None
  else Some (take (length member - length suffix) member).

(** Segment [i] of a split of known length, and its comparison with a literal. *)
Definition seg (s : list (list Z)) (i : nat) : list Z := nth i s [].
Definition is_lit (t : list Z) (l : string) : bool := bool_decide (t = lit l).

(** * Blob keys *)

Definition BlobObjectKey_new (tenant : list Z) (profile : StorageProfile) (blob : list Z) : list Z :=
  lit "tenants/" ++ tenant ++ lit "/v1/raw/blobs/" ++ token profile ++ lit "/sha256/"
  ++ take 2 (to_hex blob) ++ lit "/" ++ to_hex blob ++ lit ".zst".

Definition BlobObjectKey_parse (text : list Z) : result GrammarError (list Z) :=
  let! s := ok_or (split_exact text 9) NotCanonical in
  if negb (is_lit (seg s 0) "tenants") || negb (is_lit (seg s 2) "v1")
     || negb (is_lit (seg s 3) "raw") || negb (is_lit (seg s 4) "blobs")
  then Err NotCanonical
  else
    let! _tenant := TenantId_parse (seg s 1) in
    let! _profile := enum_parse (E := StorageProfile) (seg s 5) in
    if negb (is_lit (seg s 6) "sha256") then Err NotCanonical
    else
      let! member := ok_or (hex_member (seg s 8) 64 (lit ".zst")) NotCanonical in
      let! blob := digest_parse member in
      if negb (bool_decide (seg s 7 = take 2 (to_hex blob))) then Err NotCanonical
      else Ok text.

(** * Occurrence keys *)

Definition OccurrenceObjectKey_new (tenant origin harness session occurrence : list Z) : list Z :=
  lit "tenants/" ++ tenant ++ lit "/v1/raw/occurrences/" ++ origin ++ lit "/" ++ harness
  ++ lit "/" ++ take 2 (to_hex session) ++ lit "/" ++ to_hex session ++ lit "/"
  ++ to_hex occurrence ++ lit ".json".

Definition OccurrenceObjectKey_parse (text : list Z) : result GrammarError (list Z) :=
  let! s := ok_or (split_exact text 10) NotCanonical in
  if negb (is_lit (seg s 0) "tenants") || negb (is_lit (seg s 2) "v1")
     || negb (is_lit (seg s 3) "raw") || negb (is_lit (seg s 4) "occurrences")
  then Err NotCanonical
  else
    let! _tenant := TenantId_parse (seg s 1) in
    let! _origin := ClientId_parse (seg s 5) in
    let! _harness := HarnessId_parse (seg s 6) in
    let! session := digest_parse (seg s 8) in
    let! member := ok_or (hex_member (seg s 9) 64 (lit ".json")) NotCanonical in
    let! _occurrence := digest_parse member in
    if negb (bool_decide (seg s 7 = take 2 (to_hex session))) then Err NotCanonical
    else Ok text.

(** * Attestation keys *)

Definition AttestationObjectKey_new (tenant occurrence attestation : list Z) : list Z :=
  lit "tenants/" ++ tenant ++ lit "/v1/raw/attestations/" ++ take 2 (to_hex occurrence)
  ++ lit "/" ++ to_hex occurrence ++ lit "/" ++ to_hex attestation ++ lit ".json".

Definition AttestationObjectKey_parse (text : list Z) : result GrammarError (list Z) :=
  let! s := ok_or (split_exact text 8) NotCanonical in
  if negb (is_lit (seg s 0) "tenants") || negb (is_lit (seg s 2) "v1")
     || negb (is_lit (seg s 3) "raw") || negb (is_lit (seg s 4) "attestations")
  then Err NotCanonical
  else
    let! _tenant := TenantId_parse (seg s 1) in
    let! occurrence := digest_parse (seg s 6) in
    let! member := ok_or (hex_member (seg s 7) 64 (lit ".json")) NotCanonical in
    let! _attestation := digest_parse member in
    if negb (bool_decide (seg s 5 = take 2 (to_hex occurrence))) then Err NotCanonical
    else Ok text.

(** * Splitting and joining *)

Fixpoint join_slash (segs : list (list Z)) : list Z :=
  match segs with
  | [] => []
  | [s] => s
  | s :: r => s ++ SLASH :: join_slash r
  end.

Definition slash_free (s : list Z) : Prop := Forall (fun c => c <> SLASH) s.

Lemma split_nonempty t : split_slash t <> [].
Proof. destruct t as [|c t]; simpl; [done|]. destruct (c =? SLASH), (split_slash t); done. Qed.

Lemma join_cons_cons s s' ss : join_slash (s :: s' :: ss) = s ++ SLASH :: join_slash (s' :: ss).
Proof. done. Qed.

Lemma join_split t : join_slash (split_slash t) = t.
Proof.
  induction t as [|c t IH]; [done|]. simpl.
  pose proof (split_nonempty t) as Hne.
  destruct (split_slash t) as [|s ss]; [done|].
  destruct (Z.eqb_spec c SLASH) as [->|Hc].
  - rewrite join_cons_cons, IH. done.
  - destruct ss; simpl in *; by rewrite <- IH.
Qed.

Lemma split_free s : slash_free s -> split_slash s = [s].
Proof.
  induction 1 as [|c s Hc _ IH]; [done|]. simpl. rewrite IH.
  by rewrite (proj2 (Z.eqb_neq c SLASH)).
Qed.

Lemma split_app s t : slash_free s -> split_slash (s ++ SLASH :: t) = s :: split_slash t.
Proof.
  induction 1 as [|c s Hc _ IH]; [done|]. simpl in *. rewrite IH.
  by rewrite (proj2 (Z.eqb_neq c SLASH)).
Qed.

Lemma split_join segs : segs <> [] -> Forall slash_free segs -> split_slash (join_slash segs) = segs.
Proof.
  intros Hne. induction 1 as [|s segs Hs Hss IH]; [done|].
  destruct segs as [|s' ss]; [by apply split_free|].
  rewrite join_cons_cons, split_app, IH; done.
Qed.

(** * Segments of valid identifiers hold no slash *)

Lemma slash_free_bytes t : slash_free (as_bytes t) -> slash_free t.
Proof.
  unfold slash_free. induction t as [|c t IH]; [done|].
  change (as_bytes (c :: t)) with (encode_utf8 c ++ as_bytes t). intros [H1 H2]%Forall_app.
  constructor; [|auto]. intros ->. by apply Forall_inv in H1.
Qed.

Lemma uuid_char_free v i c : 0 <= v -> uuid_char_ok v i c = true -> c <> SLASH.
Proof.
  intros Hv H ->. unfold uuid_char_ok, SLASH in H.
  do 24 (destruct i as [|i]; [first [discriminate H | vm_compute in H; discriminate H | lia]|]).
  discriminate H.
Qed.

Lemma uuid_slash_free t v : 0 <= v -> uuid_grammar t v = true -> slash_free t.
Proof.
  intros Hv. unfold uuid_grammar. intros [_ H]%andb_true_iff. apply slash_free_bytes.
  revert H. generalize 0%nat. induction (as_bytes t) as [|c r IH]; intros i; simpl; [constructor|].
  intros [Hc Hr]%andb_true_iff. constructor; [by eapply uuid_char_free|by eapply IH].
Qed.

Lemma short_token_slash_free t : short_token_grammar t = true -> slash_free t.
Proof.
  unfold short_token_grammar. intros H. apply slash_free_bytes.
  destruct (as_bytes t) as [|c r]; [constructor|].
  apply andb_true_iff in H as [H Hr]. apply andb_true_iff in H as [_ Hc].
  constructor.
  - intros ->. discriminate Hc.
  - apply Forall_forall. intros d Hd ->. rewrite forallb_forall in Hr.
    by specialize (Hr SLASH (proj1 (list_elem_of_In _ _) Hd)).
Qed.

Lemma lower_hex_slash_free s : forallb is_lower_hex s = true -> slash_free s.
Proof.
  intros H. apply Forall_forall. intros c Hc ->. rewrite forallb_forall in H.
  by specialize (H SLASH (proj1 (list_elem_of_In _ _) Hc)).
Qed.

Lemma hex_slash_free bs : Forall is_byte bs -> slash_free (to_hex bs).
Proof. intros. by apply lower_hex_slash_free, encode_hex_lower. Qed.

(** * Members, newtypes and digests *)

Definition is_digest (raw : list Z) : Prop := Forall is_byte raw /\ length raw = 32%nat.

Lemma text_parse_ok v t t' : text_parse v t = Ok t' <-> v t = true /\ t' = t.
Proof. unfold text_parse. destruct (v t); split; naive_solver. Qed.

Lemma hex_member_inv m n suf h : hex_member m n suf = Some h -> m = h ++ suf.
Proof.
  unfold hex_member. destruct (_ || _) eqn:E; intros [= <-].
  apply orb_false_iff in E as [_ E]. apply negb_false_iff, bool_decide_eq_true in E.
  rewrite <- E at 2. by rewrite take_drop.
Qed.

Lemma hex_member_digest d s : is_digest d -> Forall (fun c => 0 <= c <= 0x7F) (lit s) ->
  hex_member (to_hex d ++ lit s) 64 (lit s) = Some (to_hex d).
Proof.
  intros [Hb Hl] Hs. unfold hex_member, ends_with, to_hex.
  assert (Ha : length (encode_hex d ++ lit s) = (64 + length (lit s))%nat)
    by (rewrite length_app, length_encode_hex; lia).
  rewrite (as_bytes_ascii (encode_hex d ++ lit s)), Ha
    by (apply Forall_app; auto using encode_hex_ascii).
  replace (64 + length (lit s) - length (lit s))%nat with (length (encode_hex d))
    by (rewrite length_encode_hex; lia).
  rewrite drop_app_length, take_app_length, bool_decide_true, Nat.eqb_refl by done. done.
Qed.

Lemma split_scalar t : Forall is_scalar t -> Forall (Forall is_scalar) (split_slash t).
Proof.
  induction 1 as [|c t Hc _ IH]; simpl; [by repeat constructor|].
  destruct (c =? SLASH); [by constructor|].
  destruct (split_slash t) as [|s ss].
  - by apply Forall_singleton, Forall_singleton.
  - apply Forall_cons in IH as [Hs Hss]. constructor; [by constructor|done].
Qed.

Lemma seg_scalar t i : Forall is_scalar t -> Forall is_scalar (seg (split_slash t) i).
Proof.
  intros Ht. apply split_scalar in Ht. unfold seg. destruct (nth_in_or_default i (split_slash t) []) as [H| ->];
    [|constructor]. rewrite Forall_forall in Ht. apply Ht. by apply list_elem_of_In.
Qed.

Lemma split_exact_ok t n s : ok_or (split_exact t n) NotCanonical = Ok s ->
  s = split_slash t /\ length s = n.
Proof.
  unfold split_exact. destruct (_ =? _)%nat eqn:E; intros [= <-]. by apply Nat.eqb_eq in E.
Qed.

Lemma ok_or_ok {E A} (o : option A) (e : E) a : ok_or o e = Ok a <-> o = Some a.
Proof. destruct o; simpl; split; congruence. Qed.

Lemma is_lit_true t s : is_lit t s = true <-> t = lit s.
Proof. apply bool_decide_eq_true. Qed.

(** Read a successful parse back into its tests. *)
#[local] Ltac read_parse H :=
  repeat first
    [ progress inv_ok
    | match type of H with context [if ?b then _ else _] =>
        let E := fresh "E" in destruct b eqn:E; [discriminate H|] end
    | match goal with
      | E : _ || _ = false |- _ => apply orb_false_iff in E as [? E]
      | E : negb _ = false |- _ => apply negb_false_iff in E
      | E : is_lit _ _ = true |- _ => apply is_lit_true in E
      | E : bool_decide _ = true |- _ => apply bool_decide_eq_true in E
      | E : ok_or (split_exact _ _) _ = Ok _ |- _ =>
          let Hl := fresh "Hlen" in apply split_exact_ok in E as [-> Hl]
      | E : ok_or (hex_member _ _ _) _ = Ok _ |- _ => apply ok_or_ok, hex_member_inv in E
      | E : enum_parse _ = Ok _ |- _ => apply enum_parse_iff in E
      end ].

Lemma digest_parse_segment t i h suf raw : Forall is_scalar t ->
  seg (split_slash t) i = h ++ suf -> digest_parse h = Ok raw -> h = to_hex raw /\ is_digest raw.
Proof.
  intros Ht E Hd. apply digest_parse_sound in Hd as (-> & ? & ?); [done|].
  apply (seg_scalar t i) in Ht. rewrite E in Ht. by apply Forall_app in Ht as [? _].
Qed.

Lemma segs_listed s n : length s = n -> s = map (seg s) (seq 0 n).
Proof.
  intros <-. unfold seg. induction s as [|x s IH]; [done|].
  cbn [length seq map nth]. f_equal. rewrite <- seq_shift, map_map. exact IH.
Qed.

Lemma text_of_segs text n : length (split_slash text) = n ->
  text = join_slash (map (seg (split_slash text)) (seq 0 n)).
Proof. intros Hl. rewrite <- (segs_listed _ n Hl). by rewrite join_split. Qed.

Lemma TenantId_parse_self t t' : TenantId_parse t = Ok t' -> TenantId_parse t = Ok t.
Proof. unfold TenantId_parse. rewrite !text_parse_ok. naive_solver. Qed.

Lemma blob_parse_inv text : Forall is_scalar text ->
  BlobObjectKey_parse text = Ok text -> exists tenant profile blob,
    TenantId_parse tenant = Ok tenant /\ is_digest blob /\
    text = BlobObjectKey_new tenant profile blob.
Proof.
  intros Ht H. unfold BlobObjectKey_parse in H. read_parse H.
  destruct (digest_parse_segment text 8 _ _ _ Ht Ha2 Ha3) as [-> Hd].
  exists (seg (split_slash text) 1), a1, a3.
  split_and!; [by eapply TenantId_parse_self|done|].
  rewrite (text_of_segs text 9 Hlen) at 1. cbn [map seq join_slash].
  rewrite H2, H1, H0, E, Ha1, E0, E1, Ha2. reflexivity.
Qed.

Lemma occurrence_parse_inv text : Forall is_scalar text ->
  OccurrenceObjectKey_parse text = Ok text -> exists tenant origin harness session occurrence,
    TenantId_parse tenant = Ok tenant /\ ClientId_parse origin = Ok origin /\
    HarnessId_parse harness = Ok harness /\ is_digest session /\ is_digest occurrence /\
    text = OccurrenceObjectKey_new tenant origin harness session occurrence.
Proof.
  intros Ht H. unfold OccurrenceObjectKey_parse in H. read_parse H.
  destruct (digest_parse_segment text 9 _ _ _ Ht Ha4 Ha5) as [-> Hd].
  destruct (digest_parse_segment text 8 (seg (split_slash text) 8) [] _ Ht
              (eq_sym (app_nil_r _)) Ha3) as [Hs Hd'].
  exists (seg (split_slash text) 1), (seg (split_slash text) 5), (seg (split_slash text) 6), a3, a5.
  unfold TenantId_parse, ClientId_parse, HarnessId_parse in *.
  apply text_parse_ok in Ha0 as [Ha0 _], Ha1 as [Ha1 _], Ha2 as [Ha2 _].
  split_and!; [by apply text_parse_ok..|done|done|].
  rewrite (text_of_segs text 10 Hlen) at 1. cbn [map seq join_slash].
  rewrite H2, H1, H0, E, E0, Hs, Ha4. reflexivity.
Qed.

Lemma attestation_parse_inv text : Forall is_scalar text ->
  AttestationObjectKey_parse text = Ok text -> exists tenant occurrence attestation,
    TenantId_parse tenant = Ok tenant /\ is_digest occurrence /\ is_digest attestation /\
    text = AttestationObjectKey_new tenant occurrence attestation.
Proof.
  intros Ht H. unfold AttestationObjectKey_parse in H. read_parse H.
  destruct (digest_parse_segment text 7 _ _ _ Ht Ha2 Ha3) as [-> Hd].
  destruct (digest_parse_segment text 6 (seg (split_slash text) 6) [] _ Ht
              (eq_sym (app_nil_r _)) Ha1) as [Hs Hd'].
  exists (seg (split_slash text) 1), a1, a3.
  split_and!; [by eapply TenantId_parse_self|done|done|].
  rewrite (text_of_segs text 8 Hlen) at 1. cbn [map seq join_slash].
  rewrite H2, H1, H0, E, E0, Hs, Ha2. reflexivity.
Qed.

(** * Assembled keys split into their segments *)

Lemma slash_free_take n s : slash_free s -> slash_free (take n s).
Proof. apply Forall_take. Qed.

Lemma tenant_slash_free t : TenantId_parse t = Ok t -> slash_free t.
Proof. unfold TenantId_parse. intros [H _]%text_parse_ok. by apply (uuid_slash_free t 4). Qed.

Lemma client_slash_free t : ClientId_parse t = Ok t -> slash_free t.
Proof. unfold ClientId_parse. intros [H _]%text_parse_ok. by apply (uuid_slash_free t 4). Qed.

Lemma harness_slash_free t : HarnessId_parse t = Ok t -> slash_free t.
Proof. unfold HarnessId_parse. intros [H _]%text_parse_ok. by apply short_token_slash_free. Qed.

Lemma digest_slash_free d : is_digest d -> slash_free (to_hex d).
Proof. intros [Hb _]. by apply hex_slash_free. Qed.

Lemma lit_app_slash_free d s : is_digest d -> slash_free (lit s) -> slash_free (to_hex d ++ lit s).
Proof. intros Hd Hs. apply Forall_app. split; [by apply digest_slash_free|done]. Qed.

#[local] Ltac lit_free := vm_compute; repeat constructor; discriminate.

#[local] Ltac solve_segs :=
  rewrite split_join; [reflexivity|done|];
  repeat (apply Forall_cons; split);
  auto using tenant_slash_free, client_slash_free, harness_slash_free, slash_free_take,
    digest_slash_free, Forall_nil_2;
  first [apply lit_app_slash_free; [done|lit_free] | lit_free].

Lemma blob_segments tenant (p : StorageProfile) blob :
  TenantId_parse tenant = Ok tenant -> is_digest blob ->
  split_slash (BlobObjectKey_new tenant p blob)
  = [lit "tenants"; tenant; lit "v1"; lit "raw"; lit "blobs"; token p; lit "sha256";
     take 2 (to_hex blob); to_hex blob ++ lit ".zst"].
Proof.
  intros Ht Hb. destruct p.
  change (BlobObjectKey_new tenant ZstdV1 blob) with (join_slash
    [lit "tenants"; tenant; lit "v1"; lit "raw"; lit "blobs"; token ZstdV1; lit "sha256";
     take 2 (to_hex blob); to_hex blob ++ lit ".zst"]).
  solve_segs.
Qed.

Lemma occurrence_segments tenant origin harness session occurrence :
  TenantId_parse tenant = Ok tenant -> ClientId_parse origin = Ok origin ->
  HarnessId_parse harness = Ok harness -> is_digest session -> is_digest occurrence ->
  split_slash (OccurrenceObjectKey_new tenant origin harness session occurrence)
  = [lit "tenants"; tenant; lit "v1"; lit "raw"; lit "occurrences"; origin; harness;
     take 2 (to_hex session); to_hex session; to_hex occurrence ++ lit ".json"].
Proof.
  intros.
  change (OccurrenceObjectKey_new tenant origin harness session occurrence) with (join_slash
    [lit "tenants"; tenant; lit "v1"; lit "raw"; lit "occurrences"; origin; harness;
     take 2 (to_hex session); to_hex session; to_hex occurrence ++ lit ".json"]).
  solve_segs.
Qed.

Lemma attestation_segments tenant occurrence attestation :
  TenantId_parse tenant = Ok tenant -> is_digest occurrence -> is_digest attestation ->
  split_slash (AttestationObjectKey_new tenant occurrence attestation)
  = [lit "tenants"; tenant; lit "v1"; lit "raw"; lit "attestations";
     take 2 (to_hex occurrence); to_hex occurrence; to_hex attestation ++ lit ".json"].
Proof.
  intros.
  change (AttestationObjectKey_new tenant occurrence attestation) with (join_slash
    [lit "tenants"; tenant; lit "v1"; lit "raw"; lit "attestations";
     take 2 (to_hex occurrence); to_hex occurrence; to_hex attestation ++ lit ".json"]).
  solve_segs.
Qed.

Lemma digest_parse_hex d : is_digest d -> digest_parse (to_hex d) = Ok d.
Proof. intros []. by apply digest_parse_to_hex. Qed.

#[local] Ltac lit_ascii := vm_compute; repeat constructor; discriminate.

(** Run a parser on a key whose segments are known. *)
#[local] Ltac run_parse E :=
  unfold split_exact; rewrite E; cbn [length Nat.eqb ok_or rbind seg nth];
  unfold is_lit; rewrite ?bool_decide_true by done; cbn [negb orb];
  repeat match goal with
  | H : ?p ?t = Ok ?t |- context [rbind (?p ?t) _] => rewrite H; cbn [rbind]
  end;
  rewrite ?(proj2 (enum_parse_iff _ _) eq_refl); cbn [rbind];
  rewrite ?bool_decide_true by done; cbn [negb];
  rewrite ?hex_member_digest by (first [done | lit_ascii]);
  rewrite ?digest_parse_hex by done; cbn [ok_or rbind];
  rewrite ?digest_parse_hex by done; cbn [ok_or rbind];
  rewrite ?bool_decide_true by done; reflexivity.

Lemma blob_parse_new tenant p blob :
  TenantId_parse tenant = Ok tenant -> is_digest blob ->
  BlobObjectKey_parse (BlobObjectKey_new tenant p blob) = Ok (BlobObjectKey_new tenant p blob).
Proof.
  intros Ht Hb. unfold BlobObjectKey_parse. run_parse (blob_segments tenant p blob Ht Hb).
Qed.

Lemma occurrence_parse_new tenant origin harness session occurrence :
  TenantId_parse tenant = Ok tenant -> ClientId_parse origin = Ok origin ->
  HarnessId_parse harness = Ok harness -> is_digest session -> is_digest occurrence ->
  let key := OccurrenceObjectKey_new tenant origin harness session occurrence in
  OccurrenceObjectKey_parse key = Ok key.
Proof.
  intros H1 H2 H3 H4 H5. cbv zeta. unfold OccurrenceObjectKey_parse.
  run_parse (occurrence_segments tenant origin harness session occurrence H1 H2 H3 H4 H5).
Qed.

Lemma attestation_parse_new tenant occurrence attestation :
  TenantId_parse tenant = Ok tenant -> is_digest occurrence -> is_digest attestation ->
  let key := AttestationObjectKey_new tenant occurrence attestation in
  AttestationObjectKey_parse key = Ok key.
Proof.
  intros H1 H2 H3. cbv zeta. unfold AttestationObjectKey_parse.
  run_parse (attestation_segments tenant occurrence attestation H1 H2 H3).
Qed.

Lemma to_hex_inj a b : is_digest a -> is_digest b -> to_hex a = to_hex b -> a = b.
Proof.
  intros Ha Hb E. pose proof (digest_parse_hex a Ha) as H.
  rewrite E, digest_parse_hex in H by done. by injection H.
Qed.

(** Equal segment lists have equal identifiers. *)
#[local] Ltac same_segments :=
  repeat match goal with E : _ :: _ = _ :: _ |- _ => apply cons_eq in E as [? E] end;
  repeat match goal with
  | E : _ ++ ?s = _ ++ ?s |- _ => apply app_inv_tail in E
  | E : to_hex _ = to_hex _ |- _ => apply to_hex_inj in E; [|done|done]
  | E : token _ = token _ |- _ => apply token_inj in E
  end; split_and!; assumption.

(** * Properties *)

(** C6: The three key parsers accept exactly the keys the constructors
    assemble from valid identifiers: every assembled key parses back, and a
    text that parses is the assembly of some valid tenant, client, harness
    and digests, its shard segment included. *)
Theorem object_keys_exact text : Forall is_scalar text ->
  (BlobObjectKey_parse text = Ok text <-> exists tenant profile blob,
     TenantId_parse tenant = Ok tenant /\ is_digest blob /\
     text = BlobObjectKey_new tenant profile blob) /\
  (OccurrenceObjectKey_parse text = Ok text <-> exists tenant origin harness session occurrence,
     TenantId_parse tenant = Ok tenant /\ ClientId_parse origin = Ok origin /\
     HarnessId_parse harness = Ok harness /\ is_digest session /\ is_digest occurrence /\
     text = OccurrenceObjectKey_new tenant origin harness session occurrence) /\
  (AttestationObjectKey_parse text = Ok text <-> exists tenant occurrence attestation,
     TenantId_parse tenant = Ok tenant /\ is_digest occurrence /\ is_digest attestation /\
     text = AttestationObjectKey_new tenant occurrence attestation).
Proof.
  intros Ht. split_and!; split.
  - by apply blob_parse_inv.
  - intros (t & p & b & ? & ? & ->). by apply blob_parse_new.
  - by apply occurrence_parse_inv.
  - intros (t & o & h & s & oc & ? & ? & ? & ? & ? & ->). by apply occurrence_parse_new.
  - by apply attestation_parse_inv.
  - intros (t & o & a & ? & ? & ? & ->). by apply attestation_parse_new.
Qed.

Lemma object_keys_exact_witness :
  exists tenant profile blob, TenantId_parse tenant = Ok tenant /\ is_digest blob /\
    BlobObjectKey_new (lit "0f1e2d3c-4b5a-4978-8a9b-0c1d2e3f4a5b") ZstdV1 (replicate 32 1)
    = BlobObjectKey_new tenant profile blob.
Proof.
  apply (object_keys_exact
    (BlobObjectKey_new (lit "0f1e2d3c-4b5a-4978-8a9b-0c1d2e3f4a5b") ZstdV1 (replicate 32 1))).
  - apply ascii_scalar. reflexivity.
  - vm_compute. reflexivity.
Defined.

(** An object key determines the identifiers it was assembled from, so
    two different blobs, occurrences or attestations never share a key. *)
Theorem object_keys_injective :
  (forall t p b t' p' b', TenantId_parse t = Ok t -> TenantId_parse t' = Ok t' ->
     is_digest b -> is_digest b' ->
     BlobObjectKey_new t p b = BlobObjectKey_new t' p' b' -> t = t' /\ p = p' /\ b = b') /\
  (forall t o h s c t' o' h' s' c',
     TenantId_parse t = Ok t -> ClientId_parse o = Ok o -> HarnessId_parse h = Ok h ->
     TenantId_parse t' = Ok t' -> ClientId_parse o' = Ok o' -> HarnessId_parse h' = Ok h' ->
     is_digest s -> is_digest c -> is_digest s' -> is_digest c' ->
     OccurrenceObjectKey_new t o h s c = OccurrenceObjectKey_new t' o' h' s' c' ->
     t = t' /\ o = o' /\ h = h' /\ s = s' /\ c = c') /\
  (forall t o a t' o' a', TenantId_parse t = Ok t -> TenantId_parse t' = Ok t' ->
     is_digest o -> is_digest a -> is_digest o' -> is_digest a' ->
     AttestationObjectKey_new t o a = AttestationObjectKey_new t' o' a' ->
     t = t' /\ o = o' /\ a = a').
Proof.
  split_and!.
  - intros t p b t' p' b' ? ? ? ? E. apply (f_equal split_slash) in E.
    rewrite !blob_segments in E by done. same_segments.
  - intros t o h s c t' o' h' s' c' ? ? ? ? ? ? ? ? ? ? E. apply (f_equal split_slash) in E.
    rewrite !occurrence_segments in E by done. same_segments.
  - intros t o a t' o' a' ? ? ? ? ? ? E. apply (f_equal split_slash) in E.
    rewrite !attestation_segments in E by done. same_segments.
Qed.
