(* ===== verification/Records.v ===== *)
(** Records over canonical JSON: what the record families of
    [archivist-protocol] and [archivist-auth] share.

    Every family reads its members by name through the same few helpers
    ([require], [typed], [u63], [optional], [retained]) and writes them with
    [Object::set].  [Section Readers] has the helpers over the family's own
    error; [WireType] is what a member's grammar promises them; [record_iff]
    says when an object is exactly what a table of members and a set of
    retained members write. *)

From S2P Require Import Prelude Text Json JsonFacts Sha256 Vocabulary Derivation.

(** * Writing *)

(** [if let Some(v) = .. { record.set(name, v) }]. *)
Definition set_member (o : Object) (m : list Z * option Value) : Object :=
  match m.2 with Some v => object_set o m.1 v | None => o end.

Definition set_members (ms : list (list Z * option Value)) (o : Object) : Object :=
  fold_left set_member ms o.

(** [for (name, value) in unknown.iter() { record.set(name, value.clone()) }]. *)
Definition set_all (u o : Object) : Object := fold_left (fun o m => object_set o m.1 m.2) u o.

(** [u63_value]: an integer past [i64::MAX] panics. *)
Definition fits_i64 (n : Z) : bool := n <=? I64_MAX.

(** * Reading *)

Section Readers.
Context {E : Type} (invalid : list Z -> E).

Definition require (o : Object) (field : list Z) : result E Value :=
  ok_or (object_get o field) (invalid field).

Definition text (v : Value) (field : list Z) : result E (list Z) :=
  match v with VText t => Ok t | _ => Err (invalid field) end.

Definition u63 (v : Value) (field : list Z) : result E Z :=
  match v with
  | VInt n => if 0 <=? n then Ok n else Err (invalid field)
  | _ => Err (invalid field)
  end.

(** [u63(require(object, field)?, field)]. *)
Definition u63_member (o : Object) (field : list Z) : result E Z :=
  let! v := require o field in u63 v field.

(** [typed::<T>], given [T::from_str]. *)
Definition typed {A} (parse : list Z -> result GrammarError A) (o : Object) (field : list Z)
    : result E A :=
  let! v := require o field in
  let! raw := text v field in
  map_err (fun _ => invalid field) (parse raw).

Definition optional {A} (parse : list Z -> result GrammarError A) (o : Object) (field : list Z)
    : result E (option A) :=
  match object_get o field with
  | None => Ok None
  | Some (VText raw) => let! a := map_err (fun _ => invalid field) (parse raw) in Ok (Some a)
  | Some _ => Err (invalid field)
  end.

Definition optional_u63 (o : Object) (field : list Z) : result E (option Z) :=
  match object_get o field with
  | None => Ok None
  | Some v => let! n := u63 v field in Ok (Some n)
  end.

(** [for field in RESERVED_FIELDS { if object.contains(field) { return Err(..) } }]. *)
Fixpoint refuse_members (o : Object) (fields : list (list Z)) : result E unit :=
  match fields with
  | [] => Ok tt
  | field :: fields' =>
      if object_contains o field then Err (invalid field) else refuse_members o fields'
  end.
End Readers.

(** [retained]: the members whose names are not in [names]. *)
Definition retained (names : list (list Z)) (o : Object) : Object :=
  fold_left (fun u m => if bool_decide (m.1 ∈ names) then u else object_set u m.1 m.2) o [].

(** * Objects by lookup *)

Lemma wf_members_unique a b :
  wf_members a -> wf_members b -> Permutation a b -> a = b.
Proof.
  intros [Ha Hsa] [Hb _] Hp.
  eapply (StronglySorted_unique_strong name_lt); [|exact Ha|exact Hb|exact Hp].
  intros x y _ _ Hxy Hyx. unfold name_lt in *.
  rewrite (cmp_utf16_antisym x.1 y.1), Hxy in Hyx. done.
Qed.

Lemma object_set_wf o name v : wf_members o -> Forall is_scalar name ->
  wf_members (object_set o name v).
Proof. intros Hw Hn. by destruct (object_ops_refine o name v Hw Hn) as (_ & _ & [? _] & _). Qed.

(** Literal member names are scalar text. *)
Ltac scalar_name := apply ascii_scalar; vm_compute; reflexivity.

Lemma object_get_map o name : wf_members o -> Forall is_scalar name ->
  object_get o name = object_map o !! name.
Proof. intros Hw Hn. by destruct (object_ops_refine o name VNull Hw Hn) as [-> _]. Qed.

Lemma object_contains_get o name : object_contains o name = bool_decide (is_Some (object_get o name)).
Proof. unfold object_contains. destruct (object_get o name); [by rewrite bool_decide_true by eauto|].
  rewrite bool_decide_false; [done|]. by intros []. Qed.

Lemma object_get_in o name v : wf_members o -> Forall is_scalar name ->
  object_get o name = Some v <-> (name, v) ∈ o.
Proof.
  intros Hw Hn. rewrite object_get_map by done. unfold object_map.
  symmetry. apply elem_of_list_to_map. by apply wf_members_NoDup.
Qed.

Lemma object_get_set o name v name' : wf_members o -> Forall is_scalar name -> Forall is_scalar name' ->
  object_get (object_set o name v) name' = if bool_decide (name = name') then Some v else object_get o name'.
Proof.
  intros Hw Hn Hn'. rewrite !object_get_map by auto using object_set_wf.
  destruct (object_ops_refine o name v Hw Hn) as (_ & _ & [_ ->] & _).
  case_bool_decide as E; [subst; by rewrite lookup_insert_eq|by rewrite lookup_insert_ne].
Qed.

(** Names of a well-formed object are scalar text. *)
Lemma wf_members_scalar o name v : wf_members o -> (name, v) ∈ o -> Forall is_scalar name.
Proof. intros [_ Hs] Hin. rewrite Forall_forall in Hs. exact (Hs _ Hin). Qed.

(** Two objects with the same members are the same object. *)
Lemma object_ext a b : wf_members a -> wf_members b ->
  (forall name, Forall is_scalar name -> object_get a name = object_get b name) -> a = b.
Proof.
  intros Ha Hb Hg. apply wf_members_unique; [done|done|].
  apply NoDup_Permutation; [exact (NoDup_fmap_1 fst _ (wf_members_NoDup _ Ha))
                           |exact (NoDup_fmap_1 fst _ (wf_members_NoDup _ Hb))|].
  intros [name v]. split; intros Hin.
  - pose proof (wf_members_scalar a _ _ Ha Hin) as Hs. apply object_get_in; [done..|].
    rewrite <- Hg by done. by apply object_get_in.
  - pose proof (wf_members_scalar b _ _ Hb Hin) as Hs. apply object_get_in; [done..|].
    rewrite Hg by done. by apply object_get_in.
Qed.

Lemma wf_members_nil : wf_members [].
Proof. split; constructor. Qed.

Lemma wf_object_iff o : wf_value (VObject o) <-> wf_members o /\ Forall (fun m => wf_value m.2) o.
Proof.
  split; [intros Hw; inversion Hw; subst; done|]. intros [[] ?]. by constructor.
Qed.

Lemma object_get_wf o name v : wf_value (VObject o) -> Forall is_scalar name ->
  object_get o name = Some v -> wf_value v.
Proof.
  intros [Hw Hv]%wf_object_iff Hn Hg. apply object_get_in in Hg; [|done..].
  rewrite Forall_forall in Hv. exact (Hv _ Hg).
Qed.

Lemma object_depth (o : Object) d : (depth (VObject o) <= d)%nat <-> Forall (fun m => depth m.2 < d)%nat o.
Proof.
  simpl. induction o as [|m o IH]; [split; [done|simpl; lia]|]. rewrite Forall_cons. simpl. rewrite <- IH. lia.
Qed.

(** ** Writing a table *)

Lemma set_member_wf o m : Forall is_scalar m.1 -> wf_members o -> wf_members (set_member o m).
Proof. destruct m as [n [v|]]; [intros ? ?; by apply object_set_wf|done]. Qed.

Lemma set_members_wf ms o : Forall (fun m => Forall is_scalar m.1) ms -> wf_members o ->
  wf_members (set_members ms o).
Proof.
  intros Hs. revert o. induction Hs as [|m ms Hn _ IH]; intros o Ho; [done|].
  apply IH. by apply set_member_wf.
Qed.

Lemma object_get_set_members_other ms o name : Forall (fun m => Forall is_scalar m.1) ms ->
  wf_members o -> Forall is_scalar name -> name ∉ ms.*1 ->
  object_get (set_members ms o) name = object_get o name.
Proof.
  intros Hs. revert o. induction Hs as [|[n ov] ms Hn _ IH]; intros o Ho Hsc Hni; [done|].
  simpl in *. apply not_elem_of_cons in Hni as [Hne Hni]. rewrite IH by (done || by apply set_member_wf).
  destruct ov as [v|]; [|done]. unfold set_member. simpl. rewrite object_get_set by done.
  by rewrite bool_decide_false.
Qed.

Lemma object_get_set_members ms o name ov : Forall (fun m => Forall is_scalar m.1) ms ->
  wf_members o -> Forall is_scalar name -> NoDup ms.*1 -> (name, ov) ∈ ms ->
  object_get (set_members ms o) name = match ov with Some v => Some v | None => object_get o name end.
Proof.
  intros Hs. revert o. induction Hs as [|[n ov'] ms Hn Hms IH]; intros o Ho Hsc Hnd Hin.
  { by apply elem_of_nil in Hin. }
  simpl in Hnd. apply NoDup_cons in Hnd as [Hni Hnd]. simpl.
  assert (Ho' : wf_members (set_member o (n, ov'))) by (by apply set_member_wf).
  apply elem_of_cons in Hin as [[= -> ->]|Hin].
  - rewrite object_get_set_members_other by done. destruct ov' as [v|]; [|done].
    unfold set_member. simpl. rewrite object_get_set by done. by rewrite bool_decide_true.
  - rewrite IH by done. destruct ov as [v|]; [done|]. destruct ov' as [v|]; [|done].
    unfold set_member. simpl. rewrite object_get_set by done. rewrite bool_decide_false; [done|].
    intros ->. apply Hni. apply list_elem_of_fmap. by exists (name, None).
Qed.

Lemma set_all_members u o : set_all u o = set_members (map (fun m => (m.1, Some m.2)) u) o.
Proof.
  unfold set_all, set_members. revert o. induction u as [|[n v] u IH]; intros o; [done|]. simpl. apply IH.
Qed.

(** ** Retained members *)

Section Retained.
Variable names : list (list Z).

Lemma retained_members o :
  retained names o =
  set_members (map (fun m => (m.1, if bool_decide (m.1 ∈ names) then None else Some m.2)) o) [].
Proof.
  unfold retained, set_members. generalize ([] : Object). induction o as [|[n v] o IH]; intros u; [done|].
  simpl. rewrite IH. unfold set_member. simpl. by case_bool_decide.
Qed.

Lemma retained_table_names (o : Object) :
  (map (fun m => (m.1, if bool_decide (m.1 ∈ names) then None else Some m.2)) o).*1 = o.*1.
Proof. induction o as [|m o IH]; [done|]. simpl. by f_equal. Qed.

Lemma retained_table_scalar (o : Object) : wf_members o ->
  Forall (fun m : list Z * option Value => Forall is_scalar m.1)
    (map (fun m => (m.1, if bool_decide (m.1 ∈ names) then None else Some m.2)) o).
Proof. intros [_ Hs]. by apply Forall_map. Qed.

Lemma retained_wf o : wf_members o -> wf_members (retained names o).
Proof.
  intros Hw. rewrite retained_members. apply set_members_wf; [by apply retained_table_scalar|apply wf_members_nil].
Qed.

Lemma object_get_retained o name : wf_members o -> Forall is_scalar name ->
  object_get (retained names o) name = if bool_decide (name ∈ names) then None else object_get o name.
Proof.
  intros Hw Hn. rewrite retained_members. pose proof (retained_table_scalar o Hw) as Hts.
  destruct (object_get o name) as [v|] eqn:E.
  - pose proof (proj1 (object_get_in o name v Hw Hn) E) as Hin.
    rewrite (object_get_set_members _ [] name (if bool_decide (name ∈ names) then None else Some v)).
    + by case_bool_decide.
    + done.
    + apply wf_members_nil.
    + done.
    + rewrite retained_table_names. by apply wf_members_NoDup.
    + apply list_elem_of_In, in_map_iff. exists (name, v). split; [done|by apply list_elem_of_In].
  - rewrite object_get_set_members_other; [by case_bool_decide|done|apply wf_members_nil|done|].
    rewrite retained_table_names. intros ([n v] & -> & Hin)%list_elem_of_fmap. simpl in *.
    apply (object_get_in o n v Hw Hn) in Hin. congruence.
Qed.

(** The retained members are none of the known ones. *)
Lemma retained_unknown o : wf_members o -> Forall (fun m => m.1 ∉ names) (retained names o).
Proof.
  intros Hw. apply Forall_forall. intros [n v] Hin.
  pose proof (retained_wf o Hw) as Hr. pose proof (wf_members_scalar _ _ _ Hr Hin) as Hn.
  apply (object_get_in _ n v Hr Hn) in Hin. rewrite object_get_retained in Hin by done. by case_bool_decide.
Qed.

(** * Records *)

Variable ms : list (list Z * option Value).
Hypothesis ms_scalar : Forall (fun m => Forall is_scalar m.1) ms.
Hypothesis ms_NoDup : NoDup ms.*1.
Hypothesis ms_names : forall name, name ∈ names <-> name ∈ ms.*1.

(** What a record writes: the table, then the retained members. *)
Definition record (u : Object) : Object := set_all u (set_members ms []).

Lemma unknown_table (u : Object) : (map (fun m => (m.1, Some m.2)) u : list (list Z * option Value)).*1 = u.*1.
Proof. induction u as [|m u IH]; [done|]. simpl. by f_equal. Qed.

Lemma record_wf_members u : wf_members u -> wf_members (record u).
Proof.
  intros [_ Hu]. unfold record. rewrite set_all_members. apply set_members_wf; [by apply Forall_map|].
  apply set_members_wf; [done|apply wf_members_nil].
Qed.

Lemma record_get_known u name ov : wf_members u -> Forall (fun m => m.1 ∉ names) u ->
  (name, ov) ∈ ms -> object_get (record u) name = ov.
Proof.
  intros Hw Hu Hin. assert (Hn : Forall is_scalar name).
  { rewrite Forall_forall in ms_scalar. exact (ms_scalar _ Hin). }
  assert (Hnames : name ∈ names).
  { apply ms_names, list_elem_of_fmap. by exists (name, ov). }
  assert (Hb : wf_members (set_members ms [])) by (apply set_members_wf; [done|apply wf_members_nil]).
  unfold record. rewrite set_all_members, object_get_set_members_other; [|by apply Forall_map, Hw|done|done|].
  - rewrite (object_get_set_members ms [] name ov) by (done || apply wf_members_nil). by destruct ov.
  - rewrite unknown_table. intros (m & -> & Hm)%list_elem_of_fmap.
    rewrite Forall_forall in Hu. by apply (Hu _ Hm).
Qed.

Lemma record_get_unknown u name : wf_members u -> Forall is_scalar name -> name ∉ names ->
  object_get (record u) name = object_get u name.
Proof.
  intros Hw Hn Hni. assert (Hb : wf_members (set_members ms [])) by (apply set_members_wf; [done|apply wf_members_nil]).
  assert (Hbase : object_get (set_members ms []) name = None).
  { rewrite object_get_set_members_other; [done|done|apply wf_members_nil|done|]. by rewrite <- ms_names. }
  unfold record. rewrite set_all_members. destruct (object_get u name) as [v|] eqn:E.
  - rewrite (object_get_set_members _ _ name (Some v)); [done|by apply Forall_map, Hw|done|done| |].
    + rewrite unknown_table. by apply wf_members_NoDup.
    + apply list_elem_of_In, in_map_iff. exists (name, v). split; [done|]. by apply list_elem_of_In, object_get_in.
  - rewrite object_get_set_members_other; [done|by apply Forall_map, Hw|done|done|].
    rewrite unknown_table. intros ([n v] & -> & Hin)%list_elem_of_fmap. simpl in *.
    apply (object_get_in u n v Hw Hn) in Hin. congruence.
Qed.

(** Reserved names are not in the table, so only a retained member could carry one. *)
Lemma record_reserved u reserved : wf_members u ->
  (forall f, f ∈ reserved -> Forall is_scalar f /\ f ∉ names) ->
  Forall (fun m => m.1 ∉ reserved) u <-> Forall (fun f => object_get (record u) f = None) reserved.
Proof.
  intros Hw Hr. rewrite !Forall_forall. split.
  - intros H f Hf. destruct (Hr f Hf) as [Hs Hni]. rewrite record_get_unknown by done.
    destruct (object_get u f) as [v|] eqn:E; [|done].
    apply object_get_in in E; [|done..]. by destruct (H _ E).
  - intros H [f v] Hin Hf. simpl in Hf. destruct (Hr f Hf) as [Hs Hni]. specialize (H f Hf).
    rewrite record_get_unknown in H by done. apply (object_get_in _ f v Hw Hs) in Hin. congruence.
Qed.

(** An object is the record of a table and of retained members exactly when
    it has the table's members and retains the others. *)
Lemma record_iff o u : wf_members o ->
  (Forall (fun m => object_get o m.1 = m.2) ms /\ u = retained names o) <->
  (wf_members u /\ Forall (fun m => m.1 ∉ names) u /\ o = record u).
Proof.
  intros Ho. split.
  - intros [Hms ->]. pose proof (retained_wf o Ho) as Hr. pose proof (retained_unknown o Ho) as Hu.
    split_and!; [done|done|]. apply object_ext; [done|by apply record_wf_members|].
    intros name Hn. destruct (decide (name ∈ names)) as [Hin|Hni].
    + apply ms_names, list_elem_of_fmap in Hin as ([n ov] & -> & Hin). simpl in *.
      rewrite (record_get_known _ n ov) by done. rewrite Forall_forall in Hms. exact (Hms _ Hin).
    + rewrite record_get_unknown by done. rewrite object_get_retained by done. by rewrite bool_decide_false.
  - intros (Hu & Hdis & ->). split.
    + apply Forall_forall. intros [n ov] Hin. by apply record_get_known.
    + apply object_ext; [done|by apply retained_wf|]. intros name Hn.
      rewrite object_get_retained by done. case_bool_decide as Hin.
      * destruct (object_get u name) as [v|] eqn:E; [|done]. apply object_get_in in E; [|done..].
        rewrite Forall_forall in Hdis. by destruct (Hdis _ E).
      * by rewrite record_get_unknown.
Qed.

Lemma record_values (P : Value -> Prop) u : wf_members u -> Forall (fun m => m.1 ∉ names) u ->
  Forall (fun m => forall v, m.2 = Some v -> P v) ms -> Forall (fun m => P m.2) u ->
  Forall (fun m => P m.2) (record u).
Proof.
  intros Hu Hdis Hms Hv. pose proof (record_wf_members u Hu) as Hr.
  apply Forall_forall. intros [n v] Hin. simpl.
  pose proof (wf_members_scalar _ _ _ Hr Hin) as Hn. apply (object_get_in _ n v Hr Hn) in Hin.
  destruct (decide (n ∈ names)) as [Hi|Hni].
  - apply ms_names, list_elem_of_fmap in Hi as ([n' ov] & -> & Hi). simpl in *.
    rewrite (record_get_known u n' ov) in Hin by done. rewrite Forall_forall in Hms. exact (Hms _ Hi v Hin).
  - rewrite record_get_unknown in Hin by done. apply object_get_in in Hin; [|done..].
    rewrite Forall_forall in Hv. exact (Hv _ Hin).
Qed.

Lemma record_wf u : Forall (fun m => forall v, m.2 = Some v -> wf_value v) ms ->
  wf_value (VObject u) -> Forall (fun m => m.1 ∉ names) u -> wf_value (VObject (record u)).
Proof.
  intros Hms [Hu Hv]%wf_object_iff Hdis. apply wf_object_iff.
  split; [by apply record_wf_members|by apply (record_values wf_value)].
Qed.

Lemma record_depth u d : wf_members u -> Forall (fun m => m.1 ∉ names) u ->
  Forall (fun m => forall v, m.2 = Some v -> (depth v < d)%nat) ms ->
  (depth (VObject u) <= d)%nat -> (depth (VObject (record u)) <= d)%nat.
Proof.
  intros Hu Hdis Hms Hd. apply object_depth. apply (record_values (fun v => depth v < d)%nat); [done..|].
  by apply object_depth.
Qed.
End Retained.

(** * Member grammars *)

(** What a grammar promises a record: a value is read from exactly one text. *)
Class WireType {A} (parse : list Z -> result GrammarError A) := {
  wire_text : A -> list Z;
  wire_ok : A -> Prop;
  wire_law t a : Forall is_scalar t -> parse t = Ok a <-> wire_ok a /\ t = wire_text a;
  wire_scalar a : wire_ok a -> Forall is_scalar (wire_text a) }.
Arguments wire_text {A} parse {_} a.
Arguments wire_ok {A} parse {_} a.

Lemma text_parse_Ok f t u : text_parse f t = Ok u <-> u = t /\ f t = true.
Proof. unfold text_parse. destruct (f t); naive_solver. Qed.

Section TextNewtypes.
Variable grammar : list Z -> bool.
#[export] Program Instance text_wire : WireType (text_parse grammar) :=
  {| wire_text t := t; wire_ok t := grammar t = true /\ Forall is_scalar t |}.
Next Obligation. intros t a Ht. rewrite text_parse_Ok. naive_solver. Qed.
Next Obligation. by intros a [_ ?]. Qed.
End TextNewtypes.

#[export] Program Instance digest_wire : WireType digest_parse :=
  {| wire_text := to_hex; wire_ok raw := Forall is_byte raw /\ length raw = 32%nat |}.
Next Obligation.
  intros t a Ht. split; [intros (-> & ? & ?)%digest_parse_sound; done|].
  intros [[? ?] ->]. by apply digest_parse_to_hex.
Qed.
Next Obligation.
  intros raw [Hb _]. simpl. unfold to_hex. eapply Forall_impl; [by apply encode_hex_ascii|].
  unfold is_scalar. simpl. lia.
Qed.

(** An enum whose tokens are ASCII, decided by evaluation. *)
Class AsciiEnum (E : Type) `{ClosedEnum E} :=
  ascii_tokens : forallb (fun e => forallb (fun c => in_range 0 c 0x7F) (token e)) variants = true.
#[export] Hint Extern 0 (AsciiEnum _) => vm_compute; reflexivity : typeclass_instances.

#[export] Program Instance enum_wire {E} `{AsciiEnum E} : WireType (enum_parse (E:=E)) :=
  {| wire_text := token; wire_ok _ := True |}.
Next Obligation. intros E ? ? t a _. rewrite enum_parse_iff. naive_solver. Qed.
Next Obligation.
  intros E ? Ha a _. apply ascii_scalar. unfold AsciiEnum in Ha. rewrite forallb_forall in Ha.
  apply Ha, list_elem_of_In, variants_complete.
Qed.

#[export] Instance TenantId_wire : WireType TenantId_parse := text_wire _.
#[export] Instance ClientId_wire : WireType ClientId_parse := text_wire _.
#[export] Instance HarnessId_wire : WireType HarnessId_parse := text_wire _.
#[export] Instance AdapterId_wire : WireType AdapterId_parse := text_wire _.
#[export] Instance GenerationId_wire : WireType GenerationId_parse := text_wire _.
#[export] Instance RequestId_wire : WireType RequestId_parse := text_wire _.
#[export] Instance ProviderAttemptId_wire : WireType ProviderAttemptId_parse := text_wire _.
#[export] Instance TraceId_wire : WireType TraceId_parse := text_wire _.
#[export] Instance InferenceRequestId_wire : WireType InferenceRequestId_parse := text_wire _.
#[export] Instance VersionToken_wire : WireType VersionToken_parse := text_wire _.
#[export] Instance OpaqueId_wire : WireType OpaqueId_parse := text_wire _.
#[export] Instance Timestamp_wire : WireType Timestamp_parse := text_wire _.

(** What each reader accepts, of a well-formed object. *)
Section ReaderFacts.
Context {E : Type} (invalid : list Z -> E).
Variable o : Object.
Hypothesis Ho : wf_value (VObject o).

Lemma get_text_scalar field t : Forall is_scalar field -> object_get o field = Some (VText t) ->
  Forall is_scalar t.
Proof. intros Hf Hg. apply object_get_wf in Hg; [|done..]. by inversion Hg. Qed.

Lemma typed_iff {A} (parse : list Z -> result GrammarError A) `{!WireType parse} field a :
  Forall is_scalar field ->
  typed invalid parse o field = Ok a <->
  wire_ok parse a /\ object_get o field = Some (VText (wire_text parse a)).
Proof.
  intros Hf. unfold typed, require, ok_or. split.
  - destruct (object_get o field) as [[| | |t| |]|] eqn:E1; cbn; try done.
    intros Hp. assert (Hp' : parse t = Ok a) by (destruct (parse t); simpl in Hp; congruence).
    apply wire_law in Hp' as [? ->]; [done|]. by apply (get_text_scalar field).
  - intros [Hok ->]. cbn. pose proof (wire_scalar a Hok) as Hs.
    by rewrite (proj2 (wire_law (parse:=parse) _ a Hs)).
Qed.

Lemma optional_iff {A} (parse : list Z -> result GrammarError A) `{!WireType parse} field oa :
  Forall is_scalar field ->
  optional invalid parse o field = Ok oa <->
  (forall a, oa = Some a -> wire_ok parse a) /\
  object_get o field = (fun a => VText (wire_text parse a)) <$> oa.
Proof.
  intros Hf. unfold optional. split.
  - destruct (object_get o field) as [[| | |t| |]|] eqn:E1; cbn; try done.
    + destruct (parse t) as [a| |] eqn:Hp; cbn; [|done|done]. intros [= <-].
      apply wire_law in Hp as [? ->]; [|by apply (get_text_scalar field)]. naive_solver.
    + by intros [= <-].
  - intros [Hok ->]. destruct oa as [a|]; [|done]. cbn. specialize (Hok a eq_refl).
    pose proof (wire_scalar a Hok) as Hs. by rewrite (proj2 (wire_law (parse:=parse) _ a Hs)).
Qed.

Lemma u63_iff v field n : wf_value v -> u63 invalid v field = Ok n <-> 0 <= n <= I64_MAX /\ v = VInt n.
Proof.
  intros Hv. unfold u63. split.
  - destruct v as [| |m| | |]; try done. inversion Hv as [| |? [? ?]| | |]; subst.
    destruct (0 <=? m) eqn:E1; [|done]. intros [= <-]. split; [lia|done].
  - intros [? ->]. destruct (0 <=? n) eqn:E1; [done|lia].
Qed.

Lemma u63_member_iff field n : Forall is_scalar field ->
  u63_member invalid o field = Ok n <-> 0 <= n <= I64_MAX /\ object_get o field = Some (VInt n).
Proof.
  intros Hf. unfold u63_member, require, ok_or. split.
  - destruct (object_get o field) as [v|] eqn:E1; cbn [rbind]; [|done].
    intros Hu. apply u63_iff in Hu as [? ->]; [done|]. by apply (object_get_wf o field).
  - intros [Hn ->]. cbn [rbind]. apply u63_iff; [|done]. constructor. unfold is_i64, I64_MIN, I64_MAX in *. lia.
Qed.

Lemma optional_u63_iff field on : Forall is_scalar field ->
  optional_u63 invalid o field = Ok on <->
  (forall n, on = Some n -> 0 <= n <= I64_MAX) /\ object_get o field = VInt <$> on.
Proof.
  intros Hf. unfold optional_u63. split.
  - destruct (object_get o field) as [v|] eqn:E1.
    + destruct (u63 invalid v field) as [n| |] eqn:E2; cbn; [|done|done]. intros [= <-].
      apply u63_iff in E2 as [? ->]; [naive_solver|]. by apply (object_get_wf o field).
    + by intros [= <-].
  - intros [Hn ->]. destruct on as [n|]; [|done]. cbn [fmap option_fmap option_map].
    assert (Hw : wf_value (VInt n)).
    { constructor. specialize (Hn n eq_refl). unfold is_i64, I64_MIN, I64_MAX in *. lia. }
    by rewrite (proj2 (u63_iff _ field n Hw) (conj (Hn n eq_refl) eq_refl)).
Qed.

Lemma refuse_members_iff fields : refuse_members invalid o fields = Ok tt <->
  Forall (fun f => object_get o f = None) fields.
Proof.
  induction fields as [|f fields IH]; [done|]. cbn [refuse_members].
  rewrite object_contains_get, Forall_cons. case_bool_decide as Hd.
  - destruct Hd as [v Hv]. rewrite Hv. naive_solver.
  - rewrite IH. apply eq_None_not_Some in Hd. naive_solver.
Qed.

(** A reserved member is refused at the first such member. *)
Lemma refuse_members_Err fields f v : f ∈ fields -> object_get o f = Some v ->
  exists g, refuse_members invalid o fields = Err (invalid g) /\ g ∈ fields /\ is_Some (object_get o g).
Proof.
  induction fields as [|g fields IH]; intros Hin Hv; [by apply elem_of_nil in Hin|]. cbn [refuse_members].
  rewrite object_contains_get. case_bool_decide as Hg.
  - exists g. split_and!; [done|apply elem_of_cons; by left|done].
  - apply elem_of_cons in Hin as [->|Hin]; [by destruct Hg; rewrite Hv|].
    destruct (IH Hin Hv) as (h & ? & ? & ?). exists h. split_and!; [done|apply elem_of_cons; by right|done].
Qed.
End ReaderFacts.

(** * Readers always decide *)

Lemma text_parse_fuel f t : text_parse f t <> OutOfFuel.
Proof. unfold text_parse. by destruct (f t). Qed.

Lemma digest_parse_fuel t : digest_parse t <> OutOfFuel.
Proof. unfold digest_parse, ok_or. repeat case_match; done. Qed.

Lemma signature_parse_fuel t : Ed25519Signature_parse t <> OutOfFuel.
Proof. unfold Ed25519Signature_parse, ok_or. repeat case_match; done. Qed.

Lemma enum_parse_fuel {E} `{ClosedEnum E} t : enum_parse (E:=E) t <> OutOfFuel.
Proof. unfold enum_parse, ok_or. repeat case_match; done. Qed.

Section Fuel.
Context {E : Type} (invalid : list Z -> E).

Lemma require_fuel o f : require invalid o f <> OutOfFuel.
Proof. unfold require, ok_or. by case_match. Qed.

Lemma u63_fuel v f : u63 invalid v f <> OutOfFuel.
Proof. unfold u63. repeat case_match; done. Qed.

Lemma u63_member_fuel o f : u63_member invalid o f <> OutOfFuel.
Proof. apply rbind_fuel; [apply require_fuel|]. intros. apply u63_fuel. Qed.

Lemma typed_fuel {A} (p : list Z -> result GrammarError A) o f :
  (forall t, p t <> OutOfFuel) -> typed invalid p o f <> OutOfFuel.
Proof.
  intros Hp. unfold typed. apply rbind_fuel; [apply require_fuel|]. intros v _.
  apply rbind_fuel; [by destruct v|]. intros t _. specialize (Hp t). by destruct (p t).
Qed.

Lemma optional_fuel {A} (p : list Z -> result GrammarError A) o f :
  (forall t, p t <> OutOfFuel) -> optional invalid p o f <> OutOfFuel.
Proof.
  intros Hp. unfold optional. repeat case_match; try done. specialize (Hp t). by destruct (p t).
Qed.

Lemma optional_u63_fuel o f : optional_u63 invalid o f <> OutOfFuel.
Proof.
  unfold optional_u63. case_match; [|done]. apply rbind_fuel; [apply u63_fuel|done].
Qed.

Lemma refuse_members_fuel o fs : refuse_members invalid o fs <> OutOfFuel.
Proof. induction fs as [|f fs IH]; [done|]. simpl. by case_match. Qed.
End Fuel.

#[export] Hint Resolve digest_parse_fuel signature_parse_fuel enum_parse_fuel require_fuel u63_fuel
  u63_member_fuel typed_fuel optional_fuel optional_u63_fuel refuse_members_fuel : fuel.
#[export] Hint Extern 1 (?p ?t <> OutOfFuel) => apply text_parse_fuel : fuel.

(** A chain of checks and member readings always decides. *)
Ltac no_fuel := repeat (apply rbind_fuel; [auto with fuel|intros ? _]); try done.

(** * Tables decided by evaluation *)

(** [names'] lists [names], each once, in ASCII. *)
Definition names_table (names names' : list (list Z)) : bool :=
  forallb (forallb (fun c => in_range 0 c 0x7F)) names' && bool_decide (NoDup names') &&
  forallb (fun n => bool_decide (n ∈ names')) names && forallb (fun n => bool_decide (n ∈ names)) names'.

Lemma names_table_ok names (ms : list (list Z * option Value)) : names_table names ms.*1 = true ->
  Forall (fun m => Forall is_scalar m.1) ms /\ NoDup ms.*1 /\
  forall name, name ∈ names <-> name ∈ ms.*1.
Proof.
  unfold names_table. intros [[[Hs Hnd]%andb_true_iff H1]%andb_true_iff H2]%andb_true_iff.
  apply bool_decide_eq_true in Hnd. split_and!; [|done|].
  - apply (Forall_map fst (Forall is_scalar) ms). apply Forall_forall. intros n Hn.
    apply ascii_scalar. rewrite forallb_forall in Hs. by apply Hs, list_elem_of_In.
  - rewrite forallb_forall in H1, H2. intros n. split; intros Hn.
    + apply list_elem_of_In, H1, bool_decide_eq_true in Hn. done.
    + apply list_elem_of_In, H2, bool_decide_eq_true in Hn. done.
Qed.

(** Split a chain of readers of a well-formed object into what each read. *)
Ltac split_readers Ho :=
  repeat match goal with
  | H : rbind _ _ = Ok _ |- _ => apply rbind_Ok in H as (? & ? & H)
  | H : typed ?i ?p ?o ?f = Ok ?a |- _ =>
      apply (typed_iff i o Ho p f a ltac:(scalar_name)) in H as [? ?]
  | H : optional ?i ?p ?o ?f = Ok ?a |- _ =>
      apply (optional_iff i o Ho p f a ltac:(scalar_name)) in H as [? ?]
  | H : u63_member ?i ?o ?f = Ok ?n |- _ =>
      apply (u63_member_iff i o Ho f n ltac:(scalar_name)) in H as [? ?]
  | H : optional_u63 ?i ?o ?f = Ok ?n |- _ =>
      apply (optional_u63_iff i o Ho f n ltac:(scalar_name)) in H as [? ?]
  | H : refuse_members _ _ _ = Ok ?u |- _ => destruct u; apply refuse_members_iff in H
  end.

(** Prove a table's lookups from the readers' facts. *)
Ltac table_lookups :=
  repeat (apply Forall_cons; split;
    [cbn [fst snd]; match goal with H : object_get ?o ?f = _ |- object_get ?o ?f = _ => exact H end|]);
  apply Forall_nil; exact I.

(** Run a chain of readers on an object whose members are known. *)
Ltac run_reader Ho :=
  lazymatch goal with
  | |- rbind (typed ?i ?p ?o ?f) _ = _ =>
      apply rbind_Ok; eexists; split;
      [apply (typed_iff i o Ho p f _ ltac:(scalar_name)); split; cycle 1;
       [match goal with H : object_get o f = _ |- _ => exact H end|assumption || exact I]|]
  | |- rbind (optional ?i ?p ?o ?f) _ = _ =>
      apply rbind_Ok; eexists; split;
      [apply (optional_iff i o Ho p f _ ltac:(scalar_name)); split; cycle 1;
       [match goal with H : object_get o f = _ |- _ => exact H end|assumption]|]
  | |- rbind (u63_member ?i ?o ?f) _ = _ =>
      apply rbind_Ok; eexists; split;
      [apply (u63_member_iff i o Ho f _ ltac:(scalar_name)); split; cycle 1;
       [match goal with H : object_get o f = _ |- _ => exact H end|assumption]|]
  | |- rbind (optional_u63 ?i ?o ?f) _ = _ =>
      apply rbind_Ok; eexists; split;
      [apply (optional_u63_iff i o Ho f _ ltac:(scalar_name)); split; cycle 1;
       [match goal with H : object_get o f = _ |- _ => exact H end|assumption]|]
  end; cbv beta.

(** ** Well-formed tables *)

Lemma wf_member {A} (p : list Z -> result GrammarError A) `{!WireType p} a : wire_ok p a ->
  forall v, Some (VText (wire_text p a)) = Some v -> wf_value v.
Proof. intros Ha v [= <-]. constructor. by apply wire_scalar. Qed.

Lemma wf_member_opt {A} (p : list Z -> result GrammarError A) `{!WireType p} oa :
  (forall a, oa = Some a -> wire_ok p a) ->
  forall v, (fun a => VText (wire_text p a)) <$> oa = Some v -> wf_value v.
Proof. intros Ha v. destruct oa as [a|]; [|done]. intros [= <-]. by apply (wf_member p a (Ha a eq_refl)). Qed.

Lemma wf_member_enum {E} `{AsciiEnum E} (e : E) v : Some (VText (token e)) = Some v -> wf_value v.
Proof. exact (wf_member enum_parse e I v). Qed.

Lemma wf_member_int n : 0 <= n <= I64_MAX -> forall v, Some (VInt n) = Some v -> wf_value v.
Proof. intros Hn v [= <-]. constructor. unfold is_i64, I64_MIN, I64_MAX in *. lia. Qed.

Lemma wf_member_opt_int on : (forall n, on = Some n -> 0 <= n <= I64_MAX) ->
  forall v, VInt <$> on = Some v -> wf_value v.
Proof. intros Hn v. destruct on as [n|]; [|done]. intros [= <-]. by apply (wf_member_int n (Hn n eq_refl)). Qed.

Ltac table_values :=
  repeat (apply Forall_cons; split;
    [cbn [fst snd];
     first [ exact (wf_member_enum _)
           | match goal with H : wire_ok ?p ?a |- _ => exact (wf_member p a H) end
           | match goal with H : forall a, _ = Some a -> wire_ok ?p a |- _ => exact (wf_member_opt p _ H) end
           | match goal with H : 0 <= ?n <= I64_MAX |- _ => exact (wf_member_int n H) end
           | match goal with H : forall n, _ = Some n -> 0 <= n <= I64_MAX |- _ => exact (wf_member_opt_int _ H) end
           | idtac ]|]);
  first [apply Forall_nil; exact I | idtac].

(** A text or integer member is a leaf. *)
Ltac leaf_depth :=
  intros ? Hleaf; unfold DEFAULT_MAX_DEPTH;
  first [injection Hleaf as <- | match type of Hleaf with _ <$> ?o = _ => destruct o; [injection Hleaf as <-|discriminate] end];
  cbn; lia.
