(* ===== verification/Envelope.v ===== *)
(** The ingest envelope ([crates/archivist-protocol/src/envelope.rs]): the
    frozen metadata part of an upload, its bounded validation, the
    re-derivation of the identities it declares, and its canonical bytes.

    Errors carry the member they are reported at; the one-line reasons are for
    logs and are not modelled.  The pinned constants are those of the generated
    [bindings.rs]. *)

From S2P Require Import Prelude Text Json JsonFacts Sha256 Vocabulary Derivation Records.

Definition PROTOCOL_VERSION : Z := 1.
Definition ENVELOPE_VERSION : Z := 1.
Definition CANONICAL_MAX_BYTES : Z := 65536.

Definition RESERVED_FIELDS : list (list Z) :=
  map lit ["authorization_epoch"; "authorization_key_id"; "authorization_timestamp"; "commit_time";
           "correlation_id"; "signature"]%string.

Definition ENVELOPE_FIELD_NAMES : list (list Z) :=
  map lit ["adapter_artifact_id"; "adapter_id"; "adapter_projection_version"; "artifact_kind";
           "attestation_id"; "blob_digest"; "capture_time"; "compressed_size";
           "envelope_creation_time"; "envelope_version"; "generation"; "harness"; "id_source";
           "incoming_checksum"; "incoming_checksum_algorithm"; "inference_request_id";
           "occurrence_id"; "orchestrator_attempt_id"; "origin_client_id"; "parent_session_id";
           "protocol_version"; "range_end"; "range_kind"; "range_start"; "request_id";
           "source_time"; "storage_profile"; "tenant_id"; "trace_id"; "transport_encoding";
           "uncompressed_size"; "uploader_client_id"; "upstream_session_id"]%string.

Inductive EnvelopeError :=
| EnvelopeMalformed (parse_error : option ParseError)
| VersionUnsupported (field : list Z) (found : Z)
| SchemaInvalid (field : list Z)
| SizeExceeded (limit_bytes : Z).

(** [EnvelopeError::code] and [EnvelopeError::field]. *)
Definition error_code (e : EnvelopeError) : list Z :=
  match e with
  | EnvelopeMalformed _ => lit "envelope.malformed"
  | VersionUnsupported _ _ => lit "envelope.version_unsupported"
  | SchemaInvalid _ => lit "envelope.schema_invalid"
  | SizeExceeded _ => lit "envelope.size_exceeded"
  end.

Definition error_field (e : EnvelopeError) : option (list Z) :=
  match e with
  | EnvelopeMalformed _ | SizeExceeded _ => None
  | VersionUnsupported field _ | SchemaInvalid field => Some field
  end.

Record Envelope := mkEnvelope
  { tenant_id : list Z;
    origin_client_id : list Z;
    uploader_client_id : list Z;
    harness : list Z;
    upstream_session_id : list Z;
    id_source : IdSource;
    artifact_kind : ArtifactKind;
    adapter_id : list Z;
    adapter_projection_version : list Z;
    adapter_artifact_id : list Z;
    generation : list Z;
    range_kind : RangeKind;
    range_start : Z;
    range_end : Z;
    blob_digest : list Z;
    incoming_checksum : list Z;
    incoming_checksum_algorithm : ChecksumAlgorithm;
    storage_profile : StorageProfile;
    transport_encoding : TransportEncoding;
    compressed_size : Z;
    uncompressed_size : Z;
    occurrence_id : list Z;
    attestation_id : list Z;
    request_id : list Z;
    capture_time : list Z;
    envelope_creation_time : list Z;
    source_time : option (list Z);
    parent_session_id : option (list Z);
    orchestrator_attempt_id : option (list Z);
    trace_id : option (list Z);
    inference_request_id : option (list Z);
    unknown_fields : Object }.

(** * Derived identities *)

Definition rederive_session_hash (e : Envelope) : list Z :=
  Derivation.session_hash (tenant_id e) (origin_client_id e) (harness e) (upstream_session_id e).

Definition rederive_artifact_hash (e : Envelope) : list Z :=
  Derivation.artifact_hash (rederive_session_hash e) (artifact_kind e) (adapter_id e)
    (adapter_projection_version e) (adapter_artifact_id e).

Definition rederive_occurrence_id (e : Envelope) : list Z :=
  Derivation.occurrence_id (rederive_session_hash e) (rederive_artifact_hash e) (generation e)
    (range_kind e) (range_start e) (range_end e) (blob_digest e).

Definition rederive_attestation_id (e : Envelope) : list Z :=
  Derivation.attestation_id (occurrence_id e) (uploader_client_id e) (request_id e).

(** * Rendering *)

(** The members [to_value] puts, in its order; an absent optional is skipped. *)
Definition envelope_fields (e : Envelope) : list (list Z * option Value) :=
  [(lit "protocol_version", Some (VInt PROTOCOL_VERSION));
   (lit "envelope_version", Some (VInt ENVELOPE_VERSION));
   (lit "tenant_id", Some (VText (tenant_id e)));
   (lit "origin_client_id", Some (VText (origin_client_id e)));
   (lit "uploader_client_id", Some (VText (uploader_client_id e)));
   (lit "harness", Some (VText (harness e)));
   (lit "upstream_session_id", Some (VText (upstream_session_id e)));
   (lit "id_source", Some (VText (token (id_source e))));
   (lit "artifact_kind", Some (VText (token (artifact_kind e))));
   (lit "adapter_id", Some (VText (adapter_id e)));
   (lit "adapter_projection_version", Some (VText (adapter_projection_version e)));
   (lit "adapter_artifact_id", Some (VText (adapter_artifact_id e)));
   (lit "generation", Some (VText (generation e)));
   (lit "range_kind", Some (VText (token (range_kind e))));
   (lit "range_start", Some (VInt (range_start e)));
   (lit "range_end", Some (VInt (range_end e)));
   (lit "blob_digest", Some (VText (to_hex (blob_digest e))));
   (lit "incoming_checksum", Some (VText (to_hex (incoming_checksum e))));
   (lit "incoming_checksum_algorithm", Some (VText (token (incoming_checksum_algorithm e))));
   (lit "storage_profile", Some (VText (token (storage_profile e))));
   (lit "transport_encoding", Some (VText (token (transport_encoding e))));
   (lit "compressed_size", Some (VInt (compressed_size e)));
   (lit "uncompressed_size", Some (VInt (uncompressed_size e)));
   (lit "occurrence_id", Some (VText (to_hex (occurrence_id e))));
   (lit "attestation_id", Some (VText (to_hex (attestation_id e))));
   (lit "request_id", Some (VText (request_id e)));
   (lit "capture_time", Some (VText (capture_time e)));
   (lit "envelope_creation_time", Some (VText (envelope_creation_time e)));
   (lit "source_time", VText <$> source_time e);
   (lit "parent_session_id", VText <$> parent_session_id e);
   (lit "orchestrator_attempt_id", VText <$> orchestrator_attempt_id e);
   (lit "trace_id", VText <$> trace_id e);
   (lit "inference_request_id", VText <$> inference_request_id e)].

Definition envelope_members (e : Envelope) : Object :=
  set_all (unknown_fields e) (set_members (envelope_fields e) []).

(** The fields rendered through [u63_value], which panics past [i64::MAX]. *)
Definition u63_fields (e : Envelope) : list Z :=
  [range_start e; range_end e; compressed_size e; uncompressed_size e].

(** [None] is the panic. *)
Definition Envelope_to_value (e : Envelope) : option Value :=
  if forallb fits_i64 (u63_fields e) then Some (VObject (envelope_members e)) else None.

Definition Envelope_canonical_bytes (e : Envelope) : option (list Z) :=
  canonical_bytes <$> Envelope_to_value e.

Definition envelope_digest (e : Envelope) : option (list Z) :=
  digest <$> Envelope_canonical_bytes e.

(** * Validation *)

Definition version (o : Object) (field : list Z) (known : Z) : result EnvelopeError unit :=
  let! v := require SchemaInvalid o field in
  match v with
  | VInt found => if found =? known then Ok tt else Err (VersionUnsupported field found)
  | _ => Err (SchemaInvalid field)
  end.

(** [Err(invalid(field, ..))] unless the test holds. *)
Definition check (b : bool) (field : list Z) : result EnvelopeError unit :=
  if b then Ok tt else Err (SchemaInvalid field).

Definition semantic_checks (e : Envelope) : result EnvelopeError unit :=
  let! _ := check (calendar_valid (capture_time e)) (lit "capture_time") in
  let! _ := check (calendar_valid (envelope_creation_time e)) (lit "envelope_creation_time") in
  let! _ := check (match source_time e with Some t => calendar_valid t | None => true end)
              (lit "source_time") in
  let! _ := check (range_start e <=? range_end e) (lit "range_end") in
  match transport_encoding e with
  | Identity =>
      let! _ := check (compressed_size e =? uncompressed_size e) (lit "compressed_size") in
      check (bool_decide (incoming_checksum e = blob_digest e)) (lit "incoming_checksum")
  | Zstd => Ok tt
  end.

Definition verify_identities (e : Envelope) : result EnvelopeError unit :=
  let! _ := check (bool_decide (rederive_occurrence_id e = occurrence_id e)) (lit "occurrence_id") in
  check (bool_decide (rederive_attestation_id e = attestation_id e)) (lit "attestation_id").

(** Only envelopes whose integers came from the reader are checked, so
    [to_value] does not panic here. *)
Definition size_check (e : Envelope) : result EnvelopeError unit :=
  if CANONICAL_MAX_BYTES <? zlen (canonical_bytes (VObject (envelope_members e)))
  then Err (SizeExceeded CANONICAL_MAX_BYTES) else Ok tt.

Definition Envelope_of_object (o : Object) : result EnvelopeError Envelope :=
  let typed {A} (parse : list Z -> result GrammarError A) field := typed SchemaInvalid parse o (lit field) in
  let optional {A} (parse : list Z -> result GrammarError A) field :=
    optional SchemaInvalid parse o (lit field) in
  let u63 field := u63_member SchemaInvalid o (lit field) in
  let! _ := refuse_members SchemaInvalid o RESERVED_FIELDS in
  let! _ := version o (lit "protocol_version") PROTOCOL_VERSION in
  let! _ := version o (lit "envelope_version") ENVELOPE_VERSION in
  let! adapter_artifact_id := typed OpaqueId_parse "adapter_artifact_id"%string in
  let! adapter_id := typed AdapterId_parse "adapter_id"%string in
  let! adapter_projection_version := typed VersionToken_parse "adapter_projection_version"%string in
  let! artifact_kind := typed enum_parse "artifact_kind"%string in
  let! attestation_id := typed digest_parse "attestation_id"%string in
  let! blob_digest := typed digest_parse "blob_digest"%string in
  let! capture_time := typed Timestamp_parse "capture_time"%string in
  let! compressed_size := u63 "compressed_size"%string in
  let! envelope_creation_time := typed Timestamp_parse "envelope_creation_time"%string in
  let! generation := typed GenerationId_parse "generation"%string in
  let! harness := typed HarnessId_parse "harness"%string in
  let! id_source := typed enum_parse "id_source"%string in
  let! incoming_checksum := typed digest_parse "incoming_checksum"%string in
  let! incoming_checksum_algorithm := typed enum_parse "incoming_checksum_algorithm"%string in
  let! occurrence_id := typed digest_parse "occurrence_id"%string in
  let! origin_client_id := typed ClientId_parse "origin_client_id"%string in
  let! range_end := u63 "range_end"%string in
  let! range_kind := typed enum_parse "range_kind"%string in
  let! range_start := u63 "range_start"%string in
  let! request_id := typed RequestId_parse "request_id"%string in
  let! storage_profile := typed enum_parse "storage_profile"%string in
  let! tenant_id := typed TenantId_parse "tenant_id"%string in
  let! transport_encoding := typed enum_parse "transport_encoding"%string in
  let! uncompressed_size := u63 "uncompressed_size"%string in
  let! upstream_session_id := typed OpaqueId_parse "upstream_session_id"%string in
  let! uploader_client_id := typed ClientId_parse "uploader_client_id"%string in
  let! source_time := optional Timestamp_parse "source_time"%string in
  let! parent_session_id := optional OpaqueId_parse "parent_session_id"%string in
  let! orchestrator_attempt_id := optional OpaqueId_parse "orchestrator_attempt_id"%string in
  let! trace_id := optional OpaqueId_parse "trace_id"%string in
  let! inference_request_id := optional OpaqueId_parse "inference_request_id"%string in
  let e := mkEnvelope tenant_id origin_client_id uploader_client_id harness upstream_session_id
             id_source artifact_kind adapter_id adapter_projection_version adapter_artifact_id
             generation range_kind range_start range_end blob_digest incoming_checksum
             incoming_checksum_algorithm storage_profile transport_encoding compressed_size
             uncompressed_size occurrence_id attestation_id request_id capture_time
             envelope_creation_time source_time parent_session_id orchestrator_attempt_id trace_id
             inference_request_id (retained ENVELOPE_FIELD_NAMES o) in
  let! _ := semantic_checks e in
  let! _ := verify_identities e in
  let! _ := size_check e in
  Ok e.

Definition Envelope_from_value (v : Value) : result EnvelopeError Envelope :=
  match v with
  | VObject o => Envelope_of_object o
  | _ => Err (EnvelopeMalformed None)
  end.

Definition Envelope_parse (bytes : list Z) : result EnvelopeError Envelope :=
  let! v := map_err (fun e => EnvelopeMalformed (Some e)) (Json.parse bytes) in
  Envelope_from_value v.

(** * What an envelope is *)

(** What every accepted envelope satisfies: canonical members, real instants,
    an ordered range, coupled sizes and checksums under the identity
    transport, identities derived from their inputs, and no unknown member
    that is defined or reserved. *)
Record envelope_ok (e : Envelope) : Prop := {
  ok_tenant : wire_ok TenantId_parse (tenant_id e);
  ok_origin : wire_ok ClientId_parse (origin_client_id e);
  ok_uploader : wire_ok ClientId_parse (uploader_client_id e);
  ok_harness : wire_ok HarnessId_parse (harness e);
  ok_session : wire_ok OpaqueId_parse (upstream_session_id e);
  ok_adapter : wire_ok AdapterId_parse (adapter_id e);
  ok_projection : wire_ok VersionToken_parse (adapter_projection_version e);
  ok_artifact : wire_ok OpaqueId_parse (adapter_artifact_id e);
  ok_generation : wire_ok GenerationId_parse (generation e);
  ok_blob : wire_ok digest_parse (blob_digest e);
  ok_incoming : wire_ok digest_parse (incoming_checksum e);
  ok_occurrence : wire_ok digest_parse (occurrence_id e);
  ok_attestation : wire_ok digest_parse (attestation_id e);
  ok_request : wire_ok RequestId_parse (request_id e);
  ok_capture : wire_ok Timestamp_parse (capture_time e);
  ok_creation : wire_ok Timestamp_parse (envelope_creation_time e);
  ok_source : forall t, source_time e = Some t -> wire_ok Timestamp_parse t;
  ok_parent : forall t, parent_session_id e = Some t -> wire_ok OpaqueId_parse t;
  ok_orchestrator : forall t, orchestrator_attempt_id e = Some t -> wire_ok OpaqueId_parse t;
  ok_trace : forall t, trace_id e = Some t -> wire_ok OpaqueId_parse t;
  ok_inference : forall t, inference_request_id e = Some t -> wire_ok OpaqueId_parse t;
  ok_integers : Forall (fun n => 0 <= n <= I64_MAX) (u63_fields e);
  ok_calendar : calendar_valid (capture_time e) = true /\
                calendar_valid (envelope_creation_time e) = true /\
                forall t, source_time e = Some t -> calendar_valid t = true;
  ok_range : range_start e <= range_end e;
  ok_identity_transport : transport_encoding e = Identity ->
    compressed_size e = uncompressed_size e /\ incoming_checksum e = blob_digest e;
  ok_occurrence_derived : occurrence_id e = rederive_occurrence_id e;
  ok_attestation_derived : attestation_id e = rederive_attestation_id e;
  ok_unknown : wf_value (VObject (unknown_fields e)) /\
    Forall (fun m => m.1 ∉ ENVELOPE_FIELD_NAMES) (unknown_fields e) /\
    Forall (fun m => m.1 ∉ RESERVED_FIELDS) (unknown_fields e);
  ok_size : zlen (canonical_bytes (VObject (envelope_members e))) <= CANONICAL_MAX_BYTES }.

Lemma envelope_table e : names_table ENVELOPE_FIELD_NAMES (envelope_fields e).*1 = true.
Proof. vm_compute. reflexivity. Qed.

Lemma check_Ok b field u : check b field = Ok u <-> b = true.
Proof. unfold check. destruct b, u; naive_solver. Qed.

Lemma semantic_checks_iff e : semantic_checks e = Ok tt <->
  (calendar_valid (capture_time e) = true /\ calendar_valid (envelope_creation_time e) = true /\
   forall t, source_time e = Some t -> calendar_valid t = true) /\
  range_start e <= range_end e /\
  (transport_encoding e = Identity ->
   compressed_size e = uncompressed_size e /\ incoming_checksum e = blob_digest e).
Proof.
  unfold semantic_checks. rewrite rbind_Ok. setoid_rewrite check_Ok.
  split.
  - intros ([] & H1 & H). apply rbind_Ok in H as ([] & H2%check_Ok & H).
    apply rbind_Ok in H as ([] & H3%check_Ok & H). apply rbind_Ok in H as ([] & H4%check_Ok & H).
    split_and!; [done|done|by intros t Ht; rewrite Ht in H3|lia|]. intros Hid. rewrite Hid in H.
    apply rbind_Ok in H as ([] & H5%check_Ok & H6%check_Ok). apply bool_decide_eq_true in H6. split; [lia|done].
  - intros ((H1 & H2 & H3) & H4 & H5). exists tt. split; [done|].
    unfold check. rewrite H2. cbn [rbind]. replace (match source_time e with _ => _ end) with true.
    2:{ destruct (source_time e); [by rewrite H3|done]. }
    cbn [rbind]. rewrite (proj2 (Z.leb_le _ _)) by done. cbn [rbind].
    destruct (transport_encoding e); [|done]. destruct (H5 eq_refl) as [-> ->].
    by rewrite Z.eqb_refl, bool_decide_true.
Qed.

Lemma version_iff o field known : version o field known = Ok tt <-> object_get o field = Some (VInt known).
Proof.
  unfold version, require, ok_or. destruct (object_get o field) as [[| |n| | |]|]; cbn [rbind]; try naive_solver.
  destruct (n =? known) eqn:E; [apply Z.eqb_eq in E; naive_solver|apply Z.eqb_neq in E; naive_solver].
Qed.

Lemma reserved_names f : f ∈ RESERVED_FIELDS -> Forall is_scalar f /\ f ∉ ENVELOPE_FIELD_NAMES.
Proof.
  revert f. apply Forall_forall.
  repeat (apply Forall_cons; split; [split; [scalar_name|apply (bool_decide_unpack _); vm_compute; exact I]|]).
  by apply Forall_nil.
Qed.

Lemma reserved_get e : wf_members (unknown_fields e) ->
  Forall (fun m => m.1 ∉ RESERVED_FIELDS) (unknown_fields e) <->
  Forall (fun f => object_get (envelope_members e) f = None) RESERVED_FIELDS.
Proof.
  intros Hw. destruct (names_table_ok _ _ (envelope_table e)) as (Hs & Hnd & Hnames).
  exact (record_reserved _ _ Hs Hnames (unknown_fields e) RESERVED_FIELDS Hw reserved_names).
Qed.

Lemma verify_identities_iff e : verify_identities e = Ok tt <->
  occurrence_id e = rederive_occurrence_id e /\ attestation_id e = rederive_attestation_id e.
Proof.
  unfold verify_identities, check.
  generalize (rederive_occurrence_id e) (rederive_attestation_id e). intros i j.
  case_bool_decide; cbn [rbind]; [|naive_solver]. case_bool_decide; naive_solver.
Qed.

Lemma size_check_iff e : size_check e = Ok tt <->
  zlen (canonical_bytes (VObject (envelope_members e))) <= CANONICAL_MAX_BYTES.
Proof.
  unfold size_check. generalize (zlen (canonical_bytes (VObject (envelope_members e)))). intros n.
  destruct (CANONICAL_MAX_BYTES <? n) eqn:E; split; try done; lia.
Qed.

Lemma Envelope_of_object_sound o e : wf_value (VObject o) -> Envelope_of_object o = Ok e ->
  envelope_ok e /\ o = envelope_members e.
Proof.
  intros Ho H. unfold Envelope_of_object in H. cbv zeta in H. split_readers Ho.
  repeat match goal with H : version _ _ _ = Ok ?u |- _ => destruct u; apply version_iff in H end.
  injection H as <-.
  match goal with H : semantic_checks ?e = _ |- _ => set (env := e) in * end.
  assert (Hrec : wf_members (unknown_fields env) /\
    Forall (fun m => m.1 ∉ ENVELOPE_FIELD_NAMES) (unknown_fields env) /\ o = envelope_members env).
  { destruct (names_table_ok _ _ (envelope_table env)) as (Hs & Hnd & Hnames).
    apply (record_iff ENVELOPE_FIELD_NAMES (envelope_fields env) Hs Hnd Hnames o (unknown_fields env));
      [by apply wf_object_iff|].
    split; [|reflexivity].
    unfold envelope_fields. table_lookups. }
  destruct Hrec as (Hu & Hdis & Hrec). split; [|done].
  repeat match goal with u : () |- _ => destruct u end.
  match goal with H : semantic_checks _ = _ |- _ => apply semantic_checks_iff in H as (? & ? & ?) end.
  match goal with H : verify_identities _ = _ |- _ => apply verify_identities_iff in H as [? ?] end.
  match goal with H : size_check _ = _ |- _ => apply size_check_iff in H end.
  constructor; try assumption; try done.
  - repeat (apply Forall_cons; split; [assumption|]). by apply Forall_nil.
  - split_and!; [|done|].
    + apply wf_object_iff. split; [done|]. apply Forall_forall. intros [n v] Hin. simpl.
      pose proof (wf_members_scalar _ _ _ Hu Hin) as Hn. apply (object_get_in _ n v Hu Hn) in Hin.
      cbn [unknown_fields env] in Hin. rewrite object_get_retained in Hin by (done || by apply wf_object_iff).
      case_bool_decide; [done|]. by apply (object_get_wf o n).
    + apply reserved_get; [done|]. by rewrite <- Hrec.
Qed.

(** The table's values are well-formed. *)
Lemma envelope_values e : envelope_ok e ->
  Forall (fun m => forall v, m.2 = Some v -> wf_value v) (envelope_fields e).
Proof.
  intros []. unfold u63_fields in *.
  repeat match goal with H : Forall _ (_ :: _) |- _ => apply Forall_cons in H as [? H] end.
  unfold envelope_fields. table_values; apply wf_member_int; unfold I64_MAX; vm_compute; split; discriminate.
Qed.

(** What an envelope renders, it is read back from. *)
Lemma Envelope_of_members e : envelope_ok e ->
  wf_value (VObject (envelope_members e)) /\ Envelope_of_object (envelope_members e) = Ok e.
Proof.
  intros Hok. pose proof (envelope_values e Hok) as Hvals.
  destruct (names_table_ok _ _ (envelope_table e)) as (Hs & Hnd & Hnames).
  pose proof (ok_unknown e Hok) as (Hwu & Hdis & Hres). pose proof (proj1 (proj1 (wf_object_iff _) Hwu)) as Hu.
  assert (Ho : wf_value (VObject (envelope_members e)))
    by (by apply (record_wf ENVELOPE_FIELD_NAMES (envelope_fields e))).
  split; [done|].
  destruct (proj2 (record_iff ENVELOPE_FIELD_NAMES (envelope_fields e) Hs Hnd Hnames
    (envelope_members e) (unknown_fields e) (proj1 (proj1 (wf_object_iff _) Ho)))
    (conj Hu (conj Hdis eq_refl))) as [Hget Hret].
  apply reserved_get in Hres; [|done]. apply (refuse_members_iff SchemaInvalid) in Hres.
  assert (Hsem : semantic_checks e = Ok tt) by (apply semantic_checks_iff; by destruct Hok).
  assert (Hid : verify_identities e = Ok tt) by (apply verify_identities_iff; by destruct Hok).
  assert (Hsize : size_check e = Ok tt) by (apply size_check_iff; by destruct Hok).
  destruct Hok. clear ok_size0 ok_identity_transport0 ok_occurrence_derived0 ok_attestation_derived0.
  unfold envelope_fields in Hget. unfold u63_fields in *.
  repeat match goal with H : Forall _ (_ :: _) |- _ => apply Forall_cons in H as [? H] end. cbn [fst snd] in *.
  generalize dependent (envelope_members e). intros o. intros.
  match goal with H : wf_value (VObject o) |- _ => rename H into Hobj end.
  unfold Envelope_of_object. cbv zeta.
  match goal with H : refuse_members _ _ _ = _ |- _ => rewrite H end. cbn [rbind].
  rewrite (proj2 (version_iff o (lit "protocol_version") PROTOCOL_VERSION)) by done. cbn [rbind].
  rewrite (proj2 (version_iff o (lit "envelope_version") ENVELOPE_VERSION)) by done. cbn [rbind].
  do 31 run_reader Hobj.
  match goal with H : unknown_fields e = _ |- _ => rewrite <- H end.
  match goal with |- context [semantic_checks ?x] => replace x with e by (by destruct e) end.
  by rewrite Hsem, Hid, Hsize.
Qed.

(** * Theorems *)

Lemma Envelope_members_to_value e : envelope_ok e ->
  Envelope_to_value e = Some (VObject (envelope_members e)).
Proof.
  intros Hok. unfold Envelope_to_value.
  replace (forallb fits_i64 (u63_fields e)) with true; [done|]. symmetry. apply forallb_forall.
  intros n Hn%list_elem_of_In. pose proof (ok_integers e Hok) as Hi. rewrite Forall_forall in Hi.
  specialize (Hi n Hn). unfold fits_i64. lia.
Qed.

Lemma Envelope_parse_Ok bytes e : Envelope_parse bytes = Ok e <->
  exists o, Json.parse bytes = Ok (VObject o) /\ Envelope_of_object o = Ok e.
Proof.
  unfold Envelope_parse, Envelope_from_value. split.
  - destruct (Json.parse bytes) as [v| |]; cbn; [|done|done]. destruct v; try done. eauto.
  - by intros (o & -> & ?).
Qed.

Lemma Envelope_of_object_fuel o : Envelope_of_object o <> OutOfFuel.
Proof.
  unfold Envelope_of_object. cbv zeta.
  assert (Hver : forall f k, version o f k <> OutOfFuel).
  { intros f k. apply rbind_fuel; [auto with fuel|]. intros v _. repeat case_match; done. }
  assert (Hcheck : forall b f, check b f <> OutOfFuel) by (intros [] ?; done).
  do 34 (apply rbind_fuel; [auto with fuel|intros ? _]).
  match goal with |- context [semantic_checks ?x] => generalize x end. intros e.
  apply rbind_fuel; [|intros ? _; apply rbind_fuel; [|intros ? _; apply rbind_fuel; [|done]]].
  - unfold semantic_checks. do 4 (apply rbind_fuel; [apply Hcheck|intros ? _]).
    destruct (transport_encoding e); [|done]. apply rbind_fuel; [apply Hcheck|intros ? _; apply Hcheck].
  - unfold verify_identities. apply rbind_fuel; [apply Hcheck|intros ? _; apply Hcheck].
  - unfold size_check. by case_match.
Qed.

Lemma Envelope_parse_fuel bytes : Envelope_parse bytes <> OutOfFuel.
Proof.
  intros E. unfold Envelope_parse in E. apply rbind_OutOfFuel in E as [E|(v & _ & E)].
  - unfold Json.parse in E. pose proof (parse_no_fuel bytes DEFAULT_MAX_BYTES DEFAULT_MAX_DEPTH) as Hp.
    by destruct (parse_with_limits _ _ _).
  - destruct v; try done. by apply Envelope_of_object_fuel in E.
Qed.

(** C15: Parsing an envelope decides every byte string; what it accepts is an
    envelope all of whose rules hold, it renders back to exactly the JSON value
    that was read, whatever its member order and white space, and the
    canonical bytes of that value parse to the same envelope again. *)
Theorem envelope_wire_exact bytes :
  match Envelope_parse bytes with
  | Ok e => envelope_ok e /\ exists v, Json.parse bytes = Ok v /\ Envelope_to_value e = Some v /\
            Envelope_parse (canonical_bytes v) = Ok e
  | Err _ => True
  | OutOfFuel => False
  end.
Proof.
  destruct (Envelope_parse bytes) as [e|err|] eqn:E; [|done|].
  - apply Envelope_parse_Ok in E as (o & Hj & Ho).
    destruct (parse_accepts _ _ _ _ Hj) as (Hw & Hd & Hl & Hc).
    destruct (Envelope_of_object_sound o e Hw Ho) as [Hok Heq]. split; [done|].
    exists (VObject o). split_and!; [done|by rewrite Envelope_members_to_value, Heq|].
    apply Envelope_parse_Ok. exists o. split; [|done]. apply parse_canonical; [done|done|lia].
  - by apply Envelope_parse_fuel in E.
Qed.

Lemma Envelope_parse_sound bytes e : Envelope_parse bytes = Ok e -> envelope_ok e.
Proof.
  intros (o & Hj & Ho)%Envelope_parse_Ok. destruct (parse_accepts _ _ _ _ Hj) as [Hw _].
  by apply (Envelope_of_object_sound o e Hw).
Qed.

Lemma envelope_depth e : envelope_ok e -> (depth (VObject (unknown_fields e)) <= DEFAULT_MAX_DEPTH)%nat ->
  (depth (VObject (envelope_members e)) <= DEFAULT_MAX_DEPTH)%nat.
Proof.
  intros Hok Hd. destruct (names_table_ok _ _ (envelope_table e)) as (Hs & Hnd & Hnames).
  pose proof (ok_unknown e Hok) as ([Hu _]%wf_object_iff & Hdis & _).
  apply (record_depth ENVELOPE_FIELD_NAMES (envelope_fields e)); try done.
  unfold envelope_fields.
  repeat (apply Forall_cons; split; [cbn [fst snd]; leaf_depth|]). by apply Forall_nil.
Qed.

(** Every envelope that satisfies the rules renders to canonical bytes
    within the cap, and they parse back to the same envelope. *)
Theorem envelope_roundtrip e : envelope_ok e ->
  (depth (VObject (unknown_fields e)) <= DEFAULT_MAX_DEPTH)%nat ->
  exists bytes, Envelope_canonical_bytes e = Some bytes /\ zlen bytes <= CANONICAL_MAX_BYTES /\
    Envelope_parse bytes = Ok e.
Proof.
  intros Hok Hd. destruct (Envelope_of_members e Hok) as [Hw Ho].
  exists (canonical_bytes (VObject (envelope_members e))). unfold Envelope_canonical_bytes.
  rewrite Envelope_members_to_value by done. split_and!; [done|by apply ok_size|].
  apply Envelope_parse_Ok. exists (envelope_members e). split; [|done].
  apply parse_canonical; [done|by apply envelope_depth|].
  pose proof (ok_size e Hok). unfold CANONICAL_MAX_BYTES, DEFAULT_MAX_BYTES in *. lia.
Qed.

(** Identities are bound to their inputs: two accepted envelopes that agree
    on tenant, origin, harness, session, artifact tuple, generation, range and
    blob have the same occurrence identity, and with the same uploader and
    request the same attestation identity, whatever else they carry. *)
Theorem envelope_identity_bound b1 b2 e1 e2 :
  Envelope_parse b1 = Ok e1 -> Envelope_parse b2 = Ok e2 ->
  (tenant_id e1, origin_client_id e1, harness e1, upstream_session_id e1) =
  (tenant_id e2, origin_client_id e2, harness e2, upstream_session_id e2) ->
  (artifact_kind e1, adapter_id e1, adapter_projection_version e1, adapter_artifact_id e1) =
  (artifact_kind e2, adapter_id e2, adapter_projection_version e2, adapter_artifact_id e2) ->
  (generation e1, range_kind e1, range_start e1, range_end e1, blob_digest e1) =
  (generation e2, range_kind e2, range_start e2, range_end e2, blob_digest e2) ->
  occurrence_id e1 = occurrence_id e2 /\
  (uploader_client_id e1 = uploader_client_id e2 -> request_id e1 = request_id e2 ->
   attestation_id e1 = attestation_id e2).
Proof.
  intros H1 H2 [= Ht Ho Hh Hs] [= Hk Ha Hp Hi] [= Hg Hr Hrs Hre Hb].
  apply Envelope_parse_sound in H1, H2.
  assert (Hocc : occurrence_id e1 = occurrence_id e2).
  { rewrite (ok_occurrence_derived e1 H1), (ok_occurrence_derived e2 H2).
    unfold rederive_occurrence_id, rederive_artifact_hash, rederive_session_hash. congruence. }
  split; [done|]. intros Hu Hq.
  rewrite (ok_attestation_derived e1 H1), (ok_attestation_derived e2 H2).
  unfold rederive_attestation_id. congruence.
Qed.

(** A value that carries a per-attempt or server member is refused at such
    a member before any other rule is looked at, so no retry can fork an
    identity. *)
Theorem reserved_member_refused o field v : wf_value (VObject o) ->
  field ∈ RESERVED_FIELDS -> object_get o field = Some v ->
  exists f, Envelope_from_value (VObject o) = Err (SchemaInvalid f) /\ f ∈ RESERVED_FIELDS /\
    is_Some (object_get o f).
Proof.
  intros Ho Hin Hg.
  assert (H : exists f, refuse_members SchemaInvalid o RESERVED_FIELDS = Err (SchemaInvalid f) /\
            f ∈ RESERVED_FIELDS /\ is_Some (object_get o f)) by (by apply (refuse_members_Err _ _ _ field v)).
  destruct H as (f & Hf & H). exists f. split; [|done].
  unfold Envelope_from_value, Envelope_of_object. by rewrite Hf.
Qed.

(** * Witnesses *)

Definition uuid4 : list Z := lit "00000000-0000-4000-8000-000000000001".
Definition uuid7 : list Z := lit "00000000-0000-7000-8000-000000000001".
Definition sample_blob : list Z := repeat 7 32.

(** The envelope of one captured byte range, its identities still to derive. *)
Definition sample_inputs (occurrence attestation : list Z) : Envelope :=
  mkEnvelope uuid4 uuid4 uuid4 (lit "codex") (lit "session-1") Upstream FileSlice (lit "codex")
    (lit "1") (lit "a.jsonl") uuid7 ByteRange 0 9 sample_blob sample_blob ChecksumSha256 ZstdV1 Identity
    10 10 occurrence attestation uuid7 (lit "2026-01-02T03:04:05Z") (lit "2026-01-02T03:04:06Z")
    None None None (Some (lit "trace")) None [(lit "zz_note", VNull)].

Definition sample_occurrence : list Z :=
  Eval vm_compute in rederive_occurrence_id (sample_inputs [] []).
Definition sample_attestation : list Z :=
  Eval vm_compute in rederive_attestation_id (sample_inputs sample_occurrence []).
Definition sample_envelope : Envelope := sample_inputs sample_occurrence sample_attestation.
Definition sample_bytes : list Z :=
  Eval vm_compute in canonical_bytes (VObject (envelope_members sample_envelope)).

Lemma sample_parses : Envelope_parse sample_bytes = Ok sample_envelope.
Proof. vm_compute. reflexivity. Qed.

Lemma sample_ok : envelope_ok sample_envelope.
Proof. exact (Envelope_parse_sound _ _ sample_parses). Qed.

Lemma envelope_roundtrip_witness :
  exists bytes, Envelope_canonical_bytes sample_envelope = Some bytes /\
    zlen bytes <= CANONICAL_MAX_BYTES /\ Envelope_parse bytes = Ok sample_envelope.
Proof.
  apply (envelope_roundtrip sample_envelope sample_ok). apply Nat.leb_le. vm_compute. reflexivity.
Defined.

Lemma envelope_identity_bound_witness : occurrence_id sample_envelope = occurrence_id sample_envelope.
Proof.
  exact (proj1 (envelope_identity_bound sample_bytes sample_bytes sample_envelope sample_envelope
    sample_parses sample_parses eq_refl eq_refl eq_refl)).
Defined.

Lemma reserved_member_refused_witness : exists f,
  Envelope_from_value (VObject [(lit "signature", VNull)]) = Err (SchemaInvalid f) /\
  f ∈ RESERVED_FIELDS /\ is_Some (object_get [(lit "signature", VNull)] f).
Proof.
  apply (reserved_member_refused [(lit "signature", VNull)] (lit "signature") VNull).
  - constructor; [repeat constructor| |repeat constructor]. apply Forall_cons. split; [scalar_name|done].
  - apply (bool_decide_unpack _). vm_compute. exact I.
  - vm_compute. reflexivity.
Defined.
