(* ===== verification/Inventory.v ===== *)
(** The backlog inventory ([crates/archivist-client-core/src/inventory.rs])
    over the bounded status vocabulary
    ([crates/archivist-adapter-sdk/src/status.rs]).

    The state database is read through four queries; each is the list of rows
    SQLite returns, in its order, and the loaders fold over those rows.  The
    pass itself is pure: it measures every scan against the loaded context
    and aggregates the measurements per (adapter, account) scope.  Counters
    are unsigned 64-bit in the code; here they are integers and the sums are
    exact, as they are below 2^64. *)

From S2P Require Import Prelude Text Vocabulary.

(** * Status vocabulary *)

Definition source_id_grammar (text : list Z) : bool :=
  let raw := as_bytes text in
  let lower_hex := forallb is_lower_hex in
  (length raw =? 36)%nat &&
  lower_hex (slice raw 0 8) && (byte_at raw 8 =? 45) && lower_hex (slice raw 9 13)
  && (byte_at raw 13 =? 45) && lower_hex (slice raw 14 18) && (byte_at raw 18 =? 45)
  && lower_hex (slice raw 19 23) && (byte_at raw 23 =? 45) && lower_hex (slice raw 24 36).

Definition account_label_grammar (text : list Z) : bool :=
  match as_bytes text with
  | [] => false
  | c :: r =>
      (length (c :: r) <=? 64)%nat && is_alphanumeric c &&
      forallb (fun c => is_alphanumeric c || one_of c (lit "._:-")) r
  end.

Inductive FreshnessLane := Freshness | Backfill.

Inductive CoverageState :=
| Absent | Unsupported | Failed | Partial | Current | FullyBackfilled.

Inductive ScanClassification :=
| ScanOk | RootAbsent | NoDatabase | TransportUnreachable | ReadError | PermissionDenied
| FingerprintUnsupported | NotObserved.

#[export] Instance FreshnessLane_eq : EqDecision FreshnessLane.
Proof. solve_decision. Defined.
#[export] Instance CoverageState_eq : EqDecision CoverageState.
Proof. solve_decision. Defined.
#[export] Instance ScanClassification_eq : EqDecision ScanClassification.
Proof. solve_decision. Defined.

Definition FreshnessLane_token (l : FreshnessLane) : list Z :=
  match l with Freshness => lit "freshness" | Backfill => lit "backfill" end.
Definition CoverageState_token (s : CoverageState) : list Z :=
  match s with
  | Absent => lit "missing"
  | Unsupported => lit "unsupported"
  | Failed => lit "failed"
  | Partial => lit "partial"
  | Current => lit "current"
  | FullyBackfilled => lit "backfilled"
  end.
Definition ScanClassification_token (c : ScanClassification) : list Z :=
  match c with
  | ScanOk => lit "ok"
  | RootAbsent => lit "root-absent"
  | NoDatabase => lit "no-database"
  | TransportUnreachable => lit "transport-unreachable"
  | ReadError => lit "read-error"
  | PermissionDenied => lit "permission-denied"
  | FingerprintUnsupported => lit "fingerprint-unsupported"
  | NotObserved => lit "not-observed"
  end.

#[local] Ltac solve_complete := intros []; apply list_elem_of_In; simpl; tauto.
#[local] Ltac solve_token_inj := intros [] []; vm_compute; congruence.

#[export] Program Instance FreshnessLane_enum : ClosedEnum FreshnessLane :=
  {| variants := [Freshness; Backfill]; token := FreshnessLane_token |}.
Next Obligation. solve_complete. Qed.
Next Obligation. solve_token_inj. Qed.

#[export] Program Instance CoverageState_enum : ClosedEnum CoverageState :=
  {| variants := [Absent; Unsupported; Failed; Partial; Current; FullyBackfilled];
     token := CoverageState_token |}.
Next Obligation. solve_complete. Qed.
Next Obligation. solve_token_inj. Qed.

#[export] Program Instance ScanClassification_enum : ClosedEnum ScanClassification :=
  {| variants := [ScanOk; RootAbsent; NoDatabase; TransportUnreachable; ReadError;
                  PermissionDenied; FingerprintUnsupported; NotObserved];
     token := ScanClassification_token |}.
Next Obligation. solve_complete. Qed.
Next Obligation. solve_token_inj. Qed.

Definition rank (s : CoverageState) : Z :=
  match s with
  | Absent => 0
  | FullyBackfilled => 1
  | Current => 2
  | Partial => 3
  | Unsupported => 4
  | Failed => 5
  end.

Definition combine (self other : CoverageState) : CoverageState :=
  if rank self <? rank other then other else self.

Definition forced_coverage (c : ScanClassification) : option CoverageState :=
  match c with
  | RootAbsent | NoDatabase => Some Absent
  | FingerprintUnsupported => Some Unsupported
  | TransportUnreachable | ReadError | PermissionDenied => Some Failed
  | ScanOk | NotObserved => None
  end.

Record SourceScan := mkScan {
  scan_source : list Z;
  scan_adapter : list Z;
  scan_account : list Z;
  scan_complete_bytes : Z;
  scan_complete_events : Z;
  scan_incomplete_tail_bytes : Z;
  last_activity : option (list Z);
  active_in_window : bool;
  scan_classification : ScanClassification;
}.

(** [CoverageCounts] and [ClassificationCounts]: one counter per variant. *)
Record CoverageCounts := mkCoverage {
  absent : Z; unsupported : Z; failed : Z; partial : Z; current : Z; fully_backfilled : Z }.
Record ClassificationCounts := mkClasses {
  cls_ok : Z; root_absent : Z; no_database : Z; transport_unreachable : Z; read_error : Z;
  permission_denied : Z; fingerprint_unsupported : Z; not_observed : Z }.

Definition CoverageCounts_default : CoverageCounts := mkCoverage 0 0 0 0 0 0.
Definition ClassificationCounts_default : ClassificationCounts := mkClasses 0 0 0 0 0 0 0 0.

Definition CoverageCounts_record (c : CoverageCounts) (s : CoverageState) : CoverageCounts :=
  let '(mkCoverage a u f p k b) := c in
  match s with
  | Absent => mkCoverage (a + 1) u f p k b
  | Unsupported => mkCoverage a (u + 1) f p k b
  | Failed => mkCoverage a u (f + 1) p k b
  | Partial => mkCoverage a u f (p + 1) k b
  | Current => mkCoverage a u f p (k + 1) b
  | FullyBackfilled => mkCoverage a u f p k (b + 1)
  end.

Definition CoverageCounts_get (c : CoverageCounts) (s : CoverageState) : Z :=
  match s with
  | Absent => absent c
  | Unsupported => unsupported c
  | Failed => failed c
  | Partial => partial c
  | Current => current c
  | FullyBackfilled => fully_backfilled c
  end.

Definition CoverageCounts_total (c : CoverageCounts) : Z :=
  absent c + unsupported c + failed c + partial c + current c + fully_backfilled c.

Definition ClassificationCounts_record (c : ClassificationCounts) (s : ScanClassification)
  : ClassificationCounts :=
  let '(mkClasses o ra nd tu re pd fu no) := c in
  match s with
  | ScanOk => mkClasses (o + 1) ra nd tu re pd fu no
  | RootAbsent => mkClasses o (ra + 1) nd tu re pd fu no
  | NoDatabase => mkClasses o ra (nd + 1) tu re pd fu no
  | TransportUnreachable => mkClasses o ra nd (tu + 1) re pd fu no
  | ReadError => mkClasses o ra nd tu (re + 1) pd fu no
  | PermissionDenied => mkClasses o ra nd tu re (pd + 1) fu no
  | FingerprintUnsupported => mkClasses o ra nd tu re pd (fu + 1) no
  | NotObserved => mkClasses o ra nd tu re pd fu (no + 1)
  end.

Definition ClassificationCounts_get (c : ClassificationCounts) (s : ScanClassification) : Z :=
  match s with
  | ScanOk => cls_ok c
  | RootAbsent => root_absent c
  | NoDatabase => no_database c
  | TransportUnreachable => transport_unreachable c
  | ReadError => read_error c
  | PermissionDenied => permission_denied c
  | FingerprintUnsupported => fingerprint_unsupported c
  | NotObserved => not_observed c
  end.

Definition ClassificationCounts_total (c : ClassificationCounts) : Z :=
  cls_ok c + root_absent c + no_database c + transport_unreachable c + read_error c
  + permission_denied c + fingerprint_unsupported c + not_observed c.

Record AdapterAccountStatus := mkStatus {
  st_adapter : list Z;
  st_account : list Z;
  st_coverage : CoverageState;
  st_active_backlog_bytes : Z;
  st_active_backlog_events : Z;
  st_historical_backlog_bytes : Z;
  st_historical_backlog_events : Z;
  st_max_freshness_lag_seconds : Z;
  st_sources : CoverageCounts;
  st_classifications : ClassificationCounts;
}.

(** * Cursors *)

Record CursorPosition := mkCursor {
  retained_bytes : Z; retained_events : Z; uncaptured_bytes : Z; uncaptured_events : Z }.

Definition has_uncaptured (c : CursorPosition) : bool :=
  (0 <? uncaptured_bytes c) || (0 <? uncaptured_events c).

Inductive CursorDecision := Hold | Advance (bytes events : Z).

Definition cursor_retention (retained_bytes retained_events complete_bytes complete_events : Z)
  (degraded : bool) : CursorDecision :=
  if degraded || ((complete_bytes <=? retained_bytes) && (complete_events <=? retained_events))
  then Hold
  else Advance (Z.max complete_bytes retained_bytes) (Z.max complete_events retained_events).

Inductive CoverageAnomaly := AcknowledgedBeyondComplete.

Record SourceInventory := mkSource {
  source : list Z;
  adapter : list Z;
  account : list Z;
  lane : FreshnessLane;
  coverage : CoverageState;
  classification : ScanClassification;
  complete_bytes : Z;
  complete_events : Z;
  acknowledged_bytes : Z;
  acknowledged_events : Z;
  outstanding_bytes : Z;
  outstanding_events : Z;
  incomplete_tail_bytes : Z;
  freshness_lag_seconds : Z;
  cursor : CursorPosition;
  decision : CursorDecision;
  anomaly : option CoverageAnomaly;
  enrolled : bool;
}.

(** * Time *)

(** Hinnant's [days_from_civil]; [/] on [i64] truncates. *)
Definition days_from_civil (year month day : Z) : Z :=
  let shifted_year := if month <=? 2 then year - 1 else year in
  let era := Z.quot (if 0 <=? shifted_year then shifted_year else shifted_year - 399) 400 in
  let year_of_era := shifted_year - era * 400 in
  let shifted_month := if 2 <? month then month - 3 else month + 9 in
  let day_of_year := Z.quot (153 * shifted_month + 2) 5 + day - 1 in
  let day_of_era :=
    year_of_era * 365 + Z.quot year_of_era 4 - Z.quot year_of_era 100 + day_of_year in
  era * 146097 + day_of_era - 719468.

Definition epoch_seconds (timestamp : list Z) : option Z :=
  if negb (calendar_valid timestamp) then None
  else
    let raw := as_bytes timestamp in
    let year := decimal (slice raw 0 4) in
    let month := decimal (slice raw 5 7) in
    let day := decimal (slice raw 8 10) in
    let hour := decimal (slice raw 11 13) in
    let minute := decimal (slice raw 14 16) in
    let raw_second := decimal (slice raw 17 19) in
    let '(second, leap_extra) := if raw_second =? 60 then (59, 1) else (raw_second, 0) in
    let days := days_from_civil year month day in
    let seconds := days * 86400 + hour * 3600 + minute * 60 + second + leap_extra in
    if seconds <? 0 then None else Some seconds.

Definition basis_epoch (text : list Z) : option Z :=
  match Timestamp_parse text with Ok parsed => epoch_seconds parsed | _ => None end.

(** * The state database *)

Inductive StateError := Unavailable | SchemaCorruption (subject : list Z).

(** A query: [None] when it cannot be prepared or run, else its rows in
    order, a [None] row being one that cannot be read. *)
Definition Query (A : Type) : Type := option (list (option A)).

(** The [for row in rows] loop of a loader. *)
Fixpoint each_row {A S} (step : S -> A -> result StateError S) (rows : list (option A)) (s : S)
  : result StateError S :=
  match rows with
  | [] => Ok s
  | None :: _ => Err Unavailable
  | Some row :: rows' => let! s' := step s row in each_row step rows' s'
  end.

Definition run_query {A S} (step : S -> A -> result StateError S) (q : Query A) (s : S)
  : result StateError S :=
  match q with None => Err Unavailable | Some rows => each_row step rows s end.

Record SourceRow := mkSourceRow { row_lane : FreshnessLane; created_at : list Z }.

Definition load_sources (q : Query (list Z * list Z * list Z))
  : result StateError (gmap (list Z) SourceRow) :=
  run_query (fun sources '(source_id, lane, created_at) =>
    let! lane := map_err (fun _ => SchemaCorruption (lit "sources.freshness_lane"))
                   (enum_parse (E := FreshnessLane) lane) in
    Ok (<[source_id := mkSourceRow lane created_at]> sources)) q ∅.

Definition generation_row (current : gmap (list Z) (list Z * bool * Z))
  (row : list Z * list Z * list Z * Z)
  : result StateError (gmap (list Z) (list Z * bool * Z)) :=
  let '(source_id, generation_id, state, ordinal) := row in
  let! open :=
    if bool_decide (state = lit "open") then Ok true
    else if bool_decide (state = lit "closed") then Ok false
    else Err (SchemaCorruption (lit "generations.state")) in
  match current !! source_id with
  | Some (g, was_open, o) =>
      if was_open && negb open then Ok current
      else Ok (<[source_id := (generation_id, open, ordinal)]> current)
  | None => Ok (<[source_id := (generation_id, open, ordinal)]> current)
  end.

Definition current_generation_by_source (q : Query (list Z * list Z * list Z * Z))
  : result StateError (gmap (list Z) (list Z)) :=
  let! current := run_query generation_row q ∅ in
  Ok ((fun entry => fst (fst entry)) <$> current).

Definition acknowledged_row (acknowledged : gmap (list Z) (Z * Z)) (row : list Z * list Z * Z)
  : result StateError (gmap (list Z) (Z * Z)) :=
  let '(generation_id, kind, end_) := row in
  let end_ := Z.max end_ 0 in
  let entry := default (0, 0) (acknowledged !! generation_id) in
  if bool_decide (kind = lit "bytes")
  then Ok (<[generation_id := (Z.max (fst entry) end_, snd entry)]> acknowledged)
  else if bool_decide (kind = lit "events")
  then Ok (<[generation_id := (fst entry, Z.max (snd entry) end_)]> acknowledged)
  else Err (SchemaCorruption (lit "ranges.range_kind")).

Definition acknowledged_by_generation (q : Query (list Z * list Z * Z))
  : result StateError (gmap (list Z) (Z * Z)) := run_query acknowledged_row q ∅.

Definition last_captured_row (latest : gmap (list Z) (list Z)) (row : list Z * list Z)
  : result StateError (gmap (list Z) (list Z)) :=
  let '(source_id, captured_at) := row in
  let newer :=
    match latest !! source_id ≫= basis_epoch, basis_epoch captured_at with
    | Some current_at, Some candidate_at => current_at <? candidate_at
    | None, Some _ => true
    | _, _ => false
    end in
  Ok (if newer then <[source_id := captured_at]> latest else latest).

Definition last_captured_by_source (q : Query (list Z * list Z))
  : result StateError (gmap (list Z) (list Z)) := run_query last_captured_row q ∅.

(** The four queries a connection answers. *)
Record Connection := mkConnection {
  q_sources : Query (list Z * list Z * list Z);
  q_generations : Query (list Z * list Z * list Z * Z);
  q_ranges : Query (list Z * list Z * Z);
  q_captured : Query (list Z * list Z);
}.

Record PassContext := mkContext {
  sources : gmap (list Z) SourceRow;
  current_generation : gmap (list Z) (list Z);
  acknowledged : gmap (list Z) (Z * Z);
  last_captured : gmap (list Z) (list Z);
}.

Definition PassContext_load (conn : Connection) : result StateError PassContext :=
  let! sources := load_sources (q_sources conn) in
  let! current_generation := current_generation_by_source (q_generations conn) in
  let! acknowledged := acknowledged_by_generation (q_ranges conn) in
  let! last_captured := last_captured_by_source (q_captured conn) in
  Ok (mkContext sources current_generation acknowledged last_captured).

(** * Measuring *)

(** [Option::or_else]. *)
Definition or_else {A} (o p : option A) : option A :=
  match o with Some _ => o | None => p end.

Definition measure (scan : SourceScan) (state : option SourceRow) (acknowledged : Z * Z)
  (last_captured : option Z) (now_epoch : option Z) (degraded : bool) : SourceInventory :=
  let lane :=
    match state with
    | None => if active_in_window scan then Freshness else Backfill
    | Some row => row_lane row
    end in
  let anomaly :=
    if (scan_complete_bytes scan <? fst acknowledged)
       || (scan_complete_events scan <? snd acknowledged)
    then Some AcknowledgedBeyondComplete else None in
  let outstanding_bytes := sat_sub (scan_complete_bytes scan) (fst acknowledged) in
  let outstanding_events := sat_sub (scan_complete_events scan) (snd acknowledged) in
  let coverage :=
    match anomaly with
    | Some _ => Failed
    | None =>
        match forced_coverage (scan_classification scan) with
        | Some c => c
        | None =>
            if (0 <? outstanding_bytes) || (0 <? outstanding_events) then Partial
            else if bool_decide (lane = Backfill) then FullyBackfilled else Current
        end
    end in
  let basis :=
    or_else (or_else last_captured (state ≫= fun row => basis_epoch (created_at row)))
            (last_activity scan ≫= epoch_seconds) in
  let freshness_lag_seconds :=
    match (0 <? outstanding_bytes) || (0 <? outstanding_events), basis, now_epoch with
    | true, Some basis, Some now => sat_sub now basis
    | _, _, _ => 0
    end in
  {| source := scan_source scan;
     adapter := scan_adapter scan;
     account := scan_account scan;
     lane := lane;
     coverage := coverage;
     classification := scan_classification scan;
     complete_bytes := scan_complete_bytes scan;
     complete_events := scan_complete_events scan;
     acknowledged_bytes := fst acknowledged;
     acknowledged_events := snd acknowledged;
     outstanding_bytes := outstanding_bytes;
     outstanding_events := outstanding_events;
     incomplete_tail_bytes := scan_incomplete_tail_bytes scan;
     freshness_lag_seconds := freshness_lag_seconds;
     cursor := mkCursor (fst acknowledged) (snd acknowledged) outstanding_bytes outstanding_events;
     decision := cursor_retention (fst acknowledged) (snd acknowledged)
                   (scan_complete_bytes scan) (scan_complete_events scan) degraded;
     anomaly := anomaly;
     enrolled := match state with Some _ => true | None => false end |}.

Definition acknowledged_extent (ctx : PassContext) (source : list Z) : Z * Z :=
  default (0, 0) (current_generation ctx !! source ≫= fun generation => acknowledged ctx !! generation).

Definition measure_scan (ctx : PassContext) (now_epoch : option Z) (degraded : bool)
  (scan : SourceScan) : SourceInventory :=
  measure scan (sources ctx !! scan_source scan) (acknowledged_extent ctx (scan_source scan))
    (last_captured ctx !! scan_source scan ≫= basis_epoch) now_epoch degraded.

Definition PassContext_measure (ctx : PassContext) (scans : list SourceScan) (now : list Z)
  (degraded : bool) : list SourceInventory :=
  map (measure_scan ctx (epoch_seconds now) degraded) scans.

Definition measured_sources (conn : Connection) (scans : list SourceScan) (now : list Z)
  (degraded : bool) : result StateError (list SourceInventory) :=
  let! ctx := PassContext_load conn in
  Ok (PassContext_measure ctx scans now degraded).

(** * Aggregation *)

Definition fold_into_status (status : AdapterAccountStatus) (record : SourceInventory)
  : AdapterAccountStatus :=
  let fresh := bool_decide (lane record = Freshness) in
  {| st_adapter := st_adapter status;
     st_account := st_account status;
     st_coverage := combine (st_coverage status) (coverage record);
     st_active_backlog_bytes :=
       st_active_backlog_bytes status + (if fresh then outstanding_bytes record else 0);
     st_active_backlog_events :=
       st_active_backlog_events status + (if fresh then outstanding_events record else 0);
     st_historical_backlog_bytes :=
       st_historical_backlog_bytes status + (if fresh then 0 else outstanding_bytes record);
     st_historical_backlog_events :=
       st_historical_backlog_events status + (if fresh then 0 else outstanding_events record);
     st_max_freshness_lag_seconds :=
       Z.max (st_max_freshness_lag_seconds status) (freshness_lag_seconds record);
     st_sources := CoverageCounts_record (st_sources status) (coverage record);
     st_classifications :=
       ClassificationCounts_record (st_classifications status) (classification record) |}.

Definition new_status (adapter account : list Z) : AdapterAccountStatus :=
  mkStatus adapter account Absent 0 0 0 0 0 CoverageCounts_default ClassificationCounts_default.

(** The scope vector and the index of each scope in it. *)
Definition Scopes : Type := list AdapterAccountStatus * gmap (list Z * list Z) nat.

Definition scope_step (s : Scopes) (record : SourceInventory) : Scopes :=
  let '(scopes, scope_index) := s in
  let key := (adapter record, account record) in
  match scope_index !! key with
  | Some index => (alter (fun st => fold_into_status st record) index scopes, scope_index)
  | None =>
      let index := length scopes in
      (alter (fun st => fold_into_status st record) index
         (scopes ++ [new_status (adapter record) (account record)]),
       <[key := index]> scope_index)
  end.

Record InventoryTotals := mkTotals {
  active_backlog_bytes : Z;
  active_backlog_events : Z;
  historical_backlog_bytes : Z;
  historical_backlog_events : Z;
  total_sources : CoverageCounts;
}.

Definition InventoryTotals_default := mkTotals 0 0 0 0 CoverageCounts_default.

Definition totals_step (t : InventoryTotals) (record : SourceInventory) : InventoryTotals :=
  let counts := CoverageCounts_record (total_sources t) (coverage record) in
  match lane record with
  | Freshness =>
      mkTotals (active_backlog_bytes t + outstanding_bytes record)
        (active_backlog_events t + outstanding_events record)
        (historical_backlog_bytes t) (historical_backlog_events t) counts
  | Backfill =>
      mkTotals (active_backlog_bytes t) (active_backlog_events t)
        (historical_backlog_bytes t + outstanding_bytes record)
        (historical_backlog_events t + outstanding_events record) counts
  end.

Record InventoryReport := mkReport {
  generated_at : list Z;
  overall : CoverageState;
  totals : InventoryTotals;
  statuses : list AdapterAccountStatus;
  sources_without_scan : Z;
}.

Definition unscanned (ctx : PassContext) (scans : list SourceScan) : Z :=
  Z.of_nat (size (filter (fun kv : list Z * SourceRow => kv.1 ∉ map scan_source scans)
                    (sources ctx))).

Definition report_of (ctx : PassContext) (scans : list SourceScan) (now : list Z)
  (degraded : bool) : InventoryReport :=
  let per_source := PassContext_measure ctx scans now degraded in
  let '(scopes, _) := fold_left scope_step per_source ([], ∅) in
  let sources_without_scan := unscanned ctx scans in
  let totals := fold_left totals_step per_source InventoryTotals_default in
  let overall := fold_left (fun o record => combine o (coverage record)) per_source Absent in
  let overall := if 0 <? sources_without_scan then combine overall Partial else overall in
  mkReport now overall totals scopes sources_without_scan.

Definition inventory (conn : Connection) (scans : list SourceScan) (now : list Z)
  (degraded : bool) : result StateError InventoryReport :=
  let! ctx := PassContext_load conn in Ok (report_of ctx scans now degraded).

(** [bounded_i64]: a counter clipped into the wire integer domain. *)
Definition bounded_i64 (value : Z) : Z := Z.min value I64_MAX.

(** * Calendar arithmetic *)

(** The civil date after a date. *)
Definition next_date (year month day : Z) : Z * Z * Z :=
  if bool_decide (Some day = days_in_month year month)
  then if month =? 12 then (year + 1, 1, 1) else (year, month + 1, 1)
  else (year, month, day + 1).

(** Days before 1 March of a year, counted from 1 March of year 0. *)
Definition march_days (y : Z) : Z := 365 * y + Z.div y 4 - Z.div y 100 + Z.div y 400.

Lemma days_from_civil_march y m d : 0 <= y -> 1 <= m <= 12 ->
  days_from_civil y m d =
  march_days (if m <=? 2 then y - 1 else y)
  + (153 * (if 2 <? m then m - 3 else m + 9) + 2) / 5 + d - 1 - 719468.
Proof.
  intros Hy Hm. unfold days_from_civil, march_days.
  set (s := if m <=? 2 then y - 1 else y).
  assert (Hs : -1 <= s) by (unfold s; destruct (m <=? 2) eqn:?; lia).
  set (k := if 2 <? m then m - 3 else m + 9).
  assert (Hk : 0 <= k <= 11) by (unfold k; destruct (2 <? m) eqn:?; lia).
  clearbody s k. 
  rewrite (Z.quot_div_nonneg (153 * k + 2) 5) by lia.
  assert (He : Z.quot (if 0 <=? s then s else s - 399) 400 = s / 400).
  { destruct (0 <=? s) eqn:?; [apply Z.quot_div_nonneg; lia|].
    assert (s = -1) as -> by lia. reflexivity. }
  rewrite He.
  assert (0 <= s - s / 400 * 400 < 400) by (pose proof (Z.mod_pos_bound s 400); pose proof (Z.div_mod s 400); lia).
  rewrite !Z.quot_div_nonneg by lia.
  Z.to_euclidean_division_equations; lia.
Qed.

Lemma march_days_leap y :
  march_days y - march_days (y - 1)
  = if (y mod 4 =? 0) && (negb (y mod 100 =? 0) || (y mod 400 =? 0)) then 366 else 365.
Proof.
  unfold march_days.
  destruct (y mod 4 =? 0) eqn:E4, (y mod 100 =? 0) eqn:E1, (y mod 400 =? 0) eqn:E0; simpl;
    Z.to_euclidean_division_equations; lia.
Qed.

(** Evaluate the comparisons of literals in the goal. *)
#[local] Ltac closed_tests :=
  repeat match goal with
  | |- context [?a <=? 2] => let b := eval vm_compute in (a <=? 2) in change (a <=? 2) with b
  | |- context [2 <? ?a] => let b := eval vm_compute in (2 <? a) in change (2 <? a) with b
  end; cbv iota.

Lemma days_from_civil_next y m d : 0 <= y -> 1 <= m <= 12 ->
  (exists n, days_in_month y m = Some n /\ 1 <= d <= n) ->
  let '(y', m', d') := next_date y m d in
  days_from_civil y' m' d' = days_from_civil y m d + 1.
Proof.
  intros Hy Hm (n & Hn & Hd). pose proof (march_days_leap y) as Hleap.
  unfold next_date. rewrite Hn. case_bool_decide as Hlast.
  - injection Hlast as ->. destruct (m =? 12) eqn:E12.
    + assert (m = 12) as -> by lia. injection Hn as <-.
      rewrite !days_from_civil_march by lia.
      change (1 <=? 2) with true. change (12 <=? 2) with false. cbv iota.
      replace (y + 1 - 1) with y by lia. cbn -[march_days Z.div].
      generalize (march_days y). intros. Z.to_euclidean_division_equations; lia.
    + rewrite !days_from_civil_march by lia.
      assert (m = 1 \/ m = 2 \/ m = 3 \/ m = 4 \/ m = 5 \/ m = 6 \/ m = 7 \/ m = 8 \/ m = 9 \/ m = 10
        \/ m = 11) as Hc by lia.
      destruct Hc as [->|[->|[->|[->|[->|[->|[->|[->|[->|[->| ->]]]]]]]]]];
        cbn -[Z.modulo] in Hn; injection Hn as <-; closed_tests;
        revert Hleap; generalize (march_days y), (march_days (y - 1)); intros; clear Hd;
        try (clear Hleap; Z.to_euclidean_division_equations; lia).
      revert Hleap. destruct ((y mod 4 =? 0) && _); intros; clear -Hleap; Z.to_euclidean_division_equations; lia.
  - rewrite !days_from_civil_march by lia. lia.
Qed.

(** * Aggregation lemmas *)

Lemma rank_inj a b : rank a = rank b -> a = b.
Proof. by destruct a, b. Qed.

Lemma rank_combine a b : rank (combine a b) = Z.max (rank a) (rank b).
Proof. unfold combine. destruct (rank a <? rank b) eqn:?; lia. Qed.

Lemma rank_bounds s : 0 <= rank s <= 5.
Proof. destruct s; simpl; lia. Qed.

Lemma fold_max_swap x y l : fold_right Z.max (Z.max x y) l = Z.max y (fold_right Z.max x l).
Proof. induction l as [|z l IH]; simpl; [lia|]. rewrite IH. lia. Qed.

Lemma fold_combine_rank (l : list SourceInventory) o :
  rank (fold_left (fun o r => combine o (coverage r)) l o)
  = fold_right Z.max (rank o) (map (fun r => rank (coverage r)) l).
Proof.
  revert o. induction l as [|r l IH]; intros o; simpl; [done|].
  by rewrite IH, rank_combine, fold_max_swap.
Qed.

Lemma max_rank_le (l : list Z) o b :
  fold_right Z.max o l <= b <-> o <= b /\ Forall (fun x => x <= b) l.
Proof.
  induction l as [|x l IH]; simpl; [split; [intros; split; [done|constructor]|tauto]|].
  rewrite Z.max_lub_iff, IH, Forall_cons. tauto.
Qed.

Definition key_of (r : SourceInventory) : list Z * list Z := (adapter r, account r).

(** The distinct elements of a list in order of first occurrence. *)
Definition first_seen {A} `{EqDecision A} (l : list A) : list A :=
  fold_left (fun seen x => if bool_decide (x ∈ seen) then seen else seen ++ [x]) l [].

(** Reference aggregation: group the records by scope, in order of first
    occurrence, and fold each group into a fresh status. *)
Definition group (rs : list SourceInventory) (k : list Z * list Z) : list SourceInventory :=
  List.filter (fun r => bool_decide (key_of r = k)) rs.

Definition status_of (rs : list SourceInventory) (k : list Z * list Z) : AdapterAccountStatus :=
  fold_left fold_into_status (group rs k) (new_status k.1 k.2).

Definition scopes_spec (rs : list SourceInventory) : list AdapterAccountStatus :=
  map (status_of rs) (first_seen (map key_of rs)).

Lemma first_seen_snoc {A} `{EqDecision A} (l : list A) x :
  first_seen (l ++ [x]) = if bool_decide (x ∈ first_seen l) then first_seen l else first_seen l ++ [x].
Proof. unfold first_seen. by rewrite fold_left_app. Qed.

Lemma first_seen_NoDup {A} `{EqDecision A} (l : list A) : NoDup (first_seen l).
Proof.
  induction l as [|x l IH] using rev_ind; [constructor|].
  rewrite first_seen_snoc. case_bool_decide; [done|].
  apply NoDup_app. split_and!; [done| |apply NoDup_singleton].
  intros y Hy ->%list_elem_of_singleton. done.
Qed.

Lemma elem_of_first_seen {A} `{EqDecision A} (l : list A) x : x ∈ first_seen l <-> x ∈ l.
Proof.
  induction l as [|y l IH] using rev_ind; [done|].
  rewrite first_seen_snoc, elem_of_app, list_elem_of_singleton, <- IH.
  case_bool_decide; [|by rewrite elem_of_app, list_elem_of_singleton]. naive_solver.
Qed.

Lemma group_snoc rs r k :
  group (rs ++ [r]) k = group rs k ++ (if bool_decide (key_of r = k) then [r] else []).
Proof. unfold group. rewrite List.filter_app. simpl. by case_bool_decide. Qed.

Lemma status_of_snoc rs r k :
  status_of (rs ++ [r]) k
  = if bool_decide (key_of r = k) then fold_into_status (status_of rs k) r else status_of rs k.
Proof.
  unfold status_of. rewrite group_snoc. case_bool_decide; [by rewrite fold_left_app|].
  by rewrite app_nil_r.
Qed.

Lemma group_absent rs k : k ∉ map key_of rs -> group rs k = [].
Proof.
  intros Hk. unfold group. induction rs as [|r rs IH]; [done|]. simpl in *.
  rewrite not_elem_of_cons in Hk. destruct Hk as [Hne Hk].
  rewrite bool_decide_false by congruence. auto.
Qed.

Lemma map_status_snoc rs r ks : key_of r ∉ ks ->
  map (status_of (rs ++ [r])) ks = map (status_of rs) ks.
Proof.
  intros Hk. apply map_ext_in. intros k Hin%list_elem_of_In. rewrite status_of_snoc.
  rewrite bool_decide_false; [done|]. by intros <-.
Qed.

Lemma map_status_alter rs r ks i : NoDup ks -> ks !! i = Some (key_of r) ->
  map (status_of (rs ++ [r])) ks
  = alter (fun st => fold_into_status st r) i (map (status_of rs) ks).
Proof.
  intros Hnd Hi. apply list_eq. intros j.
  assert (E : forall f : list Z * list Z -> AdapterAccountStatus, map f ks = f <$> ks) by done.
  rewrite !E. destruct (decide (i = j)) as [->|Hne].
  - rewrite list_lookup_alter_eq, !list_lookup_fmap, Hi. simpl.
    by rewrite status_of_snoc, bool_decide_true.
  - rewrite list_lookup_alter_ne by done. rewrite !list_lookup_fmap.
    destruct (ks !! j) as [k|] eqn:Hj; [|done]. simpl. f_equal. rewrite status_of_snoc.
    rewrite bool_decide_false; [done|]. intros <-.
    by apply Hne, (NoDup_lookup ks _ _ (key_of r)).
Qed.

(** The index-vector loop computes the reference aggregation, and its index
    holds each scope's position. *)
Lemma scopes_fold rs : exists idx,
  fold_left scope_step rs ([], ∅) = (scopes_spec rs, idx) /\
  forall k i, idx !! k = Some i <-> first_seen (map key_of rs) !! i = Some k.
Proof.
  induction rs as [|r rs IH] using rev_ind.
  { exists ∅. split; [done|]. intros k i. rewrite lookup_empty. done. }
  destruct IH as (idx & E & Hidx). rewrite fold_left_app, E. cbn [fold_left].
  unfold scopes_spec, scope_step. rewrite map_app. cbn [map]. rewrite first_seen_snoc.
  set (ks := first_seen (map key_of rs)) in *. fold (key_of r).
  pose proof (first_seen_NoDup (map key_of rs)) as Hnd.
  destruct (idx !! key_of r) as [i|] eqn:Hi.
  - exists idx. pose proof (proj1 (Hidx _ _) Hi) as Hks.
    rewrite bool_decide_true by (by eapply list_elem_of_lookup_2).
    split; [|done]. f_equal. by rewrite (map_status_alter rs r ks i).
  - assert (Hnin : key_of r ∉ ks).
    { intros [i Hki]%list_elem_of_lookup. apply Hidx in Hki. congruence. }
    rewrite bool_decide_false by done. eexists. split.
    + f_equal. rewrite map_app. rewrite map_status_snoc by done. cbn [map].
      rewrite length_map, status_of_snoc, bool_decide_true by done.
      unfold status_of at 3. rewrite group_absent; [|by rewrite <- elem_of_first_seen].
      rewrite <- (length_map (status_of rs) ks).
      change (key_of r) with (adapter r, account r). simpl.
      by rewrite alter_app_r_alt, Nat.sub_diag by done.
    + intros k i. rewrite length_map, lookup_insert_Some, lookup_snoc_Some, Hidx.
      split.
      * intros [[<- <-]|[Hne Hk]]; [by right|left]. split; [|done].
        by eapply lookup_lt_Some.
      * intros [[Hlt Hk]|[-> ->]]; [right|by left]. split; [|done].
        intros <-. apply Hnin. by eapply list_elem_of_lookup_2.
Qed.

(** What one record adds to the active and historical backlog. *)
Definition active_part (f : SourceInventory -> Z) (r : SourceInventory) : Z :=
  if bool_decide (lane r = Freshness) then f r else 0.
Definition historical_part (f : SourceInventory -> Z) (r : SourceInventory) : Z :=
  if bool_decide (lane r = Freshness) then 0 else f r.

Lemma fold_status_sums rs st :
  let st' := fold_left fold_into_status rs st in
  st_adapter st' = st_adapter st /\ st_account st' = st_account st /\
  st_active_backlog_bytes st'
    = st_active_backlog_bytes st + zsum (map (active_part outstanding_bytes) rs) /\
  st_active_backlog_events st'
    = st_active_backlog_events st + zsum (map (active_part outstanding_events) rs) /\
  st_historical_backlog_bytes st'
    = st_historical_backlog_bytes st + zsum (map (historical_part outstanding_bytes) rs) /\
  st_historical_backlog_events st'
    = st_historical_backlog_events st + zsum (map (historical_part outstanding_events) rs).
Proof.
  revert st. induction rs as [|r rs IH]; intros st; simpl; [split_and!; (done || lia)|].
  destruct (IH (fold_into_status st r)) as (-> & -> & -> & -> & -> & ->). simpl.
  unfold active_part, historical_part. case_bool_decide; split_and!; (done || lia).
Qed.

Lemma zsum_map_ext_in {A} (f g : A -> Z) l : (forall x, x ∈ l -> f x = g x) ->
  zsum (map f l) = zsum (map g l).
Proof. intros H. f_equal. apply map_ext_in. intros x Hx%list_elem_of_In. auto. Qed.

Lemma zsum_alter_one {A} `{EqDecision A} (f g : A -> Z) ks k d : NoDup ks -> k ∈ ks ->
  (forall x, g x = if bool_decide (k = x) then f x + d else f x) ->
  zsum (map g ks) = zsum (map f ks) + d.
Proof.
  intros Hnd Hk Hg. induction Hnd as [|x ks Hx _ IH]; [by apply elem_of_nil in Hk|]. simpl.
  rewrite Hg. case_bool_decide as E.
  - subst x. rewrite (zsum_map_ext_in g f ks); [lia|]. intros y Hy. rewrite Hg.
    rewrite bool_decide_false; [done|]. by intros <-.
  - apply elem_of_cons in Hk as [->|Hk]; [done|]. rewrite IH by done. lia.
Qed.

(** Grouping by scope loses nothing: the groups' sums add up to the total. *)
Lemma group_sums (f : SourceInventory -> Z) rs :
  zsum (map (fun k => zsum (map f (group rs k))) (first_seen (map key_of rs))) = zsum (map f rs).
Proof.
  induction rs as [|r rs IH] using rev_ind; [done|].
  rewrite !map_app, zsum_app. cbn [map]. rewrite first_seen_snoc, <- IH. clear IH.
  set (ks := first_seen (map key_of rs)).
  assert (Hg : forall k, zsum (map f (group (rs ++ [r]) k))
               = if bool_decide (key_of r = k) then zsum (map f (group rs k)) + f r
                 else zsum (map f (group rs k))).
  { intros k. rewrite group_snoc, map_app, zsum_app. case_bool_decide; simpl; lia. }
  case_bool_decide as Hin.
  - rewrite (zsum_alter_one _ _ ks (key_of r) (f r) (first_seen_NoDup _) Hin Hg). simpl. lia.
  - rewrite map_app, zsum_app. cbn [map zsum]. rewrite Hg, bool_decide_true by done.
    rewrite (group_absent rs (key_of r)); [|by rewrite <- elem_of_first_seen]. simpl.
    rewrite (zsum_map_ext_in _ (fun k => zsum (map f (group rs k))) ks); [lia|].
    intros k Hk. rewrite Hg, bool_decide_false; [done|]. by intros <-.
Qed.

Lemma scope_sums (g : AdapterAccountStatus -> Z) (f : SourceInventory -> Z) rs :
  (forall k, g (status_of rs k) = zsum (map f (group rs k))) ->
  zsum (map g (scopes_spec rs)) = zsum (map f rs).
Proof.
  intros Hg. unfold scopes_spec. rewrite map_map, <- group_sums.
  apply zsum_map_ext_in. intros k _. apply Hg.
Qed.

Lemma coverage_record_get c s s' :
  CoverageCounts_get (CoverageCounts_record c s) s'
  = CoverageCounts_get c s' + (if bool_decide (s = s') then 1 else 0).
Proof. destruct c, s, s'; simpl; lia. Qed.

Lemma totals_fold rs t :
  let t' := fold_left totals_step rs t in
  active_backlog_bytes t' = active_backlog_bytes t + zsum (map (active_part outstanding_bytes) rs) /\
  active_backlog_events t'
    = active_backlog_events t + zsum (map (active_part outstanding_events) rs) /\
  historical_backlog_bytes t'
    = historical_backlog_bytes t + zsum (map (historical_part outstanding_bytes) rs) /\
  historical_backlog_events t'
    = historical_backlog_events t + zsum (map (historical_part outstanding_events) rs) /\
  forall s, CoverageCounts_get (total_sources t') s
    = CoverageCounts_get (total_sources t) s + count (fun r => bool_decide (coverage r = s)) rs.
Proof.
  revert t. induction rs as [|r rs IH]; intros t; cbn [fold_left map zsum].
  { cbv zeta. split_and!; try lia. intros s. unfold count, zlen. simpl. lia. }
  destruct (IH (totals_step t r)) as (-> & -> & -> & -> & Hc).
  assert (Hs : total_sources (totals_step t r)
               = CoverageCounts_record (total_sources t) (coverage r))
    by (unfold totals_step; by destruct (lane r)).
  rewrite Hs in Hc. unfold totals_step, active_part, historical_part.
  split_and!; try (destruct (lane r); simpl; lia).
  intros s. rewrite Hc, coverage_record_get, count_cons. simpl. lia.
Qed.

Lemma coverage_total_count rs :
  zsum (map (fun s => count (fun r => bool_decide (coverage r = s)) rs)
    [Absent; Unsupported; Failed; Partial; Current; FullyBackfilled]) = zlen rs.
Proof.
  induction rs as [|r rs IH]; [done|]. cbn [map zsum] in *. rewrite !count_cons, zlen_cons.
  destruct (coverage r); simpl; lia.
Qed.

(** * Generations *)

(** A stored generation: source, generation, whether it is open, ordinal. *)
Record GenerationRow := mkGeneration {
  g_source : list Z; g_id : list Z; g_open : bool; g_ordinal : Z }.

Definition generation_row_text (r : GenerationRow) : list Z * list Z * list Z * Z :=
  (g_source r, g_id r, lit (if g_open r then "open" else "closed"), g_ordinal r).

(** The generation a source is measured against: the last open one in the
    query's (ordinal) order, else the last one. *)
Definition chosen (rows : list GenerationRow) (src : list Z) : option GenerationRow :=
  let mine := List.filter (fun r => bool_decide (g_source r = src)) rows in
  match last (List.filter g_open mine) with
  | Some r => Some r
  | None => last mine
  end.

Lemma each_row_snoc {A S} (step : S -> A -> result StateError S) rows x s :
  each_row step (rows ++ [Some x]) s = rbind (each_row step rows s) (fun s' => step s' x).
Proof.
  revert s. induction rows as [|[y|] rows IH]; intros s; simpl; [by destruct (step s x)| |done].
  destruct (step s y); simpl; [apply IH|done..].
Qed.

Lemma chosen_snoc rows r src :
  chosen (rows ++ [r]) src
  = if bool_decide (g_source r = src)
    then match chosen rows src with
         | Some c => if g_open c && negb (g_open r) then Some c else Some r
         | None => Some r
         end
    else chosen rows src.
Proof.
  unfold chosen. rewrite List.filter_app. simpl. case_bool_decide; [|by rewrite app_nil_r].
  rewrite List.filter_app. simpl.
  set (mine := List.filter (fun r => bool_decide (g_source r = src)) rows).
  destruct (g_open r) eqn:Er; simpl.
  - rewrite last_snoc. destruct (last (List.filter g_open mine)), (last mine);
      rewrite ?andb_false_r; done.
  - rewrite app_nil_r, last_snoc. destruct (last (List.filter g_open mine)) as [c|] eqn:El.
    + assert (g_open c = true) as ->; [|done].
      apply last_Some_elem_of in El. apply list_elem_of_In, List.filter_In in El. tauto.
    + destruct (last mine) as [c|] eqn:Em; [|done].
      assert (g_open c = false) as ->; [|done].
      apply not_true_iff_false. intros Ho. apply last_None in El.
      apply last_Some_elem_of, list_elem_of_In in Em.
      assert (List.In c (List.filter g_open mine)) by (by apply List.filter_In).
      by rewrite El in *.
Qed.

Lemma generation_rows_fold rows : exists m,
  each_row generation_row (map Some (map generation_row_text rows)) ∅ = Ok m /\
  forall src, m !! src = (fun r => (g_id r, g_open r, g_ordinal r)) <$> chosen rows src.
Proof.
  induction rows as [|r rows IH] using rev_ind; [by exists ∅|].
  destruct IH as (m & E & Hm). rewrite !map_app. cbn [map]. rewrite each_row_snoc, E.
  cbn [rbind]. unfold generation_row, generation_row_text.
  assert (Hopen : (if bool_decide (lit (if g_open r then "open" else "closed") = lit "open") then Ok true
     else if bool_decide (lit (if g_open r then "open" else "closed") = lit "closed") then Ok false
     else Err (SchemaCorruption (lit "generations.state"))) = Ok (E := StateError) (g_open r))
    by (by destruct (g_open r)).
  rewrite Hopen. clear Hopen. cbn [rbind]. rewrite (Hm (g_source r)).
  assert (Hins : forall src, <[g_source r := (g_id r, g_open r, g_ordinal r)]> m !! src
    = if bool_decide (g_source r = src) then Some (g_id r, g_open r, g_ordinal r) else m !! src).
  { intros src. rewrite lookup_insert. case_decide; case_bool_decide; done. }
  destruct (chosen rows (g_source r)) as [c|] eqn:Hc; simpl.
  - destruct (g_open c && negb (g_open r)) eqn:Hk.
    + exists m. split; [done|]. intros src. rewrite chosen_snoc, Hm. case_bool_decide as Es; [|done].
      subst src. by rewrite Hc, Hk.
    + eexists. split; [done|]. intros src. rewrite Hins, chosen_snoc, Hm.
      case_bool_decide as Es; [|done]. subst src. by rewrite Hc, Hk.
  - eexists. split; [done|]. intros src. rewrite Hins, chosen_snoc, Hm.
    case_bool_decide as Es; [|done]. subst src. by rewrite Hc.
Qed.

(** * Properties *)


(** Measurement and cursors.  For every scan the uncaptured range starts
    at the acknowledged position and ends at the complete boundary unless the
    source is reported failed; a degraded pass holds every cursor; and a
    cursor only ever advances, on an axis, to the complete boundary. *)
Theorem measure_cursor_sound scan state ack lc now degraded :
  let r := measure scan state ack lc now degraded in
  (anomaly r = None ->
     retained_bytes (cursor r) + uncaptured_bytes (cursor r) = complete_bytes r /\
     retained_events (cursor r) + uncaptured_events (cursor r) = complete_events r) /\
  (anomaly r <> None -> coverage r = Failed) /\
  (degraded = true -> decision r = Hold) /\
  (forall b e, decision r = Advance b e ->
     (b = retained_bytes (cursor r) \/ retained_bytes (cursor r) < b /\ b = complete_bytes r) /\
     (e = retained_events (cursor r) \/ retained_events (cursor r) < e /\ e = complete_events r) /\
     (b, e) <> (retained_bytes (cursor r), retained_events (cursor r))) /\
  (coverage r = Current \/ coverage r = FullyBackfilled ->
     has_uncaptured (cursor r) = false /\ freshness_lag_seconds r = 0).
Proof.
  destruct ack as [ab ae]. unfold measure, has_uncaptured. simpl.
  set (cb := scan_complete_bytes scan). set (ce := scan_complete_events scan).
  split_and!.
  - destruct ((cb <? ab) || (ce <? ae)) eqn:E; intros [=]. unfold sat_sub. lia.
  - destruct ((cb <? ab) || (ce <? ae)); done.
  - intros ->. done.
  - intros b e. unfold cursor_retention.
    destruct (degraded || _) eqn:E; intros [= <- <-]. split_and!; [lia..|].
    intros [= H1 H2]. destruct degraded; lia.
  - destruct ((cb <? ab) || (ce <? ae)); [by intros []|].
    destruct (forced_coverage (scan_classification scan)) as [c|] eqn:Hf.
    { destruct (scan_classification scan); simpl in Hf; intros []; congruence. }
    destruct ((0 <? sat_sub cb ab) || (0 <? sat_sub ce ae)); [by intros []|]. done.
Qed.

(** The overall state is the worst of the fleet: it is failed exactly
    when some source is, and a caught-up verdict means every source the
    state knows was scanned and every scanned source is caught up or absent. *)
Theorem inventory_overall_worst ctx scans now degraded :
  let rs := PassContext_measure ctx scans now degraded in
  let rep := report_of ctx scans now degraded in
  (overall rep = Failed <-> Exists (fun r => coverage r = Failed) rs) /\
  (rank (overall rep) <= rank Current <->
     (forall s, s ∈ dom (sources ctx) -> s ∈ map scan_source scans) /\
     Forall (fun r => rank (coverage r) <= rank Current) rs).
Proof.
  intros rs rep.
  set (n := unscanned ctx scans).
  assert (Ho : rank (overall rep)
    = Z.max (fold_right Z.max 0 (map (fun r => rank (coverage r)) rs)) (if 0 <? n then 3 else 0)).
  { unfold rep, report_of. fold rs n. destruct (fold_left scope_step rs ([], ∅)). simpl.
    pose proof (fold_combine_rank rs Absent) as Hr. simpl in Hr.
    assert (0 <= fold_right Z.max 0 (map (fun r => rank (coverage r)) rs)).
    { clear. induction rs; simpl; lia. }
    destruct (0 <? n); [rewrite rank_combine|]; rewrite Hr; simpl; lia. }
  assert (Hn : n = 0 <-> forall s, s ∈ dom (sources ctx) -> s ∈ map scan_source scans).
  { unfold n, unscanned. split.
    - intros Hz s [row Hs]%elem_of_dom. apply dec_stable. intros Hnot.
      assert (Hsz : size (filter (fun kv : list Z * SourceRow => kv.1 ∉ map scan_source scans)
                      (sources ctx)) = 0%nat) by lia.
      apply map_size_empty_iff, map_empty_filter in Hsz. exact (Hsz s row Hs Hnot).
    - intros Hall. rewrite map_empty_filter_2; [done|].
      intros s row Hs Hnot. apply Hnot, Hall. by apply elem_of_dom_2 in Hs. }
  split.
  - transitivity (5 <= rank (overall rep)).
    { split; [intros ->; simpl; lia|]. intros. apply rank_inj. pose proof (rank_bounds (overall rep)).
      simpl. lia. }
    rewrite Ho.
    assert (Hmax : fold_right Z.max 0 (map (fun r => rank (coverage r)) rs) <= 4
                   <-> ~ Exists (fun r => coverage r = Failed) rs).
    { rewrite max_rank_le, Forall_map, Forall_forall, Exists_exists. split.
      - intros [_ Hall] (x & Hx & E). specialize (Hall x Hx). rewrite E in Hall. simpl in Hall. lia.
      - intros Hno. split; [lia|]. intros x Hx. simpl.
        destruct (decide (rank (coverage x) = rank Failed)) as [E%rank_inj|Hne]; [naive_solver|].
        pose proof (rank_bounds (coverage x)). simpl in Hne. lia. }
    destruct (decide (Exists (fun r => coverage r = Failed) rs)) as [He|He].
    + assert (~ fold_right Z.max 0 (map (fun r => rank (coverage r)) rs) <= 4) by tauto.
      split; [done|lia].
    + assert (fold_right Z.max 0 (map (fun r => rank (coverage r)) rs) <= 4) by tauto.
      split; [destruct (0 <? n); lia|done].
  - rewrite Ho, <- Hn. rewrite Z.max_lub_iff, max_rank_le, Forall_map. simpl.
    assert (0 <= n) by (unfold n, unscanned; lia).
    destruct (0 <? n) eqn:E; split; intros; destruct_and?; split_and?; (done || lia).
Qed.

(** A source is measured against its open generation when it has one
    and otherwise against its highest ordinal, whatever order its
    generations were opened and closed in. *)
Theorem current_generation_chosen rows : exists m,
  current_generation_by_source (Some (map Some (map generation_row_text rows))) = Ok m /\
  forall src, m !! src = g_id <$> chosen rows src.
Proof.
  destruct (generation_rows_fold rows) as (m & E & Hm).
  unfold current_generation_by_source, run_query. rewrite E. cbn [rbind].
  eexists. split; [done|]. intros src. rewrite lookup_fmap, Hm. by destruct (chosen rows src).
Qed.

(** The epoch arithmetic counts days: 1970-01-01 is day 0, and the day
    after any valid civil date, leap years and century rules included, is one
    more. *)
Theorem days_from_civil_counts :
  days_from_civil 1970 1 1 = 0 /\
  forall y m d n, 0 <= y -> 1 <= m <= 12 -> days_in_month y m = Some n -> 1 <= d <= n ->
    let '(y', m', d') := next_date y m d in
    days_from_civil y' m' d' = days_from_civil y m d + 1.
Proof. split; [done|]. intros y m d n Hy Hm Hn Hd. apply days_from_civil_next; eauto. Qed.
