(* ===== verification/Scheduler.v ===== *)
(** The two-lane freshness and backfill scheduler
    ([crates/archivist-client-core/src/scheduler.rs]): one planning pass over
    the inventory's records.

    Both ranking loops run over sorted index vectors, as in the code; each
    loop body is a step function on the loop's mutable variables.  Byte
    figures are unsigned 64-bit in the code; the bounds proved here keep
    every sum at or below the round's capacity, so none wraps. *)

From S2P Require Import Prelude Text Vocabulary Inventory.

Definition TARGET_CHUNK_BYTES : Z := 16 * 1024 * 1024.
Definition DEFAULT_BACKFILL_QUANTUM_BYTES : Z := 256 * 1024 * 1024.

Record SchedulerLimits := mkLimits { chunk_bytes : Z; backfill_quantum_bytes : Z }.

Definition plan_defaults : SchedulerLimits :=
  mkLimits TARGET_CHUNK_BYTES DEFAULT_BACKFILL_QUANTUM_BYTES.

Record DrainLoad := mkDrain { drain_entries : Z; drain_bytes : Z }.

Record ChunkGrant := mkGrant {
  grant_source : list Z;
  grant_lane : FreshnessLane;
  granted_bytes : Z;
  chunk_count : Z;
}.

Record CycleTotals := mkCycleTotals {
  capacity_bytes : Z;
  t_drain_entries : Z;
  t_drain_bytes : Z;
  eligible_sources : Z;
  reserved_sources : Z;
  reserved_bytes : Z;
  reserved_chunks : Z;
  backfilled_sources : Z;
  backfill_bytes : Z;
  backfill_chunks : Z;
  planned_bytes : Z;
  short_reservations : Z;
  deferred_sources : Z;
}.

Record CyclePlan := mkPlan {
  drain : DrainLoad;
  reservations : list ChunkGrant;
  backfill : list ChunkGrant;
  cycle_totals : CycleTotals;
}.

(** [u64::div_ceil]. *)
Definition div_ceil (a b : Z) : Z := (a + b - 1) / b.

Definition backlog_chunks (outstanding_bytes outstanding_events chunk_bytes : Z) : Z :=
  if 0 <? outstanding_bytes then div_ceil outstanding_bytes chunk_bytes
  else if 0 <? outstanding_events then 1 else 0.

(** [eligible[i]] for an index in range. *)
Definition no_record : SourceInventory :=
  mkSource [] [] [] Backfill Absent NotObserved 0 0 0 0 0 0 0 0 (mkCursor 0 0 0 0) Hold None false.
Definition at_index (eligible : list SourceInventory) (i : nat) : SourceInventory :=
  nth i eligible no_record.

(** [SourceId]'s order: the order of its text's bytes. *)
Definition source_leb (a b : SourceInventory) : bool :=
  lex_leb (as_bytes (source a)) (as_bytes (source b)).

Definition is_active (r : SourceInventory) : bool := bool_decide (lane r = Freshness).

(** * Freshness reservations *)

Record Reservations := mkReservations {
  grants : list ChunkGrant;
  covered : list Z;
  res_bytes : Z;
  short : Z;
  any_short : bool;
}.

Definition reserve_step (eligible : list SourceInventory) (chunk_bytes capacity_bytes : Z)
  (s : Reservations) (i : nat) : Reservations :=
  let record := at_index eligible i in
  if any_short s
  then mkReservations (grants s) (covered s) (res_bytes s) (short s + 1) true
  else
    let grant_bytes := Z.min chunk_bytes (outstanding_bytes record) in
    if grant_bytes <=? capacity_bytes - res_bytes s
    then mkReservations
           (grants s ++ [mkGrant (source record) (lane record) grant_bytes 1])
           (<[i := 1]> (covered s)) (res_bytes s + grant_bytes) (short s) false
    else mkReservations (grants s) (covered s) (res_bytes s) (short s + 1) true.

Definition freshness_order (eligible : list SourceInventory) : list nat :=
  sort_by (fun a b => source_leb (at_index eligible a) (at_index eligible b))
    (List.filter (fun i => is_active (at_index eligible i))
       (seq 0 (length eligible))).

Definition reserve_freshness (eligible : list SourceInventory) (chunk_bytes capacity_bytes : Z)
  : Reservations :=
  fold_left (reserve_step eligible chunk_bytes capacity_bytes) (freshness_order eligible)
    (mkReservations [] (replicate (length eligible) 0) 0 0 false).

(** * Backfill *)

(** The comparator: outstanding bytes, then events, both descending, then
    source id ascending. *)
Definition backlog_leb (a b : SourceInventory) : bool :=
  match outstanding_bytes b ?= outstanding_bytes a with
  | Lt => true
  | Gt => false
  | Eq =>
      match outstanding_events b ?= outstanding_events a with
      | Lt => true
      | Gt => false
      | Eq => source_leb a b
      end
  end.

Definition backfill_order (eligible : list SourceInventory) : list nat :=
  sort_by (fun a b => backlog_leb (at_index eligible a) (at_index eligible b))
    (seq 0 (length eligible)).

Record Spending := mkSpending { bf_grants : list ChunkGrant; deferred : Z; spent : Z }.

(** Chunks of source [i] its reservation did not cover. *)
Definition residual_chunks (record : SourceInventory) (covered_i chunk_bytes : Z) : Z :=
  sat_sub (backlog_chunks (outstanding_bytes record) (outstanding_events record) chunk_bytes)
    covered_i.

Definition residual_bytes (record : SourceInventory) (covered_i chunk_bytes : Z) : Z :=
  outstanding_bytes record
  - (if 0 <? covered_i then Z.min chunk_bytes (outstanding_bytes record) else 0).

Definition backfill_step (eligible : list SourceInventory) (covered : list Z)
  (chunk_bytes quantum_bytes capacity_bytes : Z) (open : bool) (s : Spending) (i : nat) : Spending :=
  let budget_chunks := quantum_bytes / chunk_bytes in
  let record := at_index eligible i in
  let covered_i := nth i covered 0 in
  let residual_chunks := residual_chunks record covered_i chunk_bytes in
  if residual_chunks =? 0 then s
  else if negb open then mkSpending (bf_grants s) (deferred s + 1) (spent s)
  else
    let residual_bytes := residual_bytes record covered_i chunk_bytes in
    let grant_chunks :=
      Z.min (Z.min residual_chunks budget_chunks)
        (sat_sub capacity_bytes (spent s) / chunk_bytes) in
    let grant_chunks :=
      if (grant_chunks =? 0) && (residual_bytes =? 0) && (0 <? budget_chunks)
      then Z.min residual_chunks budget_chunks else grant_chunks in
    if grant_chunks =? 0 then mkSpending (bf_grants s) (deferred s + 1) (spent s)
    else
      let grant_bytes := Z.min residual_bytes (sat_mul64 grant_chunks chunk_bytes) in
      mkSpending
        (bf_grants s ++ [mkGrant (source record) (lane record) grant_bytes grant_chunks])
        (deferred s) (spent s + grant_bytes).

Definition plan_backfill (eligible : list SourceInventory) (covered : list Z)
  (chunk_bytes quantum_bytes capacity_bytes : Z) (open : bool) : list ChunkGrant * Z :=
  let s := fold_left (backfill_step eligible covered chunk_bytes quantum_bytes capacity_bytes open)
             (backfill_order eligible) (mkSpending [] 0 0) in
  (bf_grants s, deferred s).

(** * The plan *)

Definition is_eligible (record : SourceInventory) : bool :=
  bool_decide (classification record = ScanOk)
  && match anomaly record with None => true | Some _ => false end
  && ((0 <? outstanding_bytes record) || (0 <? outstanding_events record)).

Definition plan (sources : list SourceInventory) (pending_spool : DrainLoad)
  (capacity : Z) (limits : SchedulerLimits) : CyclePlan :=
  let chunk := Z.max (chunk_bytes limits) 1 in
  let quantum := backfill_quantum_bytes limits in
  let eligible := List.filter is_eligible sources in
  let fresh := reserve_freshness eligible chunk capacity in
  let '(backfill, deferred) :=
    plan_backfill eligible (covered fresh) chunk quantum (capacity - res_bytes fresh)
      (negb (any_short fresh)) in
  let backfill_bytes := zsum (map granted_bytes backfill) in
  mkPlan pending_spool (grants fresh) backfill
    {| capacity_bytes := capacity;
       t_drain_entries := drain_entries pending_spool;
       t_drain_bytes := drain_bytes pending_spool;
       eligible_sources := zlen eligible;
       reserved_sources := zlen (grants fresh);
       reserved_bytes := res_bytes fresh;
       reserved_chunks := zsum (map chunk_count (grants fresh));
       backfilled_sources := zlen backfill;
       backfill_bytes := backfill_bytes;
       backfill_chunks := zsum (map chunk_count backfill);
       planned_bytes := res_bytes fresh + backfill_bytes;
       short_reservations := short fresh;
       deferred_sources := deferred |}.

(** * Specification: the plan over sorted records

    The same plan without indices: reservations are the longest prefix of
    the active sources, in id order, that fits the capacity; backfill spends
    what is left over the sources in backlog order. *)

Definition id_bytes (r : SourceInventory) : list Z := as_bytes (source r).

Definition reservation_bytes (chunk : Z) (r : SourceInventory) : Z :=
  Z.min chunk (outstanding_bytes r).

Definition reservation (chunk : Z) (r : SourceInventory) : ChunkGrant :=
  mkGrant (source r) (lane r) (reservation_bytes chunk r) 1.

Fixpoint served (chunk capacity : Z) (l : list SourceInventory) : list SourceInventory :=
  match l with
  | [] => []
  | r :: l' =>
      if reservation_bytes chunk r <=? capacity
      then r :: served chunk (capacity - reservation_bytes chunk r) l'
      else []
  end.

Definition active_in_order (eligible : list SourceInventory) : list SourceInventory :=
  sort_by source_leb (List.filter is_active eligible).

(** Chunks reserved for a record. *)
Definition covered_of (sv : list SourceInventory) (r : SourceInventory) : Z :=
  if bool_decide (id_bytes r ∈ map id_bytes sv) then 1 else 0.

(** One record's turn in the backfill pass with [remaining] bytes left:
    [None] when it has nothing left to grant, else its chunk count. *)
Definition turn (chunk quantum : Z) (open : bool) (cov remaining : Z) (r : SourceInventory)
  : option Z :=
  let rc := residual_chunks r cov chunk in
  if rc =? 0 then None
  else if negb open then Some 0
  else
    let n := Z.min (Z.min rc (quantum / chunk)) (Z.max 0 remaining / chunk) in
    Some (if (n =? 0) && (residual_bytes r cov chunk =? 0) && (0 <? quantum / chunk)
          then Z.min rc (quantum / chunk) else n).

Definition turn_grant (chunk cov n : Z) (r : SourceInventory) : ChunkGrant :=
  mkGrant (source r) (lane r) (Z.min (residual_bytes r cov chunk) (sat_mul64 n chunk)) n.

Fixpoint spend (chunk quantum : Z) (open : bool) (cov : SourceInventory -> Z) (remaining : Z)
  (l : list SourceInventory) : list ChunkGrant * Z :=
  match l with
  | [] => ([], 0)
  | r :: l' =>
      match turn chunk quantum open (cov r) remaining r with
      | None => spend chunk quantum open cov remaining l'
      | Some n =>
          if n =? 0
          then let '(gs, d) := spend chunk quantum open cov remaining l' in (gs, d + 1)
          else
            let g := turn_grant chunk (cov r) n r in
            let '(gs, d) := spend chunk quantum open cov (remaining - granted_bytes g) l' in
            (g :: gs, d)
      end
  end.

(** * The index loops implement the specification *)

Definition sources_at (eligible : list SourceInventory) (idxs : list nat) : list SourceInventory :=
  map (at_index eligible) idxs.

Lemma sources_at_seq eligible : sources_at eligible (seq 0 (length eligible)) = eligible.
Proof.
  unfold sources_at, at_index. induction eligible as [|r l IH]; [done|].
  cbn [length seq map nth]. f_equal. rewrite <- seq_shift, map_map. exact IH.
Qed.

Lemma filter_map_comm {A C} (f : A -> C) (p : C -> bool) l :
  map f (List.filter (fun x => p (f x)) l) = List.filter p (map f l).
Proof. induction l as [|x l IH]; simpl; [done|]. destruct (p (f x)); simpl; by rewrite IH. Qed.

Lemma freshness_order_records eligible :
  sources_at eligible (freshness_order eligible) = active_in_order eligible.
Proof.
  unfold sources_at, freshness_order, active_in_order.
  rewrite (sort_by_map (at_index eligible) source_leb).
  f_equal. etrans; [apply (filter_map_comm _ is_active)|].
  f_equal. apply sources_at_seq.
Qed.

Lemma backfill_order_records eligible :
  sources_at eligible (backfill_order eligible) = sort_by backlog_leb eligible.
Proof.
  unfold sources_at, backfill_order. rewrite (sort_by_map (at_index eligible) backlog_leb).
  f_equal. apply sources_at_seq.
Qed.

Lemma reserve_short el chunk cap idxs s : any_short s = true ->
  fold_left (reserve_step el chunk cap) idxs s
  = mkReservations (grants s) (covered s) (res_bytes s) (short s + zlen idxs) true.
Proof.
  revert s. induction idxs as [|i idxs IH]; intros s Hs; cbn [fold_left].
  - destruct s; simpl in *. subst. unfold zlen. simpl. f_equal. lia.
  - unfold reserve_step at 2. rewrite Hs, IH by done. cbn. f_equal. rewrite zlen_cons. lia.
Qed.

Lemma served_prefix chunk cap l : served chunk cap l = take (length (served chunk cap l)) l.
Proof.
  revert cap. induction l as [|r l IH]; intros cap; simpl; [done|].
  destruct (_ <=? cap); simpl; [|done]. f_equal. apply IH.
Qed.

Lemma reserve_fold el chunk cap idxs s : any_short s = false ->
  let sv := served chunk (cap - res_bytes s) (sources_at el idxs) in
  fold_left (reserve_step el chunk cap) idxs s
  = mkReservations (grants s ++ map (reservation chunk) sv)
      (fold_left (fun c i => <[i := 1]> c) (take (length sv) idxs) (covered s))
      (res_bytes s + zsum (map (reservation_bytes chunk) sv))
      (short s + (zlen idxs - zlen sv))
      (length sv <? length idxs)%nat.
Proof.
  revert s. induction idxs as [|i idxs IH]; intros s Hs; cbv zeta.
  - destruct s; simpl in *. subst. unfold zlen. simpl. rewrite app_nil_r. f_equal; lia.
  - cbn [fold_left sources_at map served]. unfold reserve_step at 2. rewrite Hs.
    fold (reservation_bytes chunk (at_index el i)).
    destruct (reservation_bytes chunk (at_index el i) <=? cap - res_bytes s) eqn:E.
    + rewrite IH by done. cbn [grants covered res_bytes short any_short length take fold_left map zsum].
      fold (sources_at el idxs).
      replace (cap - (res_bytes s + reservation_bytes chunk (at_index el i)))
        with (cap - res_bytes s - reservation_bytes chunk (at_index el i)) by lia.
      rewrite <- app_assoc, !zlen_cons. simpl. f_equal; lia.
    + rewrite reserve_short by done. simpl. rewrite app_nil_r, zlen_cons. unfold zlen. simpl.
      f_equal; lia.
Qed.

Definition distinct_ids (l : list SourceInventory) : Prop := NoDup (map id_bytes l).

Lemma nth_insert_ones js i c : (i < length c)%nat ->
  nth i (fold_left (fun c j => <[j := 1]> c) js c) 0 = if bool_decide (i ∈ js) then 1 else nth i c 0.
Proof.
  revert c. induction js as [|j js IH]; intros c Hi; cbn [fold_left].
  - by rewrite bool_decide_false by (by intros ?%elem_of_nil).
  - rewrite IH by (by rewrite length_insert). rewrite !nth_lookup.
    destruct (decide (i = j)) as [->|Hne].
    + rewrite list_lookup_insert_eq by done.
      rewrite (bool_decide_true (j ∈ j :: js)) by (by left). by case_bool_decide.
    + rewrite list_lookup_insert_ne by done.
      assert (E : i ∈ j :: js <-> i ∈ js) by (rewrite elem_of_cons; naive_solver).
      by rewrite (bool_decide_ext _ _ E).
Qed.

Lemma lookup_at_index el i : (i < length el)%nat -> el !! i = Some (at_index el i).
Proof. intros Hi. unfold at_index. rewrite nth_lookup. by destruct (lookup_lt_is_Some_2 el i Hi) as [x ->]. Qed.

Lemma at_index_inj el i j : distinct_ids el -> (i < length el)%nat -> (j < length el)%nat ->
  id_bytes (at_index el i) = id_bytes (at_index el j) -> i = j.
Proof.
  intros Hd Hi Hj E. apply (NoDup_lookup _ i j (id_bytes (at_index el i)) Hd);
    change (map id_bytes el) with (id_bytes <$> el); rewrite list_lookup_fmap.
  - by rewrite lookup_at_index.
  - by rewrite lookup_at_index, E.
Qed.

Lemma freshness_order_lt el i : i ∈ freshness_order el -> (i < length el)%nat.
Proof.
  unfold freshness_order. rewrite elem_of_sort_by. intros Hi.
  apply list_elem_of_In, filter_In in Hi as [Hi _]. apply in_seq in Hi. lia.
Qed.

Lemma backfill_order_lt el i : i ∈ backfill_order el -> (i < length el)%nat.
Proof.
  unfold backfill_order. rewrite elem_of_sort_by. intros Hi%list_elem_of_In. apply in_seq in Hi. lia.
Qed.

Lemma subseteq_take_elem {A} n (l : list A) x : x ∈ take n l -> x ∈ l.
Proof. intros H. rewrite <- (take_drop n l). apply elem_of_app. by left. Qed.

Lemma covered_records el chunk cap i : distinct_ids el -> (i < length el)%nat ->
  nth i (covered (reserve_freshness el chunk cap)) 0
  = covered_of (served chunk cap (active_in_order el)) (at_index el i).
Proof.
  intros Hd Hi. unfold reserve_freshness. rewrite reserve_fold by done. cbn [covered].
  rewrite freshness_order_records. simpl res_bytes. rewrite Z.sub_0_r.
  set (sv := served chunk cap (active_in_order el)).
  rewrite nth_insert_ones by (by rewrite length_replicate).
  replace (nth i (replicate (length el) 0) 0) with 0
    by (rewrite nth_lookup, lookup_replicate_2 by done; done).
  unfold covered_of.
  assert (E : i ∈ take (length sv) (freshness_order el) <-> id_bytes (at_index el i) ∈ map id_bytes sv).
  { assert (Hsv : sv = sources_at el (take (length sv) (freshness_order el))).
    { unfold sv at 1. rewrite served_prefix. fold sv.
      rewrite <- freshness_order_records. unfold sources_at. by rewrite firstn_map. }
    rewrite Hsv at 2. unfold sources_at. rewrite map_map. split.
    - intros Hin%list_elem_of_In. apply list_elem_of_In, in_map_iff. by exists i.
    - intros Hin%list_elem_of_In. apply in_map_iff in Hin as (j & Ej & Hj%list_elem_of_In).
      assert (j = i) as <-; [|done].
      apply (at_index_inj el); [done| |done|done].
      apply freshness_order_lt. eapply subseteq_take_elem; exact Hj. }
  by rewrite (bool_decide_ext _ _ E).
Qed.

Lemma backfill_step_turn el cl chunk quantum cap open s i cov :
  nth i cl 0 = cov ->
  let r := at_index el i in
  backfill_step el cl chunk quantum cap open s i
  = match turn chunk quantum open cov (cap - spent s) r with
    | None => s
    | Some n =>
        if n =? 0 then mkSpending (bf_grants s) (deferred s + 1) (spent s)
        else mkSpending (bf_grants s ++ [turn_grant chunk cov n r]) (deferred s)
               (spent s + granted_bytes (turn_grant chunk cov n r))
    end.
Proof.
  intros Hc r. unfold backfill_step, turn. rewrite Hc. fold r.
  destruct (residual_chunks r cov chunk =? 0); [done|]. by destruct open.
Qed.

Lemma backfill_fold el cl chunk quantum cap open cov idxs s :
  Forall (fun i => nth i cl 0 = cov (at_index el i)) idxs ->
  let '(gs, d) := spend chunk quantum open cov (cap - spent s) (sources_at el idxs) in
  fold_left (backfill_step el cl chunk quantum cap open) idxs s
  = mkSpending (bf_grants s ++ gs) (deferred s + d) (spent s + zsum (map granted_bytes gs)).
Proof.
  intros Hc. revert s. induction Hc as [|i idxs Hi _ IH]; intros s; cbn [sources_at map spend fold_left].
  { destruct s; simpl. rewrite app_nil_r. f_equal; lia. }
  rewrite (backfill_step_turn el cl chunk quantum cap open s i _ Hi).
  destruct (turn chunk quantum open (cov (at_index el i)) (cap - spent s) (at_index el i)) as [n|];
    [|apply IH].
  destruct (n =? 0).
  - specialize (IH (mkSpending (bf_grants s) (deferred s + 1) (spent s))). simpl in IH.
    unfold sources_at in *. destruct (spend _ _ _ _ _ _) as [gs d]. rewrite IH. f_equal. lia.
  - set (g := turn_grant _ _ _ _).
    specialize (IH (mkSpending (bf_grants s ++ [g]) (deferred s) (spent s + granted_bytes g))).
    cbn [bf_grants deferred spent] in IH. unfold sources_at in *.
    replace (cap - spent s - granted_bytes g) with (cap - (spent s + granted_bytes g)) by lia.
    destruct (spend _ _ _ _ _ _) as [gs d]. rewrite IH, <- app_assoc. cbn [map zsum app].
    f_equal. lia.
Qed.

(** The plan over sorted records. *)
Definition plan_spec (sources : list SourceInventory) (pending_spool : DrainLoad)
  (capacity : Z) (limits : SchedulerLimits) : CyclePlan :=
  let chunk := Z.max (chunk_bytes limits) 1 in
  let eligible := List.filter is_eligible sources in
  let active := active_in_order eligible in
  let sv := served chunk capacity active in
  let reserved := zsum (map (reservation_bytes chunk) sv) in
  let '(bf, d) :=
    spend chunk (backfill_quantum_bytes limits) (negb (length sv <? length active)%nat)
      (covered_of sv) (capacity - reserved) (sort_by backlog_leb eligible) in
  let bytes := zsum (map granted_bytes bf) in
  mkPlan pending_spool (map (reservation chunk) sv) bf
    (mkCycleTotals capacity (drain_entries pending_spool) (drain_bytes pending_spool)
       (zlen eligible) (zlen sv) reserved (zlen sv) (zlen bf) bytes (zsum (map chunk_count bf))
       (reserved + bytes) (zlen active - zlen sv) d).

Lemma zsum_reservation_chunks chunk sv :
  zsum (map chunk_count (map (reservation chunk) sv)) = zlen sv.
Proof. induction sv as [|r sv IH]; [done|]. cbn [map zsum]. rewrite IH, zlen_cons. done. Qed.

Lemma zlen_map {A C} (f : A -> C) l : zlen (map f l) = zlen l.
Proof. unfold zlen. by rewrite length_map. Qed.

Lemma reserve_records el chunk cap :
  let sv := served chunk cap (active_in_order el) in
  let fresh := reserve_freshness el chunk cap in
  grants fresh = map (reservation chunk) sv /\
  res_bytes fresh = zsum (map (reservation_bytes chunk) sv) /\
  short fresh = zlen (active_in_order el) - zlen sv /\
  any_short fresh = (length sv <? length (active_in_order el))%nat.
Proof.
  cbv zeta. unfold reserve_freshness. rewrite reserve_fold by done.
  cbn [grants res_bytes short any_short app]. rewrite freshness_order_records, Z.sub_0_r.
  assert (Hl : length (freshness_order el) = length (active_in_order el))
    by (rewrite <- freshness_order_records; unfold sources_at; by rewrite length_map).
  unfold zlen. rewrite Hl. split_and!; (done || lia).
Qed.

(** On distinct source ids the code's index loops compute the plan over
    sorted records. *)
Lemma plan_refines sources drain cap limits :
  distinct_ids (List.filter is_eligible sources) ->
  plan sources drain cap limits = plan_spec sources drain cap limits.
Proof.
  intros Hd. unfold plan, plan_spec, plan_backfill.
  set (chunk := Z.max (chunk_bytes limits) 1). set (el := List.filter is_eligible sources) in *.
  pose proof (reserve_records el chunk cap) as (Hg & Hr & Hs & Ha). cbv zeta in *.
  set (sv := served chunk cap (active_in_order el)) in *.
  pose proof (backfill_fold el (covered (reserve_freshness el chunk cap)) chunk
    (backfill_quantum_bytes limits) (cap - res_bytes (reserve_freshness el chunk cap))
    (negb (any_short (reserve_freshness el chunk cap))) (covered_of sv) (backfill_order el)
    (mkSpending [] 0 0)) as Hb.
  cbn [spent bf_grants deferred app] in Hb. rewrite Z.sub_0_r, backfill_order_records in Hb.
  rewrite Hr, Ha in *.
  destruct (spend _ _ _ _ _ _) as [bf d].
  rewrite Hb; [|apply Forall_forall; intros i Hi; apply covered_records;
                [done|by apply backfill_order_lt]].
  cbn [bf_grants deferred]. rewrite Hg, Hs, zsum_reservation_chunks, zlen_map. done.
Qed.

(** * Bounds *)

Definition wf_record (r : SourceInventory) : Prop :=
  is_u64 (outstanding_bytes r) /\ is_u64 (outstanding_events r).

Section Bounds.
Context (chunk quantum : Z) (Hchunk : 1 <= chunk) (Hquantum : 0 <= quantum).

Lemma reservation_bytes_nonneg r : wf_record r -> 0 <= reservation_bytes chunk r.
Proof using Hchunk. intros [[? ?] _]. unfold reservation_bytes. lia. Qed.

Lemma served_bytes cap l : 0 <= cap -> Forall wf_record l ->
  0 <= zsum (map (reservation_bytes chunk) (served chunk cap l)) <= cap.
Proof using Hchunk.
  intros Hc Hl. revert cap Hc. induction Hl as [|r l Hr _ IH]; intros cap Hc; simpl; [lia|].
  pose proof (reservation_bytes_nonneg r Hr). destruct (_ <=? cap) eqn:E; simpl; [|lia].
  specialize (IH (cap - reservation_bytes chunk r)). lia.
Qed.

Lemma served_all cap l : (length l <= length (served chunk cap l))%nat -> served chunk cap l = l.
Proof.
  intros H. rewrite served_prefix. apply take_ge. exact H.
Qed.

Lemma served_length cap l : (length (served chunk cap l) <= length l)%nat.
Proof. rewrite served_prefix, length_take. lia. Qed.

Lemma residual_bytes_bounds r cov : wf_record r ->
  0 <= residual_bytes r cov chunk <= outstanding_bytes r.
Proof using Hchunk. intros [[? ?] _]. unfold residual_bytes. destruct (0 <? cov); lia. Qed.

(** What one turn can grant. *)
Lemma turn_bounds open cov remaining r n : wf_record r ->
  turn chunk quantum open cov remaining r = Some n ->
  0 <= n <= quantum / chunk /\ n <= residual_chunks r cov chunk /\
  residual_chunks r cov chunk <> 0 /\
  (n * chunk <= Z.max 0 remaining \/ residual_bytes r cov chunk = 0) /\
  (open = false -> n = 0) /\
  (open = true -> 0 < quantum / chunk -> n = 0 -> remaining < chunk).
Proof using Hchunk Hquantum.
  intros Hr. unfold turn. set (rc := residual_chunks r cov chunk).
  assert (Hrc : 0 <= rc) by (unfold rc, residual_chunks, sat_sub; lia).
  assert (Hb : 0 <= quantum / chunk) by (apply Z.div_pos; lia).
  set (a := Z.max 0 remaining / chunk).
  assert (Ha : 0 <= a) by (apply Z.div_pos; lia).
  assert (Hac : a * chunk <= Z.max 0 remaining) by (unfold a; rewrite Z.mul_comm; apply Z.mul_div_le; lia).
  destruct (rc =? 0) eqn:E; [done|]. destruct open; simpl.
  - set (m := Z.min (Z.min rc (quantum / chunk)) a).
    assert (Hm : m * chunk <= Z.max 0 remaining) by (unfold m; nia).
    destruct ((m =? 0) && _ && _) eqn:E2; intros [= <-].
    + split_and!; try lia.
    + split_and!; try lia. intros _ Hq Hz. assert (a = 0) as Ha0 by lia.
      unfold a in Ha0. apply Z.div_small_iff in Ha0; lia.
  - intros [= <-]. split_and!; try lia.
Qed.

Lemma turn_grant_bounds open cov remaining r n : wf_record r ->
  turn chunk quantum open cov remaining r = Some n ->
  let g := turn_grant chunk cov n r in
  0 <= granted_bytes g <= Z.max 0 remaining /\ granted_bytes g <= residual_bytes r cov chunk /\
  granted_bytes g <= quantum /\ grant_source g = source r /\ 0 <= chunk_count g <= quantum / chunk.
Proof using Hchunk Hquantum.
  intros Hr Ht. destruct (turn_bounds _ _ _ _ _ Hr Ht) as (Hn & _ & _ & Hcap & _).
  pose proof (residual_bytes_bounds r cov Hr) as Hres.
  assert (Hq : n * chunk <= quantum).
  { etrans; [apply Z.mul_le_mono_nonneg_r; [lia|apply Hn]|]. rewrite Z.mul_comm. apply Z.mul_div_le. lia. }
  assert (0 <= n * chunk) by nia. unfold turn_grant, sat_mul64, U64_MAX. simpl. split_and!; (done || lia).
Qed.

(** The backfill pass spends at most what it was given, grants each source
    from its own residual backlog and at most a quantum, and accounts for
    every source with residual backlog. *)
Lemma spend_bounds open cov remaining l : 0 <= remaining -> Forall wf_record l ->
  let '(gs, d) := spend chunk quantum open cov remaining l in
  0 <= zsum (map granted_bytes gs) <= remaining /\
  0 <= d /\
  zlen gs + d = count (fun r => negb (residual_chunks r (cov r) chunk =? 0)) l /\
  Forall (fun g => exists r, r ∈ l /\ grant_source g = source r /\
    0 <= granted_bytes g <= residual_bytes r (cov r) chunk /\ granted_bytes g <= quantum /\
    0 < chunk_count g <= quantum / chunk) gs /\
  (open = false -> gs = []) /\
  (open = true -> 0 < quantum / chunk -> 0 < d -> remaining - zsum (map granted_bytes gs) < chunk).
Proof using Hchunk Hquantum.
  intros Hrem Hl. revert remaining Hrem.
  induction Hl as [|r l Hr _ IH]; intros remaining Hrem; cbn [spend].
  { simpl. unfold count, zlen. simpl. split_and!; (done || lia || constructor). }
  assert (Hin : forall (P : SourceInventory -> Prop) , (exists r', r' ∈ l /\ P r') ->
    exists r', r' ∈ r :: l /\ P r') by (intros P (r' & ? & ?); exists r'; split; [by right|done]).
  rewrite count_cons.
  destruct (turn chunk quantum open (cov r) remaining r) as [n|] eqn:Ht.
  - destruct (turn_bounds _ _ _ _ _ Hr Ht) as (Hn & Hnr & Hrc & Hcap & Hclosed & Hopen).
    rewrite (proj2 (Z.eqb_neq _ _) Hrc). cbn [negb].
    destruct (n =? 0) eqn:En.
    + specialize (IH remaining Hrem). destruct (spend _ _ _ _ _ _) as [gs d].
      destruct IH as (H1 & H2 & H3 & H4 & H5 & H6). split_and!; try lia; try done.
      * eapply Forall_impl; [exact H4|]. cbv beta. intros g Hg. by apply Hin.
      * intros Ho Hq _. specialize (Hopen Ho Hq). lia.
    + destruct (turn_grant_bounds _ _ _ _ _ Hr Ht) as (Hg1 & Hg2 & Hg3 & Hg4 & Hg5).
      cbv zeta in *. set (g := turn_grant chunk (cov r) n r) in *.
      specialize (IH (remaining - granted_bytes g) ltac:(lia)).
      destruct (spend _ _ _ _ _ _) as [gs d].
      destruct IH as (H1 & H2 & H3 & H4 & H5 & H6). cbn [map zsum]. rewrite zlen_cons.
      split_and!; try lia.
      * constructor; [|eapply Forall_impl; [exact H4|]; cbv beta; intros g' Hg'; by apply Hin].
        exists r. split_and!; try done; try lia; [by left|]. unfold g. simpl. lia.
      * intros Ho. specialize (Hclosed Ho). lia.
      * intros Ho Hq Hd. specialize (H6 Ho Hq Hd). lia.
  - assert (Hz : residual_chunks r (cov r) chunk =? 0 = true).
    { unfold turn in Ht. destruct (residual_chunks r (cov r) chunk =? 0); [done|].
      by destruct open. }
    rewrite Hz. specialize (IH remaining Hrem). destruct (spend _ _ _ _ _ _) as [gs d].
    destruct IH as (H1 & H2 & H3 & H4 & H5 & H6). cbn [negb]. split_and!; try lia; try done.
    eapply Forall_impl; [exact H4|]. cbv beta. intros g Hg. by apply Hin.
Qed.
End Bounds.

(** * Per-source totals *)

Definition bytes_for (s : list Z) (gs : list ChunkGrant) : Z :=
  zsum (map granted_bytes (List.filter (fun g => bool_decide (grant_source g = s)) gs)).

Lemma bytes_for_cons s g gs :
  bytes_for s (g :: gs) = (if bool_decide (grant_source g = s) then granted_bytes g else 0)
                          + bytes_for s gs.
Proof. unfold bytes_for. simpl. by case_bool_decide. Qed.

Lemma bytes_for_app s gs gs' : bytes_for s (gs ++ gs') = bytes_for s gs + bytes_for s gs'.
Proof. unfold bytes_for. by rewrite List.filter_app, map_app, zsum_app. Qed.

Lemma bytes_for_absent s gs : Forall (fun g => grant_source g <> s) gs -> bytes_for s gs = 0.
Proof.
  induction 1 as [|g gs Hg _ IH]; [done|]. by rewrite bytes_for_cons, bool_decide_false, IH.
Qed.

Lemma distinct_ids_cons r l : distinct_ids (r :: l) ->
  distinct_ids l /\ forall r', r' ∈ l -> source r' <> source r.
Proof.
  unfold distinct_ids. cbn [map]. intros [Hr Hl]%NoDup_cons. split; [done|].
  intros r' Hr' E. apply Hr. unfold id_bytes. rewrite <- E.
  apply list_elem_of_In, in_map_iff. exists r'. by rewrite <- list_elem_of_In.
Qed.

Lemma distinct_ids_filter p l : distinct_ids l -> distinct_ids (List.filter p l).
Proof.
  induction l as [|r l IH]; [done|]. intros Hd. simpl.
  destruct (distinct_ids_cons r l Hd) as [Hl _]. specialize (IH Hl).
  destruct (p r); [|done]. unfold distinct_ids in *. cbn [map] in *.
  apply NoDup_cons in Hd as [Hr _]. apply NoDup_cons. split; [|done].
  intros Hin%list_elem_of_In. apply Hr, list_elem_of_In.
  apply in_map_iff in Hin as (r' & E & Hr'). apply in_map_iff. exists r'.
  split; [done|]. by apply filter_In in Hr' as [? _].
Qed.

Lemma distinct_ids_perm l l' : Permutation l l' -> distinct_ids l -> distinct_ids l'.
Proof. unfold distinct_ids. intros Hp. by rewrite Hp. Qed.

Lemma reserved_for_member chunk sv r : distinct_ids sv -> r ∈ sv ->
  bytes_for (source r) (map (reservation chunk) sv) = reservation_bytes chunk r.
Proof.
  induction sv as [|x sv IH]; intros Hd Hr; [by apply elem_of_nil in Hr|].
  destruct (distinct_ids_cons x sv Hd) as [Hd' Hx]. cbn [map]. rewrite bytes_for_cons. simpl.
  apply elem_of_cons in Hr as [->|Hr].
  - rewrite bool_decide_true by done. rewrite bytes_for_absent; [lia|].
    apply Forall_map, Forall_forall. intros y Hy. simpl. by apply Hx.
  - rewrite bool_decide_false by (intros E; by apply (Hx r Hr)). rewrite IH by done. lia.
Qed.

Lemma reserved_for_stranger chunk sv r : (forall x, x ∈ sv -> source x <> source r) ->
  bytes_for (source r) (map (reservation chunk) sv) = 0.
Proof. intros H. apply bytes_for_absent, Forall_map, Forall_forall. intros y Hy. simpl. auto. Qed.

Lemma spend_for chunk quantum open cov remaining l r :
  1 <= chunk -> 0 <= quantum -> 0 <= remaining -> Forall wf_record l -> distinct_ids l -> r ∈ l ->
  bytes_for (source r) (spend chunk quantum open cov remaining l).1
  <= residual_bytes r (cov r) chunk.
Proof.
  intros Hc Hq Hrem Hl. revert remaining Hrem.
  induction Hl as [|x l Hx Hl IH]; intros remaining Hrem Hd Hr; [by apply elem_of_nil in Hr|].
  destruct (distinct_ids_cons x l Hd) as [Hd' Hne]. cbn [spend].
  assert (Hlater : forall rem', 0 <= rem' ->
    bytes_for (source x) (spend chunk quantum open cov rem' l).1 = 0).
  { intros rem' Hrem'. apply bytes_for_absent.
    pose proof (spend_bounds chunk quantum Hc Hq open cov rem' l Hrem' Hl) as Hs.
    destruct (spend chunk quantum open cov rem' l) as [gs d]. destruct Hs as (_ & _ & _ & Hs & _).
    eapply Forall_impl; [exact Hs|]. cbv beta. intros g (y & Hy & -> & _). by apply Hne. }
  assert (Hres : 0 <= residual_bytes x (cov x) chunk) by (by apply residual_bytes_bounds).
  destruct (turn chunk quantum open (cov x) remaining x) as [n|] eqn:Ht.
  - destruct (turn_grant_bounds chunk quantum Hc Hq _ _ _ _ _ Hx Ht) as (Hg1 & Hg2 & _).
    cbv zeta in *.
    destruct (n =? 0).
    + specialize (IH remaining Hrem Hd'). specialize (Hlater remaining Hrem).
      destruct (spend chunk quantum open cov remaining l) as [gs d]. simpl in *.
      apply elem_of_cons in Hr as [->|Hr]; [lia|by apply IH].
    + set (g := turn_grant chunk (cov x) n x) in *.
      assert (Hrem' : 0 <= remaining - granted_bytes g) by lia.
      specialize (IH _ Hrem' Hd'). specialize (Hlater _ Hrem').
      destruct (spend chunk quantum open cov (remaining - granted_bytes g) l) as [gs d].
      simpl in *. rewrite bytes_for_cons. simpl.
      apply elem_of_cons in Hr as [->|Hr].
      * rewrite bool_decide_true by done. lia.
      * rewrite bool_decide_false by (intros E; by apply (Hne r Hr)). specialize (IH Hr). lia.
  - apply elem_of_cons in Hr as [->|Hr]; [rewrite Hlater by done; lia|by apply IH].
Qed.

Lemma distinct_ids_served chunk cap el : distinct_ids el ->
  distinct_ids (served chunk cap (active_in_order el)).
Proof.
  intros Hd. rewrite served_prefix. unfold distinct_ids. rewrite <- firstn_map.
  apply (sublist_NoDup _ (map id_bytes (active_in_order el))); [|apply sublist_take].
  apply (distinct_ids_perm (List.filter is_active el)); [|by apply distinct_ids_filter].
  symmetry. apply sort_by_perm.
Qed.

Lemma served_eligible chunk cap el x : x ∈ served chunk cap (active_in_order el) -> x ∈ el.
Proof.
  rewrite served_prefix. intros Hx%subseteq_take_elem. unfold active_in_order in Hx.
  rewrite elem_of_sort_by in Hx. apply list_elem_of_In, filter_In in Hx as [Hx _].
  by apply list_elem_of_In.
Qed.

(** * Order independence *)

Lemma distinct_inj l x y : distinct_ids l -> x ∈ l -> y ∈ l -> id_bytes x = id_bytes y -> x = y.
Proof.
  intros Hd [i Hi]%list_elem_of_lookup [j Hj]%list_elem_of_lookup E.
  assert (i = j) as ->; [|congruence].
  apply (NoDup_lookup _ i j (id_bytes x) Hd);
    change (map id_bytes l) with (id_bytes <$> l); rewrite list_lookup_fmap.
  - by rewrite Hi.
  - by rewrite Hj, E.
Qed.

Lemma source_leb_total a b : source_leb a b = true \/ source_leb b a = true.
Proof. apply lex_leb_total. Qed.

Lemma source_leb_trans a b c : source_leb a b = true -> source_leb b c = true -> source_leb a c = true.
Proof. apply lex_leb_trans. Qed.

Lemma backlog_leb_total a b : backlog_leb a b = true \/ backlog_leb b a = true.
Proof.
  unfold backlog_leb. rewrite (Z.compare_antisym (outstanding_bytes b)).
  destruct (outstanding_bytes b ?= outstanding_bytes a); simpl; auto.
  rewrite (Z.compare_antisym (outstanding_events b)).
  destruct (outstanding_events b ?= outstanding_events a); simpl; auto using source_leb_total.
Qed.

Lemma backlog_leb_spec a b : backlog_leb a b = true <->
  outstanding_bytes b < outstanding_bytes a \/
  outstanding_bytes b = outstanding_bytes a /\
  (outstanding_events b < outstanding_events a \/
   outstanding_events b = outstanding_events a /\ source_leb a b = true).
Proof.
  unfold backlog_leb. destruct (Z.compare_spec (outstanding_bytes b) (outstanding_bytes a)); [|naive_solver lia..].
  destruct (Z.compare_spec (outstanding_events b) (outstanding_events a)); naive_solver lia.
Qed.

Lemma backlog_leb_trans a b c :
  backlog_leb a b = true -> backlog_leb b c = true -> backlog_leb a c = true.
Proof.
  rewrite !backlog_leb_spec. pose proof (source_leb_trans a b c).
  intros [?|[? [?|[? ?]]]] [?|[? [?|[? ?]]]]; first [left; lia | right; split; [lia|]];
    first [left; lia | right; split; [lia|auto]].
Qed.

Lemma filter_perm {A} (p : A -> bool) l l' :
  Permutation l l' -> Permutation (List.filter p l) (List.filter p l').
Proof.
  induction 1 as [|x l l' _ IH|x y l|l l' l'' _ IH1 _ IH2]; simpl; [done| | |by etrans].
  - destruct (p x); [by constructor|done].
  - destruct (p x), (p y); try done. apply perm_swap.
Qed.

Lemma plan_spec_perm sources sources' drain cap limits :
  distinct_ids sources -> Permutation sources sources' ->
  plan_spec sources drain cap limits = plan_spec sources' drain cap limits.
Proof.
  intros Hd Hp. unfold plan_spec.
  pose proof (filter_perm is_eligible _ _ Hp) as Hpe.
  pose proof (distinct_ids_filter is_eligible _ Hd) as Hde.
  set (el := List.filter is_eligible sources) in *.
  set (el' := List.filter is_eligible sources') in *.
  assert (Ha : active_in_order el = active_in_order el').
  { apply sort_by_unique; [apply source_leb_total|apply source_leb_trans| |by apply filter_perm].
    intros x y Hx Hy Hxy Hyx. apply (distinct_inj (List.filter is_active el)); try done.
    - by apply distinct_ids_filter.
    - by apply lex_leb_antisym. }
  assert (Hb : sort_by backlog_leb el = sort_by backlog_leb el').
  { apply sort_by_unique; [apply backlog_leb_total|apply backlog_leb_trans| |done].
    intros x y Hx Hy Hxy Hyx. apply (distinct_inj el); try done.
    rewrite backlog_leb_spec in Hxy, Hyx. apply lex_leb_antisym.
    - destruct Hxy as [?|[? [?|[? ?]]]]; [lia..|done].
    - destruct Hyx as [?|[? [?|[? ?]]]]; [lia..|done]. }
  unfold zlen. by rewrite Ha, Hb, (Permutation_length Hpe).
Qed.

(** A reserved record's two grants together stay within its backlog. *)
Lemma reserved_and_residual chunk cap el r : distinct_ids el -> r ∈ el ->
  let sv := served chunk cap (active_in_order el) in
  bytes_for (source r) (map (reservation chunk) sv) + residual_bytes r (covered_of sv r) chunk
  = outstanding_bytes r.
Proof.
  intros Hd Hr sv. unfold covered_of, residual_bytes. case_bool_decide as Hin.
  - apply list_elem_of_In, in_map_iff in Hin as (x & Ex & Hx%list_elem_of_In).
    assert (x = r) as ->.
    { apply (distinct_inj el); [done|by apply served_eligible in Hx|done|done]. }
    rewrite reserved_for_member; [|by apply distinct_ids_served|done].
    unfold reservation_bytes. simpl. lia.
  - rewrite reserved_for_stranger; [simpl; lia|]. intros x Hx E. apply Hin.
    apply list_elem_of_In, in_map_iff. exists x. unfold id_bytes. rewrite E.
    split; [done|by apply list_elem_of_In].
Qed.

(** * Properties *)

(** One round's inputs: distinct sources and 64-bit figures. *)
Definition valid_round (sources : list SourceInventory) (cap : Z) (limits : SchedulerLimits) : Prop :=
  distinct_ids sources /\ Forall wf_record sources /\ is_u64 cap /\
  is_u64 (chunk_bytes limits) /\ is_u64 (backfill_quantum_bytes limits).

Lemma wf_filter (p : SourceInventory -> bool) l : Forall wf_record l -> Forall wf_record (List.filter p l).
Proof.
  rewrite !Forall_forall. intros H x Hx. apply list_elem_of_In, filter_In in Hx as [Hx _].
  by apply H, list_elem_of_In.
Qed.

(** The bounds of the backfill pass and of the reservations, for a plan. *)
Lemma plan_bounds sources cap limits : valid_round sources cap limits ->
  let chunk := Z.max (chunk_bytes limits) 1 in
  let quantum := backfill_quantum_bytes limits in
  let el := List.filter is_eligible sources in
  let active := active_in_order el in
  let sv := served chunk cap active in
  let reserved := zsum (map (reservation_bytes chunk) sv) in
  let open := negb (length sv <? length active)%nat in
  1 <= chunk /\ 0 <= quantum /\ 0 <= reserved <= cap /\ Forall wf_record el /\ distinct_ids el /\
  Forall wf_record (sort_by backlog_leb el) /\
  let '(gs, d) := spend chunk quantum open (covered_of sv) (cap - reserved)
                    (sort_by backlog_leb el) in
  0 <= zsum (map granted_bytes gs) <= cap - reserved /\ 0 <= d /\
  zlen gs + d
  = count (fun r => negb (residual_chunks r (covered_of sv r) chunk =? 0)) (sort_by backlog_leb el) /\
  Forall (fun g => exists r, r ∈ sort_by backlog_leb el /\ grant_source g = source r /\
    0 <= granted_bytes g <= residual_bytes r (covered_of sv r) chunk /\
    granted_bytes g <= quantum /\ 0 < chunk_count g <= quantum / chunk) gs /\
  (open = false -> gs = []) /\
  (open = true -> 0 < quantum / chunk -> 0 < d ->
   cap - reserved - zsum (map granted_bytes gs) < chunk).
Proof.
  intros (Hd & Hwf & [Hc _] & [Hk _] & [Hq _]) chunk quantum el active sv reserved open.
  assert (Hchunk : 1 <= chunk) by (unfold chunk; lia).
  assert (Hwe : Forall wf_record el) by (by apply wf_filter).
  assert (Hwa : Forall wf_record active)
    by (unfold active, active_in_order; rewrite sort_by_perm; by apply wf_filter).
  assert (Hwb : Forall wf_record (sort_by backlog_leb el)) by (by rewrite sort_by_perm).
  pose proof (served_bytes chunk Hchunk cap active Hc Hwa) as Hres.
  split_and!; try done; try apply Hres; [by apply distinct_ids_filter|].
  apply spend_bounds; [done|done|unfold reserved, sv; lia|done].
Qed.


(** Planning is deterministic: the order the inventory lists its sources
    in never changes the plan. *)
Theorem plan_order_independent sources sources' drain cap limits :
  distinct_ids sources -> Permutation sources sources' ->
  plan sources drain cap limits = plan sources' drain cap limits.
Proof.
  intros Hd Hp. rewrite !plan_refines;
    [by apply plan_spec_perm|apply distinct_ids_filter..]; [|done].
  by eapply distinct_ids_perm.
Qed.

(** A round never overcommits: the planned bytes are the reservations
    plus the backfill grants and stay within the capacity; every backfill
    grant is within the per-source quantum; and the pending spool is drained
    in full whatever the capacity. *)
Theorem plan_within_capacity sources drain_load cap limits :
  valid_round sources cap limits ->
  let p := plan sources drain_load cap limits in
  planned_bytes (cycle_totals p)
    = zsum (map granted_bytes (reservations p)) + zsum (map granted_bytes (backfill p)) /\
  0 <= planned_bytes (cycle_totals p) <= cap /\
  Forall (fun g => granted_bytes g <= backfill_quantum_bytes limits) (backfill p) /\
  drain p = drain_load.
Proof.
  intros Hv. pose proof (plan_bounds sources cap limits Hv) as Hb. cbv zeta in Hb.
  destruct Hb as (Hc & Hq & Hr & _ & _ & _ & Hs). cbv zeta. rewrite plan_refines
    by (apply distinct_ids_filter, Hv).
  unfold plan_spec. destruct (spend _ _ _ _ _ _) as [gs d].
  destruct Hs as (H1 & _ & _ & H4 & _). cbn [planned_bytes cycle_totals reservations backfill drain].
  rewrite map_map. split_and!; try done; try lia.
  eapply Forall_impl; [exact H4|]. cbv beta. naive_solver.
Qed.

(** Freshness first: active sources are reserved one chunk each in id
    order; every eligible active source is either reserved or counted short;
    and when any is short nothing is spent on backfill. *)
Theorem plan_freshness_first sources drain_load cap limits :
  valid_round sources cap limits ->
  let p := plan sources drain_load cap limits in
  let active := active_in_order (List.filter is_eligible sources) in
  (exists late, map grant_source (reservations p) ++ late = map source active) /\
  Forall (fun g => chunk_count g = 1) (reservations p) /\
  zlen (reservations p) + short_reservations (cycle_totals p) = zlen active /\
  (short_reservations (cycle_totals p) <> 0 -> backfill p = []) /\
  (short_reservations (cycle_totals p) = 0 ->
   reservations p = map (reservation (Z.max (chunk_bytes limits) 1)) active).
Proof.
  intros Hv. pose proof (plan_bounds sources cap limits Hv) as Hb. cbv zeta in Hb.
  destruct Hb as (Hc & _ & _ & _ & _ & _ & Hs). cbv zeta. rewrite plan_refines
    by (apply distinct_ids_filter, Hv).
  unfold plan_spec. destruct (spend _ _ _ _ _ _) as [gs d].
  destruct Hs as (_ & _ & _ & _ & Hclosed & _).
  cbn [cycle_totals reservations backfill short_reservations].
  set (chunk := Z.max (chunk_bytes limits) 1) in *.
  set (active := active_in_order (List.filter is_eligible sources)) in *.
  pose proof (served_length chunk cap active) as Hle.
  rewrite map_map, zlen_map. unfold zlen in *. split_and!.
  - exists (map source (drop (length (served chunk cap active)) active)).
    rewrite served_prefix at 1. rewrite <- map_app. simpl. by rewrite take_drop.
  - apply Forall_map, Forall_true. done.
  - lia.
  - intros Hne. apply Hclosed. apply negb_false_iff, Nat.ltb_lt. lia.
  - intros Hz. f_equal. apply served_all. lia.
Qed.

(** No source is granted more than its measured backlog: the bytes of a
    source's reservation and backfill grant together are at most its
    outstanding bytes, so no range is planned twice. *)
Theorem plan_never_overgrants sources drain_load cap limits r :
  valid_round sources cap limits -> r ∈ List.filter is_eligible sources ->
  let p := plan sources drain_load cap limits in
  bytes_for (source r) (reservations p ++ backfill p) <= outstanding_bytes r.
Proof.
  intros Hv Hr. pose proof (plan_bounds sources cap limits Hv) as Hb. cbv zeta in Hb.
  destruct Hb as (Hc & Hq & Hres & Hwf & Hd & Hwb & Hs). cbv zeta. rewrite plan_refines
    by (apply distinct_ids_filter, Hv).
  unfold plan_spec.
  set (chunk := Z.max (chunk_bytes limits) 1) in *. set (el := List.filter is_eligible sources) in *.
  pose proof (reserved_and_residual chunk cap el r Hd Hr) as Ht. cbv zeta in Ht.
  set (sv := served chunk cap (active_in_order el)) in *.
  pose proof (spend_for chunk (backfill_quantum_bytes limits)
    (negb (length sv <? length (active_in_order el))%nat) (covered_of sv)
    (cap - zsum (map (reservation_bytes chunk) sv)) (sort_by backlog_leb el) r Hc Hq ltac:(lia) Hwb) as Hf.
  destruct (spend _ _ _ _ _ _) as [gs d] eqn:Hsp. cbn [reservations backfill fst] in *.
  rewrite bytes_for_app.
  assert (bytes_for (source r) gs <= residual_bytes r (covered_of sv r) chunk); [|lia].
  apply Hf; [|by rewrite elem_of_sort_by].
  apply (distinct_ids_perm el); [|done]. symmetry. apply sort_by_perm.
Qed.

(** Backfill is work-conserving and complete in its accounting: every
    eligible source with backlog beyond its reservation is either granted or
    counted deferred, and while the quantum admits a chunk a source is
    deferred only when less than one chunk of capacity is left unplanned. *)
Theorem plan_work_conserving sources drain_load cap limits :
  valid_round sources cap limits ->
  let p := plan sources drain_load cap limits in
  let chunk := Z.max (chunk_bytes limits) 1 in
  let el := List.filter is_eligible sources in
  let sv := served chunk cap (active_in_order el) in
  zlen (backfill p) + deferred_sources (cycle_totals p)
    = count (fun r => negb (residual_chunks r (covered_of sv r) chunk =? 0)) (sort_by backlog_leb el) /\
  (short_reservations (cycle_totals p) = 0 -> chunk <= backfill_quantum_bytes limits ->
   0 < deferred_sources (cycle_totals p) -> cap - planned_bytes (cycle_totals p) < chunk).
Proof.
  intros Hv. pose proof (plan_bounds sources cap limits Hv) as Hb. cbv zeta in Hb.
  destruct Hb as (Hc & _ & _ & _ & _ & _ & Hs). cbv zeta. rewrite plan_refines
    by (apply distinct_ids_filter, Hv).
  unfold plan_spec. destruct (spend _ _ _ _ _ _) as [gs d].
  destruct Hs as (_ & _ & Hcount & _ & _ & Hopen).
  cbn [cycle_totals backfill short_reservations deferred_sources planned_bytes].
  split; [done|]. intros Hz Hq Hd.
  set (chunk := Z.max (chunk_bytes limits) 1) in *.
  enough (Hlt : cap - zsum (map (reservation_bytes chunk)
      (served chunk cap (active_in_order (List.filter is_eligible sources))))
      - zsum (map granted_bytes gs) < chunk) by lia.
  apply Hopen; [|apply Z.div_str_pos; lia|done].
  apply negb_true_iff, Nat.ltb_ge. unfold zlen in Hz. lia.
Qed.

(** A measured source, for the witnesses. *)
Definition sample (id : string) (l : FreshnessLane) (bytes : Z) : SourceInventory :=
  mkSource (lit id) [] [] l Partial ScanOk bytes 0 0 0 bytes 0 0 0 (mkCursor 0 0 bytes 0)
    Hold None true.

Definition sample_sources : list SourceInventory :=
  [sample "a" Backfill 40; sample "b" Freshness 25; sample "c" Backfill 7].
Definition sample_limits : SchedulerLimits := mkLimits 16 32.

Lemma sample_valid : valid_round sample_sources 100 sample_limits.
Proof.
  assert (Hu : forall n, 0 <= n <= 1000 -> is_u64 n) by (unfold is_u64, U64_MAX; lia).
  split; [unfold distinct_ids; apply (bool_decide_unpack _); vm_compute; done|].
  split; [|split_and!; apply Hu; simpl; lia].
  repeat (apply Forall_cons; split); try apply Forall_nil_2; split; apply Hu; simpl; lia.
Qed.


Lemma plan_order_independent_witness :
  plan sample_sources (mkDrain 1 5) 100 sample_limits
  = plan (rev sample_sources) (mkDrain 1 5) 100 sample_limits.
Proof. apply plan_order_independent; [apply sample_valid|apply Permutation_rev]. Defined.

Lemma plan_within_capacity_witness :
  0 <= planned_bytes (cycle_totals (plan sample_sources (mkDrain 1 5) 100 sample_limits)) <= 100.
Proof. apply (plan_within_capacity sample_sources (mkDrain 1 5) 100 sample_limits sample_valid). Defined.

Lemma plan_freshness_first_witness :
  zlen (reservations (plan sample_sources (mkDrain 1 5) 100 sample_limits))
  + short_reservations (cycle_totals (plan sample_sources (mkDrain 1 5) 100 sample_limits)) = 1.
Proof. apply (plan_freshness_first sample_sources (mkDrain 1 5) 100 sample_limits sample_valid). Defined.

Lemma plan_never_overgrants_witness :
  bytes_for (lit "b") (reservations (plan sample_sources (mkDrain 1 5) 100 sample_limits)
                       ++ backfill (plan sample_sources (mkDrain 1 5) 100 sample_limits)) <= 25.
Proof.
  apply (plan_never_overgrants sample_sources (mkDrain 1 5) 100 sample_limits
           (sample "b" Freshness 25) sample_valid).
  apply list_elem_of_In. right. by left.
Defined.

Lemma plan_work_conserving_witness :
  zlen (backfill (plan sample_sources (mkDrain 1 5) 100 sample_limits))
  + deferred_sources (cycle_totals (plan sample_sources (mkDrain 1 5) 100 sample_limits)) = 3.
Proof.
  destruct (plan_work_conserving sample_sources (mkDrain 1 5) 100 sample_limits sample_valid) as [H _].
  rewrite H. reflexivity.
Defined.

(** The starvation bound of the module documentation does not hold for a
    capacity below one chunk.  A single backfill source of 5 bytes with 10
    bytes of capacity left (no backlog ahead, so the bound gives the first
    round) is deferred with nothing planned, so the next round with the same
    capacity starts from the same backlog. *)
Theorem backfill_starves_below_a_chunk :
  let p := plan [sample "s" Backfill 5] (mkDrain 0 0) 10 (mkLimits 16 256) in
  backfill p = [] /\ deferred_sources (cycle_totals p) = 1 /\ planned_bytes (cycle_totals p) = 0.
Proof. vm_compute. done. Qed.
