(* ===== verification/Pressure.v ===== *)
(** The spool high-water gate
    ([crates/archivist-client-core/src/spool/pressure.rs]): limits, the pause
    latch, its evaluation and the status document.  The live-usage sum and
    the filesystem probe are the measurements an evaluation takes. *)

From S2P Require Import Prelude Text Json Inventory.

Record PressureLimits := mkPressureLimits {
  spool_cap_bytes : Z; free_floor_bytes : Z; resume_percent : Z }.

Definition resume_threshold_bytes (l : PressureLimits) : Z :=
  sat_mul64 (spool_cap_bytes l) (resume_percent l) / 100.

Record PressureReasons := mkReasons { spool_cap : bool; free_floor : bool; draining : bool }.

Definition no_reasons : PressureReasons := mkReasons false false false.

Definition reasons_degraded (r : PressureReasons) : bool := spool_cap r || free_floor r || draining r.

Definition reason_tokens (r : PressureReasons) : list (list Z) :=
  (if spool_cap r then [lit "spool_cap"] else [])
  ++ (if free_floor r then [lit "free_floor"] else [])
  ++ (if draining r then [lit "draining"] else []).

Record PressureStatus := mkPressureStatus {
  st_paused : bool;
  st_reasons : PressureReasons;
  st_spool_bytes : Z;
  st_free_bytes : Z;
  st_limits : PressureLimits;
}.

Definition admits_materialization (s : PressureStatus) : bool := negb (st_paused s).
Definition is_degraded (s : PressureStatus) : bool := reasons_degraded (st_reasons s).

(** [PressureStatus::to_json]. *)
Definition pressure_to_json (s : PressureStatus) : Value :=
  let object := [] in
  let object := object_set object (lit "admits_materialization") (VBool (admits_materialization s)) in
  let object := object_set object (lit "degraded") (VBool (is_degraded s)) in
  let object := object_set object (lit "reasons") (VArray (map VText (reason_tokens (st_reasons s)))) in
  let object := object_set object (lit "spool_bytes") (VInt (bounded_i64 (st_spool_bytes s))) in
  let object := object_set object (lit "free_bytes") (VInt (bounded_i64 (st_free_bytes s))) in
  let object := object_set object (lit "spool_cap_bytes")
                  (VInt (bounded_i64 (spool_cap_bytes (st_limits s)))) in
  let object := object_set object (lit "free_floor_bytes")
                  (VInt (bounded_i64 (free_floor_bytes (st_limits s)))) in
  let object := object_set object (lit "resume_threshold_bytes")
                  (VInt (bounded_i64 (resume_threshold_bytes (st_limits s)))) in
  VObject object.

Record PressureGate := mkGate { limits : PressureLimits; paused : bool }.

Definition gate_new (l : PressureLimits) : PressureGate := mkGate l false.

Definition evaluate (g : PressureGate) (spool_bytes free_bytes : Z) : PressureGate * PressureStatus :=
  let cap_live := spool_cap_bytes (limits g) <=? spool_bytes in
  let floor_live := free_bytes <=? free_floor_bytes (limits g) in
  let paused' :=
    if paused g
    then if (spool_bytes <? resume_threshold_bytes (limits g)) && negb floor_live
         then false else true
    else if cap_live || floor_live then true else false in
  let reasons :=
    if negb paused' then no_reasons
    else if cap_live || floor_live then mkReasons cap_live floor_live false
    else mkReasons false false true in
  (mkGate (limits g) paused',
   mkPressureStatus paused' reasons spool_bytes free_bytes (limits g)).

(** [evaluate_spool]: either measurement can fail, and then nothing is
    evaluated and the latch is unchanged. *)
Definition evaluate_spool {E} (g : PressureGate) (live_usage free_space : result E Z)
  : result E (PressureGate * PressureStatus) :=
  let! spool_bytes := live_usage in
  let! free_bytes := free_space in
  Ok (evaluate g spool_bytes free_bytes).

(** A scheduling loop: one gate evaluated on a sequence of measurements. *)
Fixpoint run (g : PressureGate) (ms : list (Z * Z)) : PressureGate * list PressureStatus :=
  match ms with
  | [] => (g, [])
  | (s, f) :: ms' =>
      let '(g', st) := evaluate g s f in
      let '(g'', sts) := run g' ms' in (g'', st :: sts)
  end.

(** * Lemmas *)

Definition wf_limits (l : PressureLimits) : Prop :=
  is_u64 (spool_cap_bytes l) /\ is_u64 (free_floor_bytes l) /\ 0 <= resume_percent l <= 100.

Lemma threshold_below_cap l : wf_limits l -> resume_threshold_bytes l <= spool_cap_bytes l.
Proof.
  intros ([H0 H1] & _ & Hp). unfold resume_threshold_bytes, sat_mul64.
  transitivity (spool_cap_bytes l * 100 / 100); [|by rewrite Z.div_mul].
  apply Z.div_le_mono; [lia|]. nia.
Qed.

Lemma evaluate_spec g s f : let '(g', st) := evaluate g s f in
  paused g' = st_paused st /\
  (st_paused st = true <->
     if paused g
     then resume_threshold_bytes (limits g) <= s \/ f <= free_floor_bytes (limits g)
     else spool_cap_bytes (limits g) <= s \/ f <= free_floor_bytes (limits g)) /\
  (is_degraded st = st_paused st) /\
  (draining (st_reasons st) = true <->
     st_paused st = true /\ s < spool_cap_bytes (limits g) /\ free_floor_bytes (limits g) < f).
Proof.
  unfold evaluate, is_degraded, reasons_degraded. simpl.
  destruct (paused g);
    destruct (spool_cap_bytes (limits g) <=? s) eqn:E1, (f <=? free_floor_bytes (limits g)) eqn:E2,
      (s <? resume_threshold_bytes (limits g)) eqn:E3; simpl; split_and!; try done; split; intros;
    try done; try lia; destruct_and?; try lia; split_and?; try done; lia.
Qed.

(** * Properties *)

(** C38: Admission is safe at every step of any run: with the resume point
    at most the cap, a status that admits materialization was measured
    strictly below the cap with free space strictly above the floor; and a
    status admits exactly when it names no degraded reason. *)
Theorem pressure_admission_safe l ms : wf_limits l ->
  let '(_, sts) := run (gate_new l) ms in
  Forall (fun st => (admits_materialization st = true ->
                     st_spool_bytes st < spool_cap_bytes l /\ free_floor_bytes l < st_free_bytes st) /\
                    is_degraded st = negb (admits_materialization st)) sts.
Proof.
  intros Hl. pose proof (threshold_below_cap l Hl) as Ht.
  assert (Hg : limits (gate_new l) = l) by done. revert Hg. generalize (gate_new l).
  induction ms as [|[s f] ms IH]; intros g Hg; cbn [run]; [constructor|].
  pose proof (evaluate_spec g s f) as He.
  assert (Hl' : limits (evaluate g s f).1 = l) by (by unfold evaluate).
  assert (Hm : st_spool_bytes (evaluate g s f).2 = s /\ st_free_bytes (evaluate g s f).2 = f)
    by (by unfold evaluate).
  destruct (evaluate g s f) as [g' st]. specialize (IH g' Hl').
  destruct (run g' ms) as [g'' sts]. cbv beta iota in *. constructor; [|done].
  destruct Hm as [Hs Hf]. destruct He as (_ & Hp & -> & _). simpl in *. rewrite Hs, Hf, Hg in *.
  unfold admits_materialization. split; [|by destruct (st_paused st)].
  intros Hn. destruct (st_paused st); [done|].
  destruct (paused g); (assert (false <> true) as Hft by done; split; apply Z.nle_gt; intros ?;
    apply Hft, Hp; lia).
Qed.

Lemma pressure_admission_safe_witness :
  Forall (fun st => (admits_materialization st = true ->
            st_spool_bytes st < 100 /\ 10 < st_free_bytes st) /\
            is_degraded st = negb (admits_materialization st))
    (run (gate_new (mkPressureLimits 100 10 80)) [(90, 50); (100, 50); (85, 50); (79, 50)]).2.
Proof.
  apply (pressure_admission_safe (mkPressureLimits 100 10 80)
           [(90, 50); (100, 50); (85, 50); (79, 50)]).
  unfold wf_limits, is_u64, U64_MAX; simpl; lia.
Defined.

(** Hysteresis: an open gate stays open through any measurements below
    the cap and above the floor, and a paused gate stays paused, naming
    [draining], through any measurements between the resume point and the
    cap, so a spool hovering at the watermark cannot flap. *)
Theorem pressure_hysteresis g ms :
  let '(g', sts) := run g ms in
  (paused g = false ->
   Forall (fun '(s, f) => s < spool_cap_bytes (limits g) /\ free_floor_bytes (limits g) < f) ms ->
   paused g' = false /\ Forall (fun st => admits_materialization st = true) sts) /\
  (paused g = true ->
   Forall (fun '(s, f) => resume_threshold_bytes (limits g) <= s < spool_cap_bytes (limits g)
                          /\ free_floor_bytes (limits g) < f) ms ->
   paused g' = true /\ Forall (fun st => draining (st_reasons st) = true) sts).
Proof.
  revert g. induction ms as [|[s f] ms IH]; intros g; cbn [run]; [by auto|].
  pose proof (evaluate_spec g s f) as He.
  assert (Hl : limits (evaluate g s f).1 = limits g) by (by unfold evaluate).
  destruct (evaluate g s f) as [g' st]. specialize (IH g').
  destruct (run g' ms) as [g'' sts]. cbv beta iota in *. simpl in Hl. rewrite Hl in IH.
  destruct IH as [IHo IHp]. destruct He as (Hgp & Hp & _ & Hd). split; intros Hg Hms;
    apply Forall_cons in Hms as [Hm Hms]; rewrite Hg in Hp.
  - assert (Hst : st_paused st = false) by (apply not_true_iff_false; rewrite Hp; lia).
    destruct IHo as [? ?]; [congruence|done|]. split; [done|]. constructor; [|done].
    unfold admits_materialization. by rewrite Hst.
  - assert (Hst : st_paused st = true) by (apply Hp; lia).
    destruct IHp as [? ?]; [congruence|done|]. split; [done|]. constructor; [|done].
    apply Hd. split_and!; [done|lia|lia].
Qed.

(** The documentation of [PressureLimits::new] says a resume percent above
    100 leaves the cap condition alone to govern the pause.  It does not: a
    paused gate measured above the cap but below the inflated resume point
    resumes and admits materialization over the cap. *)
Theorem pressure_resume_above_cap :
  let g := mkGate (mkPressureLimits 100 10 120) true in
  let '(g', st) := evaluate g 110 50 in
  spool_cap_bytes (limits g) <= st_spool_bytes st /\ admits_materialization st = true /\
  paused g' = false.
Proof. vm_compute. split; [discriminate|done]. Qed.
