(* ===== verification/Guard.v ===== *)
(** The admission guards ([crates/archivist-server/src/guard.rs]): the
    process-wide in-flight cap, the per-client share and the per-client token
    bucket.

    A tokio semaphore is its count of available permits; an admission handle
    is a permit held outside the gate, and dropping it is an operation of
    its own.  Each operation takes the ledger lock or one semaphore, so a
    run of the server is a sequence of these operations in some order.
    Instants are nanosecond readings of the monotonic clock. *)

From S2P Require Import Prelude.

Definition CREDIT_PER_REQUEST : Z := 60000000.
Definition U128_MAX : Z := 2 ^ 128 - 1.

Inductive GuardRejection := ProcessAtCapacity | ClientAtCapacity | ClientRateExhausted.

Definition error_code (r : GuardRejection) : list Z := lit "request.rate_limited".
Definition retryable (r : GuardRejection) : bool := true.

(** * The token bucket *)

Record TokenBucket := mkBucket { credit : Z; last : Z }.

(** [checked_duration_since(last).unwrap_or_default().as_micros()]. *)
Definition elapsed_micros (now last : Z) : Z := Z.max 0 (now - last) / 1000.

Definition try_consume (b : TokenBucket) (rate_per_minute burst now : Z) : TokenBucket * bool :=
  if (rate_per_minute =? 0) && (burst =? 0) then (b, true)
  else
    let earned := Z.min U128_MAX (elapsed_micros now (last b) * rate_per_minute) in
    let c := Z.min U128_MAX (credit b + earned) in
    let c := Z.min c (burst * CREDIT_PER_REQUEST) in
    if CREDIT_PER_REQUEST <=? c
    then (mkBucket (c - CREDIT_PER_REQUEST) now, true)
    else (mkBucket c now, false).

(** * The gate *)

Record ClientEntry := mkEntry { inflight : Z; bucket : TokenBucket }.

Record AdmissionGate := mkGate {
  process : Z;
  ingest_inflight : Z;
  clients : gmap (list Z) ClientEntry;
  max_inflight_per_client : Z;
  rate_per_minute : Z;
  burst : Z;
}.

Definition gate_new (capacity per_client rate burst : Z) : AdmissionGate :=
  mkGate capacity 0 ∅ per_client rate burst.

(** [Semaphore::try_acquire_owned]. *)
Definition try_acquire (available : Z) : option Z :=
  if 0 <? available then Some (available - 1) else None.

Definition try_admit_process (g : AdmissionGate) : AdmissionGate * result GuardRejection unit :=
  match try_acquire (process g) with
  | Some available =>
      (mkGate available (ingest_inflight g + 1) (clients g) (max_inflight_per_client g)
         (rate_per_minute g) (burst g), Ok tt)
  | None => (g, Err ProcessAtCapacity)
  end.

(** [ProcessAdmission]'s drop: the permit goes back and the gauge falls. *)
Definition drop_process (g : AdmissionGate) : AdmissionGate :=
  mkGate (process g + 1) (ingest_inflight g - 1) (clients g) (max_inflight_per_client g)
    (rate_per_minute g) (burst g).

Definition set_clients (g : AdmissionGate) (m : gmap (list Z) ClientEntry) : AdmissionGate :=
  mkGate (process g) (ingest_inflight g) m (max_inflight_per_client g) (rate_per_minute g) (burst g).

(** [entry(client).or_insert_with(..)]. *)
Definition entry_or_insert (g : AdmissionGate) (client : list Z) (now : Z) : ClientEntry :=
  default (mkEntry (max_inflight_per_client g) (mkBucket (burst g * CREDIT_PER_REQUEST) now))
    (clients g !! client).

Definition admit_client (g : AdmissionGate) (client : list Z) (now : Z)
  : AdmissionGate * result GuardRejection unit :=
  let entry := entry_or_insert g client now in
  match try_acquire (inflight entry) with
  | None => (set_clients g (<[client := entry]> (clients g)), Err ClientAtCapacity)
  | Some available =>
      let '(b, admitted) := try_consume (bucket entry) (rate_per_minute g) (burst g) now in
      if admitted
      then (set_clients g (<[client := mkEntry available b]> (clients g)), Ok tt)
      else (set_clients g (<[client := mkEntry (available + 1) b]> (clients g)),
            Err ClientRateExhausted)
  end.

(** [ClientAdmission]'s drop. *)
Definition drop_client (g : AdmissionGate) (client : list Z) : AdmissionGate :=
  set_clients g (alter (fun e => mkEntry (inflight e + 1) (bucket e)) client (clients g)).

(** * Runs

    The gate with the handles held outside it. *)

Record System := mkSystem { gate : AdmissionGate; held_process : Z; held_client : list Z -> Z }.

Definition bump (f : list Z -> Z) (c : list Z) (d : Z) : list Z -> Z :=
  fun c' => if bool_decide (c' = c) then f c' + d else f c'.

Inductive step : System -> System -> Prop :=
| StepAdmitProcess s g :
    try_admit_process (gate s) = (g, Ok tt) ->
    step s (mkSystem g (held_process s + 1) (held_client s))
| StepRefuseProcess s g e :
    try_admit_process (gate s) = (g, Err e) ->
    step s (mkSystem g (held_process s) (held_client s))
| StepDropProcess s :
    0 < held_process s ->
    step s (mkSystem (drop_process (gate s)) (held_process s - 1) (held_client s))
| StepAdmitClient s g c now :
    admit_client (gate s) c now = (g, Ok tt) ->
    step s (mkSystem g (held_process s) (bump (held_client s) c 1))
| StepRefuseClient s g c now e :
    admit_client (gate s) c now = (g, Err e) ->
    step s (mkSystem g (held_process s) (held_client s))
| StepDropClient s c :
    0 < held_client s c ->
    step s (mkSystem (drop_client (gate s) c) (held_process s) (bump (held_client s) c (-1))).

Definition start (capacity per_client rate burst : Z) : System :=
  mkSystem (gate_new capacity per_client rate burst) 0 (fun _ => 0).

Definition reachable (capacity per_client rate burst : Z) (s : System) : Prop :=
  rtc step (start capacity per_client rate burst) s.

(** * Invariant *)

(** Permits available plus permits held is the capacity, for the process and
    for every client; the gauge counts the held process permits. *)
Definition invariant (capacity per_client rate burst_ : Z) (s : System) : Prop :=
  let g := gate s in
  max_inflight_per_client g = per_client /\ rate_per_minute g = rate /\ burst g = burst_ /\
  process g + held_process s = capacity /\ 0 <= process g /\ 0 <= held_process s /\
  ingest_inflight g = held_process s /\
  forall c, 0 <= held_client s c /\
    match clients g !! c with
    | Some e => inflight e + held_client s c = per_client /\ 0 <= inflight e
    | None => held_client s c = 0
    end.

Lemma invariant_start capacity per_client rate burst_ : 0 <= capacity ->
  invariant capacity per_client rate burst_ (start capacity per_client rate burst_).
Proof. intros Hc. unfold invariant. simpl. split_and!; (done || lia). Qed.

Lemma try_admit_process_inv g g' r : try_admit_process g = (g', r) -> 0 <= process g ->
  clients g' = clients g /\ max_inflight_per_client g' = max_inflight_per_client g /\
  rate_per_minute g' = rate_per_minute g /\ burst g' = burst g /\ 0 <= process g' /\
  match r with
  | Ok _ => process g' = process g - 1 /\ ingest_inflight g' = ingest_inflight g + 1
  | _ => g' = g /\ process g = 0 /\ r = Err ProcessAtCapacity
  end.
Proof.
  unfold try_admit_process, try_acquire. destruct (0 <? process g) eqn:E; intros [= <- <-] Hp; simpl.
  - split_and!; (done || lia).
  - split_and!; (done || lia).
Qed.

Lemma admit_client_inv g g' c now r : admit_client g c now = (g', r) ->
  let e := entry_or_insert g c now in
  process g' = process g /\ ingest_inflight g' = ingest_inflight g /\
  max_inflight_per_client g' = max_inflight_per_client g /\
  rate_per_minute g' = rate_per_minute g /\ burst g' = burst g /\
  exists e', clients g' = <[c := e']> (clients g) /\
  match r with
  | Ok _ => 0 < inflight e /\ inflight e' = inflight e - 1
  | _ => inflight e' = inflight e /\
         (r = Err ClientAtCapacity /\ inflight e <= 0 \/ r = Err ClientRateExhausted /\ 0 < inflight e)
  end.
Proof.
  unfold admit_client, try_acquire. set (e := entry_or_insert g c now).
  destruct (0 <? inflight e) eqn:E; cbn [fst snd].
  - destruct (try_consume _ _ _ _) as [b []]; intros [= <- <-]; simpl; split_and!; try done;
      eexists; (split; [done|]); simpl; lia || (split; [lia|right; split; [done|lia]]).
  - intros [= <- <-]; simpl; split_and!; try done. eexists. split; [done|].
    split; [done|left; split; [done|lia]].
Qed.

Section Preservation.
Context (capacity per_client rate burst_ : Z) (Hpc : 0 <= per_client).
Abbreviation Inv := (invariant capacity per_client rate burst_).

(** The entry an admission sees agrees with the handles held. *)
Lemma entry_balance s c now : Inv s ->
  inflight (entry_or_insert (gate s) c now) + held_client s c = per_client /\
  0 <= inflight (entry_or_insert (gate s) c now).
Proof using Hpc.
  intros (Hm & _ & _ & _ & _ & _ & _ & Hc). destruct (Hc c) as [H0 He].
  unfold entry_or_insert. destruct (clients (gate s) !! c) as [e|]; simpl; [done|]. rewrite Hm. lia.
Qed.

(** Replacing one client's entry keeps every client's balance. *)
Lemma balance_update s c e' d : Inv s ->
  inflight e' + (held_client s c + d) = per_client -> 0 <= inflight e' -> 0 <= held_client s c + d ->
  forall c', 0 <= bump (held_client s) c d c' /\
    match <[c := e']> (clients (gate s)) !! c' with
    | Some e => inflight e + bump (held_client s) c d c' = per_client /\ 0 <= inflight e
    | None => bump (held_client s) c d c' = 0
    end.
Proof.
  intros (_ & _ & _ & _ & _ & _ & _ & Hc) Hb He Hd c'. unfold bump. rewrite lookup_insert.
  case_decide as E.
  - subst c'. rewrite bool_decide_true by done. done.
  - rewrite bool_decide_false by congruence. apply Hc.
Qed.

Lemma bump_zero f c : forall c', bump f c 0 c' = f c'.
Proof. intros c'. unfold bump. case_bool_decide; lia. Qed.

Lemma step_invariant s s' : Inv s -> step s s' -> Inv s'.
Proof using Hpc.
  intros HI Hs. pose proof HI as (Hm & Hr & Hb & Hcap & Hp & Hh & Hg & Hc).
  destruct Hs as [s g E|s g e E|s Hpos|s g c now E|s g c now e E|s c Hpos]; unfold invariant; simpl.
  - destruct (try_admit_process_inv _ _ _ E Hp) as (-> & -> & -> & -> & ? & H1 & H2).
    split_and!; (done || lia).
  - destruct (try_admit_process_inv _ _ _ E Hp) as (-> & -> & -> & -> & ? & H1 & _). subst g.
    split_and!; (done || lia).
  - split_and!; (done || lia).
  - destruct (admit_client_inv _ _ _ _ _ E) as (-> & -> & -> & -> & -> & e' & -> & He1 & He2).
    destruct (entry_balance s c now HI). destruct (Hc c) as [Hc0 _].
    split_and!; try done. apply balance_update; [done|lia..].
  - destruct (admit_client_inv _ _ _ _ _ E) as (-> & -> & -> & -> & -> & e' & -> & He1 & _).
    destruct (entry_balance s c now HI). destruct (Hc c) as [Hc0 _].
    split_and!; try done. intros c'. rewrite <- (bump_zero (held_client s) c c').
    apply balance_update; [done|lia..].
  - destruct (Hc c) as [Hc0 Hce].
    split_and!; try done. intros c'. destruct (clients (gate s) !! c) as [e|] eqn:Ee; [|lia].
    replace (alter (fun e => mkEntry (inflight e + 1) (bucket e)) c (clients (gate s)))
      with (<[c := mkEntry (inflight e + 1) (bucket e)]> (clients (gate s))).
    + apply balance_update; [done|simpl; lia..].
    + apply map_eq. intros k. rewrite lookup_insert, lookup_alter. case_decide; [|done].
      subst. by rewrite Ee.
Qed.

Lemma reachable_invariant s : 0 <= capacity -> reachable capacity per_client rate burst_ s -> Inv s.
Proof using Hpc.
  intros Hcap. unfold reachable. intros Hr.
  cut (forall s0, rtc step s0 s -> Inv s0 -> Inv s).
  { intros H. apply (H _ Hr). by apply invariant_start. }
  clear Hr. induction 1 as [|x y z Hxy _ IH]; [done|]. intros Hx. apply IH. by eapply step_invariant.
Qed.
End Preservation.

(** * The bucket's rate *)

(** One bucket consuming at a sequence of instants; the count is of the
    admissions. *)
Fixpoint consume_all (b : TokenBucket) (rate burst : Z) (nows : list Z) : TokenBucket * Z :=
  match nows with
  | [] => (b, 0)
  | now :: nows' =>
      let '(b', admitted) := try_consume b rate burst now in
      let '(b'', n) := consume_all b' rate burst nows' in
      (b'', (if admitted then 1 else 0) + n)
  end.

Definition wf_bucket (b : TokenBucket) (burst : Z) : Prop :=
  0 <= credit b <= burst * CREDIT_PER_REQUEST.

(** One consumption: credit after, plus what an admission cost, is at most
    credit before plus what the elapsed time earned. *)
Lemma try_consume_credit b rate burst now b' admitted :
  0 <= rate -> 0 <= burst -> rate <> 0 \/ burst <> 0 -> wf_bucket b burst ->
  try_consume b rate burst now = (b', admitted) ->
  wf_bucket b' burst /\ last b' = now /\
  credit b' + (if admitted then CREDIT_PER_REQUEST else 0)
  <= credit b + elapsed_micros now (last b) * rate.
Proof.
  intros Hr Hb Hd [Hc0 Hc1]. unfold try_consume.
  destruct ((rate =? 0) && (burst =? 0)) eqn:E; [lia|]. clear E.
  assert (He : 0 <= elapsed_micros now (last b) * rate).
  { apply Z.mul_nonneg_nonneg; [|lia]. unfold elapsed_micros. apply Z.div_pos; lia. }
  set (earned := Z.min U128_MAX (elapsed_micros now (last b) * rate)).
  assert (0 <= earned <= elapsed_micros now (last b) * rate) by (unfold earned, U128_MAX; lia).
  set (c := Z.min (Z.min U128_MAX (credit b + earned)) (burst * CREDIT_PER_REQUEST)).
  assert (0 <= c <= credit b + elapsed_micros now (last b) * rate) by (unfold c, U128_MAX; lia).
  assert (c <= burst * CREDIT_PER_REQUEST) by (unfold c; lia).
  destruct (CREDIT_PER_REQUEST <=? c) eqn:E; intros [= <- <-]; unfold wf_bucket; simpl;
    unfold CREDIT_PER_REQUEST in *; split_and!; (done || lia).
Qed.

(** Instants in order, starting at [t]. *)
Fixpoint ordered (t : Z) (nows : list Z) : Prop :=
  match nows with [] => True | now :: nows' => t <= now /\ ordered now nows' end.

Lemma elapsed_split t now z : t <= now -> now <= z ->
  elapsed_micros now t + elapsed_micros z now <= elapsed_micros z t.
Proof.
  intros H1 H2. unfold elapsed_micros. rewrite !Z.max_r by lia.
  replace (z - t) with ((now - t) + (z - now)) by lia.
  Z.to_euclidean_division_equations; lia.
Qed.

Lemma consume_all_credit rate burst nows b :
  0 <= rate -> 0 <= burst -> rate <> 0 \/ burst <> 0 -> wf_bucket b burst ->
  ordered (last b) nows ->
  forall z, Forall (fun now => now <= z) nows -> last b <= z ->
  (consume_all b rate burst nows).2 * CREDIT_PER_REQUEST
  <= credit b + elapsed_micros z (last b) * rate.
Proof.
  intros Hr Hb Hd. revert b. induction nows as [|now nows IH]; intros b Hwf Hord z Hz Hlast;
    cbn [consume_all].
  - destruct Hwf. assert (0 <= elapsed_micros z (last b)) by (apply Z.div_pos; lia). simpl. nia.
  - destruct Hord as [H1 H2]. apply Forall_cons in Hz as [Hnz Hz].
    destruct (try_consume b rate burst now) as [b' admitted] eqn:E.
    destruct (try_consume_credit _ _ _ _ _ _ Hr Hb Hd Hwf E) as (Hwf' & Hl' & Hc).
    rewrite <- Hl' in H2. specialize (IH b' Hwf' H2 z Hz ltac:(lia)). rewrite Hl' in IH.
    destruct (consume_all b' rate burst nows) as [b'' n]. simpl in *.
    pose proof (elapsed_split (last b) now z H1 Hnz) as Hs.
    assert (elapsed_micros now (last b) * rate + elapsed_micros z now * rate
            <= elapsed_micros z (last b) * rate) by nia.
    destruct admitted; lia.
Qed.

(** * Properties *)

(** C39: In-flight bounds.  Whatever sequence of admissions, refusals and
    releases happened, at most [capacity] requests are in flight, each client
    holds at most its share, the exported gauge is the number in flight, and
    a refusal is given exactly at the bound: the process guard refuses only a
    full replica, a capacity refusal of a client only when it holds its whole
    share, and no refusal changes what any client holds. *)
Theorem inflight_bounded capacity per_client rate burst_ s :
  0 <= capacity -> 0 <= per_client -> reachable capacity per_client rate burst_ s ->
  0 <= held_process s <= capacity /\ ingest_inflight (gate s) = held_process s /\
  (forall c, 0 <= held_client s c <= per_client) /\
  ((try_admit_process (gate s)).2 = Err ProcessAtCapacity <-> held_process s = capacity) /\
  (forall c now, (admit_client (gate s) c now).2 = Err ClientAtCapacity <-> held_client s c = per_client) /\
  (forall c now e, (admit_client (gate s) c now).2 = Err e ->
     forall c', inflight (entry_or_insert (admit_client (gate s) c now).1 c' now)
                = inflight (entry_or_insert (gate s) c' now)).
Proof.
  intros Hcap Hpc Hreach.
  pose proof (reachable_invariant capacity per_client rate burst_ Hpc s Hcap Hreach) as HI.
  pose proof HI as (Hm & _ & _ & Hp & Hp0 & Hh & Hg & Hc). split_and!; try lia.
  - intros c. destruct (Hc c) as [H0 He]. destruct (clients (gate s) !! c); lia.
  - destruct (try_admit_process (gate s)) as [g r] eqn:E.
    destruct (try_admit_process_inv _ _ _ E Hp0) as (_ & _ & _ & _ & ? & Hr). simpl.
    destruct r; [|destruct Hr as (_ & ? & ->); split; [lia|done]|destruct Hr as (_ & _ & [=])].
    split; [done|]. lia.
  - intros c now. destruct (entry_balance capacity per_client rate burst_ Hpc s c now HI) as [Hb1 Hb2].
    destruct (admit_client (gate s) c now) as [g r] eqn:E.
    destruct (admit_client_inv _ _ _ _ _ E) as (_ & _ & _ & _ & _ & e' & _ & Hr). simpl.
    destruct r as [[]|e|]; [split; [done|lia]| |destruct Hr as (_ & [[[=] _]|[[=] _]])].
    destruct Hr as (_ & [[-> ?]|[-> ?]]); (split; [lia || done|]); intros; (done || lia).
  - intros c now e He c'. destruct (admit_client (gate s) c now) as [g r] eqn:E. simpl in *. subst r.
    destruct (admit_client_inv _ _ _ _ _ E) as (_ & _ & Hm' & _ & Hb' & e' & Hcl & Hi & _).
    unfold entry_or_insert at 1. rewrite Hcl, lookup_insert. case_decide as Ec; [by subst c'|].
    rewrite Hm', Hb'. done.
Qed.

Lemma inflight_bounded_witness :
  exists s, reachable 1 1 60 8 s /\ held_process s = 1 /\
    (try_admit_process (gate s)).2 = Err ProcessAtCapacity.
Proof.
  set (s := mkSystem (mkGate 0 1 ∅ 1 60 8) 1 (fun _ => 0)).
  assert (Hr : reachable 1 1 60 8 s).
  { apply rtc_once. apply (StepAdmitProcess (start 1 1 60 8) (mkGate 0 1 ∅ 1 60 8)). reflexivity. }
  exists s. split; [exact Hr|]. split; [reflexivity|].
  apply (inflight_bounded 1 1 60 8 s); [lia|lia|exact Hr|reflexivity].
Defined.



(** The guard recovers: after waiting long enough to earn one request's
    credit, a bucket with a positive burst admits again. *)
Theorem bucket_recovers b rate burst_ now :
  wf_bucket b burst_ -> 0 < burst_ < 2 ^ 32 -> 0 <= rate < 2 ^ 32 ->
  CREDIT_PER_REQUEST <= elapsed_micros now (last b) * rate ->
  (try_consume b rate burst_ now).2 = true.
Proof.
  intros [H0 H1] Hb Hr He. unfold try_consume. cbv zeta.
  destruct ((rate =? 0) && (burst_ =? 0)); [done|].
  set (earned := Z.min U128_MAX (elapsed_micros now (last b) * rate)).
  assert (CREDIT_PER_REQUEST <= earned) by (unfold earned, U128_MAX, CREDIT_PER_REQUEST in *; lia).
  assert (CREDIT_PER_REQUEST <=
    Z.min (Z.min U128_MAX (credit b + earned)) (burst_ * CREDIT_PER_REQUEST)) as Hc
    by (unfold U128_MAX, CREDIT_PER_REQUEST in *; lia).
  apply Z.leb_le in Hc. rewrite Hc. done.
Qed.

Lemma bucket_recovers_witness :
  (try_consume (mkBucket 0 0) 60 8 1000000000).2 = true.
Proof.
  apply bucket_recovers; [unfold wf_bucket, CREDIT_PER_REQUEST; simpl; lia|lia|lia|].
  vm_compute. discriminate.
Defined.

(** The rate bound needs instants in order.  A reading older than the
    bucket's last one earns nothing but still becomes the new reference, so
    the interval after it is credited twice: with burst 1 and rate 60 three
    requests are admitted at instants 0 s, 1 s, 0 s, 1 s although the bound
    for one second is two.  Two concurrent callers read the clock before
    taking the ledger lock, so readings can arrive in this order. *)
Theorem bucket_rewind_double_credit :
  let nows := [0; 1000000000; 0; 1000000000] in
  let admitted := (consume_all (mkBucket CREDIT_PER_REQUEST 0) 60 1 nows).2 in
  admitted = 3 /\
  CREDIT_PER_REQUEST + elapsed_micros 1000000000 0 * 60 < admitted * CREDIT_PER_REQUEST.
Proof. vm_compute. done. Qed.

(** Credit does depend on how a minute is divided.  Elapsed time is
    truncated to microseconds at every observation and the remainder is
    dropped, so a bucket polled every 999 nanoseconds never refills, while
    the same time observed once earns credit. *)
Theorem bucket_drift n t :
  let b := mkBucket 0 t in
  credit (Nat.iter n (fun b => (try_consume b 60 8 (last b + 999)).1) b) = 0 /\
  0 < credit (try_consume b 60 8 (t + 999000)).1.
Proof.
  split.
  - enough (H : exists l, Nat.iter n (fun b => (try_consume b 60 8 (last b + 999)).1) (mkBucket 0 t)
                          = mkBucket 0 l) by (destruct H as [l ->]; done).
    induction n as [|n [l IH]]; [by exists t|]. rewrite Nat.iter_succ, IH.
    exists (l + 999). unfold try_consume, elapsed_micros. cbn [last credit].
    replace (l + 999 - l) with 999 by lia. reflexivity.
  - unfold try_consume, elapsed_micros. cbn [last credit].
    replace (t + 999000 - t) with 999000 by lia. reflexivity.
Qed.
