(* ===== verification/Authority.v ===== *)
(** The tenant-authority rotation chain
    ([crates/archivist-auth/src/authority.rs]): rotation links, the walk from
    the pinned root, the dual-key acceptance window, control-record
    verification and the publication gate.

    The Ed25519 verdict is a parameter, the class [SignatureScheme]: every
    theorem holds whatever the verdicts are.  The store a walk fetches from is
    a finite map from key ids to bytes, unchanged during one call; its size
    bounds the walk, and [authority_walk_total] proves the bound is enough. *)

From S2P Require Import Prelude Text Json JsonFacts Sha256 Vocabulary Inventory Records.

(** [ed25519::verify(public, message, signature)]. *)
Class SignatureScheme := verify : list Z -> list Z -> list Z -> bool.

Definition CONTROL_NAMESPACE : list Z := lit "archivist.control/v1".
Definition RECORD_TYPE : list Z := lit "authority-rotation".
Definition RECORD_KIND : list Z := lit "immutable".

Definition MEMBERS : list (list Z) :=
  [lit "authority_key_id"; lit "authority_signature"; lit "key_algorithm"; lit "key_id";
   lit "previous_key_id"; lit "previous_public_key"; lit "public_key"; lit "record_kind";
   lit "record_type"; lit "schema"; lit "signed_at"; lit "tenant_id"].

Definition ROTATION_VERIFICATION_OVERLAP_HOURS : Z := 24.
Definition OVERLAP_SECONDS : Z := ROTATION_VERIFICATION_OVERLAP_HOURS * 60 * 60.

Inductive AuthorityChainError : Type :=
| MalformedRecord | RecordDisagreement | KeyDerivation | ChainRule | Signature
| Unreachable | NotEstablished | Retired | AlreadyRetired.

Abbreviation outcome := (result AuthorityChainError).

(** * Pinned roots and links *)

Record PinnedAuthorityRoot := mkRoot
  { root_tenant_id : list Z; root_public_key : list Z; root_key_id : list Z }.

Definition Root_new (tenant_id public_key : list Z) : PinnedAuthorityRoot :=
  mkRoot tenant_id public_key (KeyId_from_public_key public_key).

Record AuthorityRotationLink := mkLink
  { tenant_id : list Z;
    previous_public_key : list Z;
    previous_key_id : list Z;
    key_algorithm : SignatureAlgorithm;
    public_key : list Z;
    key_id : list Z;
    signed_at : list Z;
    authority_key_id : list Z;
    authority_signature : list Z }.

Definition text_member (o : Object) (name : list Z) : option (list Z) :=
  match object_get o name with Some (VText t) => Some t | _ => None end.

(** [text_member(..).ok_or(malformed)?] followed by a grammar's [parse]. *)
Definition member_parse {A} (o : Object) (name : list Z)
    (parse : list Z -> result GrammarError A) : outcome A :=
  let! t := ok_or (text_member o name) MalformedRecord in
  map_err (fun _ => MalformedRecord) (parse t).

Definition parse_object (bytes : list Z) : outcome Object :=
  let! v := map_err (fun _ => MalformedRecord) (Json.parse bytes) in
  match v with VObject o => Ok o | _ => Err MalformedRecord end.

(** [Err(e)] unless the test holds. *)
Definition ensure (b : bool) (e : AuthorityChainError) : outcome unit :=
  if b then Ok tt else Err e.

Definition is_some {A} (o : option A) : bool :=
  match o with Some _ => true | None => false end.

Definition Link_of_object (o : Object) : outcome AuthorityRotationLink :=
  let! _ := ensure (length o =? length MEMBERS)%nat MalformedRecord in
  let! _ := ensure (forallb (fun name => is_some (text_member o name)) MEMBERS) MalformedRecord in
  let! _ := ensure (bool_decide (text_member o (lit "schema") = Some CONTROL_NAMESPACE))
              RecordDisagreement in
  let! _ := ensure (bool_decide (text_member o (lit "record_type") = Some RECORD_TYPE))
              RecordDisagreement in
  let! _ := ensure (bool_decide (text_member o (lit "record_kind") = Some RECORD_KIND))
              RecordDisagreement in
  let! tenant := member_parse o (lit "tenant_id") TenantId_parse in
  let! previous_public := member_parse o (lit "previous_public_key") digest_parse in
  let! public := member_parse o (lit "public_key") digest_parse in
  let! algorithm := member_parse o (lit "key_algorithm") enum_parse in
  let! at_ := member_parse o (lit "signed_at") Timestamp_parse in
  let! _ := ensure (calendar_valid at_) MalformedRecord in
  let! previous_id := member_parse o (lit "previous_key_id") digest_parse in
  let! _ := ensure (bool_decide (previous_id = KeyId_from_public_key previous_public))
              KeyDerivation in
  let! id := member_parse o (lit "key_id") digest_parse in
  let! _ := ensure (bool_decide (id = KeyId_from_public_key public)) KeyDerivation in
  let! authority_id := member_parse o (lit "authority_key_id") digest_parse in
  let! _ := ensure (bool_decide (authority_id = previous_id) && negb (bool_decide (id = previous_id)))
              ChainRule in
  let! signature := member_parse o (lit "authority_signature") Ed25519Signature_parse in
  Ok (mkLink tenant previous_public previous_id algorithm public id at_ authority_id signature).

Definition Link_parse (bytes : list Z) : outcome AuthorityRotationLink :=
  let! o := parse_object bytes in
  Link_of_object o.

(** The eleven [members.set(..)] calls both renderings start with. *)
Definition unsigned_members (l : AuthorityRotationLink) : Object :=
  let members := object_set [] (lit "schema") (VText CONTROL_NAMESPACE) in
  let members := object_set members (lit "record_type") (VText RECORD_TYPE) in
  let members := object_set members (lit "record_kind") (VText RECORD_KIND) in
  let members := object_set members (lit "tenant_id") (VText (tenant_id l)) in
  let members := object_set members (lit "previous_public_key")
                   (VText (to_hex (previous_public_key l))) in
  let members := object_set members (lit "previous_key_id")
                   (VText (to_hex (previous_key_id l))) in
  let members := object_set members (lit "key_algorithm") (VText (token (key_algorithm l))) in
  let members := object_set members (lit "public_key") (VText (to_hex (public_key l))) in
  let members := object_set members (lit "key_id") (VText (to_hex (key_id l))) in
  let members := object_set members (lit "signed_at") (VText (signed_at l)) in
  object_set members (lit "authority_key_id") (VText (to_hex (authority_key_id l))).

Definition unsigned_canonical_bytes (l : AuthorityRotationLink) : list Z :=
  canonical_bytes (VObject (unsigned_members l)).

Definition signed_members (l : AuthorityRotationLink) : Object :=
  object_set (unsigned_members l) (lit "authority_signature")
    (VText (to_hex (authority_signature l))).

Definition Link_canonical_bytes (l : AuthorityRotationLink) : list Z :=
  canonical_bytes (VObject (signed_members l)).

Definition verify_predecessor_signature `{SignatureScheme} (l : AuthorityRotationLink) : bool :=
  verify (previous_public_key l) (unsigned_canonical_bytes l) (authority_signature l).

(** * Instants and acceptance *)

Definition days_from_civil (year month day : Z) : Z :=
  let year := year - (if month <=? 2 then 1 else 0) in
  let era := Z.quot (if 0 <=? year then year else year - 399) 400 in
  let year_of_era := year - era * 400 in
  let month_offset := if 2 <? month then -3 else 9 in
  let day_of_year := Z.quot (153 * (month + month_offset) + 2) 5 + day - 1 in
  let day_of_era :=
    year_of_era * 365 + Z.quot year_of_era 4 - Z.quot year_of_era 100 + day_of_year in
  era * 146097 + day_of_era - 719468.

(** [for _ in digits.len()..9 { nanoseconds *= 10 }]. *)
Fixpoint times_ten (n : nat) (x : Z) : Z :=
  match n with O => x | S n' => times_ten n' (x * 10) end.

Definition utc_instant (stamp : list Z) : Z * Z :=
  let bytes := as_bytes stamp in
  let year := decimal (slice bytes 0 4) in
  let month := decimal (slice bytes 5 7) in
  let day := decimal (slice bytes 8 10) in
  let hour := decimal (slice bytes 11 13) in
  let minute := decimal (slice bytes 14 16) in
  let second := decimal (slice bytes 17 19) in
  let seconds := days_from_civil year month day * 86400 + hour * 3600 + minute * 60 + second in
  let nanoseconds :=
    if (20 <? length bytes)%nat then
      let digits := slice bytes 20 (length bytes - 1) in
      times_ten (9 - length digits) (decimal digits)
    else 0 in
  (seconds, nanoseconds).

(** [<] on [(i64, u32)] pairs. *)
Definition instant_lt (a b : Z * Z) : bool :=
  (a.1 <? b.1) || ((a.1 =? b.1) && (a.2 <? b.2)).

Record ResolvedAuthority := mkResolved
  { resolved_key_id : list Z;
    resolved_public_key : list Z;
    established_at : option (list Z);
    retired_at : option (list Z) }.

Inductive Acceptance := Accepted | InvalidInstant | BeforeEstablishment | AfterRetirement.

Definition acceptance (r : ResolvedAuthority) (at_ : list Z) : Acceptance :=
  if negb (calendar_valid at_) then InvalidInstant
  else if match established_at r with
          | Some established => instant_lt (utc_instant at_) (utc_instant established)
          | None => false
          end
  then BeforeEstablishment
  else match retired_at r with
       | Some retired =>
           let '(retired_seconds, retired_nanoseconds) := utc_instant retired in
           if instant_lt (retired_seconds + OVERLAP_SECONDS, retired_nanoseconds) (utc_instant at_)
           then AfterRetirement else Accepted
       | None => Accepted
       end.

Definition accepts_signing_at (r : ResolvedAuthority) (at_ : list Z) : bool :=
  match acceptance r at_ with Accepted => true | _ => false end.

Definition verify_signing_at (r : ResolvedAuthority) (at_ : list Z) : outcome unit :=
  match acceptance r at_ with
  | Accepted => Ok tt
  | InvalidInstant => Err MalformedRecord
  | BeforeEstablishment => Err NotEstablished
  | AfterRetirement => Err Retired
  end.

(** * The walk *)

(** The bytes stored at each predecessor address. *)
Abbreviation Store := (gmap (list Z) (list Z)).

Section Walk.
Context `{SignatureScheme}.

Definition verified_link_at (addressed_key : list Z) (root : PinnedAuthorityRoot)
    (bytes : list Z) : outcome AuthorityRotationLink :=
  let! link := Link_parse bytes in
  let! _ := ensure (bool_decide (tenant_id link = root_tenant_id root)) RecordDisagreement in
  let! _ := ensure (bool_decide (previous_key_id link = addressed_key)) RecordDisagreement in
  let! _ := ensure (verify_predecessor_signature link) Signature in
  Ok link.

Variable root : PinnedAuthorityRoot.

(** The [loop] of [resolve_authority]. *)
Fixpoint resolve_loop (signer : list Z) (fetch : Store) (fuel : nat) (current_id current_public : list Z)
    (established : option (list Z)) (visited : list (list Z)) : outcome ResolvedAuthority :=
  match fuel with
  | O => OutOfFuel
  | S fuel' =>
      let link_bytes := fetch !! current_id in
      if bool_decide (current_id = signer) then
        let! retired :=
          match link_bytes with
          | None => Ok None
          | Some bytes =>
              let! link := verified_link_at current_id root bytes in
              if bool_decide (key_id link ∈ visited) then Err ChainRule
              else Ok (Some (signed_at link))
          end in
        Ok (mkResolved current_id current_public established retired)
      else
        match link_bytes with
        | None => Err Unreachable
        | Some bytes =>
            let! link := verified_link_at current_id root bytes in
            let successor := key_id link in
            if bool_decide (successor ∈ visited) then Err ChainRule
            else resolve_loop signer fetch fuel' successor (public_key link)
                   (Some (signed_at link)) (visited ++ [successor])
        end
  end.

Definition resolve_authority (signer : list Z) (fetch : Store) : outcome ResolvedAuthority :=
  resolve_loop signer fetch (S (size fetch)) (root_key_id root) (root_public_key root) None
    [root_key_id root].

(** The [while let] of [resolve_active_authority]. *)
Fixpoint active_loop (fetch : Store) (fuel : nat) (current_id current_public : list Z)
    (established : option (list Z)) (visited : list (list Z)) : outcome ResolvedAuthority :=
  match fuel with
  | O => OutOfFuel
  | S fuel' =>
      match fetch !! current_id with
      | None => Ok (mkResolved current_id current_public established None)
      | Some bytes =>
          let! link := verified_link_at current_id root bytes in
          let successor := key_id link in
          if bool_decide (successor ∈ visited) then Err ChainRule
          else active_loop fetch fuel' successor (public_key link)
                 (Some (signed_at link)) (visited ++ [successor])
      end
  end.

Definition resolve_active_authority (fetch : Store) : outcome ResolvedAuthority :=
  active_loop fetch (S (size fetch)) (root_key_id root) (root_public_key root) None
    [root_key_id root].

Definition verify_signing_authority (signer at_ : list Z) (fetch : Store)
    : outcome ResolvedAuthority :=
  let! _ := ensure (calendar_valid at_) MalformedRecord in
  let! resolved := resolve_authority signer fetch in
  let! _ := verify_signing_at resolved at_ in
  Ok resolved.

(** * Control records *)

Definition verify_control_record_resolved (envelope : list Z)
    (resolve : list Z -> list Z -> list Z -> outcome ResolvedAuthority)
    : outcome ResolvedAuthority :=
  let! o := parse_object envelope in
  let! _ := ensure (bool_decide (text_member o (lit "schema") = Some CONTROL_NAMESPACE))
              RecordDisagreement in
  let! _ := ensure (forallb (fun name => is_some (text_member o name))
                      [lit "record_type"; lit "record_kind"]) MalformedRecord in
  let! tenant := member_parse o (lit "tenant_id") TenantId_parse in
  let! signer := member_parse o (lit "authority_key_id") digest_parse in
  let! signature := member_parse o (lit "authority_signature") Ed25519Signature_parse in
  let! at_ := member_parse o (lit "signed_at") Timestamp_parse in
  let! resolved := resolve tenant signer at_ in
  let canonical := canonical_bytes (VObject (object_remove o (lit "authority_signature")).2) in
  let! _ := ensure (verify (resolved_public_key resolved) canonical signature) Signature in
  Ok resolved.

Definition verify_control_record (envelope : list Z) (fetch : Store) : outcome ResolvedAuthority :=
  verify_control_record_resolved envelope (fun record_tenant signer at_ =>
    let! _ := ensure (bool_decide (record_tenant = root_tenant_id root)) RecordDisagreement in
    verify_signing_authority signer at_ fetch).

(** * The publication gate *)

Inductive RotationPublication := Publish | AlreadyPublished.

Definition prepare_rotation_publication (candidate : AuthorityRotationLink) (fetch : Store)
    : outcome RotationPublication :=
  let! _ := ensure (bool_decide (tenant_id candidate = root_tenant_id root)) RecordDisagreement in
  let! _ := ensure (verify_predecessor_signature candidate) Signature in
  let! resolved := resolve_authority (previous_key_id candidate) fetch in
  match retired_at resolved with
  | None => Ok Publish
  | Some _ =>
      let! stored := ok_or (fetch !! previous_key_id candidate) Signature in
      if bool_decide (stored = Link_canonical_bytes candidate) then Ok AlreadyPublished
      else Err AlreadyRetired
  end.
End Walk.

(** * Link records *)

Lemma ensure_Ok b e u : ensure b e = Ok u <-> b = true.
Proof. unfold ensure. destruct b, u; naive_solver. Qed.

Lemma member_parse_Ok {A} o name (f : list Z -> result GrammarError A) a :
  member_parse o name f = Ok a <-> exists t, text_member o name = Some t /\ f t = Ok a.
Proof.
  unfold member_parse, ok_or, map_err. split.
  - destruct (text_member o name) as [t|]; simpl; [|done]. destruct (f t) eqn:?; naive_solver.
  - intros (t & -> & E). simpl. by rewrite E.
Qed.

Lemma text_member_in o name t : wf_members o -> Forall is_scalar name ->
  text_member o name = Some t <-> (name, VText t) ∈ o.
Proof.
  intros Hw Hn. destruct (object_ops_refine o name VNull Hw Hn) as [Hg _].
  unfold text_member. rewrite Hg.
  pose proof (elem_of_list_to_map (M:=gmap (list Z)) o name (VText t) (wf_members_NoDup _ Hw)) as E.
  rewrite E. unfold object_map. destruct (list_to_map o !! name) as [[]|]; naive_solver.
Qed.

Lemma parse_object_Ok bytes o : parse_object bytes = Ok o <->
  Json.parse bytes = Ok (VObject o).
Proof.
  unfold parse_object, map_err. destruct (Json.parse bytes) as [[]| |]; simpl; naive_solver.
Qed.

Lemma parse_object_wf bytes o : parse_object bytes = Ok o ->
  wf_value (VObject o) /\ parse_object (canonical_bytes (VObject o)) = Ok o.
Proof.
  rewrite !parse_object_Ok. intros Hp. pose proof (parse_accepts _ _ _ _ Hp) as (Hw & Hd & Hl & Hc).
  split; [done|]. apply parse_canonical; [done..|]. unfold Json.parse in *. lia.
Qed.

Lemma wf_object_members o : wf_value (VObject o) -> wf_members o /\
  forall name t, (name, VText t) ∈ o -> Forall is_scalar t.
Proof.
  intros Hw. inversion Hw as [| | | | |? Hs Hn Hv]; subst. split; [done|].
  intros name t Hin. rewrite Forall_forall in Hv. specialize (Hv _ Hin). by inversion Hv.
Qed.

(** The members of a link in canonical order. *)
Lemma signed_members_eq l : signed_members l =
  [(lit "authority_key_id", VText (to_hex (authority_key_id l)));
   (lit "authority_signature", VText (to_hex (authority_signature l)));
   (lit "key_algorithm", VText (token (key_algorithm l)));
   (lit "key_id", VText (to_hex (key_id l)));
   (lit "previous_key_id", VText (to_hex (previous_key_id l)));
   (lit "previous_public_key", VText (to_hex (previous_public_key l)));
   (lit "public_key", VText (to_hex (public_key l)));
   (lit "record_kind", VText RECORD_KIND);
   (lit "record_type", VText RECORD_TYPE);
   (lit "schema", VText CONTROL_NAMESPACE);
   (lit "signed_at", VText (signed_at l));
   (lit "tenant_id", VText (tenant_id l))].
Proof.
  destruct l as [t pp pi a p i s ai sg]. unfold signed_members, unsigned_members. cbn [tenant_id previous_public_key previous_key_id key_algorithm public_key key_id signed_at authority_key_id authority_signature].
  generalize (to_hex pp) (to_hex pi) (to_hex p) (to_hex i) (to_hex ai) (to_hex sg) (token a).
  intros. vm_compute. reflexivity.
Qed.

Lemma unsigned_members_wf l : wf_members (unsigned_members l).
Proof.
  unfold unsigned_members.
  cbv zeta. do 11 (apply object_set_wf; [|scalar_name]). split; constructor.
Qed.

Lemma signed_members_wf l : wf_members (signed_members l).
Proof. unfold signed_members. apply object_set_wf; [apply unsigned_members_wf|scalar_name]. Qed.

(** What every link that parses satisfies. *)
Record wf_link (l : AuthorityRotationLink) : Prop := {
  wf_tenant : uuid_grammar (tenant_id l) 4 = true;
  wf_signed_at : timestamp_grammar (signed_at l) = true;
  wf_calendar : calendar_valid (signed_at l) = true;
  wf_previous : length (previous_public_key l) = 32%nat /\ Forall is_byte (previous_public_key l);
  wf_public : length (public_key l) = 32%nat /\ Forall is_byte (public_key l);
  wf_previous_id : previous_key_id l = KeyId_from_public_key (previous_public_key l);
  wf_id : key_id l = KeyId_from_public_key (public_key l);
  wf_signer : authority_key_id l = previous_key_id l;
  wf_advances : key_id l <> previous_key_id l;
  wf_signature : length (authority_signature l) = 64%nat /\ Forall is_byte (authority_signature l) }.

(** Invert a chain of checks and member readings. *)
Ltac inv_record :=
  repeat match goal with
  | H : rbind _ _ = Ok _ |- _ => apply rbind_Ok in H as (? & ? & H)
  | H : ensure _ _ = Ok _ |- _ => apply ensure_Ok in H
  | H : member_parse _ _ _ = Ok _ |- _ => apply member_parse_Ok in H as (? & ? & ?)
  | H : bool_decide _ = true |- _ => apply bool_decide_eq_true in H
  | H : _ && _ = true |- _ => apply andb_true_iff in H as [? ?]
  | H : negb (bool_decide _) = true |- _ => apply negb_true_iff, bool_decide_eq_false in H
  | H : TenantId_parse _ = Ok _ |- _ => apply text_parse_Ok in H as [-> ?]
  | H : Timestamp_parse _ = Ok _ |- _ => apply text_parse_Ok in H as [-> ?]
  | H : Ok _ = Ok _ |- _ => injection H as <-
  end.

(** Members read from a well-formed object are scalar text of the object. *)
Ltac read_members Hw Hscalar :=
  repeat match goal with
  | H : text_member ?o ?name = Some ?t |- _ =>
      apply (text_member_in o name t Hw ltac:(scalar_name)) in H;
      pose proof (Hscalar _ _ H)
  end.

Lemma Link_of_object_sound o l : wf_value (VObject o) -> Link_of_object o = Ok l ->
  o = signed_members l /\ wf_link l.
Proof.
  intros [Hw Hsc]%wf_object_members H. unfold Link_of_object in H. inv_record.
  read_members Hw Hsc.
  repeat match goal with
  | H : digest_parse _ = Ok _ |- _ => apply digest_parse_sound in H as (-> & ? & ?); [|done]
  | H : Ed25519Signature_parse _ = Ok _ |- _ =>
      apply signature_parse_sound in H as (-> & ? & ?); [|done]
  | H : enum_parse _ = Ok _ |- _ => apply enum_parse_iff in H as ->
  end.
  match goal with |- _ = signed_members ?l /\ _ => set (link := l) end.
  split; [|constructor; subst link; simpl; auto].
  symmetry. apply wf_members_unique; [apply signed_members_wf|done|].
  apply submseteq_length_Permutation.
  - apply NoDup_submseteq; [exact (NoDup_fmap_1 fst _ (wf_members_NoDup _ (signed_members_wf link)))|].
    rewrite signed_members_eq. subst link. simpl.
    intros m Hm. repeat (apply elem_of_cons in Hm as [->|Hm]; [eassumption|]).
    by apply elem_of_nil in Hm.
  - rewrite signed_members_eq. simpl.
    match goal with H : (length o =? _)%nat = true |- _ => apply Nat.eqb_eq in H; rewrite H end.
    done.
Qed.

Lemma Link_parse_sound bytes l : Link_parse bytes = Ok l ->
  wf_link l /\ parse_object bytes = Ok (signed_members l) /\
  Link_of_object (signed_members l) = Ok l.
Proof.
  unfold Link_parse. intros (o & Ho & Hl)%rbind_Ok.
  destruct (parse_object_wf _ _ Ho) as [Hw _].
  destruct (Link_of_object_sound _ _ Hw Hl) as [-> Hwf]. exact (conj Hwf (conj Ho Hl)).
Qed.

Lemma Link_parse_canonical bytes l : Link_parse bytes = Ok l ->
  Link_parse (Link_canonical_bytes l) = Ok l.
Proof.
  intros (_ & Ho & Hl)%Link_parse_sound.
  destruct (parse_object_wf _ _ Ho) as [_ Hc]. unfold Link_parse, Link_canonical_bytes.
  rewrite Hc. exact Hl.
Qed.

(** Dropping the signature member of the signed object gives the object the
    predecessor signed. *)
Lemma signed_members_remove l :
  (object_remove (signed_members l) (lit "authority_signature")).2 = unsigned_members l.
Proof.
  destruct l as [t pp pi a p i s ai sg]. unfold signed_members, unsigned_members.
  cbn [tenant_id previous_public_key previous_key_id key_algorithm public_key key_id signed_at
       authority_key_id authority_signature].
  generalize (to_hex pp) (to_hex pi) (to_hex p) (to_hex i) (to_hex ai) (to_hex sg) (token a).
  intros. vm_compute. reflexivity.
Qed.

(** * Facts on the walk *)

(** What a walk holds: every key it has held, the current half, and when that
    half was established. *)
Record Walker := mkWalker
  { held : list (list Z); at_id : list Z; at_public : list Z; since : option (list Z) }.

Section WalkFacts.
Context `{SignatureScheme} (root : PinnedAuthorityRoot).

Definition at_root : Walker :=
  mkWalker [root_key_id root] (root_key_id root) (root_public_key root) None.

Definition adopt (link : AuthorityRotationLink) (w : Walker) : Walker :=
  mkWalker (held w ++ [key_id link]) (key_id link) (public_key link) (Some (signed_at link)).

(** One adopted link: present at the current key's address, verified, and
    establishing a key never held before. *)
Inductive adopts (fetch : Store) (w : Walker) : Walker -> Prop :=
| adopts_link bytes link :
    fetch !! at_id w = Some bytes ->
    verified_link_at (at_id w) root bytes = Ok link ->
    key_id link ∉ held w ->
    adopts fetch w (adopt link w).

(** The walkers a walk from the pinned root passes through. *)
Definition reaches (fetch : Store) (w : Walker) : Prop := rtc (adopts fetch) at_root w.

(** The link at the held key's address, when there is one, retires it. *)
Definition retirement (fetch : Store) (w : Walker) (retired : option (list Z)) : Prop :=
  match fetch !! at_id w with
  | None => retired = None
  | Some bytes => exists link, verified_link_at (at_id w) root bytes = Ok link /\
                    key_id link ∉ held w /\ retired = Some (signed_at link)
  end.

Definition resolved_at (w : Walker) (retired : option (list Z)) : ResolvedAuthority :=
  mkResolved (at_id w) (at_public w) (since w) retired.

Definition walker_inv (fetch : Store) (w : Walker) : Prop :=
  exists before, held w = before ++ [at_id w] /\ NoDup (held w) /\
    Forall (fun k => is_Some (fetch !! k)) before.

Lemma walker_inv_root fetch : walker_inv fetch at_root.
Proof. exists []. split_and!; [done|apply NoDup_singleton|done]. Qed.

Lemma adopts_inv fetch w w' : adopts fetch w w' -> walker_inv fetch w -> walker_inv fetch w'.
Proof.
  intros [bytes link Hf _ Hnew] (before & Hh & Hnd & Hb). exists (held w). simpl. split_and!.
  - done.
  - apply NoDup_app. split_and!; [done| |apply NoDup_singleton].
    intros k Hk ->%list_elem_of_singleton. done.
  - rewrite Hh. apply Forall_app. split; [done|]. by repeat constructor.
Qed.

Lemma walk_inv fetch w w' : rtc (adopts fetch) w w' -> walker_inv fetch w -> walker_inv fetch w'.
Proof. induction 1; eauto using adopts_inv. Qed.

Lemma walk_held_prefix fetch w w' : rtc (adopts fetch) w w' -> held w `prefix_of` held w'.
Proof.
  induction 1 as [|w w1 w2 [b l ? ? ?] _ IH]; [done|].
  etrans; [|exact IH]. simpl. by exists [key_id l].
Qed.

(** A walk never returns to a key it held. *)
Lemma walk_leaves fetch w w1 w' : walker_inv fetch w -> adopts fetch w w1 ->
  rtc (adopts fetch) w1 w' -> at_id w' ∉ held w.
Proof.
  intros Hi Ha Hr.
  destruct (walk_inv _ _ _ Hr (adopts_inv _ _ _ Ha Hi)) as (before & Hh & Hnd & _).
  destruct (walk_held_prefix _ _ _ Hr) as [rest Hp]. destruct Ha as [b l ? ? ?]. simpl in Hp.
  rewrite Hp, <- app_assoc in Hh, Hnd. apply NoDup_app in Hnd as (_ & Hd & _). intros Hin.
  apply (Hd _ Hin).
  assert (Hlast : last (held w ++ [key_id l] ++ rest) = Some (at_id w'))
    by (rewrite Hh; apply last_snoc).
  rewrite last_app in Hlast. destruct (last ([key_id l] ++ rest)) as [k|] eqn:E.
  - injection Hlast as ->. by apply last_Some_elem_of in E.
  - by apply last_None in E.
Qed.

Lemma before_bound (fetch : Store) before : NoDup before ->
  Forall (fun k => is_Some (fetch !! k)) before -> (length before <= size fetch)%nat.
Proof.
  intros Hnd Hb. rewrite <- (size_dom fetch), <- (size_list_to_set (C:=gset (list Z)) before Hnd).
  apply subseteq_size. intros k. rewrite elem_of_list_to_set, elem_of_dom.
  rewrite Forall_forall in Hb. apply Hb.
Qed.

(** A walker that can still adopt has not used up the store. *)
Lemma held_bound fetch w : walker_inv fetch w -> (length (held w) <= S (size fetch))%nat.
Proof.
  intros (before & Hh & Hnd & Hb). rewrite Hh in *.
  apply NoDup_app in Hnd as (Hnd & _ & _).
  rewrite length_app. simpl. pose proof (before_bound fetch before Hnd Hb). lia.
Qed.

Lemma verified_link_Ok id bytes link : verified_link_at id root bytes = Ok link <->
  Link_parse bytes = Ok link /\ tenant_id link = root_tenant_id root /\
  previous_key_id link = id /\ verify_predecessor_signature link = true.
Proof.
  unfold verified_link_at. split.
  - intros Hv. inv_record. auto.
  - intros (-> & Ht & Hp & Hs). simpl. rewrite Hs, !bool_decide_eq_true_2 by done. done.
Qed.

Lemma ensure_fuel b e : ensure b e <> OutOfFuel.
Proof. by destruct b. Qed.

Lemma member_parse_fuel {A} o name (f : list Z -> result GrammarError A) :
  (forall t, f t <> OutOfFuel) -> member_parse o name f <> OutOfFuel.
Proof.
  intros Hf. unfold member_parse, ok_or, map_err. destruct (text_member o name) as [t|]; simpl; [|done].
  pose proof (Hf t). by destruct (f t).
Qed.

Lemma parse_object_fuel bytes : parse_object bytes <> OutOfFuel.
Proof.
  unfold parse_object, map_err, Json.parse.
  pose proof (parse_no_fuel bytes DEFAULT_MAX_BYTES DEFAULT_MAX_DEPTH) as Hp.
  destruct (parse_with_limits _ _ _) as [[]| |]; simpl; done.
Qed.

#[local] Hint Resolve ensure_fuel parse_object_fuel member_parse_fuel : fuel.

Lemma Link_of_object_fuel o : Link_of_object o <> OutOfFuel.
Proof. unfold Link_of_object. no_fuel. Qed.

Lemma verified_link_fuel id bytes : verified_link_at id root bytes <> OutOfFuel.
Proof.
  unfold verified_link_at, Link_parse. apply rbind_fuel.
  - apply rbind_fuel; [auto with fuel|]. intros o _. apply Link_of_object_fuel.
  - intros l _. no_fuel.
Qed.

(** ** The walk to a signer *)

Section Loops.
Variable fetch : Store.

(** Fuel left for a walker: one unit per key of the store not held yet. *)
Definition enough (fuel : nat) (w : Walker) : Prop := (S (size fetch) < fuel + length (held w))%nat.

Lemma enough_positive fuel w : walker_inv fetch w -> enough fuel w -> fuel <> 0%nat.
Proof. intros Hi He. pose proof (held_bound _ _ Hi). unfold enough in He. lia. Qed.

Lemma enough_adopt fuel w link : enough (S fuel) w -> enough fuel (adopt link w).
Proof. unfold enough, adopt. simpl. rewrite length_app. simpl. lia. Qed.

(** The verified link at the walker's own key, or why there is none. *)
Inductive next_link (w : Walker) : Type :=
| no_link (Hf : fetch !! at_id w = None)
| bad_link bytes e (Hf : fetch !! at_id w = Some bytes) (Hv : verified_link_at (at_id w) root bytes = Err e)
| good_link bytes link (Hf : fetch !! at_id w = Some bytes)
    (Hv : verified_link_at (at_id w) root bytes = Ok link).

Lemma next_link_cases w : next_link w.
Proof.
  destruct (fetch !! at_id w) as [bytes|] eqn:Hf; [|by apply no_link].
  destruct (verified_link_at (at_id w) root bytes) as [link|e|] eqn:Hv;
    [by eapply good_link|by eapply bad_link|by apply verified_link_fuel in Hv].
Qed.

Lemma at_id_held w : walker_inv fetch w -> at_id w ∈ held w.
Proof. intros (before & -> & _). apply elem_of_app. right. by apply list_elem_of_singleton. Qed.

(** A walk to the key already held is over; a walk to another key adopts. *)
Lemma walk_here w w' : walker_inv fetch w -> rtc (adopts fetch) w w' ->
  at_id w' = at_id w -> w' = w.
Proof.
  intros Hi Hr E. inversion Hr as [|? w1 ? Ha Hr']; [done|subst].
  destruct (walk_leaves _ _ _ _ Hi Ha Hr'). rewrite E. by apply at_id_held.
Qed.

Lemma walk_on w w' : rtc (adopts fetch) w w' -> at_id w' <> at_id w ->
  exists bytes link, fetch !! at_id w = Some bytes /\
    verified_link_at (at_id w) root bytes = Ok link /\ key_id link ∉ held w /\
    rtc (adopts fetch) (adopt link w) w'.
Proof.
  intros Hr E. inversion Hr as [|? w1 ? Ha Hr']; subst; [done|].
  destruct Ha as [bytes link ? ? ?]. by exists bytes, link.
Qed.

Lemma probe_exact w :
  let m := match fetch !! at_id w with
           | None => Ok None
           | Some bytes =>
               let! link := verified_link_at (at_id w) root bytes in
               if bool_decide (key_id link ∈ held w) then Err ChainRule
               else Ok (Some (signed_at link))
           end in
  m <> OutOfFuel /\ forall retired, m = Ok retired <-> retirement fetch w retired.
Proof.
  unfold retirement. destruct (next_link_cases w) as [Hf|bytes e Hf Hv|bytes link Hf Hv];
    rewrite Hf; cbv zeta; rewrite ?Hv; simpl.
  - split; [done|]. naive_solver.
  - split; [done|]. naive_solver.
  - case_bool_decide; (split; [done|]); naive_solver.
Qed.

(** Two verified links at one address of one store are the same link. *)
Ltac same_link :=
  simplify_eq;
  match goal with
  | H1 : verified_link_at ?i ?r ?b = Ok _, H2 : verified_link_at ?i ?r ?b = Ok _ |- _ =>
      rewrite H1 in H2; injection H2 as <-
  end; try done.

Lemma resolve_loop_exact signer fuel w : walker_inv fetch w -> enough fuel w ->
  let m := resolve_loop root signer fetch fuel (at_id w) (at_public w) (since w) (held w) in
  m <> OutOfFuel /\
  forall r, m = Ok r <->
    exists w' retired, rtc (adopts fetch) w w' /\ at_id w' = signer /\
      retirement fetch w' retired /\ r = resolved_at w' retired.
Proof.
  revert w. induction fuel as [|fuel IH]; intros w Hi He.
  { by apply enough_positive in He. }
  cbn [resolve_loop]. cbv zeta. case_bool_decide as Hsig.
  - destruct (probe_exact w) as [Hfuel Hok]. cbv zeta in *. split.
    { apply rbind_fuel; [done|]. done. }
    intros r. rewrite rbind_Ok. split.
    + intros (retired & Hp%Hok & [= <-]). by exists w, retired.
    + intros (w' & retired & Hr & E & Hret & ->).
      apply walk_here in Hr as ->; [|done|congruence]. exists retired. by rewrite Hok.
  - assert (Hon : forall w' retired, rtc (adopts fetch) w w' /\ at_id w' = signer /\
        retirement fetch w' retired -> at_id w' <> at_id w) by naive_solver.
    destruct (next_link_cases w) as [Hf|bytes e Hf Hv|bytes link Hf Hv]; rewrite Hf, ?Hv; simpl.
    + split; [done|]. intros r. split; [done|]. intros (w' & retired & Hr & E & _).
      apply walk_on in Hr as (? & ? & ? & _); congruence.
    + split; [done|]. intros r. split; [done|]. intros (w' & retired & Hr & E & _).
      apply walk_on in Hr as (? & ? & ? & ? & _); congruence.
    + case_bool_decide as Hin.
      * split; [done|]. intros r. split; [done|]. intros (w' & retired & Hr & E & _).
        apply walk_on in Hr as (? & ? & ? & ? & Hnew & _); [|congruence]. same_link.
      * assert (Ha : adopts fetch w (adopt link w)) by by econstructor.
        destruct (IH (adopt link w)) as [Hfuel Hok]; [by eapply adopts_inv|by apply enough_adopt|].
        split; [exact Hfuel|]. intros r. rewrite Hok. split.
        -- intros (w' & retired & Hr & ?). exists w', retired. split; [by econstructor|done].
        -- intros (w' & retired & Hr & E & ?). exists w', retired.
           apply walk_on in Hr as (? & ? & ? & ? & _ & Hr); [|congruence]. same_link.
Qed.

Lemma active_loop_exact fuel w : walker_inv fetch w -> enough fuel w ->
  let m := active_loop root fetch fuel (at_id w) (at_public w) (since w) (held w) in
  m <> OutOfFuel /\
  forall r, m = Ok r <->
    exists w', rtc (adopts fetch) w w' /\ fetch !! at_id w' = None /\ r = resolved_at w' None.
Proof.
  revert w. induction fuel as [|fuel IH]; intros w Hi He.
  { by apply enough_positive in He. }
  cbn [active_loop]. cbv zeta.
  destruct (next_link_cases w) as [Hf|bytes e Hf Hv|bytes link Hf Hv]; rewrite Hf, ?Hv; simpl.
  - split; [done|]. intros r. split.
    + intros [= <-]. by exists w.
    + intros (w' & Hr & _ & ->). inversion Hr as [|? w1 ? Ha _]; subst; [done|].
      destruct Ha; congruence.
  - split; [done|]. intros r. split; [done|]. intros (w' & Hr & E & _).
    inversion Hr as [|? w1 ? Ha _]; subst; [congruence|]. destruct Ha; congruence.
  - case_bool_decide as Hin.
    + split; [done|]. intros r. split; [done|]. intros (w' & Hr & E & _).
      inversion Hr as [|? w1 ? Ha _]; subst; [congruence|]. destruct Ha; same_link.
    + assert (Ha : adopts fetch w (adopt link w)) by by econstructor.
      destruct (IH (adopt link w)) as [Hfuel Hok]; [by eapply adopts_inv|by apply enough_adopt|].
      split; [exact Hfuel|]. intros r. rewrite Hok. split.
      * intros (w' & Hr & ?). exists w'. split; [by econstructor|done].
      * intros (w' & Hr & E & ?). exists w'. split; [|done].
        inversion Hr as [|? w1 ? Hb Hr']; subst; [congruence|]. destruct Hb; same_link.
Qed.
End Loops.

Lemma enough_root fetch : enough fetch (S (size fetch)) at_root.
Proof. unfold enough. simpl. lia. Qed.

Lemma resolve_authority_exact fetch signer :
  resolve_authority root signer fetch <> OutOfFuel /\
  forall r, resolve_authority root signer fetch = Ok r <->
    exists w retired, reaches fetch w /\ at_id w = signer /\
      retirement fetch w retired /\ r = resolved_at w retired.
Proof. apply (resolve_loop_exact fetch signer _ at_root (walker_inv_root fetch) (enough_root fetch)). Qed.

Lemma resolve_active_exact fetch :
  resolve_active_authority root fetch <> OutOfFuel /\
  forall r, resolve_active_authority root fetch = Ok r <->
    exists w, reaches fetch w /\ fetch !! at_id w = None /\ r = resolved_at w None.
Proof. apply (active_loop_exact fetch _ at_root (walker_inv_root fetch) (enough_root fetch)). Qed.

(** A walk runs the loop forward to where it leads. *)
Lemma resolve_loop_run fetch signer w w' fuel : rtc (adopts fetch) w w' -> walker_inv fetch w ->
  at_id w' = signer -> enough fetch fuel w ->
  exists fuel', enough fetch fuel' w' /\
    resolve_loop root signer fetch fuel (at_id w) (at_public w) (since w) (held w) =
    resolve_loop root signer fetch fuel' (at_id w') (at_public w') (since w') (held w').
Proof.
  intros Hr. revert fuel. induction Hr as [w|w w1 w' Ha Hr IH]; intros fuel Hi E He; [by exists fuel|].
  destruct fuel as [|fuel]; [by apply enough_positive in He|].
  pose proof (walk_leaves _ _ _ _ Hi Ha Hr) as Hne.
  assert (at_id w <> signer) by (intros Hw; apply Hne; rewrite E, <- Hw; by apply at_id_held with fetch).
  pose proof (adopts_inv _ _ _ Ha Hi). destruct Ha as [bytes link Hf Hv Hnew].
  destruct (IH fuel) as (fuel' & He' & Heq); [done..|by apply enough_adopt|].
  exists fuel'. split; [done|]. rewrite <- Heq.
  cbn [resolve_loop]. rewrite bool_decide_eq_false_2, Hf by done. cbv zeta.
  rewrite Hv. simpl. by rewrite bool_decide_eq_false_2.
Qed.

Lemma active_loop_run fetch w w' fuel : rtc (adopts fetch) w w' -> walker_inv fetch w ->
  enough fetch fuel w ->
  exists fuel', enough fetch fuel' w' /\
    active_loop root fetch fuel (at_id w) (at_public w) (since w) (held w) =
    active_loop root fetch fuel' (at_id w') (at_public w') (since w') (held w').
Proof.
  intros Hr. revert fuel. induction Hr as [w|w w1 w' Ha Hr IH]; intros fuel Hi He; [by exists fuel|].
  destruct fuel as [|fuel]; [by apply enough_positive in He|].
  pose proof (adopts_inv _ _ _ Ha Hi). destruct Ha as [bytes link Hf Hv Hnew].
  destruct (IH fuel) as (fuel' & He' & Heq); [done|by apply enough_adopt|].
  exists fuel'. split; [done|]. rewrite <- Heq.
  cbn [active_loop]. rewrite Hf. cbv zeta. rewrite Hv. simpl. by rewrite bool_decide_eq_false_2.
Qed.

(** A verified link that leads back to a held key breaks both walks. *)
Lemma loop_breaks_walks fetch w bytes link : reaches fetch w ->
  fetch !! at_id w = Some bytes -> verified_link_at (at_id w) root bytes = Ok link ->
  key_id link ∈ held w ->
  resolve_authority root (at_id w) fetch = Err ChainRule /\
  resolve_active_authority root fetch = Err ChainRule.
Proof.
  intros Hr Hf Hv Hin.
  pose proof (walk_inv _ _ _ Hr (walker_inv_root fetch)) as Hi.
  split.
  - destruct (resolve_loop_run fetch _ _ _ _ Hr (walker_inv_root fetch) eq_refl (enough_root fetch))
      as (fuel & He & Heq).
    unfold resolve_authority. cbn [at_root at_id at_public since held] in Heq. rewrite Heq.
    destruct fuel as [|fuel]; [by apply enough_positive in He|].
    cbn [resolve_loop]. cbv zeta. rewrite bool_decide_eq_true_2, Hf, Hv by done. simpl.
    by rewrite bool_decide_eq_true_2.
  - destruct (active_loop_run fetch _ _ _ Hr (walker_inv_root fetch) (enough_root fetch))
      as (fuel & He & Heq).
    unfold resolve_active_authority. cbn [at_root at_id at_public since held] in Heq. rewrite Heq.
    destruct fuel as [|fuel]; [by apply enough_positive in He|].
    cbn [active_loop]. cbv zeta. rewrite Hf, Hv. simpl. by rewrite bool_decide_eq_true_2.
Qed.

(** ** Publication *)

Lemma adopts_mono fetch fetch' w w' : fetch ⊆ fetch' -> adopts fetch w w' -> adopts fetch' w w'.
Proof. intros Hs [bytes link Hf Hv Hn]. econstructor; [|done..]. by eapply lookup_weaken. Qed.

Lemma reaches_mono fetch fetch' w : fetch ⊆ fetch' -> reaches fetch w -> reaches fetch' w.
Proof. intros Hs Hr. unfold reaches in *. induction Hr; [done|]. econstructor; eauto using adopts_mono. Qed.

(** The store after the candidate is written at its predecessor's address. *)
Definition published (fetch : Store) (candidate : AuthorityRotationLink) : Store :=
  <[previous_key_id candidate := Link_canonical_bytes candidate]> fetch.

Lemma prepare_publish fetch candidate :
  prepare_rotation_publication root candidate fetch = Ok Publish <->
  tenant_id candidate = root_tenant_id root /\ verify_predecessor_signature candidate = true /\
  exists w, reaches fetch w /\ at_id w = previous_key_id candidate /\ fetch !! at_id w = None.
Proof.
  unfold prepare_rotation_publication. rewrite rbind_Ok.
  setoid_rewrite rbind_Ok. setoid_rewrite ensure_Ok.
  destruct (resolve_authority_exact fetch (previous_key_id candidate)) as [_ Hex]. split.
  - intros (_ & Ht & _ & Hs & Hp)%id.
    apply bool_decide_eq_true in Ht. split_and!; [done..|].
    apply rbind_Ok in Hp as (r & Hr%Hex & Hp). destruct Hr as (w & retired & Hw & E & Hret & ->).
    exists w. split_and!; [done..|]. unfold retirement in Hret. simpl in Hp.
    destruct (fetch !! at_id w) as [bytes|] eqn:Hf; [|done].
    destruct Hret as (link & _ & _ & ->). rewrite <- E, Hf in Hp. simpl in Hp.
    by destruct (bool_decide _).
  - intros (Ht & Hs & w & Hw & E & Hf). exists tt. split; [by apply bool_decide_eq_true_2|].
    exists tt. split; [done|].
    assert (resolve_authority root (previous_key_id candidate) fetch = Ok (resolved_at w None)) as ->.
    { apply Hex. exists w, None. split_and!; try done. unfold retirement. by rewrite Hf. }
    done.
Qed.
End WalkFacts.

(** * Facts on instants *)

Lemma days_from_civil_inventory y m d : days_from_civil y m d = Inventory.days_from_civil y m d.
Proof.
  unfold days_from_civil, Inventory.days_from_civil.
  replace (m + (if 2 <? m then -3 else 9)) with (if 2 <? m then m - 3 else m + 9)
    by (destruct (2 <? m); lia).
  by replace (y - (if m <=? 2 then 1 else 0)) with (if m <=? 2 then y - 1 else y)
    by (destruct (m <=? 2); lia).
Qed.

Lemma decimal_bound_from acc l : forallb is_digit l = true -> 0 <= acc ->
  0 <= fold_left (fun acc c => acc * 10 + (c - 48)) l acc < (acc + 1) * 10 ^ zlen l.
Proof.
  revert acc. induction l as [|c l IH]; intros acc Hl Ha; [change (zlen []) with 0; simpl; lia|].
  simpl in Hl. apply andb_true_iff in Hl as [Hc Hl]. unfold is_digit, in_range in Hc.
  cbn [fold_left]. pose proof (IH (acc * 10 + (c - 48)) Hl ltac:(lia)) as B.
  rewrite zlen_cons, Z.pow_add_r by (try apply zlen_nonneg; lia).
  pose proof (Z.pow_pos_nonneg 10 (zlen l) ltac:(lia) (zlen_nonneg l)). nia.
Qed.

Lemma times_ten_pow n x : times_ten n x = x * 10 ^ Z.of_nat n.
Proof.
  revert x. induction n as [|n IH]; intros x; [simpl; lia|].
  cbn [times_ten]. rewrite IH, Nat2Z.inj_succ, Z.pow_succ_r by lia. lia.
Qed.

Lemma utc_nanoseconds_bound stamp : timestamp_grammar stamp = true ->
  0 <= (utc_instant stamp).2 < 10 ^ 9.
Proof.
  unfold timestamp_grammar, utc_instant. set (raw := as_bytes stamp). cbn [snd].
  destruct (35 <? length raw)%nat eqn:E35; [done|]. destruct (length raw <? 20)%nat eqn:E20; [done|].
  do 2 (case_match; [done|]). case_match; [done|]. case_match; [done|].
  rewrite length_drop. destruct (20 <? length raw)%nat eqn:Elen; [|lia].
  apply Nat.ltb_lt in Elen. destruct (length raw - 19 =? 1)%nat eqn:E1; [apply Nat.eqb_eq in E1; lia|].
  case_match; [|done]. intros Hd.
  apply andb_true_iff in Hd as [Hd Hle]. apply andb_true_iff in Hd as [Hd _].
  assert (Hs : slice (drop 19 raw) 1 (length raw - 19 - 1) = slice raw 20 (length raw - 1)).
  { unfold slice. rewrite drop_drop. f_equal. lia. }
  rewrite Hs in Hd. set (digits := slice raw 20 (length raw - 1)) in *.
  assert (Hlen : (length digits <= 9)%nat).
  { unfold digits, slice. rewrite length_take, length_drop. apply Nat.leb_le in Hle. lia. }
  rewrite times_ten_pow. pose proof (decimal_bound_from 0 digits Hd ltac:(lia)) as B.
  unfold decimal. set (v := fold_left _ digits 0) in *.
  assert (10 ^ 9 = 10 ^ zlen digits * 10 ^ Z.of_nat (9 - length digits)) as ->
    by (rewrite <- Z.pow_add_r by (unfold zlen; lia); f_equal; unfold zlen; lia).
  pose proof (Z.pow_pos_nonneg 10 (Z.of_nat (9 - length digits))). nia.
Qed.

(** Nanoseconds since the Unix epoch. *)
Definition nanos (stamp : list Z) : Z := (utc_instant stamp).1 * 10 ^ 9 + (utc_instant stamp).2.

Lemma instant_lt_nanos a b k : timestamp_grammar a = true -> timestamp_grammar b = true ->
  instant_lt (utc_instant a) ((utc_instant b).1 + k, (utc_instant b).2) = true
    <-> nanos a < nanos b + k * 10 ^ 9.
Proof.
  intros Ha%utc_nanoseconds_bound Hb%utc_nanoseconds_bound. unfold instant_lt, nanos.
  change (10 ^ 9) with 1000000000 in *. cbn [fst snd].
  rewrite orb_true_iff, andb_true_iff, Z.eqb_eq, !Z.ltb_lt. lia.
Qed.

Lemma lt_instant_nanos a b k : timestamp_grammar a = true -> timestamp_grammar b = true ->
  instant_lt ((utc_instant b).1 + k, (utc_instant b).2) (utc_instant a) = true
    <-> nanos b + k * 10 ^ 9 < nanos a.
Proof.
  intros Ha%utc_nanoseconds_bound Hb%utc_nanoseconds_bound. unfold instant_lt, nanos.
  change (10 ^ 9) with 1000000000 in *. cbn [fst snd].
  rewrite orb_true_iff, andb_true_iff, Z.eqb_eq, !Z.ltb_lt. lia.
Qed.

(** The window a resolved half may sign in: from its establishment through
    24 hours after its retirement. *)
Definition may_sign (r : ResolvedAuthority) (at_ : list Z) : Prop :=
  calendar_valid at_ = true /\
  (forall e, established_at r = Some e -> nanos e <= nanos at_) /\
  (forall t, retired_at r = Some t -> nanos at_ <= nanos t + 24 * 3600 * 10 ^ 9).

Definition wf_resolved (r : ResolvedAuthority) : Prop :=
  (forall e, established_at r = Some e -> timestamp_grammar e = true) /\
  (forall t, retired_at r = Some t -> timestamp_grammar t = true).

Lemma instant_eta b : utc_instant b = ((utc_instant b).1 + 0, (utc_instant b).2).
Proof. rewrite Z.add_0_r. by destruct (utc_instant b). Qed.

Lemma acceptance_cases r at_ : wf_resolved r -> timestamp_grammar at_ = true ->
  match acceptance r at_ with
  | Accepted => may_sign r at_
  | InvalidInstant => calendar_valid at_ = false
  | BeforeEstablishment => exists e, established_at r = Some e /\ nanos at_ < nanos e
  | AfterRetirement =>
      exists t, retired_at r = Some t /\ nanos t + 24 * 3600 * 10 ^ 9 < nanos at_
  end.
Proof.
  intros [He Ht] Ha. unfold acceptance, may_sign.
  destruct (calendar_valid at_); cbn [negb]; [|done].
  destruct (match established_at r with Some _ => _ | None => _ end) eqn:Eb.
  { destruct (established_at r) as [e|]; [|done]. exists e. split; [done|].
    rewrite (instant_eta e) in Eb. apply instant_lt_nanos in Eb; [lia|done|by apply He]. }
  assert (Hest : forall e, established_at r = Some e -> nanos e <= nanos at_).
  { intros e E. rewrite E in Eb. apply not_true_iff_false in Eb.
    rewrite (instant_eta e), instant_lt_nanos in Eb; [lia|done|by apply He]. }
  destruct (retired_at r) as [t|] eqn:Et; [|done].
  rewrite (surjective_pairing (utc_instant t)). cbv iota.
  destruct (instant_lt _ (utc_instant at_)) eqn:Er; rewrite <- ?not_true_iff_false in Er;
    rewrite lt_instant_nanos in Er by auto; unfold OVERLAP_SECONDS, ROTATION_VERIFICATION_OVERLAP_HOURS in Er.
  - exists t. split; [done|lia].
  - split_and!; [done..|]. intros t' [= <-]. lia.
Qed.

Lemma verify_signing_at_exact r at_ : wf_resolved r -> timestamp_grammar at_ = true ->
  (verify_signing_at r at_ = Ok tt <-> may_sign r at_).
Proof.
  intros Hr Ha. pose proof (acceptance_cases r at_ Hr Ha) as Hc. unfold verify_signing_at.
  destruct (acceptance r at_).
  - done.
  - split; [done|]. intros (Hcal & _). congruence.
  - split; [done|]. intros (_ & Hest & _). destruct Hc as (e & E & Hlt). specialize (Hest e E). lia.
  - split; [done|]. intros (_ & _ & Hret). destruct Hc as (t & E & Hlt). specialize (Hret t E). lia.
Qed.

(** * What a walk trusts *)

Lemma retirement_None `{SignatureScheme} root fetch w :
  fetch !! at_id w = None -> retirement root fetch w None.
Proof. intros Hf. unfold retirement. by rewrite Hf. Qed.

Lemma verified_link_wf `{SignatureScheme} root id bytes link :
  verified_link_at id root bytes = Ok link -> wf_link link.
Proof. intros (Hp & _)%verified_link_Ok. by apply Link_parse_sound in Hp as [? _]. Qed.

Lemma reaches_since `{SignatureScheme} root fetch w e :
  reaches root fetch w -> since w = Some e -> timestamp_grammar e = true.
Proof.
  intros Hr E. apply rtc_inv_r in Hr as [<-|(w0 & _ & Ha)]; [done|].
  destruct Ha as [bytes link _ Hv _]. injection E as <-.
  by apply verified_link_wf in Hv as [].
Qed.

Lemma resolve_wf `{SignatureScheme} root signer fetch r :
  resolve_authority root signer fetch = Ok r -> wf_resolved r.
Proof.
  intros (w & retired & Hw & _ & Hret & ->)%resolve_authority_exact. split; simpl.
  - intros e. by apply (reaches_since root fetch).
  - intros t ->. unfold retirement in Hret. destruct (fetch !! at_id w); [|done].
    destruct Hret as (link & Hv & _ & [= ->]). by apply verified_link_wf in Hv as [].
Qed.

Lemma reaches_derived `{SignatureScheme} tenant public fetch w :
  reaches (Root_new tenant public) fetch w -> at_id w = KeyId_from_public_key (at_public w).
Proof.
  intros Hr. apply rtc_inv_r in Hr as [<-|(w0 & _ & Ha)]; [done|].
  destruct Ha as [bytes link _ Hv _]. simpl. by apply verified_link_wf in Hv as [].
Qed.

(** A verified link was signed by the half the walk trusts, unless its
    predecessor half is another preimage of the trusted half's key id. *)
Definition signed_by_trusted `{SignatureScheme} (w : Walker) (link : AuthorityRotationLink) : Prop :=
  verify (at_public w) (unsigned_canonical_bytes link) (authority_signature link) = true \/
  (previous_public_key link <> at_public w /\
   digest (previous_public_key link) = digest (at_public w)).

Lemma verified_link_trusted `{SignatureScheme} root w bytes link :
  at_id w = KeyId_from_public_key (at_public w) ->
  verified_link_at (at_id w) root bytes = Ok link -> signed_by_trusted w link.
Proof.
  intros Hid Hv. pose proof (verified_link_wf _ _ _ _ Hv) as Hwf.
  apply verified_link_Ok in Hv as (_ & _ & Hp & Hs).
  unfold signed_by_trusted, verify_predecessor_signature in *.
  destruct (decide (previous_public_key link = at_public w)) as [<-|Hne]; [by left|right].
  split; [done|]. destruct Hwf as [_ _ _ _ _ Hd _ _ _ _].
  unfold KeyId_from_public_key in *. congruence.
Qed.

(** * What a verified control record is *)

Record authentic `{SignatureScheme} (root : PinnedAuthorityRoot) (envelope : list Z)
    (fetch : Store) (r : ResolvedAuthority) (o : Object) (signer signature at_ : list Z) : Prop := {
  au_parsed : Json.parse envelope = Ok (VObject o);
  au_namespace : text_member o (lit "schema") = Some CONTROL_NAMESPACE;
  au_type : is_Some (text_member o (lit "record_type"));
  au_kind : is_Some (text_member o (lit "record_kind"));
  au_tenant : text_member o (lit "tenant_id") = Some (root_tenant_id root);
  au_tenant_grammar : uuid_grammar (root_tenant_id root) 4 = true;
  au_signer : exists t, text_member o (lit "authority_key_id") = Some t /\ digest_parse t = Ok signer;
  au_signature : exists t, text_member o (lit "authority_signature") = Some t /\
                   Ed25519Signature_parse t = Ok signature;
  au_signed_at : text_member o (lit "signed_at") = Some at_ /\ timestamp_grammar at_ = true;
  au_resolved : resolve_authority root signer fetch = Ok r;
  au_window : may_sign r at_;
  au_verified : verify (resolved_public_key r)
                  (canonical_bytes (VObject (object_remove o (lit "authority_signature")).2))
                  signature = true }.

Lemma is_some_is_Some {A} (o : option A) : is_some o = true <-> is_Some o.
Proof. rewrite <- not_eq_None_Some. destruct o; simpl; naive_solver. Qed.

Lemma verify_signing_authority_exact `{SignatureScheme} root signer at_ fetch r :
  timestamp_grammar at_ = true ->
  verify_signing_authority root signer at_ fetch = Ok r <->
  resolve_authority root signer fetch = Ok r /\ may_sign r at_.
Proof.
  intros Ha. unfold verify_signing_authority. split.
  - intros (? & _ & Hr)%rbind_Ok. apply rbind_Ok in Hr as (r' & Hr & Hs).
    apply rbind_Ok in Hs as ([] & Hs & [= <-]). split; [done|].
    apply verify_signing_at_exact in Hs; eauto using resolve_wf.
  - intros [Hr Hs]. assert (Hcal := proj1 Hs). rewrite Hcal, Hr. simpl.
    apply verify_signing_at_exact in Hs; [|eauto using resolve_wf|done]. by rewrite Hs.
Qed.

Lemma verify_control_record_sound `{SignatureScheme} root envelope fetch r :
  verify_control_record root envelope fetch = Ok r ->
  exists o signer signature at_, authentic root envelope fetch r o signer signature at_.
Proof.
  unfold verify_control_record, verify_control_record_resolved. intros Hv.
  apply rbind_Ok in Hv as (o & Hp%parse_object_Ok & Hv). simpl in Hv. inv_record.
  match goal with H : context [verify_signing_authority] |- _ =>
    apply verify_signing_authority_exact in H as [? ?]; [|done] end.
  repeat match goal with H : is_some _ = true |- _ => apply is_some_is_Some in H end.
  subst. eexists o, _, _, _. by econstructor; eauto.
Qed.

Lemma verify_control_record_complete `{SignatureScheme} root envelope fetch r o signer signature at_ :
  authentic root envelope fetch r o signer signature at_ ->
  verify_control_record root envelope fetch = Ok r.
Proof.
  intros [Hp Hns Hty Hk Ht Hg Hs Hsig [Ha Hat] Hr Hw Hv].
  unfold verify_control_record, verify_control_record_resolved.
  apply parse_object_Ok in Hp. rewrite Hp. cbn [rbind]. rewrite Hns, bool_decide_eq_true_2 by done.
  cbn [forallb]. rewrite (proj2 (is_some_is_Some _) Hty), (proj2 (is_some_is_Some _) Hk).
  cbn [ensure rbind andb].
  rewrite (proj2 (member_parse_Ok o _ TenantId_parse (root_tenant_id root))); cycle 1.
  { exists (root_tenant_id root). split; [done|]. by apply text_parse_Ok. }
  rewrite (proj2 (member_parse_Ok o _ digest_parse signer) Hs).
  rewrite (proj2 (member_parse_Ok o _ Ed25519Signature_parse signature) Hsig).
  rewrite (proj2 (member_parse_Ok o _ Timestamp_parse at_)); cycle 1.
  { exists at_. split; [done|]. by apply text_parse_Ok. }
  cbn [rbind]. rewrite bool_decide_eq_true_2 by done. cbn [ensure rbind].
  rewrite (proj2 (verify_signing_authority_exact _ _ _ _ _ Hat) (conj Hr Hw)).
  cbn [rbind]. by rewrite Hv.
Qed.

(** * What a publication does to the chain *)

Section Publication.
Context `{SignatureScheme} (root : PinnedAuthorityRoot) (fetch : Store).
Variables (bytes : list Z) (candidate : AuthorityRotationLink) (w : Walker).
Hypothesis Hparsed : Link_parse bytes = Ok candidate.
Hypothesis Htenant : tenant_id candidate = root_tenant_id root.
Hypothesis Hsigned : verify_predecessor_signature candidate = true.
Hypothesis Hreach : reaches root fetch w.
Hypothesis Hat : at_id w = previous_key_id candidate.
Hypothesis Hfree : fetch !! at_id w = None.

Let fetch' := published fetch candidate.

Lemma published_here : fetch' !! at_id w = Some (Link_canonical_bytes candidate).
Proof. unfold fetch', published. by rewrite Hat, lookup_insert_eq. Qed.

Lemma published_other k : k <> at_id w -> fetch' !! k = fetch !! k.
Proof. intros Hk. unfold fetch', published. rewrite lookup_insert_ne; congruence. Qed.

Lemma published_reaches w' : reaches root fetch w' -> reaches root fetch' w'.
Proof. apply reaches_mono. unfold fetch', published. apply insert_subseteq. by rewrite <- Hat. Qed.

Lemma published_verified : verified_link_at (at_id w) root (Link_canonical_bytes candidate) = Ok candidate.
Proof.
  apply verified_link_Ok. split_and!; [by eapply Link_parse_canonical|done|by rewrite Hat|done].
Qed.

(** Every signer but the retired one resolves as before. *)
Lemma published_stable signer r : signer <> previous_key_id candidate ->
  resolve_authority root signer fetch = Ok r -> resolve_authority root signer fetch' = Ok r.
Proof.
  intros Hs (w' & retired & Hw & E & Hret & ->)%resolve_authority_exact.
  apply resolve_authority_exact. exists w', retired. split_and!; [by apply published_reaches|done| |done].
  unfold retirement in *. rewrite published_other; [done|congruence].
Qed.

Hypothesis Hfresh : key_id candidate ∉ held w.

Lemma published_retires :
  resolve_authority root (previous_key_id candidate) fetch' =
    Ok (resolved_at w (Some (signed_at candidate))).
Proof.
  apply resolve_authority_exact. exists w, (Some (signed_at candidate)).
  split_and!; [by apply published_reaches|done| |done].
  unfold retirement. rewrite published_here. exists candidate.
  split_and!; [apply published_verified|done|done].
Qed.

Lemma published_tip : fetch !! key_id candidate = None ->
  resolve_active_authority root fetch' = Ok (resolved_at (adopt candidate w) None).
Proof.
  intros Hnone. apply resolve_active_exact. exists (adopt candidate w). split_and!; [| |done].
  - eapply rtc_r; [by apply published_reaches|].
    econstructor; [apply published_here|apply published_verified|done].
  - simpl. rewrite published_other; [done|]. intros E. apply Hfresh. rewrite E.
    eapply at_id_held, walk_inv; [exact Hreach|apply walker_inv_root].
Qed.

(** A second candidate for the retired key: the same bytes are recognised, any
    other link is refused. *)
Lemma published_again other : tenant_id other = root_tenant_id root ->
  verify_predecessor_signature other = true -> previous_key_id other = previous_key_id candidate ->
  prepare_rotation_publication root other fetch' =
    if bool_decide (Link_canonical_bytes other = Link_canonical_bytes candidate)
    then Ok AlreadyPublished else Err AlreadyRetired.
Proof.
  intros Ht Hs Hp. unfold prepare_rotation_publication.
  rewrite bool_decide_eq_true_2 by done. rewrite Hs. cbn [ensure rbind].
  rewrite Hp, published_retires. cbn [rbind resolved_at retired_at].
  rewrite <- Hat, published_here. cbn [ok_or rbind].
  case_bool_decide; case_bool_decide; congruence.
Qed.
End Publication.

(** * Properties *)


(** Every half the walk holds hashes to the key id it is held under, and
    every link it verifies carries a signature over the link's own canonical
    bytes that verifies under the half already trusted; the only escape is a
    second 32-byte half with the same SHA-256 digest. *)
Theorem authority_links_trusted `{SignatureScheme} tenant public fetch w bytes link :
  reaches (Root_new tenant public) fetch w ->
  verified_link_at (at_id w) (Root_new tenant public) bytes = Ok link ->
  digest (at_public w) = at_id w /\ signed_by_trusted w link.
Proof.
  intros Hr Hv. pose proof (reaches_derived _ _ _ _ Hr) as Hid.
  split; [by symmetry|]. by eapply verified_link_trusted.
Qed.

(** The active walk always finishes, and the authority it names is the
    chain's tip: nothing retires it, no link sits at its address, and resolving
    it by name gives the same answer. *)
Theorem active_authority_is_tip `{SignatureScheme} root fetch :
  resolve_active_authority root fetch <> OutOfFuel /\
  forall r, resolve_active_authority root fetch = Ok r ->
    retired_at r = None /\ fetch !! resolved_key_id r = None /\
    resolve_authority root (resolved_key_id r) fetch = Ok r.
Proof.
  destruct (resolve_active_exact root fetch) as [Hfuel Hex]. split; [done|].
  intros r (w & Hw & Hf & ->)%Hex. split_and!; [done..|].
  apply resolve_authority_exact. exists w, None. auto using retirement_None.
Qed.

(** A signing instant is accepted for a resolved signer exactly from the
    nanosecond its establishing link was signed through the nanosecond 24
    hours after its retiring link was signed, both ends included. *)
Theorem signing_window_exact `{SignatureScheme} root signer at_ fetch r :
  timestamp_grammar at_ = true ->
  verify_signing_authority root signer at_ fetch = Ok r <->
  resolve_authority root signer fetch = Ok r /\ may_sign r at_.
Proof. apply verify_signing_authority_exact. Qed.

(** A control record verifies exactly when it is a JSON object of the
    control namespace and the root's tenant whose named signer resolves from
    the root, may have signed at the record's own instant, and whose signature
    verifies, under the resolved half, over the canonical bytes of the record
    without its signature member. *)
Theorem control_record_authentic `{SignatureScheme} root envelope fetch r :
  verify_control_record root envelope fetch = Ok r <->
  exists o signer signature at_, authentic root envelope fetch r o signer signature at_.
Proof.
  split; [apply verify_control_record_sound|].
  intros (o & signer & signature & at_ & Ha). by eapply verify_control_record_complete.
Qed.

(** A link that parses is well-formed (both key ids derived, the retired
    key signing, the succession advancing); whatever bytes it was stored
    under, its rendering is the canonical form of those bytes and parses back
    to the same link, and the bytes its signature covers are that object
    without the signature member. *)
Theorem link_wire_exact bytes l :
  Link_parse bytes = Ok l ->
  wf_link l /\ Link_parse (Link_canonical_bytes l) = Ok l /\
  exists o, Json.parse bytes = Ok (VObject o) /\
    Link_canonical_bytes l = canonical_bytes (VObject o) /\
    unsigned_canonical_bytes l =
      canonical_bytes (VObject (object_remove o (lit "authority_signature")).2).
Proof.
  intros Hp. pose proof (Link_parse_sound _ _ Hp) as (Hwf & Ho & _).
  split; [done|]. split; [by eapply Link_parse_canonical|].
  exists (signed_members l). rewrite signed_members_remove. by apply parse_object_Ok in Ho.
Qed.

(** Publishing a link the gate admits, when the key it establishes is new
    to the chain and its address is free, extends the chain by exactly that
    link: the predecessor is retired at the link's instant, the successor is
    the active authority, every other signer resolves as before, a repeat of
    the same bytes is recognised and any other link for the retired key is
    refused. *)
Theorem publication_extends_chain `{SignatureScheme} root fetch bytes candidate w :
  Link_parse bytes = Ok candidate ->
  prepare_rotation_publication root candidate fetch = Ok Publish ->
  reaches root fetch w -> at_id w = previous_key_id candidate ->
  key_id candidate ∉ held w -> fetch !! key_id candidate = None ->
  let fetch' := published fetch candidate in
  resolve_authority root (previous_key_id candidate) fetch' =
    Ok (resolved_at w (Some (signed_at candidate))) /\
  resolve_active_authority root fetch' =
    Ok (mkResolved (key_id candidate) (public_key candidate) (Some (signed_at candidate)) None) /\
  (forall signer r, signer <> previous_key_id candidate ->
     resolve_authority root signer fetch = Ok r -> resolve_authority root signer fetch' = Ok r) /\
  (forall other, tenant_id other = root_tenant_id root ->
     verify_predecessor_signature other = true ->
     previous_key_id other = previous_key_id candidate ->
     prepare_rotation_publication root other fetch' =
       if bool_decide (Link_canonical_bytes other = Link_canonical_bytes candidate)
       then Ok AlreadyPublished else Err AlreadyRetired).
Proof.
  intros Hp (Ht & Hs & w0 & Hw0 & E0 & Hfree)%prepare_publish Hw E Hnew Hnone fetch'.
  assert (Hf : fetch !! at_id w = None) by (by rewrite E, <- E0).
  split_and!.
  - by eapply published_retires.
  - eapply (published_tip root fetch bytes candidate w); done.
  - intros signer r. by eapply published_stable.
  - intros other. by eapply published_again.
Qed.

(** The gate does not look at the key a candidate establishes: it admits a
    link that re-establishes a key the chain already held, and once that link
    is stored neither its predecessor nor the active authority resolves. *)
Theorem publication_can_close_a_loop `{SignatureScheme} root fetch bytes candidate w :
  Link_parse bytes = Ok candidate ->
  tenant_id candidate = root_tenant_id root -> verify_predecessor_signature candidate = true ->
  reaches root fetch w -> at_id w = previous_key_id candidate -> fetch !! at_id w = None ->
  key_id candidate ∈ held w ->
  prepare_rotation_publication root candidate fetch = Ok Publish /\
  resolve_authority root (previous_key_id candidate) (published fetch candidate) = Err ChainRule /\
  resolve_active_authority root (published fetch candidate) = Err ChainRule.
Proof.
  intros Hp Ht Hs Hw E Hf Hin. split.
  { apply prepare_publish. split_and!; [done..|]. by exists w. }
  rewrite <- E. eapply loop_breaks_walks; [|by eapply published_here|by eapply published_verified|done].
  by eapply published_reaches.
Qed.

(** * Witnesses

    Three halves, a verdict that accepts every signature, and the chain from
    the first to the second. *)

Definition half (k : Z) : list Z := replicate 32 k.

#[local] Instance always : SignatureScheme := fun _ _ _ => true.

Definition sample_tenant : list Z := lit "1a2b3c4d-5e6f-4a1b-9c2d-3e4f5a6b7c8d".
Definition sample_root : PinnedAuthorityRoot := Eval vm_compute in Root_new sample_tenant (half 1).

Definition sample_link (a b : Z) (at_ : string) : AuthorityRotationLink :=
  mkLink sample_tenant (half a) (digest (half a)) Ed25519 (half b) (digest (half b)) (lit at_)
    (digest (half a)) (replicate 64 7).

Definition link_12 : AuthorityRotationLink := Eval vm_compute in sample_link 1 2 "2026-09-10T00:00:00Z".
Definition link_21 : AuthorityRotationLink := Eval vm_compute in sample_link 2 1 "2026-09-12T00:00:00Z".
Definition bytes_12 : list Z := Eval vm_compute in Link_canonical_bytes link_12.
Definition bytes_21 : list Z := Eval vm_compute in Link_canonical_bytes link_21.

Lemma parse_12 : Link_parse bytes_12 = Ok link_12.
Proof. vm_compute. reflexivity. Qed.

Lemma parse_21 : Link_parse bytes_21 = Ok link_21.
Proof. vm_compute. reflexivity. Qed.

Lemma verified_12 root : tenant_id link_12 = root_tenant_id root ->
  verified_link_at (previous_key_id link_12) root bytes_12 = Ok link_12.
Proof. intros Ht. apply verified_link_Ok. split_and!; [apply parse_12|done|reflexivity|reflexivity]. Qed.

(** The root pinned, then the link to the second half stored. *)
Definition store_12 : Store := {[ previous_key_id link_12 := bytes_12 ]}.
Definition at_second : Walker := adopt link_12 (at_root sample_root).

Lemma reaches_second : reaches sample_root store_12 at_second.
Proof.
  apply rtc_once. apply (adopts_link _ _ _ bytes_12 link_12).
  - apply lookup_singleton_eq.
  - by apply verified_12.
  - vm_compute. intros Hin. apply list_elem_of_singleton in Hin. discriminate Hin.
Qed.

Lemma authority_links_trusted_witness :
  digest (half 1) = root_key_id sample_root /\ signed_by_trusted (at_root sample_root) link_12.
Proof.
  apply (authority_links_trusted sample_tenant (half 1) ∅ (at_root sample_root) bytes_12).
  - apply rtc_refl.
  - vm_compute. reflexivity.
Defined.

Lemma signing_window_exact_witness :
  verify_signing_authority sample_root (root_key_id sample_root) (lit "2026-09-11T00:00:00Z") store_12
    = Ok (mkResolved (root_key_id sample_root) (half 1) None (Some (signed_at link_12))).
Proof.
  apply signing_window_exact; [reflexivity|]. split; [vm_compute; reflexivity|].
  split_and!; [vm_compute; reflexivity|intros e [=]|]. intros t [= <-]. vm_compute. discriminate.
Defined.

Lemma link_wire_exact_witness :
  wf_link link_12 /\ Link_parse (Link_canonical_bytes link_12) = Ok link_12.
Proof.
  destruct (link_wire_exact bytes_12 link_12 parse_12) as (Hwf & Hc & _). exact (conj Hwf Hc).
Defined.

Lemma publication_extends_chain_witness :
  resolve_active_authority sample_root (published ∅ link_12) =
    Ok (mkResolved (key_id link_12) (public_key link_12) (Some (signed_at link_12)) None).
Proof.
  assert (Hnew : key_id link_12 ∉ held (at_root sample_root)).
  { vm_compute. intros Hin. apply list_elem_of_singleton in Hin. discriminate Hin. }
  assert (Hgate : prepare_rotation_publication sample_root link_12 ∅ = Ok Publish)
    by (vm_compute; reflexivity).
  exact (proj1 (proj2 (publication_extends_chain sample_root ∅ bytes_12 link_12 (at_root sample_root)
    parse_12 Hgate (rtc_refl _ _) eq_refl Hnew eq_refl))).
Defined.

Lemma publication_can_close_a_loop_witness :
  prepare_rotation_publication sample_root link_21 store_12 = Ok Publish /\
  resolve_authority sample_root (previous_key_id link_21) (published store_12 link_21) = Err ChainRule /\
  resolve_active_authority sample_root (published store_12 link_21) = Err ChainRule.
Proof.
  apply (publication_can_close_a_loop sample_root store_12 bytes_21 link_21 at_second).
  - apply parse_21.
  - reflexivity.
  - reflexivity.
  - apply reaches_second.
  - reflexivity.
  - vm_compute. reflexivity.
  - vm_compute. apply elem_of_cons. by left.
Defined.

(** A link is itself a control record of the root's tenant: it verifies. *)
Example link_is_a_control_record :
  verify_control_record sample_root bytes_12 store_12 =
    Ok (mkResolved (root_key_id sample_root) (half 1) None (Some (signed_at link_12))).
Proof. vm_compute. reflexivity. Qed.
