(* ===== verification/TrustCache.v ===== *)
(** The bounded 60-second trust cache
    ([crates/archivist-auth/src/trust_cache.rs]) in front of the authority
    walk: the entry map, a lookup that evicts what it refuses, insertion, and
    resolution with the acceptance rule at the record's own instant.

    [resolve] holds the lock for the lookup and for the insertion but not for
    the walk between them, so concurrent calls interleave there: [call_step]
    has one step per locked section.  The clock reading is an argument. *)

From S2P Require Import Prelude Text Json Vocabulary Authority.

Definition TRUST_CACHE_TTL_SECONDS : Z := 60.

Record CacheEntry := mkEntry { resolved : ResolvedAuthority; cached_at : Z }.

(** [HashMap<(TenantId, KeyId), CacheEntry>]. *)
Abbreviation Entries := (gmap (list Z * list Z) CacheEntry).

Definition is_fresh (now : Z) (entry : CacheEntry) : bool :=
  sat_sub now (cached_at entry) <? TRUST_CACHE_TTL_SECONDS.

Definition fresh_resolution (entries : Entries) (tenant signer : list Z) (now : Z)
    : option ResolvedAuthority * Entries :=
  let key := (tenant, signer) in
  let fresh :=
    match entries !! key with
    | Some entry => if is_fresh now entry then Some (resolved entry) else None
    | None => None
    end in
  match fresh with
  | Some r => (Some r, entries)
  | None => (None, delete key entries)
  end.

Definition insert_entry (entries : Entries) (tenant signer : list Z) (r : ResolvedAuthority)
    (at_ : Z) : Entries :=
  <[(tenant, signer) := mkEntry r at_]> entries.

(** [BoundedTrustCache::resolve], the clock having read [now]. *)
Definition resolve (entries : Entries) (now : Z) (tenant signer signed_at : list Z)
    (walk : list Z -> list Z -> outcome ResolvedAuthority) : outcome ResolvedAuthority * Entries :=
  match fresh_resolution entries tenant signer now with
  | (Some r, entries) => (let! _ := verify_signing_at r signed_at in Ok r, entries)
  | (None, entries) =>
      match walk tenant signer with
      | Ok r =>
          (let! _ := verify_signing_at r signed_at in Ok r, insert_entry entries tenant signer r now)
      | Err e => (Err e, entries)
      | OutOfFuel => (OutOfFuel, entries)
      end
  end.

(** * Concurrent calls *)

(** One call of [resolve]: what it asks for and the clock it read first. *)
Record Call := mkCall { c_tenant : list Z; c_signer : list Z; c_now : Z }.

(** The shared map, the calls between their lookup and their insertion, and
    what happened so far: the walks that reached a resolution and the
    resolutions handed to acceptance. *)
Record System := mkSystem
  { entries : Entries; walking : list Call;
    walked : list (Call * ResolvedAuthority); served : list (Call * ResolvedAuthority) }.

Definition initial : System := mkSystem ∅ [] [] [].

Inductive call_step (s : System) : System -> Prop :=
| lookup_hit c r m :
    fresh_resolution (entries s) (c_tenant c) (c_signer c) (c_now c) = (Some r, m) ->
    call_step s (mkSystem m (walking s) (walked s) ((c, r) :: served s))
| lookup_miss c m :
    fresh_resolution (entries s) (c_tenant c) (c_signer c) (c_now c) = (None, m) ->
    call_step s (mkSystem m (c :: walking s) (walked s) (served s))
| walk_reached before c after r :
    walking s = before ++ c :: after ->
    call_step s (mkSystem (insert_entry (entries s) (c_tenant c) (c_signer c) r (c_now c))
                   (before ++ after) ((c, r) :: walked s) ((c, r) :: served s))
| walk_failed before c after :
    walking s = before ++ c :: after ->
    call_step s (mkSystem (entries s) (before ++ after) (walked s) (served s)).

Definition reachable (s : System) : Prop := rtc call_step initial s.

(** * Lemmas *)

Lemma fresh_resolution_cases m tenant signer now :
  match fresh_resolution m tenant signer now with
  | (Some r, m') => m' = m /\ exists entry, m !! (tenant, signer) = Some entry /\
                      r = resolved entry /\ now - cached_at entry < 60
  | (None, m') => m' = delete (tenant, signer) m /\
                  forall entry, m !! (tenant, signer) = Some entry -> 60 <= now - cached_at entry
  end.
Proof.
  unfold fresh_resolution, is_fresh, sat_sub, TRUST_CACHE_TTL_SECONDS.
  destruct (m !! (tenant, signer)) as [entry|] eqn:E; [|done].
  destruct (_ <? 60) eqn:Hlt.
  - split; [done|]. exists entry. split_and!; [done..|lia].
  - split; [done|]. intros entry' [= <-]. lia.
Qed.

(** An answer comes from a walk for the same tenant and signer begun less than
    60 seconds before, on the clock the call itself read. *)
Definition backed (walks : list (Call * ResolvedAuthority)) (c : Call) (r : ResolvedAuthority) : Prop :=
  exists c', (c', r) ∈ walks /\ c_tenant c' = c_tenant c /\ c_signer c' = c_signer c /\
    c_now c - c_now c' < 60.

Definition cache_inv (s : System) : Prop :=
  (forall tenant signer entry, entries s !! (tenant, signer) = Some entry ->
     (mkCall tenant signer (cached_at entry), resolved entry) ∈ walked s) /\
  (forall c r, (c, r) ∈ served s -> backed (walked s) c r).

Lemma backed_more walks x c r : backed walks c r -> backed (x :: walks) c r.
Proof. intros (c' & Hin & ?). exists c'. split; [by apply elem_of_cons; right|done]. Qed.

Lemma cache_inv_step s s' : call_step s s' -> cache_inv s -> cache_inv s'.
Proof.
  intros Hstep [Hent Hserved]. destruct Hstep as [c r m Hf|c m Hf|before c after r Hw|before c after Hw].
  - pose proof (fresh_resolution_cases (entries s) (c_tenant c) (c_signer c) (c_now c)) as Hc.
    rewrite Hf in Hc. destruct Hc as (-> & entry & He & -> & Hage). split; [done|]. simpl.
    intros c' r' [[= -> ->]|Hin]%elem_of_cons; [|auto].
    eexists. split; [by apply Hent|]. done.
  - pose proof (fresh_resolution_cases (entries s) (c_tenant c) (c_signer c) (c_now c)) as Hc.
    rewrite Hf in Hc. destruct Hc as (-> & _). split; simpl; [|done].
    intros tenant signer entry [_ He]%lookup_delete_Some. auto.
  - split; simpl.
    + unfold insert_entry. intros tenant signer entry. rewrite lookup_insert_Some.
      intros [[[= <- <-] <-]|[_ He]]; apply elem_of_cons; [left|right; auto]. by destruct c.
    + intros c' r' [[= -> ->]|Hin]%elem_of_cons; [|auto using backed_more].
      exists c. split; [by apply elem_of_cons; left|]. split_and!; [done..|lia].
  - done.
Qed.

Lemma cache_inv_reachable s : reachable s -> cache_inv s.
Proof.
  intros Hr. unfold reachable in Hr. apply rtc_ind_r with (z := s) (P := cache_inv) in Hr; [done| |].
  - split; simpl; [intros ? ? ? H; by rewrite lookup_empty in H|]. intros c r H. by apply elem_of_nil in H.
  - intros s1 s2 _ Hs. by apply cache_inv_step.
Qed.

(** * Properties *)

(** C33: However concurrent calls interleave, every resolution handed to the
    acceptance rule was reached by a walk for the same tenant and signer that
    began less than 60 seconds before the call on the clock the call read:
    nothing is served stale, nothing is served across tenants or signers, and
    nothing is served that no walk reached. *)
Theorem trust_cache_bounded s c r :
  reachable s -> (c, r) ∈ served s -> backed (walked s) c r.
Proof. intros [_ Hserved]%cache_inv_reachable. apply Hserved. Qed.

(** An outage fails closed after the lease: in every reachable state, when
    no walk for the tenant and signer began within the last 60 seconds, the
    call walks, returns the walk's own error, and leaves nothing behind for the
    pair. *)
Theorem trust_cache_fails_closed s now tenant signer signed_at walk e :
  reachable s ->
  (forall c r, (c, r) ∈ walked s -> c_tenant c = tenant -> c_signer c = signer ->
     c_now c + 60 <= now) ->
  walk tenant signer = Err e ->
  resolve (entries s) now tenant signer signed_at walk =
    (Err e, delete (tenant, signer) (entries s)).
Proof.
  intros [Hent _]%cache_inv_reachable Hold Hwalk. unfold resolve.
  pose proof (fresh_resolution_cases (entries s) tenant signer now) as Hc.
  destruct (fresh_resolution (entries s) tenant signer now) as [[r|] m].
  - destruct Hc as (_ & entry & He & _ & Hage). apply Hent in He.
    specialize (Hold _ _ He eq_refl eq_refl). simpl in Hold. lia.
  - destruct Hc as [-> _]. by rewrite Hwalk.
Qed.

(** Caching never changes an answer inside the lease: a call that follows
    a successful walk by less than 60 seconds, on the same tenant and signer,
    returns what a fresh walk with the same outcome would have returned at the
    record's own instant, without invoking its walk, and leaves the lease
    anchored at the first call. *)
Theorem trust_cache_transparent m now now' tenant signer signed_at signed_at' walk walk' r :
  walk tenant signer = Ok r ->
  fst (fresh_resolution m tenant signer now) = None -> now' - now < 60 ->
  let '(first, m1) := resolve m now tenant signer signed_at walk in
  let '(second, m2) := resolve m1 now' tenant signer signed_at' walk' in
  first = (let! _ := verify_signing_at r signed_at in Ok r) /\
  second = (let! _ := verify_signing_at r signed_at' in Ok r) /\
  m2 = m1 /\ m1 !! (tenant, signer) = Some (mkEntry r now).
Proof.
  intros Hwalk Hmiss Hage. unfold resolve.
  destruct (fresh_resolution m tenant signer now) as [[?|] m0]; [done|]. rewrite Hwalk.
  pose proof (fresh_resolution_cases (insert_entry m0 tenant signer r now) tenant signer now') as Hc.
  unfold insert_entry in *. rewrite lookup_insert_eq in Hc.
  destruct (fresh_resolution _ tenant signer now') as [[r'|] m2].
  - destruct Hc as (-> & entry & [= <-] & -> & _). split_and!; try done. apply lookup_insert_eq.
  - destruct Hc as [_ Hc]. specialize (Hc _ eq_refl). simpl in Hc. lia.
Qed.

(** A clock that reads 0 ages nothing: the age saturates at zero, so every
    entry is fresh and is served without a walk. *)
Theorem clock_at_zero_serves m tenant signer entry :
  0 <= cached_at entry -> m !! (tenant, signer) = Some entry ->
  fresh_resolution m tenant signer 0 = (Some (resolved entry), m).
Proof.
  intros Hage He. pose proof (fresh_resolution_cases m tenant signer 0) as Hc.
  destruct (fresh_resolution m tenant signer 0) as [[r|] m'].
  - destruct Hc as (-> & entry' & He' & -> & _). by simplify_eq.
  - destruct Hc as [_ Hc]. specialize (Hc _ He). lia.
Qed.

(** * Witnesses *)

Definition sample_resolved : ResolvedAuthority := mkResolved [1] [2] None None.
Definition first_call : Call := mkCall (lit "t") (lit "k") 1000.
Definition second_call : Call := mkCall (lit "t") (lit "k") 1059.

Definition after_walk : System :=
  mkSystem {[ (lit "t", lit "k") := mkEntry sample_resolved 1000 ]} []
    [(first_call, sample_resolved)] [(first_call, sample_resolved)].

Definition after_hit : System :=
  mkSystem (entries after_walk) [] (walked after_walk)
    [(second_call, sample_resolved); (first_call, sample_resolved)].

Lemma after_walk_reachable : reachable after_walk.
Proof.
  apply (rtc_l _ _ (mkSystem ∅ [first_call] [] [])).
  - apply (lookup_miss initial first_call ∅). reflexivity.
  - apply rtc_once. apply (walk_reached (mkSystem ∅ [first_call] [] []) [] first_call [] sample_resolved).
    reflexivity.
Qed.

Lemma after_hit_reachable : reachable after_hit.
Proof.
  eapply rtc_r; [apply after_walk_reachable|].
  apply (lookup_hit after_walk second_call sample_resolved). reflexivity.
Qed.

Lemma trust_cache_bounded_witness : backed (walked after_hit) second_call sample_resolved.
Proof.
  apply trust_cache_bounded; [apply after_hit_reachable|]. apply elem_of_cons. by left.
Defined.

Lemma trust_cache_fails_closed_witness :
  resolve (entries after_walk) 1060 (lit "t") (lit "k") (lit "2030-01-01T00:00:00Z")
    (fun _ _ => Err Unreachable) = (Err Unreachable, delete (lit "t", lit "k") (entries after_walk)).
Proof.
  apply trust_cache_fails_closed; [apply after_walk_reachable| |reflexivity].
  intros c r Hin _ _. apply list_elem_of_singleton in Hin. injection Hin as -> ->. simpl. lia.
Defined.

Lemma trust_cache_transparent_witness :
  let '(first, m1) := resolve ∅ 1000 (lit "t") (lit "k") (lit "2030-01-01T00:00:00Z")
                        (fun _ _ => Ok sample_resolved) in
  let '(second, m2) := resolve m1 1059 (lit "t") (lit "k") (lit "2031-01-01T00:00:00Z")
                         (fun _ _ => Err Unreachable) in
  first = Ok sample_resolved /\ second = Ok sample_resolved /\
  m2 = m1 /\ m1 !! (lit "t", lit "k") = Some (mkEntry sample_resolved 1000).
Proof.
  exact (trust_cache_transparent ∅ 1000 1059 (lit "t") (lit "k") (lit "2030-01-01T00:00:00Z")
           (lit "2031-01-01T00:00:00Z") (fun _ _ => Ok sample_resolved) (fun _ _ => Err Unreachable)
           sample_resolved eq_refl eq_refl ltac:(lia)).
Defined.
