(* ===== verification/AttemptSequence.v ===== *)
(** Attempt sequencing at the provider boundary
    ([crates/archivist-protocol/src/attempt_sequence.rs], with
    [LogicalInference] of [correlation.rs] and the record type of
    [inference_artifact.rs]): the state machine that stamps every observation
    of one logical inference with its transport attempt.

    A freshly minted provider-attempt identity is an argument of the two
    operations that mint one.  Every operation checks before it changes
    anything, so an error leaves the sequencer as it was and the operations
    return in [result]. *)

From S2P Require Import Prelude Text Json Sha256 Vocabulary Derivation.

(** * Records *)

Record Payload := mkPayload
  { payload_digest : list Z; payload_size : Z; payload_unknown_fields : Object }.

Record Metadata := mkMetadata
  { content_type : option (list Z);
    provider_request_id : option (list Z);
    http_status : option Z;
    rate_limit_limit : option Z;
    rate_limit_remaining : option Z;
    rate_limit_reset : option Z;
    usage_input_tokens : option Z;
    usage_output_tokens : option Z;
    usage_total_tokens : option Z }.

Inductive BoundaryEvent :=
| ProviderRequest
| ProviderResponse
| StreamingEvent (event_ordinal : Z)
| Retry (retry_of_attempt_ordinal : Z) (retry_reason : RetryReason) (backoff_ms : option Z)
| Usage (usage_source : UsageSource)
| TransportError (error_class : TransportErrorClass) (timeout_ms : option Z).

Record InferenceArtifact := mkArtifact
  { tenant_id : list Z;
    origin_client_id : list Z;
    trace_id : list Z;
    inference_request_id : list Z;
    provider_attempt_id : list Z;
    attempt_ordinal : Z;
    capture_time : option (list Z);
    payload : option Payload;
    metadata : option Metadata;
    event : BoundaryEvent;
    unknown_fields : Object }.

(** * Logical inferences *)

Definition MAX_ATTEMPT_ORDINAL : Z := 9223372036854775807.

Record LogicalInference := mkInference
  { li_trace_id : list Z; li_request_id : list Z; next_attempt_ordinal : Z }.

Record ProviderAttempt := mkAttempt
  { pa_trace_id : list Z; pa_request_id : list Z; pa_id : list Z; pa_ordinal : Z }.

(** [OrchestratorOperation::start_inference]. *)
Definition start_inference (trace request : list Z) : LogicalInference := mkInference trace request 0.

(** [LogicalInference::start_attempt]; [None] is the exhausted ordinal. *)
Definition inference_start_attempt (i : LogicalInference) (minted : list Z)
    : option (LogicalInference * ProviderAttempt) :=
  if MAX_ATTEMPT_ORDINAL <? next_attempt_ordinal i then None
  else
    let ordinal := next_attempt_ordinal i in
    Some (mkInference (li_trace_id i) (li_request_id i) (sat_add64 (next_attempt_ordinal i) 1),
          mkAttempt (li_trace_id i) (li_request_id i) minted ordinal).

(** * The sequencer *)

Inductive SequenceError :=
| AttemptOrdinalExhausted
| AttemptAlreadyStarted (ordinal : Z)
| NoOpenAttempt
| AttemptClosed (ordinal : Z)
| RequestAlreadyCaptured (ordinal : Z)
| ResponseAlreadyCaptured (ordinal : Z)
| StreamEventAfterResponse (ordinal : Z)
| TransportErrorAfterResponse (ordinal : Z)
| EventOrdinalExhausted (ordinal : Z)
| EmptyPayload (ordinal : Z)
| InvalidCaptureTime
| UsagePayloadMismatch.

Record AttemptTrack := mkTrack
  { attempt : ProviderAttempt;
    next_event_ordinal : Z;
    request_captured : bool;
    response_captured : bool;
    failed : bool }.

Definition for_attempt (a : ProviderAttempt) : AttemptTrack := mkTrack a 0 false false false.

Definition track_ordinal (t : AttemptTrack) : Z := pa_ordinal (attempt t).

Definition ensure_open (t : AttemptTrack) : result SequenceError unit :=
  if failed t then Err (AttemptClosed (track_ordinal t)) else Ok tt.

Record AttemptSequencer := mkSequencer
  { sq_tenant_id : list Z;
    sq_client_id : list Z;
    inference : LogicalInference;
    current : option AttemptTrack }.

Definition sequencer_new (tenant client : list Z) (i : LogicalInference) : AttemptSequencer :=
  mkSequencer tenant client i None.

Definition set_current (s : AttemptSequencer) (t : AttemptTrack) : AttemptSequencer :=
  mkSequencer (sq_tenant_id s) (sq_client_id s) (inference s) (Some t).

Definition mint_attempt (s : AttemptSequencer) (minted : list Z)
    : result SequenceError (AttemptSequencer * ProviderAttempt) :=
  match inference_start_attempt (inference s) minted with
  | Some (i, a) => Ok (mkSequencer (sq_tenant_id s) (sq_client_id s) i (current s), a)
  | None => Err AttemptOrdinalExhausted
  end.

Definition make_payload (bytes : list Z) (t : AttemptTrack) : result SequenceError Payload :=
  match bytes with
  | [] => Err (EmptyPayload (track_ordinal t))
  | _ => Ok (mkPayload (blob_digest bytes) (zlen bytes) [])
  end.

Definition checked_time (time : option (list Z)) : result SequenceError unit :=
  match time with
  | Some time => if negb (calendar_valid time) then Err InvalidCaptureTime else Ok tt
  | None => Ok tt
  end.

Definition stamp (t : AttemptTrack) (tenant client : list Z) (e : BoundaryEvent)
    (p : option Payload) (m : option Metadata) (time : option (list Z)) : InferenceArtifact :=
  let a := attempt t in
  mkArtifact tenant client (pa_trace_id a) (pa_request_id a) (pa_id a) (pa_ordinal a) time p m e [].

(** [self.current.as_mut().ok_or(NoOpenAttempt)?] and [ensure_open]. *)
Definition open_track (s : AttemptSequencer) : result SequenceError AttemptTrack :=
  let! t := ok_or (current s) NoOpenAttempt in
  let! _ := ensure_open t in
  Ok t.

Abbreviation emission := (result SequenceError (AttemptSequencer * InferenceArtifact)).

Definition start_attempt (s : AttemptSequencer) (minted : list Z)
    : result SequenceError (AttemptSequencer * ProviderAttempt) :=
  match current s with
  | Some t => Err (AttemptAlreadyStarted (track_ordinal t))
  | None =>
      let! '(s, a) := mint_attempt s minted in
      Ok (set_current s (for_attempt a), a)
  end.

Definition provider_request (s : AttemptSequencer) (bytes : list Z) (m : option Metadata)
    (time : option (list Z)) : emission :=
  let! _ := checked_time time in
  let! t := open_track s in
  if request_captured t then Err (RequestAlreadyCaptured (track_ordinal t))
  else
    let! p := make_payload bytes t in
    let t := mkTrack (attempt t) (next_event_ordinal t) true (response_captured t) (failed t) in
    Ok (set_current s t,
        stamp t (sq_tenant_id s) (sq_client_id s) ProviderRequest (Some p) m time).

Definition provider_response (s : AttemptSequencer) (bytes : list Z) (m : option Metadata)
    (time : option (list Z)) : emission :=
  let! _ := checked_time time in
  let! t := open_track s in
  if response_captured t then Err (ResponseAlreadyCaptured (track_ordinal t))
  else
    let! p := make_payload bytes t in
    let t := mkTrack (attempt t) (next_event_ordinal t) (request_captured t) true (failed t) in
    Ok (set_current s t,
        stamp t (sq_tenant_id s) (sq_client_id s) ProviderResponse (Some p) m time).

(** [u64::checked_add]. *)
Definition checked_add64 (a b : Z) : option Z := if U64_MAX <? a + b then None else Some (a + b).

Definition stream_event (s : AttemptSequencer) (bytes : list Z) (m : option Metadata)
    (time : option (list Z)) : emission :=
  let! _ := checked_time time in
  let! t := open_track s in
  if response_captured t then Err (StreamEventAfterResponse (track_ordinal t))
  else
    let event_ordinal := next_event_ordinal t in
    let! p := make_payload bytes t in
    let! next := ok_or (checked_add64 event_ordinal 1) (EventOrdinalExhausted (track_ordinal t)) in
    let t := mkTrack (attempt t) next (request_captured t) (response_captured t) (failed t) in
    Ok (set_current s t,
        stamp t (sq_tenant_id s) (sq_client_id s) (StreamingEvent event_ordinal) (Some p) m time).

Definition usage (s : AttemptSequencer) (source : UsageSource) (reporting_bytes : option (list Z))
    (input_tokens output_tokens total_tokens : Z) (time : option (list Z)) : emission :=
  let! _ := checked_time time in
  let! t := open_track s in
  let! p := match source, reporting_bytes with
            | StreamEvent, Some bytes => let! p := make_payload bytes t in Ok (Some p)
            | ResponseBody, None => Ok None
            | StreamEvent, None | ResponseBody, Some _ => Err UsagePayloadMismatch
            end in
  let m := mkMetadata None None None None None None
             (Some input_tokens) (Some output_tokens) (Some total_tokens) in
  Ok (s, stamp t (sq_tenant_id s) (sq_client_id s) (Usage source) p (Some m) time).

Definition transport_error (s : AttemptSequencer) (class : TransportErrorClass)
    (timeout_ms : option Z) (time : option (list Z)) : emission :=
  let! _ := checked_time time in
  let! t := open_track s in
  if response_captured t then Err (TransportErrorAfterResponse (track_ordinal t))
  else
    let t := mkTrack (attempt t) (next_event_ordinal t) (request_captured t) (response_captured t)
               true in
    Ok (set_current s t,
        stamp t (sq_tenant_id s) (sq_client_id s) (TransportError class timeout_ms) None None time).

Definition retry (s : AttemptSequencer) (reason : RetryReason) (backoff_ms : option Z)
    (time : option (list Z)) (minted : list Z) : emission :=
  let! _ := checked_time time in
  let! t := ok_or (current s) NoOpenAttempt in
  let retry_of_attempt_ordinal := track_ordinal t in
  let! '(s, next) := mint_attempt s minted in
  let artifact := stamp (for_attempt next) (sq_tenant_id s) (sq_client_id s)
                    (Retry retry_of_attempt_ordinal reason backoff_ms) None None time in
  Ok (set_current s (for_attempt next), artifact).

(** * Runs *)

(** One call of the boundary. *)
Inductive Op :=
| OStart (minted : list Z)
| ORequest (bytes : list Z) (m : option Metadata) (time : option (list Z))
| OResponse (bytes : list Z) (m : option Metadata) (time : option (list Z))
| OStream (bytes : list Z) (m : option Metadata) (time : option (list Z))
| OUsage (source : UsageSource) (reporting_bytes : option (list Z))
    (input_tokens output_tokens total_tokens : Z) (time : option (list Z))
| OError (class : TransportErrorClass) (timeout_ms : option Z) (time : option (list Z))
| ORetry (reason : RetryReason) (backoff_ms : option Z) (time : option (list Z)) (minted : list Z).

Definition perform (s : AttemptSequencer) (op : Op)
    : result SequenceError (AttemptSequencer * option InferenceArtifact) :=
  match op with
  | OStart minted => let! '(s, _) := start_attempt s minted in Ok (s, None)
  | ORequest b m time => let! '(s, a) := provider_request s b m time in Ok (s, Some a)
  | OResponse b m time => let! '(s, a) := provider_response s b m time in Ok (s, Some a)
  | OStream b m time => let! '(s, a) := stream_event s b m time in Ok (s, Some a)
  | OUsage src b i o t time => let! '(s, a) := usage s src b i o t time in Ok (s, Some a)
  | OError c ms time => let! '(s, a) := transport_error s c ms time in Ok (s, Some a)
  | ORetry r ms time minted => let! '(s, a) := retry s r ms time minted in Ok (s, Some a)
  end.

(** A caller that records what it is given, in emission order, and goes on
    after a refusal. *)
Fixpoint run (s : AttemptSequencer) (out : list InferenceArtifact) (ops : list Op)
    : AttemptSequencer * list InferenceArtifact :=
  match ops with
  | [] => (s, out)
  | op :: ops' =>
      match perform s op with
      | Ok (s', Some a) => run s' (out ++ [a]) ops'
      | Ok (s', None) => run s' out ops'
      | _ => run s out ops'
      end
  end.

(** * The sequencer as a step relation

    What one successful call may do to the current attempt and which record it
    emits; a refused call does nothing. *)

(** The records one open attempt may emit, and the track they leave. *)
Inductive records (t : AttemptTrack) : BoundaryEvent -> option Payload -> option Metadata
    -> AttemptTrack -> Prop :=
| rec_request p m : request_captured t = false ->
    records t ProviderRequest (Some p) m
      (mkTrack (attempt t) (next_event_ordinal t) true (response_captured t) (failed t))
| rec_response p m : response_captured t = false ->
    records t ProviderResponse (Some p) m
      (mkTrack (attempt t) (next_event_ordinal t) (request_captured t) true (failed t))
| rec_stream p m : response_captured t = false -> next_event_ordinal t < U64_MAX ->
    records t (StreamingEvent (next_event_ordinal t)) (Some p) m
      (mkTrack (attempt t) (next_event_ordinal t + 1) (request_captured t) false (failed t))
| rec_usage source p i o tot :
    records t (Usage source) p
      (Some (mkMetadata None None None None None None (Some i) (Some o) (Some tot))) t
| rec_error class ms : response_captured t = false ->
    records t (TransportError class ms) None None
      (mkTrack (attempt t) (next_event_ordinal t) (request_captured t) false true).

(** The attempt a sequencer mints next, and the sequencer holding it. *)
Definition next_attempt (s : AttemptSequencer) (minted : list Z) : ProviderAttempt :=
  mkAttempt (li_trace_id (inference s)) (li_request_id (inference s)) minted
    (next_attempt_ordinal (inference s)).

Definition opened (s : AttemptSequencer) (minted : list Z) : AttemptSequencer :=
  mkSequencer (sq_tenant_id s) (sq_client_id s)
    (mkInference (li_trace_id (inference s)) (li_request_id (inference s))
       (next_attempt_ordinal (inference s) + 1))
    (Some (for_attempt (next_attempt s minted))).

Inductive performs (s : AttemptSequencer) : Op -> AttemptSequencer -> option InferenceArtifact -> Prop :=
| does_start minted :
    current s = None -> next_attempt_ordinal (inference s) <= MAX_ATTEMPT_ORDINAL ->
    performs s (OStart minted) (opened s minted) None
| does_record op t e p m time t' :
    current s = Some t -> failed t = false -> records t e p m t' ->
    (forall minted, op <> OStart minted) -> (forall r ms time minted, op <> ORetry r ms time minted) ->
    performs s op (set_current s t')
      (Some (stamp t' (sq_tenant_id s) (sq_client_id s) e p m time))
| does_retry t r ms time minted :
    current s = Some t -> next_attempt_ordinal (inference s) <= MAX_ATTEMPT_ORDINAL ->
    performs s (ORetry r ms time minted) (opened s minted)
      (Some (stamp (for_attempt (next_attempt s minted)) (sq_tenant_id s) (sq_client_id s)
               (Retry (track_ordinal t) r ms) None None time)).

Lemma mint_attempt_Ok s minted s' a : mint_attempt s minted = Ok (s', a) ->
  next_attempt_ordinal (inference s) <= MAX_ATTEMPT_ORDINAL /\ a = next_attempt s minted /\
  set_current s' (for_attempt a) = opened s minted /\
  sq_tenant_id s' = sq_tenant_id s /\ sq_client_id s' = sq_client_id s.
Proof.
  unfold mint_attempt, inference_start_attempt.
  destruct (MAX_ATTEMPT_ORDINAL <? _) eqn:E; [done|]. intros [= <- <-]. apply Z.ltb_ge in E.
  unfold next_attempt, opened, set_current. simpl. split_and!; try done.
  unfold sat_add64. rewrite Z.min_r; [done|]. unfold MAX_ATTEMPT_ORDINAL, U64_MAX in *. lia.
Qed.

Lemma open_track_Ok s t : open_track s = Ok t -> current s = Some t /\ failed t = false.
Proof.
  unfold open_track, ensure_open, ok_or. destruct (current s) as [t'|]; simpl; [|done].
  destruct (failed t') eqn:E; simpl; naive_solver.
Qed.

Lemma make_payload_Ok b t p : make_payload b t = Ok p -> b <> [] /\ p = mkPayload (blob_digest b) (zlen b) [].
Proof. destruct b; simpl; naive_solver. Qed.

Lemma set_current_same s t : current s = Some t -> set_current s t = s.
Proof. destruct s; simpl. by intros ->. Qed.

(** Name the steps of a successful emission. *)
Ltac inv_emission :=
  repeat match goal with
  | H : rbind _ _ = Ok _ |- _ => apply rbind_Ok in H as (? & ? & H)
  | H : open_track _ = Ok _ |- _ => apply open_track_Ok in H as [? ?]
  | H : make_payload _ _ = Ok _ |- _ => apply make_payload_Ok in H as [? ->]
  | H : (let '(_, _) := ?x in _) = Ok _ |- _ => destruct x
  | H : Ok _ = Ok _ |- _ => injection H as <- <-
  | H : (if ?b then _ else _) = Ok _ |- _ => destruct b eqn:?; [discriminate H|]
  end.

Lemma perform_performs s op s' o : perform s op = Ok (s', o) -> performs s op s' o.
Proof.
  destruct op; simpl; intros H.
  - apply rbind_Ok in H as ([s1 a] & H1 & [= <- <-]). unfold start_attempt in H1.
    destruct (current s) eqn:Hc; [done|]. apply rbind_Ok in H1 as ([s2 a2] & Hm & [= <- <-]).
    apply mint_attempt_Ok in Hm as (Hmax & -> & -> & _). by constructor.
  - unfold provider_request in H. inv_emission. by eapply does_record; eauto; constructor.
  - unfold provider_response in H. inv_emission. by eapply does_record; eauto; constructor.
  - unfold stream_event, checked_add64, ok_or in H. inv_emission.
    match goal with H : (match (if ?b then _ else _) with _ => _ end) = Ok _ |- _ =>
      destruct b eqn:Hb; [discriminate H|injection H as <-] end.
    apply Z.ltb_ge in Hb. eapply does_record; eauto.
    constructor; [done|lia].
  - unfold usage in H. inv_emission. rewrite <- (set_current_same s x1) at 2 by done.
    by eapply does_record; eauto; constructor.
  - unfold transport_error in H. inv_emission. by eapply does_record; eauto; constructor.
  - apply rbind_Ok in H as ([s1 a] & H1 & [= <- <-]). unfold retry, ok_or in H1.
    apply rbind_Ok in H1 as (? & _ & H1). destruct (current s) as [t|] eqn:Hc; [|done]. simpl in H1.
    apply rbind_Ok in H1 as ([s2 a2] & Hm & [= <- <-]).
    apply mint_attempt_Ok in Hm as (Hmax & -> & -> & -> & ->). by constructor.
Qed.

(** * Runs with fresh identities *)

Definition mints (op : Op) : list (list Z) :=
  match op with OStart minted | ORetry _ _ _ minted => [minted] | _ => [] end.

Definition emitted (o : option InferenceArtifact) : list InferenceArtifact :=
  match o with Some a => [a] | None => [] end.

(** Rule induction on runs: [I] relates the sequencer, the records so far and
    the identities minted so far. *)
Section RunInduction.
Variable I : AttemptSequencer -> list InferenceArtifact -> list (list Z) -> Prop.
Hypothesis I_step : forall s out used op s' o,
  I s out used -> performs s op s' o -> (forall id, id ∈ mints op -> id ∉ used) ->
  I s' (out ++ emitted o) (used ++ mints op).

Lemma run_induction ops s out used :
  I s out used -> NoDup (used ++ flat_map mints ops) ->
  let '(s', out') := run s out ops in exists used', I s' out' used'.
Proof.
  revert s out used. induction ops as [|op ops IH]; intros s out used HI Hnd; simpl; [by exists used|].
  simpl in Hnd. rewrite app_assoc in Hnd.
  assert (Hfresh : forall id, id ∈ mints op -> id ∉ used).
  { apply NoDup_app in Hnd as (Hnd & _). apply NoDup_app in Hnd as (_ & Hd & _).
    intros id Hid Hu. by apply (Hd id). }
  assert (Hrest : NoDup (used ++ flat_map mints ops)).
  { rewrite <- app_assoc in Hnd. apply NoDup_app in Hnd as (H1 & Hd & H2).
    apply NoDup_app in H2 as (_ & _ & H2). apply NoDup_app. split_and!; [done| |done].
    intros x Hx Hin. apply (Hd x Hx). apply elem_of_app. by right. }
  destruct (perform s op) as [[s1 o]| |] eqn:Hp; [|by apply (IH s out used)..].
  pose proof (I_step _ _ _ _ _ _ HI (perform_performs _ _ _ _ Hp) Hfresh) as H1.
  destruct o as [a|]; simpl in H1; [|rewrite app_nil_r in H1]; by apply (IH _ _ _ H1).
Qed.
End RunInduction.

(** * Order of the records *)

(** Whether a record of an attempt may come after another of the same attempt. *)
Definition event_follows (x y : BoundaryEvent) : bool :=
  match x, y with
  | TransportError _ _, _ => false
  | _, Retry _ _ _ => false
  | ProviderRequest, ProviderRequest => false
  | ProviderResponse, (ProviderResponse | StreamingEvent _ | TransportError _ _) => false
  | StreamingEvent i, StreamingEvent j => i <? j
  | _, _ => true
  end.

Definition may_follow (x y : InferenceArtifact) : Prop :=
  (attempt_ordinal x < attempt_ordinal y /\ provider_attempt_id x <> provider_attempt_id y) \/
  (attempt_ordinal x = attempt_ordinal y /\ provider_attempt_id x = provider_attempt_id y /\
   event_follows (event x) (event y) = true).

(** What the track remembers of one of its own records. *)
Definition remembered (t : AttemptTrack) (e : BoundaryEvent) : Prop :=
  match e with
  | ProviderRequest => request_captured t = true
  | ProviderResponse => response_captured t = true
  | StreamingEvent i => i < next_event_ordinal t
  | TransportError _ _ => failed t = true
  | Retry _ _ _ | Usage _ => True
  end.

Definition belongs (t : AttemptTrack) (a : InferenceArtifact) : Prop :=
  attempt_ordinal a < track_ordinal t /\ provider_attempt_id a <> pa_id (attempt t) \/
  attempt_ordinal a = track_ordinal t /\ provider_attempt_id a = pa_id (attempt t) /\
    remembered t (event a).

Definition order_inv (s : AttemptSequencer) (out : list InferenceArtifact) (used : list (list Z)) : Prop :=
  StronglySorted may_follow out /\ Forall (fun a => provider_attempt_id a ∈ used) out /\
  match current s with
  | None => out = []
  | Some t => track_ordinal t < next_attempt_ordinal (inference s) /\ pa_id (attempt t) ∈ used /\
              Forall (belongs t) out
  end.

Lemma sorted_snoc {A} (R : A -> A -> Prop) l x :
  StronglySorted R l -> Forall (fun y => R y x) l -> StronglySorted R (l ++ [x]).
Proof.
  induction 1 as [|y l Hl IH Hy]; simpl; intros Hx; [by repeat constructor|].
  apply Forall_cons in Hx as [Hyx Hx]. constructor; [by apply IH|].
  apply Forall_app. by repeat constructor.
Qed.

Lemma records_track t e p m t' : records t e p m t' -> failed t = false ->
  attempt t' = attempt t /\ remembered t' e /\
  (forall e', remembered t e' -> remembered t' e') /\
  (forall e', remembered t e' -> event_follows e' e = true).
Proof.
  intros Hr Hf. destruct Hr; simpl; (split; [done|]); (split; [done || lia|]);
    split; intros []; simpl; try done; intros; try congruence; try lia.
Qed.

Lemma order_step s out used op s' o : order_inv s out used -> performs s op s' o ->
  (forall id, id ∈ mints op -> id ∉ used) -> order_inv s' (out ++ emitted o) (used ++ mints op).
Proof.
  intros (Hs & Hu & Hc) Hp Hfresh.
  assert (Hu' : Forall (fun a => provider_attempt_id a ∈ used ++ mints op) out).
  { eapply Forall_impl; [exact Hu|]. intros a Ha. apply elem_of_app. by left. }
  destruct Hp as [minted Hn Hmax|op t e p m time t' Ht Hf Hr Hns Hnr|t r ms time minted Ht Hmax].
  - rewrite Hn in Hc. subst out. simpl. split_and!; [done|done|]. simpl.
    split_and!; [unfold track_ordinal; simpl; lia|set_solver|done].
  - rewrite Ht in Hc. destruct Hc as (Hlt & Hid & Hb).
    destruct (records_track _ _ _ _ _ Hr Hf) as (Ha & Hrem & Hmono & Hfol).
    assert (Hb' : Forall (belongs t') out).
    { eapply Forall_impl; [exact Hb|]. unfold belongs, track_ordinal. rewrite Ha.
      intros a [?|(? & ? & ?)]; [by left|right; auto]. }
    split; [|split; [|cbn [set_current current inference]; split_and!]]; cbn [emitted].
    + apply sorted_snoc; [done|]. eapply Forall_impl; [exact Hb|].
      intros a Hba. unfold belongs, may_follow, track_ordinal, stamp in *. simpl. rewrite Ha.
      destruct Hba as [?|(? & ? & ?)]; [by left|right; auto].
    + apply Forall_app. split; [done|]. constructor; [|done]. simpl. rewrite Ha.
      apply elem_of_app. by left.
    + unfold track_ordinal in *. rewrite Ha. done.
    + rewrite Ha. apply elem_of_app. by left.
    + apply Forall_app. split; [done|]. constructor; [|done]. right. simpl. done.
  - rewrite Ht in Hc. destruct Hc as (Hlt & Hid & Hb).
    assert (Hb' : Forall (fun a => attempt_ordinal a < next_attempt_ordinal (inference s) /\
                          provider_attempt_id a <> minted) out).
    { apply Forall_forall. intros a Hin. rewrite Forall_forall in Hb, Hu. split.
      - destruct (Hb a Hin) as [?|?]; lia.
      - intros E. apply (Hfresh minted); [set_solver|]. rewrite <- E. by apply Hu. }
    split; [|split; [|cbn [opened current inference]; split_and!]]; cbn [emitted mints].
    + apply sorted_snoc; [done|]. eapply Forall_impl; [exact Hb'|]. intros a ?. by left.
    + apply Forall_app. split; [done|]. constructor; [set_solver|done].
    + unfold track_ordinal. simpl. lia.
    + set_solver.
    + apply Forall_app. split; [|constructor; [|done]].
      * eapply Forall_impl; [exact Hb'|]. intros a ?. by left.
      * by right.
Qed.

(** * Properties *)

(** Whatever the boundary reports, in whatever order, and however many calls
    are refused, the emitted records are in attempt order and never mix
    attempts: each ordinal has its own identity, nothing follows a transport
    error of the same attempt, a retry record comes first in its attempt, an
    attempt has at most one request and one response, and its stream events
    carry increasing ordinals and never follow its response. *)
Theorem sequenced_records_ordered tenant client trace request ops :
  NoDup (flat_map mints ops) ->
  StronglySorted may_follow
    (run (sequencer_new tenant client (start_inference trace request)) [] ops).2.
Proof.
  intros Hnd.
  pose proof (run_induction order_inv order_step ops
    (sequencer_new tenant client (start_inference trace request)) [] []) as H.
  destruct (run _ [] ops) as [s' out]. destruct H as (used & Hs & _); [|done|done].
  split_and!; [constructor|constructor|done].
Qed.

(** An attempt that ended in its transport error takes no further record:
    with a real capture time every call is refused by name, and only a retry
    goes on, minting the next dense ordinal unless the ordinals are used up. *)
Theorem closed_attempt_refuses s t op :
  current s = Some t -> failed t = true ->
  match op with
  | OStart _ => perform s op = Err (AttemptAlreadyStarted (track_ordinal t))
  | ORetry r ms time minted => checked_time time = Ok tt ->
      perform s op =
        if MAX_ATTEMPT_ORDINAL <? next_attempt_ordinal (inference s) then Err AttemptOrdinalExhausted
        else Ok (opened s minted,
                 Some (stamp (for_attempt (next_attempt s minted)) (sq_tenant_id s) (sq_client_id s)
                         (Retry (track_ordinal t) r ms) None None time))
  | ORequest _ _ time | OResponse _ _ time | OStream _ _ time | OUsage _ _ _ _ _ time
  | OError _ _ time => checked_time time = Ok tt -> perform s op = Err (AttemptClosed (track_ordinal t))
  end.
Proof.
  intros Hc Hf.
  assert (Ho : open_track s = Err (AttemptClosed (track_ordinal t))).
  { unfold open_track, ensure_open. rewrite Hc. simpl. by rewrite Hf. }
  destruct op; simpl; try (intros Ht).
  1: by unfold start_attempt; rewrite Hc.
  1: by unfold provider_request; rewrite Ht; simpl; rewrite Ho.
  1: by unfold provider_response; rewrite Ht; simpl; rewrite Ho.
  1: by unfold stream_event; rewrite Ht; simpl; rewrite Ho.
  1: by unfold usage; rewrite Ht; simpl; rewrite Ho.
  1: by unfold transport_error; rewrite Ht; simpl; rewrite Ho.
  unfold retry. rewrite Ht, Hc. simpl. unfold mint_attempt, inference_start_attempt.
  destruct (MAX_ATTEMPT_ORDINAL <? _) eqn:E; [done|]. apply Z.ltb_ge in E. simpl.
  unfold opened, set_current, next_attempt. simpl. unfold sat_add64.
  rewrite Z.min_r; [done|]. unfold MAX_ATTEMPT_ORDINAL, U64_MAX in *. lia.
Qed.

(** * Witnesses *)

Definition sample_ops : list Op :=
  [OStart (lit "a"); ORequest [1] None None; OStream [2] None None; OError Connect None None;
   OStream [3] None None; ORetry RTransportError (Some 10) None (lit "b"); ORequest [1] None None;
   OResponse [4] None None].

Definition sample_sequencer : AttemptSequencer :=
  sequencer_new (lit "t") (lit "c") (start_inference (lit "x") (lit "r")).

Lemma sample_fresh : NoDup (flat_map mints sample_ops).
Proof. apply (bool_decide_unpack _). vm_compute. exact I. Qed.

Lemma sequenced_records_ordered_witness :
  length (run sample_sequencer [] sample_ops).2 = 6%nat /\
  StronglySorted may_follow (run sample_sequencer [] sample_ops).2.
Proof. split; [vm_compute; reflexivity|]. apply sequenced_records_ordered, sample_fresh. Defined.

Definition failed_track : AttemptTrack := mkTrack (mkAttempt [] [] (lit "a") 3) 2 true false true.

Lemma closed_attempt_refuses_witness :
  perform (mkSequencer [] [] (mkInference [] [] 4) (Some failed_track)) (OStream [1] None None)
    = Err (AttemptClosed 3).
Proof.
  exact (closed_attempt_refuses (mkSequencer [] [] (mkInference [] [] 4) (Some failed_track))
    failed_track (OStream [1] None None) eq_refl eq_refl eq_refl).
Defined.
