(* ===== verification/InferenceRecord.v ===== *)
(** Inference capture records on the wire
    ([crates/archivist-protocol/src/inference_artifact.rs]): validation of the
    record, its payload and its closed metadata, and their rendering.  The
    record types are those the sequencer stamps ([AttemptSequence]).

    Errors carry the member they are reported at; the one-line reasons are for
    logs and are not modelled. *)

From S2P Require Import Prelude Text Json JsonFacts Sha256 Vocabulary Derivation Records AttemptSequence.

Definition INFERENCE_ARTIFACT_VERSION : Z := 1.

Definition METADATA_ALLOWLIST : list (list Z) :=
  map lit ["content_type"; "http_status"; "provider_request_id"; "rate_limit_limit";
           "rate_limit_remaining"; "rate_limit_reset"; "usage_input_tokens"; "usage_output_tokens";
           "usage_total_tokens"]%string.

Definition RESERVED_FIELDS : list (list Z) :=
  map lit ["access_token"; "alpn"; "api_key"; "api_token"; "authorization"; "authorization_epoch";
           "authorization_key_id"; "authorization_timestamp"; "bearer_token"; "blob_key"; "blob_url";
           "certificate"; "certificate_chain"; "cipher_suite"; "client_certificate"; "client_secret";
           "cookie"; "credential"; "endpoint"; "ip_packet"; "object_key"; "password"; "private_key";
           "proxy_authorization"; "refresh_token"; "request_id"; "secret"; "session_token";
           "set_cookie"; "signature"; "signature_algorithm"; "storage_path"; "tcp_segment";
           "tls_handshake"; "tls_record"; "tls_session_ticket"; "tls_version"; "transport_encoding";
           "upload_url"; "uri"; "url"; "www_authenticate"; "x_api_key"]%string.

Definition RECORD_FIELD_NAMES : list (list Z) :=
  map lit ["artifact_kind"; "attempt_ordinal"; "backoff_ms"; "capture_time"; "error_class";
           "event_ordinal"; "inference_artifact_version"; "inference_request_id"; "metadata";
           "origin_client_id"; "payload"; "provider_attempt_id"; "retry_of_attempt_ordinal";
           "retry_reason"; "tenant_id"; "timeout_ms"; "trace_id"; "usage_source"]%string.

Inductive InferenceArtifactError :=
| ArtifactMalformed (parse_error : option ParseError)
| ArtifactVersionUnsupported (found : Z)
| ArtifactInvalid (field : list Z).

Abbreviation outcome := (result InferenceArtifactError).
Abbreviation invalid field := (ArtifactInvalid (lit field)).

(** * Payload *)

Definition PAYLOAD_NAMES : list (list Z) := map lit ["payload_digest"; "payload_size"]%string.

Definition Payload_from_value (v : Value) : outcome Payload :=
  match v with
  | VObject o =>
      let! digest := typed ArtifactInvalid digest_parse o (lit "payload_digest") in
      let! size := u63_member ArtifactInvalid o (lit "payload_size") in
      if size <? 1 then Err (invalid "payload")
      else Ok (mkPayload digest size (retained PAYLOAD_NAMES o))
  | _ => Err (invalid "payload")
  end.

Definition payload_fields (p : Payload) : list (list Z * option Value) :=
  [(lit "payload_digest", Some (VText (to_hex (payload_digest p))));
   (lit "payload_size", Some (VInt (payload_size p)))].

Definition payload_members (p : Payload) : Object :=
  set_all (payload_unknown_fields p) (set_members (payload_fields p) []).

(** * Metadata *)

Definition no_metadata : Metadata := mkMetadata None None None None None None None None None.

Definition Metadata_is_empty (m : Metadata) : bool :=
  match m with mkMetadata None None None None None None None None None => true | _ => false end.

Definition printable_ascii (v : Value) : outcome (list Z) :=
  match v with
  | VText raw =>
      if match raw with [] => true | _ => false end || (256 <? zlen (as_bytes raw)) ||
         negb (forallb (fun b => in_range 0x20 b 0x7e) (as_bytes raw))
      then Err (invalid "metadata") else Ok raw
  | _ => Err (invalid "metadata")
  end.

(** One turn of the loop over the members: the [match name]. *)
Definition metadata_member (m : Metadata) (name : list Z) (v : Value) : outcome Metadata :=
  let 'mkMetadata ct pr hs rl rr rs ui uo ut := m in
  let u63 := u63 ArtifactInvalid v (lit "metadata") in
  let named s := bool_decide (name = lit s) in
  if named "content_type"%string then
    let! t := printable_ascii v in Ok (mkMetadata (Some t) pr hs rl rr rs ui uo ut)
  else if named "provider_request_id"%string then
    let! t := printable_ascii v in Ok (mkMetadata ct (Some t) hs rl rr rs ui uo ut)
  else if named "http_status"%string then
    let! status := u63 in
    if negb ((100 <=? status) && (status <=? 599)) then Err (invalid "metadata")
    else Ok (mkMetadata ct pr (Some status) rl rr rs ui uo ut)
  else if named "rate_limit_limit"%string then
    let! n := u63 in Ok (mkMetadata ct pr hs (Some n) rr rs ui uo ut)
  else if named "rate_limit_remaining"%string then
    let! n := u63 in Ok (mkMetadata ct pr hs rl (Some n) rs ui uo ut)
  else if named "rate_limit_reset"%string then
    let! n := u63 in Ok (mkMetadata ct pr hs rl rr (Some n) ui uo ut)
  else if named "usage_input_tokens"%string then
    let! n := u63 in Ok (mkMetadata ct pr hs rl rr rs (Some n) uo ut)
  else if named "usage_output_tokens"%string then
    let! n := u63 in Ok (mkMetadata ct pr hs rl rr rs ui (Some n) ut)
  else if named "usage_total_tokens"%string then
    let! n := u63 in Ok (mkMetadata ct pr hs rl rr rs ui uo (Some n))
  else Err (invalid "metadata").

Fixpoint metadata_loop (m : Metadata) (o : Object) : outcome Metadata :=
  match o with
  | [] => Ok m
  | (name, v) :: o' => let! m := metadata_member m name v in metadata_loop m o'
  end.

Definition Metadata_from_value (v : Value) : outcome Metadata :=
  match v with
  | VObject o =>
      let! m := metadata_loop no_metadata o in
      if Metadata_is_empty m then Err (invalid "metadata") else Ok m
  | _ => Err (invalid "metadata")
  end.

Definition metadata_fields (m : Metadata) : list (list Z * option Value) :=
  [(lit "content_type", VText <$> content_type m);
   (lit "provider_request_id", VText <$> provider_request_id m);
   (lit "http_status", VInt <$> http_status m);
   (lit "rate_limit_limit", VInt <$> rate_limit_limit m);
   (lit "rate_limit_remaining", VInt <$> rate_limit_remaining m);
   (lit "rate_limit_reset", VInt <$> rate_limit_reset m);
   (lit "usage_input_tokens", VInt <$> usage_input_tokens m);
   (lit "usage_output_tokens", VInt <$> usage_output_tokens m);
   (lit "usage_total_tokens", VInt <$> usage_total_tokens m)].

(** [Metadata::to_value], short of the panic of [u63_value]. *)
Definition Metadata_to_value (m : Metadata) : option Value :=
  if Metadata_is_empty m then None else Some (VObject (set_members (metadata_fields m) [])).

(** * Events *)

(** [BoundaryEvent::kind]. *)
Definition event_kind (e : BoundaryEvent) : InferenceArtifactKind :=
  match e with
  | ProviderRequest => KProviderRequest
  | ProviderResponse => KProviderResponse
  | StreamingEvent _ => KStreamingEvent
  | Retry _ _ _ => KRetry
  | Usage _ => KUsage
  | TransportError _ _ => KTransportError
  end.

Definition kind_specific_members (k : InferenceArtifactKind) : list (list Z) :=
  match k with
  | KProviderRequest | KProviderResponse => []
  | KStreamingEvent => [lit "event_ordinal"]
  | KRetry => [lit "retry_of_attempt_ordinal"; lit "retry_reason"; lit "backoff_ms"]
  | KUsage => [lit "usage_source"]
  | KTransportError => [lit "error_class"; lit "timeout_ms"]
  end.

#[export] Instance InferenceArtifactKind_eq : EqDecision InferenceArtifactKind.
Proof. solve_decision. Defined.

(** The members of the kinds this record is not, in the loop's order. *)
Definition foreign_members (k : InferenceArtifactKind) : list (list Z) :=
  flat_map (fun owner => if bool_decide (owner = k) then [] else kind_specific_members owner)
    [KProviderRequest; KProviderResponse; KStreamingEvent; KRetry; KUsage; KTransportError].

Definition payload_required (k : InferenceArtifactKind) : bool :=
  match k with KProviderRequest | KProviderResponse | KStreamingEvent => true | _ => false end.

Definition parse_event (o : Object) : outcome BoundaryEvent :=
  let! kind := typed ArtifactInvalid enum_parse o (lit "artifact_kind") in
  let! _ := refuse_members ArtifactInvalid o (foreign_members kind) in
  if payload_required kind && negb (object_contains o (lit "payload")) then Err (invalid "payload")
  else
    match kind with
    | KProviderRequest => Ok ProviderRequest
    | KProviderResponse => Ok ProviderResponse
    | KStreamingEvent =>
        let! ordinal := u63_member ArtifactInvalid o (lit "event_ordinal") in
        Ok (StreamingEvent ordinal)
    | KRetry =>
        let! cited := u63_member ArtifactInvalid o (lit "retry_of_attempt_ordinal") in
        let! reason := typed ArtifactInvalid enum_parse o (lit "retry_reason") in
        let! backoff := optional_u63 ArtifactInvalid o (lit "backoff_ms") in
        Ok (Retry cited reason backoff)
    | KUsage =>
        let! source := typed ArtifactInvalid enum_parse o (lit "usage_source") in
        Ok (Usage source)
    | KTransportError =>
        let! class := typed ArtifactInvalid enum_parse o (lit "error_class") in
        let! timeout := optional_u63 ArtifactInvalid o (lit "timeout_ms") in
        Ok (TransportError class timeout)
    end.

(** The members the [match &self.event] of [to_value] sets. *)
Definition event_fields (e : BoundaryEvent) : list (list Z * option Value) :=
  match e with
  | ProviderRequest | ProviderResponse => []
  | StreamingEvent ordinal => [(lit "event_ordinal", Some (VInt ordinal))]
  | Retry cited reason backoff =>
      [(lit "retry_of_attempt_ordinal", Some (VInt cited));
       (lit "retry_reason", Some (VText (token reason)));
       (lit "backoff_ms", VInt <$> backoff)]
  | Usage source => [(lit "usage_source", Some (VText (token source)))]
  | TransportError class timeout =>
      [(lit "error_class", Some (VText (token class))); (lit "timeout_ms", VInt <$> timeout)]
  end.

(** * The record *)

Definition common_fields (a : InferenceArtifact) : list (list Z * option Value) :=
  [(lit "artifact_kind", Some (VText (token (event_kind (event a)))));
   (lit "attempt_ordinal", Some (VInt (attempt_ordinal a)));
   (lit "capture_time", VText <$> capture_time a);
   (lit "inference_artifact_version", Some (VInt INFERENCE_ARTIFACT_VERSION));
   (lit "inference_request_id", Some (VText (inference_request_id a)));
   (lit "origin_client_id", Some (VText (origin_client_id a)));
   (lit "payload", (fun p => VObject (payload_members p)) <$> payload a);
   (lit "metadata", m ← metadata a; Metadata_to_value m);
   (lit "provider_attempt_id", Some (VText (provider_attempt_id a)));
   (lit "tenant_id", Some (VText (tenant_id a)));
   (lit "trace_id", Some (VText (trace_id a)))].

Definition artifact_members (a : InferenceArtifact) : Object :=
  set_all (unknown_fields a) (set_members (common_fields a ++ event_fields (event a)) []).

(** The integers rendered through [u63_value], which panics past [i64::MAX]. *)
Definition present (n : option Z) : list Z := match n with Some n => [n] | None => [] end.

Definition metadata_integers (m : Metadata) : list Z :=
  flat_map present
    [http_status m; rate_limit_limit m; rate_limit_remaining m; rate_limit_reset m;
     usage_input_tokens m; usage_output_tokens m; usage_total_tokens m].

Definition event_integers (e : BoundaryEvent) : list Z :=
  match e with
  | StreamingEvent n => [n]
  | Retry n _ ms => n :: present ms
  | TransportError _ ms => present ms
  | _ => []
  end.

Definition artifact_integers (a : InferenceArtifact) : list Z :=
  attempt_ordinal a :: match payload a with Some p => [payload_size p] | None => [] end ++
  match metadata a with Some m => metadata_integers m | None => [] end ++ event_integers (event a).

(** [InferenceArtifact::to_value]; [None] is the panic. *)
Definition InferenceArtifact_to_value (a : InferenceArtifact) : option Value :=
  if forallb fits_i64 (artifact_integers a) then Some (VObject (artifact_members a)) else None.

Definition InferenceArtifact_canonical_bytes (a : InferenceArtifact) : option (list Z) :=
  canonical_bytes <$> InferenceArtifact_to_value a.

Definition version (o : Object) : outcome unit :=
  let! v := require ArtifactInvalid o (lit "inference_artifact_version") in
  match v with
  | VInt found =>
      if found =? INFERENCE_ARTIFACT_VERSION then Ok tt else Err (ArtifactVersionUnsupported found)
  | _ => Err (invalid "inference_artifact_version")
  end.

Definition semantic_checks (a : InferenceArtifact) : outcome unit :=
  if match capture_time a with Some t => negb (calendar_valid t) | None => false end
  then Err (invalid "capture_time")
  else if match event a with Retry cited _ _ => attempt_ordinal a <=? cited | _ => false end
  then Err (invalid "retry_of_attempt_ordinal")
  else
    match event a with
    | Usage _ =>
        match metadata a with
        | Some (mkMetadata _ _ _ _ _ _ (Some _) (Some _) (Some _)) => Ok tt
        | _ => Err (invalid "metadata")
        end
    | _ => Ok tt
    end.

(** [object.get(name)] read with [from_value] when present. *)
Definition optional_value {A} (from_value : Value -> outcome A) (o : Object) (field : list Z)
    : outcome (option A) :=
  match object_get o field with
  | None => Ok None
  | Some v => let! a := from_value v in Ok (Some a)
  end.

Definition InferenceArtifact_of_object (o : Object) : outcome InferenceArtifact :=
  let! _ := refuse_members ArtifactInvalid o RESERVED_FIELDS in
  let! _ := version o in
  let! tenant_id := typed ArtifactInvalid TenantId_parse o (lit "tenant_id") in
  let! origin_client_id := typed ArtifactInvalid ClientId_parse o (lit "origin_client_id") in
  let! trace_id := typed ArtifactInvalid TraceId_parse o (lit "trace_id") in
  let! inference_request_id :=
    typed ArtifactInvalid InferenceRequestId_parse o (lit "inference_request_id") in
  let! provider_attempt_id :=
    typed ArtifactInvalid ProviderAttemptId_parse o (lit "provider_attempt_id") in
  let! attempt_ordinal := u63_member ArtifactInvalid o (lit "attempt_ordinal") in
  let! capture_time := optional ArtifactInvalid Timestamp_parse o (lit "capture_time") in
  let! payload := optional_value Payload_from_value o (lit "payload") in
  let! metadata := optional_value Metadata_from_value o (lit "metadata") in
  let! event := parse_event o in
  let a := mkArtifact tenant_id origin_client_id trace_id inference_request_id provider_attempt_id
             attempt_ordinal capture_time payload metadata event (retained RECORD_FIELD_NAMES o) in
  let! _ := semantic_checks a in
  Ok a.

Definition InferenceArtifact_from_value (v : Value) : outcome InferenceArtifact :=
  match v with
  | VObject o => InferenceArtifact_of_object o
  | _ => Err (ArtifactMalformed None)
  end.

Definition InferenceArtifact_parse (bytes : list Z) : outcome InferenceArtifact :=
  let! v := map_err (fun e => ArtifactMalformed (Some e)) (Json.parse bytes) in
  InferenceArtifact_from_value v.

(** * Payloads *)

Record payload_ok (p : Payload) : Prop := {
  po_digest : wire_ok digest_parse (payload_digest p);
  po_size : 1 <= payload_size p <= I64_MAX;
  po_unknown : wf_value (VObject (payload_unknown_fields p)) /\
    Forall (fun m => m.1 ∉ PAYLOAD_NAMES) (payload_unknown_fields p) }.

Lemma payload_table p : names_table PAYLOAD_NAMES (payload_fields p).*1 = true.
Proof. vm_compute. reflexivity. Qed.

(** Retained members of a well-formed object are well-formed. *)
Lemma retained_wf_value names o : wf_value (VObject o) -> wf_value (VObject (retained names o)).
Proof.
  intros Ho. pose proof (proj1 (proj1 (wf_object_iff _) Ho)) as Hw. pose proof (retained_wf names o Hw) as Hu.
  apply wf_object_iff. split; [done|]. apply Forall_forall. intros [n v] Hin. simpl.
  pose proof (wf_members_scalar _ _ _ Hu Hin) as Hn. apply (object_get_in _ n v Hu Hn) in Hin.
  rewrite object_get_retained in Hin by done. case_bool_decide; [done|]. by apply (object_get_wf o n).
Qed.

Lemma payload_members_wf p : payload_ok p -> wf_value (VObject (payload_members p)).
Proof.
  intros [? ? [Hw Hdis]]. destruct (names_table_ok _ _ (payload_table p)) as (Hs & Hnd & Hnames).
  apply (record_wf PAYLOAD_NAMES (payload_fields p)); try done.
  assert (0 <= payload_size p <= I64_MAX) by lia. unfold payload_fields. table_values.
Qed.

Lemma Payload_from_value_iff v p : wf_value v ->
  Payload_from_value v = Ok p <-> payload_ok p /\ v = VObject (payload_members p).
Proof.
  intros Hv. destruct (names_table_ok _ _ (payload_table p)) as (Hs & Hnd & Hnames). split.
  - destruct v as [| | | | |o]; try done. unfold Payload_from_value. intros H. split_readers Hv.
    destruct (_ <? 1) eqn:E; [done|]. injection H as <-.
    match goal with |- payload_ok ?q /\ _ => set (p := q) in * end.
    destruct (proj1 (record_iff PAYLOAD_NAMES (payload_fields p) Hs Hnd Hnames o (payload_unknown_fields p)
      (proj1 (proj1 (wf_object_iff _) Hv)))) as (Hu & Hdis & Ho).
    { split; [|reflexivity]. unfold payload_fields. table_lookups. }
    split; [|by f_equal]. constructor; [done|cbn; lia|]. split; [by apply retained_wf_value|done].
  - intros [Hok ->]. destruct Hok as [Hd Hsz [Hw Hdis]].
    destruct (proj2 (record_iff PAYLOAD_NAMES (payload_fields p) Hs Hnd Hnames
      (payload_members p) (payload_unknown_fields p) (proj1 (proj1 (wf_object_iff _) Hv)))
      (conj (proj1 (proj1 (wf_object_iff _) Hw)) (conj Hdis eq_refl))) as [Hget Hret].
    apply Forall_cons in Hget as [H1 Hget]. apply Forall_cons in Hget as [H2 _]. cbn [fst snd] in *.
    assert (0 <= payload_size p <= I64_MAX) by lia.
    cbn [Payload_from_value]. do 2 run_reader Hv. rewrite (proj2 (Z.ltb_ge _ _)) by lia.
    rewrite <- Hret. by destruct p.
Qed.

(** * Metadata *)

Definition is_printable (t : list Z) : Prop :=
  t <> [] /\ zlen (as_bytes t) <= 256 /\ forallb (fun b => in_range 0x20 b 0x7e) (as_bytes t) = true /\
  Forall is_scalar t.

(** What an entry of the allowlist may hold. *)
Definition entry_ok (name : list Z) (v : Value) : Prop :=
  match v with
  | VText t => name ∈ map lit ["content_type"; "provider_request_id"]%string /\ is_printable t
  | VInt n => (name = lit "http_status" /\ 100 <= n <= 599) \/
      (name ∈ map lit ["rate_limit_limit"; "rate_limit_remaining"; "rate_limit_reset";
         "usage_input_tokens"; "usage_output_tokens"; "usage_total_tokens"]%string /\ 0 <= n <= I64_MAX)
  | _ => False
  end.

Record metadata_ok (m : Metadata) : Prop := {
  mo_entries : Forall (fun e => forall v, e.2 = Some v -> entry_ok e.1 v) (metadata_fields m);
  mo_nonempty : Metadata_is_empty m = false }.

(** The entry a name selects. *)
Definition metadata_get (m : Metadata) (name : list Z) : option Value :=
  match List.find (fun e => bool_decide (name = e.1)) (metadata_fields m) with
  | Some e => e.2
  | None => None
  end.
Lemma printable_iff v t : wf_value v -> printable_ascii v = Ok t <-> v = VText t /\ is_printable t.
Proof.
  intros Hv. unfold printable_ascii, is_printable. destruct v as [| | |raw| |]; try naive_solver.
  inversion Hv; subst. destruct (_ || _) eqn:E.
  - split; [done|]. intros ([= ->] & Hne & Hl & Hp & _). exfalso. rewrite Hp in E.
    destruct t; [done|]. cbn [orb negb] in E. rewrite orb_false_r in E. lia.
  - apply orb_false_iff in E as [E E3]. apply orb_false_iff in E as [E1 E2]. apply negb_false_iff in E3.
    split; [intros [= <-]|naive_solver]. split_and!; try done; [by destruct raw|lia].
Qed.

Lemma metadata_names m : (metadata_fields m).*1 ≡ₚ METADATA_ALLOWLIST.
Proof. destruct m. apply (bool_decide_unpack _). vm_compute. exact I. Qed.

Lemma allowlist_cases (P : list Z -> Prop) :
  Forall P METADATA_ALLOWLIST -> forall name, name ∈ METADATA_ALLOWLIST -> P name.
Proof. rewrite Forall_forall. auto. Qed.

Lemma metadata_get_other m name : name ∉ METADATA_ALLOWLIST -> metadata_get m name = None.
Proof.
  intros Hn. unfold metadata_get. destruct (List.find _ _) as [e|] eqn:E; [|done].
  apply List.find_some in E as [Hin Hb]. apply bool_decide_eq_true in Hb. subst name. destruct Hn.
  rewrite <- (metadata_names m). apply list_elem_of_fmap. exists e. split; [done|by apply list_elem_of_In].
Qed.

(** Split on the name a member has. *)
Ltac split_name :=
  repeat match goal with
  | H : (if bool_decide (?name = ?l) then _ else _) = _ |- _ =>
      destruct (decide (name = l)) as [->|?];
      [rewrite (bool_decide_true _) in H by reflexivity|rewrite (bool_decide_false _) in H by assumption]
  end.

(** What one turn of the loop does. *)
Lemma metadata_member_sound m name v m' : wf_value v -> metadata_member m name v = Ok m' ->
  entry_ok name v /\ name ∈ METADATA_ALLOWLIST /\
  forall n, metadata_get m' n = if bool_decide (n = name) then Some v else metadata_get m n.
Proof.
  intros Hv H.
  assert (Hin : name ∈ METADATA_ALLOWLIST /\ entry_ok name v /\
    Forall (fun n => metadata_get m' n = if bool_decide (n = name) then Some v else metadata_get m n)
      METADATA_ALLOWLIST).
  { unfold metadata_member in H. destruct m as [ct pr hs rl rr rs ui uo ut]. split_name.
    10: done.
    all: apply rbind_Ok in H as (x & Hx & H).
    all: first [apply printable_iff in Hx as [-> Hx]; [|done] | apply u63_iff in Hx as [Hx ->]; [|done]].
    all: try (destruct (negb _) eqn:Hst in H; [done|]; apply negb_false_iff, andb_true_iff in Hst as [? ?]).
    all: injection H as <-.
    all: split; [apply (bool_decide_unpack _); vm_compute; exact I|].
    all: split; [|repeat (apply Forall_cons; split; [vm_compute; reflexivity|]); by apply Forall_nil].
    all: unfold entry_ok.
    all: first [left; split; [done|lia] | right; split; [|done] | split; [|done]].
    all: apply (bool_decide_unpack _); vm_compute; exact I. }
  destruct Hin as (Hin & Hok & Hall). split_and!; [done|done|]. intros n.
  destruct (decide (n ∈ METADATA_ALLOWLIST)) as [Hn|Hn].
  - rewrite Forall_forall in Hall. by apply Hall.
  - rewrite !metadata_get_other by done. rewrite bool_decide_false; [done|]. by intros ->.
Qed.

Lemma metadata_member_complete m name v : wf_value v -> entry_ok name v ->
  exists m', metadata_member m name v = Ok m'.
Proof.
  intros Hv Hok. assert (Hp : forall t, v = VText t -> is_printable t -> printable_ascii v = Ok t).
  { intros t -> Ht. by apply printable_iff. }
  assert (Hi : forall n, v = VInt n -> 0 <= n <= I64_MAX -> u63 ArtifactInvalid v (lit "metadata") = Ok n).
  { intros n -> Hn. by apply u63_iff. }
  destruct m as [ct pr hs rl rr rs ui uo ut]. unfold metadata_member.
  destruct v as [| |n|t| |]; try done; simpl in Hok.
  - destruct Hok as [[-> Hn]|[Hin Hn]].
    + rewrite (Hi n) by (done || unfold I64_MAX; lia). exists (mkMetadata ct pr (Some n) rl rr rs ui uo ut).
      transitivity (if negb ((100 <=? n) && (n <=? 599)) then Err (invalid "metadata")
                    else Ok (mkMetadata ct pr (Some n) rl rr rs ui uo ut)); [reflexivity|].
      rewrite (proj2 (Z.leb_le 100 n)), (proj2 (Z.leb_le n 599)) by lia. done.
    + rewrite (Hi n) by done. repeat (apply elem_of_cons in Hin as [->|Hin]; [eexists; reflexivity|]).
      by apply elem_of_nil in Hin.
  - destruct Hok as [Hin Hn]. rewrite (Hp t) by done.
    repeat (apply elem_of_cons in Hin as [->|Hin]; [eexists; reflexivity|]). by apply elem_of_nil in Hin.
Qed.

Lemma metadata_loop_sound o m m' : Forall (fun e => wf_value e.2) o -> NoDup o.*1 ->
  metadata_loop m o = Ok m' ->
  Forall (fun e => entry_ok e.1 e.2) o /\
  forall n, metadata_get m' n = match object_map o !! n with Some v => Some v | None => metadata_get m n end.
Proof.
  intros Hv. revert m. induction Hv as [|[name v] o Hv _ IH]; intros m Hnd H; simpl in *.
  { injection H as <-. done. }
  apply NoDup_cons in Hnd as [Hni Hnd]. apply rbind_Ok in H as (m1 & Hm & H).
  destruct (metadata_member_sound m name v m1 Hv Hm) as (Hok & _ & Hg1).
  destruct (IH m1 Hnd H) as [Hall Hg]. split; [by constructor|]. intros n. rewrite Hg.
  unfold object_map in *. simpl. destruct (decide (n = name)) as [->|Hne].
  - rewrite lookup_insert_eq. rewrite (not_elem_of_list_to_map_1 o name) by done. rewrite Hg1.
    by rewrite bool_decide_true.
  - rewrite lookup_insert_ne by done. rewrite Hg1. by rewrite bool_decide_false.
Qed.

Lemma metadata_loop_complete o m : Forall (fun e => wf_value e.2) o ->
  Forall (fun e => entry_ok e.1 e.2) o -> exists m', metadata_loop m o = Ok m'.
Proof.
  intros Hv Hok. revert m. induction Hv as [|[name v] o Hv _ IH]; intros m; [by eexists|].
  apply Forall_cons in Hok as [Hok Hall]. simpl.
  destruct (metadata_member_complete m name v Hv Hok) as [m1 ->]. apply (IH Hall).
Qed.

Lemma metadata_get_fields m : Forall (fun e => metadata_get m e.1 = e.2) (metadata_fields m).
Proof.
  destruct m. repeat (apply Forall_cons; split; [vm_compute; reflexivity|]). by apply Forall_nil.
Qed.

#[local] Instance VText_inj : Inj (=) (=) VText.
Proof. by intros ? ? [= ->]. Qed.
#[local] Instance VInt_inj : Inj (=) (=) VInt.
Proof. by intros ? ? [= ->]. Qed.

Lemma metadata_get_ext m m' : (forall n, metadata_get m n = metadata_get m' n) -> m = m'.
Proof.
  intros H. pose proof (metadata_get_fields m) as H1. pose proof (metadata_get_fields m') as H2.
  unfold metadata_fields in *.
  repeat match goal with H : Forall _ (_ :: _) |- _ => apply Forall_cons in H as [? H] end.
  cbn [fst snd] in *. clear H1 H2.
  repeat match goal with
  | Ha : metadata_get m ?n = ?x, Hb : metadata_get m' ?n = ?y |- _ =>
      rewrite H, Hb in Ha; clear Hb; apply (inj (fmap (M:=option) _)) in Ha
  end.
  destruct m, m'. cbn in *. congruence.
Qed.

(** ** The member *)

Definition metadata_members (m : Metadata) : Object := set_members (metadata_fields m) [].

Lemma metadata_scalar : Forall (Forall is_scalar) METADATA_ALLOWLIST.
Proof. repeat (apply Forall_cons; split; [scalar_name|]). by apply Forall_nil. Qed.

Lemma metadata_fields_table m : Forall (fun e => Forall is_scalar e.1) (metadata_fields m) /\
  NoDup (metadata_fields m).*1.
Proof.
  split.
  - apply (Forall_map fst (Forall is_scalar)). change (map fst (metadata_fields m)) with (metadata_fields m).*1.
    rewrite (metadata_names m). apply metadata_scalar.
  - rewrite (metadata_names m). apply (bool_decide_unpack _). vm_compute. exact I.
Qed.

Lemma metadata_members_wf_members m : wf_members (metadata_members m).
Proof. apply set_members_wf; [apply metadata_fields_table|apply wf_members_nil]. Qed.

Lemma metadata_members_get m n : Forall is_scalar n -> object_get (metadata_members m) n = metadata_get m n.
Proof.
  intros Hn. destruct (metadata_fields_table m) as [Hs Hnd].
  destruct (decide (n ∈ METADATA_ALLOWLIST)) as [Hin|Hni].
  - rewrite <- (metadata_names m) in Hin. apply list_elem_of_fmap in Hin as ([n' ov] & -> & Hin). simpl in *.
    unfold metadata_members. rewrite (object_get_set_members _ _ n' ov) by (done || apply wf_members_nil).
    pose proof (metadata_get_fields m) as Hg. rewrite Forall_forall in Hg. specialize (Hg _ Hin). simpl in Hg.
    rewrite Hg. by destruct ov.
  - rewrite metadata_get_other by done. unfold metadata_members.
    rewrite object_get_set_members_other; [done|done|apply wf_members_nil|done|]. by rewrite (metadata_names m).
Qed.

(** Every present entry is one of the fields. *)
Lemma metadata_get_entry m n v : metadata_get m n = Some v -> (n, Some v) ∈ metadata_fields m.
Proof.
  unfold metadata_get. destruct (List.find _ _) as [[n' ov]|] eqn:E; [|done]. simpl. intros ->.
  apply List.find_some in E as [Hin Hb]. apply bool_decide_eq_true in Hb. simpl in Hb. subst n'.
  by apply list_elem_of_In.
Qed.

Lemma metadata_members_entries m : metadata_ok m -> Forall (fun e => entry_ok e.1 e.2) (metadata_members m).
Proof.
  intros [Hok _]. apply Forall_forall. intros [n v] Hin. simpl.
  pose proof (metadata_members_wf_members m) as Hw. pose proof (wf_members_scalar _ _ _ Hw Hin) as Hn.
  apply (object_get_in _ n v Hw Hn) in Hin. rewrite metadata_members_get in Hin by done.
  apply metadata_get_entry in Hin. rewrite Forall_forall in Hok. exact (Hok _ Hin v eq_refl).
Qed.

Lemma entry_wf name v : entry_ok name v -> wf_value v.
Proof.
  destruct v as [| |n|t| |]; try done; simpl.
  - intros Hn. constructor. unfold is_i64, I64_MIN, I64_MAX in *. destruct Hn as [[_ ?]|[_ ?]]; lia.
  - intros (_ & _ & _ & _ & ?). by constructor.
Qed.

Lemma metadata_members_wf m : metadata_ok m -> wf_value (VObject (metadata_members m)).
Proof.
  intros Hm%metadata_members_entries. apply wf_object_iff. split; [apply metadata_members_wf_members|].
  eapply Forall_impl; [exact Hm|]. intros e. apply entry_wf.
Qed.

Lemma Metadata_from_value_iff v m : wf_value v ->
  Metadata_from_value v = Ok m <-> metadata_ok m /\ v = VObject (metadata_members m).
Proof.
  intros Hv. split.
  - destruct v as [| | | | |o]; try done. unfold Metadata_from_value. intros H.
    apply rbind_Ok in H as (m' & Hl & H). destruct (Metadata_is_empty m') eqn:He; [done|]. injection H as ->.
    apply wf_object_iff in Hv as [Hw Hv].
    destruct (metadata_loop_sound o no_metadata m Hv (wf_members_NoDup _ Hw) Hl) as [Hok Hg].
    assert (Hget : forall n, Forall is_scalar n -> object_get o n = metadata_get m n).
    { intros n Hn. rewrite Hg, object_get_map by done. destruct (object_map o !! n); [done|].
      unfold metadata_get. destruct (List.find _ _) as [e|] eqn:E; [|done].
      apply List.find_some in E as [E _]. simpl in E. naive_solver. }
    split.
    + constructor; [|done]. apply Forall_forall. intros [n ov] Hin v Hov. simpl in *. subst ov.
      pose proof (metadata_get_fields m) as Hf. rewrite Forall_forall in Hf. specialize (Hf _ Hin). simpl in Hf.
      assert (Hn : Forall is_scalar n).
      { destruct (metadata_fields_table m) as [Hs _]. rewrite Forall_forall in Hs. exact (Hs _ Hin). }
      rewrite <- Hget in Hf by done. apply object_get_in in Hf; [|done..].
      rewrite Forall_forall in Hok. exact (Hok _ Hf).
    + f_equal. apply object_ext; [done|apply metadata_members_wf_members|].
      intros n Hn. by rewrite Hget, metadata_members_get.
  - intros [Hok ->]. pose proof (metadata_members_entries m Hok) as He. apply wf_object_iff in Hv as [Hw Hv].
    destruct (metadata_loop_complete _ no_metadata Hv He) as [m' Hl].
    destruct (metadata_loop_sound _ _ _ Hv (wf_members_NoDup _ Hw) Hl) as [_ Hg].
    assert (m' = m) as ->.
    { apply metadata_get_ext. intros n. rewrite Hg.
      destruct (decide (n ∈ METADATA_ALLOWLIST)) as [Hin|Hni].
      - assert (Hn : Forall is_scalar n) by (pose proof metadata_scalar as Hs; rewrite Forall_forall in Hs; auto).
        rewrite <- object_get_map, metadata_members_get by done. destruct (metadata_get m n) eqn:E; [done|].
        unfold metadata_get. destruct (List.find _ _) as [e|] eqn:E'; [|done].
        apply List.find_some in E' as [E' _]. simpl in E'. naive_solver.
      - rewrite !metadata_get_other by done. destruct (object_map _ !! n) as [v|] eqn:E; [|done].
        unfold object_map in E. apply elem_of_list_to_map in E; [|by apply wf_members_NoDup].
        pose proof (wf_members_scalar _ _ _ Hw E) as Hn. apply (object_get_in _ n v Hw Hn) in E.
        by rewrite metadata_members_get, metadata_get_other in E. }
    unfold Metadata_from_value. rewrite Hl. cbn [rbind]. by rewrite (mo_nonempty m Hok).
Qed.

(** * Events *)

Definition optional_ok (n : option Z) : Prop := forall k, n = Some k -> 0 <= k <= I64_MAX.

Definition event_ok (e : BoundaryEvent) : Prop :=
  match e with
  | StreamingEvent n => 0 <= n <= I64_MAX
  | Retry n _ ms => 0 <= n <= I64_MAX /\ optional_ok ms
  | TransportError _ ms => optional_ok ms
  | _ => True
  end.

(** Every kind-specific member, absent for the kinds an event is not. *)
Definition event_table (e : BoundaryEvent) : list (list Z * option Value) :=
  let '(ordinal, cited, reason, backoff, source, class, timeout) :=
    match e with
    | ProviderRequest | ProviderResponse => (None, None, None, None, None, None, None)
    | StreamingEvent n => (Some (VInt n), None, None, None, None, None, None)
    | Retry n r ms => (None, Some (VInt n), Some (VText (token r)), VInt <$> ms, None, None, None)
    | Usage s => (None, None, None, None, Some (VText (token s)), None, None)
    | TransportError c ms => (None, None, None, None, None, Some (VText (token c)), VInt <$> ms)
    end in
  [(lit "event_ordinal", ordinal); (lit "retry_of_attempt_ordinal", cited);
   (lit "retry_reason", reason); (lit "backoff_ms", backoff); (lit "usage_source", source);
   (lit "error_class", class); (lit "timeout_ms", timeout)].

Lemma set_event_table e o : set_members (event_table e) o = set_members (event_fields e) o.
Proof. by destruct e. Qed.

Lemma parse_event_iff o e : wf_value (VObject o) ->
  parse_event o = Ok e <->
  event_ok e /\ object_get o (lit "artifact_kind") = Some (VText (token (event_kind e))) /\
  Forall (fun m => object_get o m.1 = m.2) (event_table e) /\
  (payload_required (event_kind e) = true -> is_Some (object_get o (lit "payload"))).
Proof.
  intros Ho. unfold parse_event. split.
  - intros H. apply rbind_Ok in H as (k & Hk & H). apply rbind_Ok in H as ([] & Hf & H).
    apply (typed_iff _ _ Ho enum_parse (lit "artifact_kind") k ltac:(scalar_name)) in Hk as [_ Hk].
    apply refuse_members_iff in Hf. unfold foreign_members in Hf.
    assert (Hpay : payload_required k = true -> is_Some (object_get o (lit "payload"))).
    { intros Hp. rewrite Hp, object_contains_get in H. by case_bool_decide. }
    destruct (_ && _); [done|].
    destruct k; cbn [flat_map kind_specific_members app bool_decide] in Hf;
      split_readers Ho; injection H as <-.
    all: repeat match type of Hf with context [bool_decide ?P] =>
           first [rewrite (bool_decide_true P) in Hf by done|rewrite (bool_decide_false P) in Hf by done] end.
    all: cbn [flat_map kind_specific_members app] in Hf.
    all: repeat match goal with H : Forall _ (_ :: _) |- _ => apply Forall_cons in H as [? H] end.
    all: split; [cbn; try done|]. all: try (split; done).
    all: split; [exact Hk|]. all: split; [cbn [event_table]; table_lookups|exact Hpay].
  - intros (Hok & Hk & Htab & Hpay).
    apply rbind_Ok. exists (event_kind e). split.
    { apply (typed_iff _ _ Ho enum_parse (lit "artifact_kind") (event_kind e) ltac:(scalar_name)). by split. }
    assert (Hf : refuse_members ArtifactInvalid o (foreign_members (event_kind e)) = Ok tt).
    { apply refuse_members_iff. destruct e; cbn [event_table] in Htab;
        repeat (apply Forall_cons in Htab as [? Htab]); cbn [fst snd] in *;
        unfold foreign_members; cbn [event_kind flat_map kind_specific_members app].
      all: repeat match goal with |- context [bool_decide ?P] =>
             first [rewrite (bool_decide_true P) by done|rewrite (bool_decide_false P) by done] end.
      all: cbn [flat_map kind_specific_members app].
      all: repeat (apply Forall_cons; split; [assumption|]); by apply Forall_nil. }
    rewrite Hf. cbn [rbind].
    replace (payload_required (event_kind e) && negb (object_contains o (lit "payload"))) with false.
    2:{ rewrite object_contains_get. destruct (payload_required (event_kind e)); [|done].
        by rewrite bool_decide_true by (by apply Hpay). }
    unfold event_ok, optional_ok in Hok.
    destruct e; cbn [event_table] in Htab; repeat (apply Forall_cons in Htab as [? Htab]); cbn [fst snd] in *;
      cbn [event_kind]; try done; try match type of Hok with _ /\ (forall _, _) => destruct Hok as [? ?] end; repeat run_reader Ho; done.
Qed.

(** * Records *)

(** What every accepted record satisfies. *)
Record artifact_ok (a : InferenceArtifact) : Prop := {
  ao_tenant : wire_ok TenantId_parse (tenant_id a);
  ao_origin : wire_ok ClientId_parse (origin_client_id a);
  ao_trace : wire_ok TraceId_parse (trace_id a);
  ao_request : wire_ok InferenceRequestId_parse (inference_request_id a);
  ao_attempt : wire_ok ProviderAttemptId_parse (provider_attempt_id a);
  ao_ordinal : 0 <= attempt_ordinal a <= I64_MAX;
  ao_capture : forall t, capture_time a = Some t -> wire_ok Timestamp_parse t;
  ao_payload : forall p, payload a = Some p -> payload_ok p;
  ao_metadata : forall m, metadata a = Some m -> metadata_ok m;
  ao_event : event_ok (event a);
  ao_payload_required : payload_required (event_kind (event a)) = true -> is_Some (payload a);
  ao_semantic : semantic_checks a = Ok tt;
  ao_unknown : wf_value (VObject (unknown_fields a)) /\
    Forall (fun m => m.1 ∉ RECORD_FIELD_NAMES) (unknown_fields a) /\
    Forall (fun m => m.1 ∉ RESERVED_FIELDS) (unknown_fields a) }.

Definition artifact_table (a : InferenceArtifact) : list (list Z * option Value) :=
  common_fields a ++ event_table (event a).

Lemma artifact_table_ok a : names_table RECORD_FIELD_NAMES (artifact_table a).*1 = true.
Proof.
  unfold artifact_table. rewrite fmap_app. destruct (event a) eqn:E; unfold common_fields; rewrite E;
    vm_compute; reflexivity.
Qed.

Lemma artifact_members_table a : artifact_members a = record (artifact_table a) (unknown_fields a).
Proof.
  unfold artifact_members, record, artifact_table, set_members. rewrite !fold_left_app.
  f_equal. symmetry. exact (set_event_table (event a) (fold_left set_member (common_fields a) [])).
Qed.

Lemma artifact_reserved_names f : f ∈ RESERVED_FIELDS -> Forall is_scalar f /\ f ∉ RECORD_FIELD_NAMES.
Proof.
  revert f. apply Forall_forall.
  repeat (apply Forall_cons; split; [split; [scalar_name|apply (bool_decide_unpack _); vm_compute; exact I]|]).
  by apply Forall_nil.
Qed.

Lemma artifact_reserved_get a : wf_members (unknown_fields a) ->
  Forall (fun m => m.1 ∉ RESERVED_FIELDS) (unknown_fields a) <->
  Forall (fun f => object_get (artifact_members a) f = None) RESERVED_FIELDS.
Proof.
  intros Hw. destruct (names_table_ok _ _ (artifact_table_ok a)) as (Hs & Hnd & Hnames).
  rewrite artifact_members_table.
  exact (record_reserved _ _ Hs Hnames (unknown_fields a) RESERVED_FIELDS Hw artifact_reserved_names).
Qed.

Lemma artifact_version_iff o : version o = Ok tt <->
  object_get o (lit "inference_artifact_version") = Some (VInt INFERENCE_ARTIFACT_VERSION).
Proof.
  unfold version, require, ok_or.
  destruct (object_get o _) as [[| |n| | |]|]; cbn [rbind]; try naive_solver.
  destruct (n =? _) eqn:E; [apply Z.eqb_eq in E; naive_solver|apply Z.eqb_neq in E; naive_solver].
Qed.

Lemma optional_value_iff {A} (f : Value -> outcome A) (ok : A -> Prop) (g : A -> Object) o field oa :
  wf_value (VObject o) -> Forall is_scalar field ->
  (forall v a, wf_value v -> f v = Ok a <-> ok a /\ v = VObject (g a)) ->
  optional_value f o field = Ok oa <->
  (forall a, oa = Some a -> ok a) /\ object_get o field = (fun a => VObject (g a)) <$> oa.
Proof.
  intros Ho Hs Hf. unfold optional_value. split.
  - destruct (object_get o field) as [v|] eqn:E.
    + destruct (f v) as [a| |] eqn:Ef; cbn; [|done|done]. intros [= <-].
      apply Hf in Ef as [? ->]; [naive_solver|]. by apply (object_get_wf o field).
    + by intros [= <-].
  - intros [Hok Hg]. rewrite Hg. destruct oa as [a|]; [|done]. cbn in *.
    by rewrite (proj2 (Hf (VObject (g a)) a (object_get_wf o field _ Ho Hs Hg)) (conj (Hok a eq_refl) eq_refl)).
Qed.

(** A metadata entry is present exactly when the record has metadata. *)
Lemma metadata_entry om : (forall m, om = Some m -> metadata_ok m) ->
  (m ← om; Metadata_to_value m) = (fun m => VObject (metadata_members m)) <$> om.
Proof.
  intros Hok. destruct om as [m|]; [|done]. cbn. unfold Metadata_to_value.
  by rewrite (mo_nonempty m (Hok m eq_refl)).
Qed.

Lemma InferenceArtifact_sound o a : wf_value (VObject o) -> InferenceArtifact_of_object o = Ok a ->
  artifact_ok a /\ o = artifact_members a.
Proof.
  intros Ho H. unfold InferenceArtifact_of_object in H. split_readers Ho. injection H as <-.
  match goal with H : semantic_checks ?x = Ok ?u |- _ => set (a := x) in *; destruct u end.
  match goal with H : version _ = Ok ?u |- _ => destruct u; apply artifact_version_iff in H end.
  match goal with H : optional_value Payload_from_value _ _ = _ |- _ =>
    apply (optional_value_iff Payload_from_value payload_ok payload_members o _ _ Ho) in H as [? ?];
      [|scalar_name|intros; by apply Payload_from_value_iff] end.
  match goal with H : optional_value Metadata_from_value _ _ = _ |- _ =>
    apply (optional_value_iff Metadata_from_value metadata_ok metadata_members o _ _ Ho) in H as [Hmok Hm];
      [|scalar_name|intros; by apply Metadata_from_value_iff] end.
  rewrite <- metadata_entry in Hm by done.
  match goal with H : parse_event _ = _ |- _ => apply parse_event_iff in H as (? & ? & Hev & Hreq); [|done] end.
  destruct (names_table_ok _ _ (artifact_table_ok a)) as (Hs & Hnd & Hnames).
  destruct (proj1 (record_iff RECORD_FIELD_NAMES (artifact_table a) Hs Hnd Hnames o (unknown_fields a)
    (proj1 (proj1 (wf_object_iff _) Ho)))) as (Hu & Hdis & Hrec).
  { split; [|reflexivity]. unfold artifact_table. apply Forall_app. split; [|exact Hev].
    unfold common_fields. table_lookups. }
  rewrite <- artifact_members_table in Hrec. split; [|exact Hrec].
  constructor; try assumption.
  - intros Hp. specialize (Hreq Hp).
    match goal with H : object_get o (lit "payload") = _ |- _ => rewrite H in Hreq end.
    cbn [payload a]. by apply fmap_is_Some in Hreq.
  - split_and!; [by apply retained_wf_value|done|]. apply artifact_reserved_get; [done|]. by rewrite <- Hrec.
Qed.

Lemma artifact_values a : artifact_ok a ->
  Forall (fun m => forall v, m.2 = Some v -> wf_value v) (artifact_table a).
Proof.
  intros []. unfold artifact_table. apply Forall_app. split.
  - unfold common_fields. rewrite metadata_entry by done. table_values.
    + apply wf_member_int. unfold I64_MAX. vm_compute. split; discriminate.
    + intros v. destruct (payload a) as [p|] eqn:E; [|done]. intros [= <-]. by apply payload_members_wf, ao_payload0.
    + intros v. destruct (metadata a) as [m|] eqn:E; [|done]. intros [= <-]. by apply metadata_members_wf, ao_metadata0.
  - destruct (event a) eqn:E; unfold event_ok, optional_ok in *; cbn [event_table];
      try match type of ao_event0 with _ /\ (forall _, _) => destruct ao_event0 as [? ?] end.
    all: repeat (apply Forall_cons; split; [cbn [fst snd]; try done|]); try (by apply Forall_nil).
    all: first [exact (wf_member_enum _) | by apply wf_member_int | by apply wf_member_opt_int].
Qed.

Lemma artifact_members_wf a : artifact_ok a -> wf_value (VObject (artifact_members a)).
Proof.
  intros Hok. pose proof (artifact_values a Hok). destruct (ao_unknown a Hok) as (? & ? & _).
  destruct (names_table_ok _ _ (artifact_table_ok a)) as (Hs & Hnd & Hnames).
  rewrite artifact_members_table. by apply (record_wf RECORD_FIELD_NAMES).
Qed.

Lemma InferenceArtifact_complete a : artifact_ok a ->
  InferenceArtifact_of_object (artifact_members a) = Ok a.
Proof.
  intros Hok. pose proof (artifact_members_wf a Hok) as Hobj.
  destruct (names_table_ok _ _ (artifact_table_ok a)) as (Hs & Hnd & Hnames).
  pose proof (ao_unknown a Hok) as (Hwu & Hdis & Hres). pose proof (proj1 (proj1 (wf_object_iff _) Hwu)) as Hu.
  apply artifact_reserved_get, (refuse_members_iff ArtifactInvalid) in Hres; [|done].
  assert (Hrec := proj1 (wf_object_iff _) Hobj).
  rewrite artifact_members_table in Hrec.
  destruct (proj2 (record_iff RECORD_FIELD_NAMES (artifact_table a) Hs Hnd Hnames _ (unknown_fields a)
    (proj1 Hrec)) (conj Hu (conj Hdis eq_refl))) as [Hget Hret].
  rewrite <- artifact_members_table in Hget, Hret. clear Hrec.
  destruct Hok. unfold artifact_table in Hget. apply Forall_app in Hget as [Hget Hev].
  unfold common_fields in Hget. rewrite metadata_entry in Hget by done.
  repeat (apply Forall_cons in Hget as [? Hget]). cbn [fst snd] in *.
  generalize dependent (artifact_members a). intros o. intros.
  unfold InferenceArtifact_of_object.
  match goal with H : refuse_members _ _ _ = _ |- _ => rewrite H end. cbn [rbind].
  rewrite (proj2 (artifact_version_iff o)) by done. cbn [rbind].
  match goal with H : wf_value (VObject o) |- _ => rename H into Ho end.
  do 7 run_reader Ho.
  rewrite (proj2 (optional_value_iff Payload_from_value payload_ok payload_members o (lit "payload") (payload a) Ho
    ltac:(scalar_name) ltac:(intros; by apply Payload_from_value_iff))) by done. cbn [rbind].
  rewrite (proj2 (optional_value_iff Metadata_from_value metadata_ok metadata_members o (lit "metadata") (metadata a) Ho
    ltac:(scalar_name) ltac:(intros; by apply Metadata_from_value_iff))) by done. cbn [rbind].
  rewrite (proj2 (parse_event_iff o (event a) Ho)).
  2:{ split_and!; try done. intros Hp. match goal with H : object_get o (lit "payload") = _ |- _ => rewrite H end.
      destruct (ao_payload_required0 Hp) as [p ->]. by eexists. }
  cbn [rbind]. match goal with H : unknown_fields a = _ |- _ => rewrite <- H end.
  match goal with |- context [semantic_checks ?x] => replace x with a by (by destruct a) end.
  by rewrite ao_semantic0.
Qed.

(** * Byte-level theorems *)

Lemma InferenceArtifact_parse_Ok bytes a : InferenceArtifact_parse bytes = Ok a <->
  exists o, Json.parse bytes = Ok (VObject o) /\ InferenceArtifact_of_object o = Ok a.
Proof.
  unfold InferenceArtifact_parse, InferenceArtifact_from_value. split.
  - destruct (Json.parse bytes) as [v| |]; cbn; [|done|done]. destruct v; try done. eauto.
  - by intros (o & -> & ?).
Qed.

Lemma present_ok n : optional_ok n -> Forall (fun k => k <= I64_MAX) (present n).
Proof. intros Hn. destruct n as [k|]; [|constructor]. constructor; [apply (Hn k eq_refl)|constructor]. Qed.

Lemma metadata_integers_ok m : metadata_ok m -> Forall (fun n => n <= I64_MAX) (metadata_integers m).
Proof.
  intros [Hok _]. destruct m as [ct pr hs rl rr rs ui uo ut].
  assert (Hn : forall name on, (forall v, VInt <$> on = Some v -> entry_ok name v) -> optional_ok on).
  { intros name on He n ->. specialize (He (VInt n) eq_refl). unfold entry_ok in He. destruct He as [[_ ?]|[_ ?]]; unfold I64_MAX in *; lia. }
  unfold metadata_fields in Hok. repeat (apply Forall_cons in Hok as [? Hok]). cbn [fst snd] in *.
  unfold metadata_integers. cbn [flat_map]. repeat (apply Forall_app; split).
  all: try constructor. all: eapply present_ok, Hn; eassumption.
Qed.

(** An accepted record renders without a panic. *)
Lemma artifact_to_value_ok a : artifact_ok a ->
  InferenceArtifact_to_value a = Some (VObject (artifact_members a)).
Proof.
  intros Hok. unfold InferenceArtifact_to_value.
  replace (forallb fits_i64 (artifact_integers a)) with true; [done|]. symmetry. apply forallb_forall.
  assert (Hall : Forall (fun n => n <= I64_MAX) (artifact_integers a)).
  { destruct Hok. unfold artifact_integers. constructor; [lia|]. repeat (apply Forall_app; split).
    - destruct (payload a) as [p|]; [|constructor]. constructor; [|constructor].
      destruct (ao_payload0 p eq_refl) as [_ ? _]. lia.
    - destruct (metadata a) as [m|]; [|constructor]. by apply metadata_integers_ok, ao_metadata0.
    - unfold event_ok in ao_event0. destruct (event a); cbn [event_integers]; try constructor.
      all: try (by apply present_ok); try (by apply present_ok, ao_event0). all: try lia.
      apply Forall_nil. exact I. }
  rewrite Forall_forall in Hall. intros n Hn%list_elem_of_In. specialize (Hall n Hn). unfold fits_i64. lia.
Qed.

Lemma InferenceArtifact_of_object_fuel o : InferenceArtifact_of_object o <> OutOfFuel.
Proof.
  assert (Hp : forall v, Payload_from_value v <> OutOfFuel).
  { intros v. destruct v; try done. cbn. no_fuel. by case_match. }
  assert (Hmm : forall m n v, metadata_member m n v <> OutOfFuel).
  { intros m n v. unfold metadata_member. destruct m.
    assert (Hpr : printable_ascii v <> OutOfFuel) by (unfold printable_ascii; repeat case_match; done).
    repeat case_match; try done; (apply rbind_fuel; [auto with fuel|intros ? _]); try done; by case_match. }
  assert (Hm : forall v, Metadata_from_value v <> OutOfFuel).
  { intros v. destruct v as [| | | | |o']; try done. cbn. apply rbind_fuel; [|intros ? _; by case_match].
    generalize no_metadata. induction o' as [|[n v] o' IH]; intros m; [done|]. cbn.
    apply rbind_fuel; [apply Hmm|intros ? _; apply IH]. }
  assert (Hopt : forall A (f : Value -> outcome A) field, (forall v, f v <> OutOfFuel) ->
            optional_value f o field <> OutOfFuel).
  { intros A f field Hf. unfold optional_value. case_match; [|done]. apply rbind_fuel; [apply Hf|done]. }
  assert (He : parse_event o <> OutOfFuel).
  { unfold parse_event. do 2 (apply rbind_fuel; [auto with fuel|intros ? _]).
    case_match; [done|]. case_match; no_fuel. }
  assert (Hv : version o <> OutOfFuel).
  { unfold version. apply rbind_fuel; [auto with fuel|]. intros v _. repeat case_match; done. }
  unfold InferenceArtifact_of_object.
  do 9 (apply rbind_fuel; [auto with fuel|intros ? _]).
  apply rbind_fuel; [by apply Hopt|intros ? _]. apply rbind_fuel; [by apply Hopt|intros ? _].
  apply rbind_fuel; [done|intros ? _]. cbv zeta. apply rbind_fuel; [|done].
  unfold semantic_checks. repeat case_match; done.
Qed.


(** * The sequencer's records *)

Definition time_ok (time : option (list Z)) : Prop :=
  forall t, time = Some t -> wire_ok Timestamp_parse t.
Definition bytes_ok (b : list Z) : Prop := Forall is_byte b /\ zlen b <= I64_MAX.
Definition observed_ok (m : option Metadata) : Prop := forall x, m = Some x -> metadata_ok x.

(** Typed arguments: what the callers of the sequencer can pass it, with
    integers in the wire's range and metadata present only when not empty. *)
Definition op_ok (op : Op) : Prop :=
  match op with
  | OStart minted => wire_ok ProviderAttemptId_parse minted
  | ORequest b m time | OResponse b m time | OStream b m time =>
      bytes_ok b /\ observed_ok m /\ time_ok time
  | OUsage _ b i o t time =>
      (forall x, b = Some x -> bytes_ok x) /\
      0 <= i <= I64_MAX /\ 0 <= o <= I64_MAX /\ 0 <= t <= I64_MAX /\ time_ok time
  | OError _ ms time => optional_ok ms /\ time_ok time
  | ORetry _ ms time minted =>
      optional_ok ms /\ time_ok time /\ wire_ok ProviderAttemptId_parse minted
  end.

(** An attempt of the sequencer's inference. *)
Record attempt_wf (s : AttemptSequencer) (a : ProviderAttempt) : Prop := {
  aw_ordinal : 0 <= pa_ordinal a <= I64_MAX;
  aw_id : wire_ok ProviderAttemptId_parse (pa_id a);
  aw_trace : pa_trace_id a = li_trace_id (inference s);
  aw_request : pa_request_id a = li_request_id (inference s) }.

(** The sequencer after at most [k] calls. *)
Record sequencer_ok (k : Z) (s : AttemptSequencer) : Prop := {
  so_tenant : wire_ok TenantId_parse (sq_tenant_id s);
  so_client : wire_ok ClientId_parse (sq_client_id s);
  so_trace : wire_ok TraceId_parse (li_trace_id (inference s));
  so_request : wire_ok InferenceRequestId_parse (li_request_id (inference s));
  so_next : 0 <= next_attempt_ordinal (inference s);
  so_track : forall t, current s = Some t ->
    attempt_wf s (attempt t) /\ track_ordinal t < next_attempt_ordinal (inference s) /\
    0 <= next_event_ordinal t <= k }.

Lemma made_payload_ok b : b <> [] -> bytes_ok b -> payload_ok (mkPayload (blob_digest b) (zlen b) []).
Proof.
  intros Hne [Hb Hl]. constructor; simpl.
  - split; [apply digest_bytes|apply length_digest].
  - split; [|done]. destruct b; [done|]. rewrite zlen_cons. pose proof (zlen_nonneg b). lia.
  - split; [apply wf_object_iff; split; [apply wf_members_nil|constructor]|constructor].
Qed.

Lemma checked_time_Ok time u : checked_time time = Ok u ->
  match time with Some t => negb (calendar_valid t) | None => false end = false.
Proof. unfold checked_time. destruct time as [t|]; [|done]. by destruct (calendar_valid t). Qed.

Lemma usage_metadata_ok i o n : 0 <= i <= I64_MAX -> 0 <= o <= I64_MAX -> 0 <= n <= I64_MAX ->
  metadata_ok (mkMetadata None None None None None None (Some i) (Some o) (Some n)).
Proof.
  intros. constructor; [|done]. unfold metadata_fields. cbn.
  repeat (apply Forall_cons; split; [cbn [fst snd]; intros v [= <-]|]); [..|by apply Forall_nil].
  all: right; split; [apply (bool_decide_unpack _); vm_compute; exact I|done].
Qed.

(** A stamped record satisfies the rules when its parts do. *)
Lemma stamp_ok k s t e p m time : sequencer_ok k s -> attempt_wf s (attempt t) -> time_ok time ->
  match time with Some t => negb (calendar_valid t) | None => false end = false ->
  (forall x, p = Some x -> payload_ok x) -> observed_ok m -> event_ok e ->
  (payload_required (event_kind e) = true -> is_Some p) ->
  match e with
  | Retry cited _ _ => cited < track_ordinal t
  | Usage _ => exists i o n, m = Some (mkMetadata None None None None None None (Some i) (Some o) (Some n))
  | _ => True
  end ->
  artifact_ok (stamp t (sq_tenant_id s) (sq_client_id s) e p m time).
Proof.
  intros [] [] Ht Hcal Hp Hm He Hreq Hsem.
  constructor; cbn [stamp tenant_id origin_client_id trace_id inference_request_id provider_attempt_id
    attempt_ordinal capture_time payload metadata event unknown_fields];
    rewrite ?aw_trace0, ?aw_request0; try done.
  - unfold semantic_checks. cbn [stamp capture_time event attempt_ordinal metadata]. rewrite Hcal.
    unfold track_ordinal in Hsem. destruct e; try done.
    + by rewrite (proj2 (Z.leb_gt _ _)).
    + by destruct Hsem as (? & ? & ? & ->).
  - split_and!; [apply wf_object_iff; split; [apply wf_members_nil|]|..]; constructor.
Qed.

(** The sequencer with its open attempt's track replaced. *)
Lemma set_current_ok k s t : sequencer_ok k s -> attempt_wf s (attempt t) ->
  track_ordinal t < next_attempt_ordinal (inference s) -> 0 <= next_event_ordinal t <= k ->
  sequencer_ok k (set_current s t).
Proof.
  intros [] [] Hn Hev. constructor; cbn; try done. intros t' [= <-]. split_and!; [|done|lia|lia]. by constructor.
Qed.

Lemma sequencer_ok_mono k k' s : k <= k' -> sequencer_ok k s -> sequencer_ok k' s.
Proof.
  intros Hk []. constructor; try done. intros t Ht. destruct (so_track0 t Ht) as (? & ? & ?).
  split_and!; [done|done|lia|lia].
Qed.

Lemma opened_ok k s minted : 0 <= k -> sequencer_ok k s -> wire_ok ProviderAttemptId_parse minted ->
  next_attempt_ordinal (inference s) <= MAX_ATTEMPT_ORDINAL -> sequencer_ok k (opened s minted).
Proof.
  intros Hk [] Hm Hmax. constructor; cbn; try done; [lia|]. intros t [= <-]. cbn. unfold track_ordinal. cbn.
  split_and!; [|lia|lia|lia]. constructor; cbn; try done; unfold MAX_ATTEMPT_ORDINAL, I64_MAX in *; lia.
Qed.

(** The open attempt of a successful call. *)
Ltac open_attempt k s Hs :=
  inv_emission;
  match goal with H : current s = Some ?t |- _ => destruct (so_track k s Hs t H) as (Ha & Hn & He) end;
  match goal with H : checked_time _ = Ok _ |- _ => apply checked_time_Ok in H end.

Lemma perform_ok k s op s' o : 0 <= k < I64_MAX -> sequencer_ok k s -> op_ok op -> perform s op = Ok (s', o) ->
  sequencer_ok (k + 1) s' /\ Forall artifact_ok (emitted o).
Proof.
  intros Hk Hs Hop Hp. pose proof (sequencer_ok_mono k (k + 1) s ltac:(lia) Hs) as Hs1.
  assert (Hmono : forall x, sequencer_ok k x -> sequencer_ok (k + 1) x) by (intros; eapply sequencer_ok_mono; [|done]; lia).
  destruct op as [minted|b m time|b m time|b m time|src b i out tot time|class ms time|r ms time minted]; simpl in Hp.
  - apply rbind_Ok in Hp as ([s1 a] & H1 & [= <- <-]). split; [|constructor].
    unfold start_attempt in H1. destruct (current s) eqn:Hc; [done|].
    apply rbind_Ok in H1 as ([s2 a2] & Hm & [= <- <-]).
    apply mint_attempt_Ok in Hm as (Hmax & -> & -> & _). apply Hmono, opened_ok; [lia|done..].
  - destruct Hop as (Hb & Hm & Ht). apply rbind_Ok in Hp as ([s1 a] & H1 & [= <- <-]).
    unfold provider_request in H1. open_attempt k s Hs.
    split; [apply Hmono, set_current_ok; done|]. constructor; [|constructor].
    eapply stamp_ok; try done. intros ? [= <-]. by apply made_payload_ok.
  - destruct Hop as (Hb & Hm & Ht). apply rbind_Ok in Hp as ([s1 a] & H1 & [= <- <-]).
    unfold provider_response in H1. open_attempt k s Hs.
    split; [apply Hmono, set_current_ok; done|]. constructor; [|constructor].
    eapply stamp_ok; try done. intros ? [= <-]. by apply made_payload_ok.
  - destruct Hop as (Hb & Hm & Ht). apply rbind_Ok in Hp as ([s1 a] & H1 & [= <- <-]).
    unfold stream_event, checked_add64, ok_or in H1. open_attempt k s Hs.
    match goal with H : (match (if ?b then _ else _) with _ => _ end) = Ok _ |- _ =>
      destruct b eqn:Hb'; [discriminate H|injection H as <-] end.
    split; [apply set_current_ok; try done; cbn; lia|]. constructor; [|constructor].
    eapply stamp_ok; try done; [intros ? [= <-]; by apply made_payload_ok|cbn; lia].
  - destruct Hop as (Hb & Hi & Ho & Htot & Ht). apply rbind_Ok in Hp as ([s1 a] & H1 & [= <- <-]).
    unfold usage in H1. open_attempt k s Hs.
    split; [done|]. constructor; [|constructor]. eapply stamp_ok; try done.
    + intros p ->. destruct src, b as [b|]; try done. inv_emission.
      match goal with H : Ok _ = Ok _ |- _ => injection H as <- end. by apply made_payload_ok, Hb.
    + intros ? [= <-]. by apply usage_metadata_ok.
    + by eexists _, _, _.
  - destruct Hop as (Hms & Ht). apply rbind_Ok in Hp as ([s1 a] & H1 & [= <- <-]).
    unfold transport_error in H1. open_attempt k s Hs.
    split; [apply Hmono, set_current_ok; done|]. constructor; [|constructor]. eapply stamp_ok; done.
  - destruct Hop as (Hms & Ht & Hmint). apply rbind_Ok in Hp as ([s1 a] & H1 & [= <- <-]).
    unfold retry, ok_or in H1. apply rbind_Ok in H1 as (? & Hc%checked_time_Ok & H1).
    destruct (current s) as [t|] eqn:Ec; [|done]. simpl in H1.
    apply rbind_Ok in H1 as ([s2 a2] & Hm & [= <- <-]).
    apply mint_attempt_Ok in Hm as (Hmax & -> & -> & -> & ->).
    pose proof (opened_ok k s minted ltac:(lia) Hs Hmint Hmax) as Hop.
    split; [by apply Hmono|]. constructor; [|constructor].
    destruct (so_track k s Hs t Ec) as (_ & Hlt & _).
    eapply (stamp_ok k (opened s minted)); try done.
    + by apply (so_track k (opened s minted) Hop).
    + split; [|done]. destruct (so_track k s Hs t Ec) as ([? _ _ _] & _ & _). done.
Qed.

(** ** Depth *)

Lemma metadata_depth m d : (0 < d)%nat -> metadata_ok m -> (depth (VObject (metadata_members m)) <= d)%nat.
Proof.
  intros Hd Hm%metadata_members_entries. apply object_depth. eapply Forall_impl; [exact Hm|].
  intros [n v] He. simpl in *. destruct v; simpl in *; done || lia.
Qed.

Lemma payload_depth p d : (0 < d)%nat -> payload_ok p ->
  (depth (VObject (payload_unknown_fields p)) <= d)%nat -> (depth (VObject (payload_members p)) <= d)%nat.
Proof.
  intros Hd [_ _ [[Hw _]%wf_object_iff Hdis]] Hu.
  destruct (names_table_ok _ _ (payload_table p)) as (Hs & Hnd & Hnames).
  apply (record_depth PAYLOAD_NAMES (payload_fields p)); try done.
  repeat (apply Forall_cons; split; [intros v [= <-]; simpl; lia|]). by apply Forall_nil.
Qed.

Lemma artifact_depth a d : (1 < d)%nat -> artifact_ok a ->
  (depth (VObject (unknown_fields a)) <= d)%nat ->
  (forall p, payload a = Some p -> (depth (VObject (payload_unknown_fields p)) < d)%nat) ->
  (depth (VObject (artifact_members a)) <= d)%nat.
Proof.
  intros Hd Hok Hu Hp. destruct Hok, ao_unknown0 as ([Hw _]%wf_object_iff & Hdis & _).
  destruct (names_table_ok _ _ (artifact_table_ok a)) as (Hs & Hnd & Hnames).
  rewrite artifact_members_table. apply (record_depth RECORD_FIELD_NAMES); try done.
  assert (Hleaf : forall v, match v with VArray _ | VObject _ => False | _ => True end -> (depth v < d)%nat)
    by (intros []; simpl; lia || done).
  unfold artifact_table. apply Forall_app. split.
  - unfold common_fields. rewrite metadata_entry by done.
    repeat (apply Forall_cons; split; [cbn [fst snd]; intros v; try (by intros [= <-]; apply Hleaf)|]);
      [..|by apply Forall_nil].
    + destruct (capture_time a); [|done]. intros [= <-]. by apply Hleaf.
    + destruct (payload a) as [p|]; [|done]. intros [= <-]. specialize (Hp p eq_refl).
      pose proof (payload_depth p (d - 1) ltac:(lia) (ao_payload0 p eq_refl) ltac:(lia)). lia.
    + destruct (metadata a) as [m|]; [|done]. intros [= <-].
      pose proof (metadata_depth m (d - 1) ltac:(lia) (ao_metadata0 m eq_refl)). lia.
  - destruct (event a) as [| |n|n r ms|src|c ms]; cbn [event_table];
      repeat (apply Forall_cons; split; [cbn [fst snd]; intros v; try (by intros [= <-]; apply Hleaf); try done|]);
      try (by apply Forall_nil).
    all: destruct ms; [|done]; intros [= <-]; by apply Hleaf.
Qed.

Lemma artifact_reads_back a v : artifact_ok a -> InferenceArtifact_to_value a = Some v ->
  InferenceArtifact_from_value v = Ok a /\
  ((depth v <= DEFAULT_MAX_DEPTH)%nat -> zlen (canonical_bytes v) <= DEFAULT_MAX_BYTES ->
   InferenceArtifact_parse (canonical_bytes v) = Ok a).
Proof.
  intros Hok Hv. rewrite artifact_to_value_ok in Hv by done. injection Hv as <-.
  pose proof (InferenceArtifact_complete a Hok) as Hc. split; [done|]. intros Hd Hl.
  apply InferenceArtifact_parse_Ok. exists (artifact_members a). split; [|done].
  apply parse_canonical; [by apply artifact_members_wf|done|done].
Qed.

(** Every record that satisfies the rules renders without a panic to a value
    that is read back as the same record, and within the parser's bounds so do
    its canonical bytes; a record with an integer past [i64::MAX] panics. *)
Theorem inference_record_roundtrip a :
  match InferenceArtifact_to_value a with
  | Some v => artifact_ok a -> InferenceArtifact_from_value v = Ok a /\
      ((depth v <= DEFAULT_MAX_DEPTH)%nat -> zlen (canonical_bytes v) <= DEFAULT_MAX_BYTES ->
       InferenceArtifact_parse (canonical_bytes v) = Ok a)
  | None => exists n, n ∈ artifact_integers a /\ I64_MAX < n
  end.
Proof.
  destruct (InferenceArtifact_to_value a) as [v|] eqn:E; [by intros; apply artifact_reads_back|].
  unfold InferenceArtifact_to_value in E. destruct (forallb fits_i64 (artifact_integers a)) eqn:Ef; [done|].
  clear E. induction (artifact_integers a) as [|n l IH]; [done|]. simpl in Ef.
  apply andb_false_iff in Ef as [Ef|Ef].
  - exists n. unfold fits_i64 in Ef. split; [apply elem_of_cons; by left|lia].
  - destruct (IH Ef) as (k & Hk & ?). exists k. split; [apply elem_of_cons; by right|done].
Qed.

Lemma run_ok ops k s out : 0 <= k -> k + zlen ops <= I64_MAX -> sequencer_ok k s -> Forall op_ok ops ->
  Forall artifact_ok out -> Forall artifact_ok (run s out ops).2.
Proof.
  intros Hk Hl Hs Hops. revert k s out Hk Hl Hs. induction Hops as [|op ops Hop _ IH]; intros k s out Hk Hl Hs Hout; [done|].
  rewrite zlen_cons in Hl. pose proof (zlen_nonneg ops). simpl.
  assert (Hskip : Forall artifact_ok (run s out ops).2).
  { apply (IH (k + 1)); [lia|lia| |done]. apply (sequencer_ok_mono k); [lia|done]. }
  destruct (perform s op) as [[s' o]| |] eqn:Hp; [|done|done].
  destruct (perform_ok k s op s' o ltac:(lia) Hs Hop Hp) as [Hs' Ho].
  destruct o as [a|]; apply (IH (k + 1)); try done; try lia. by apply Forall_app.
Qed.

(** The sequencer retains no unknown members. *)
Definition plain (a : InferenceArtifact) : Prop :=
  unknown_fields a = [] /\ forall p, payload a = Some p -> payload_unknown_fields p = [].

Lemma perform_plain s op s' a : perform s op = Ok (s', Some a) -> plain a.
Proof.
  destruct op as [minted|b m time|b m time|b m time|src b i out tot time|class ms time|r ms time minted]; simpl.
  1: by intros ([s1 x] & _ & H)%rbind_Ok.
  all: intros ([s1 x] & H & [= <- <-])%rbind_Ok.
  all: unfold provider_request, provider_response, stream_event, usage, transport_error, retry in H.
  6: { apply rbind_Ok in H as (? & _ & H). apply rbind_Ok in H as (? & _ & H).
       apply rbind_Ok in H as ([? ?] & _ & [= <- <-]). by split. }
  all: inv_emission; split; [done|]; cbn; intros p Hp.
  all: try (injection Hp as <-; done); try done.
  subst. destruct src, b; inv_emission; try done.
  match goal with H : Ok _ = Ok _ |- _ => injection H as <- end. done.
Qed.

Lemma run_plain ops s out : Forall plain out -> Forall plain (run s out ops).2.
Proof.
  revert s out. induction ops as [|op ops IH]; intros s out Hout; [done|]. simpl.
  destruct (perform s op) as [[s' [a|]]| |] eqn:Hp; apply IH; try done.
  apply Forall_app. split; [done|]. constructor; [by eapply perform_plain|constructor].
Qed.

(** Every record the sequencer emits, for typed arguments and whatever calls
    are made and refused, is a valid wire record: it renders without a panic
    and is read back from its value, and from its canonical bytes within the
    parser's size bound, as the very record that was emitted. *)
Theorem sequenced_records_on_wire tenant client trace request ops :
  TenantId_parse tenant = Ok tenant -> ClientId_parse client = Ok client ->
  TraceId_parse trace = Ok trace -> InferenceRequestId_parse request = Ok request ->
  Forall (Forall is_scalar) [tenant; client; trace; request] ->
  Forall op_ok ops -> zlen ops <= I64_MAX ->
  Forall (fun a => artifact_ok a /\ exists v, InferenceArtifact_to_value a = Some v /\
      InferenceArtifact_from_value v = Ok a /\
      (zlen (canonical_bytes v) <= DEFAULT_MAX_BYTES ->
       InferenceArtifact_parse (canonical_bytes v) = Ok a))
    (run (sequencer_new tenant client (start_inference trace request)) [] ops).2.
Proof.
  intros Ht Hc Htr Hr Hs Hops Hl.
  repeat (apply Forall_cons in Hs as [? Hs]).
  apply wire_law in Ht as [Ht _], Hc as [Hc _], Htr as [Htr _], Hr as [Hr _]; [|done..].
  assert (Hall : Forall artifact_ok (run (sequencer_new tenant client (start_inference trace request)) [] ops).2).
  { apply (run_ok ops 0); [lia|lia| |done|constructor]. by constructor. }
  pose proof (run_plain ops (sequencer_new tenant client (start_inference trace request)) []
    ltac:(constructor)) as Hplain.
  apply Forall_forall. intros a Ha. rewrite Forall_forall in Hall, Hplain.
  specialize (Hall a Ha). destruct (Hplain a Ha) as [Hu Hp]. split; [done|].
  exists (VObject (artifact_members a)). pose proof (artifact_to_value_ok a Hall) as Hv.
  destruct (artifact_reads_back a _ Hall Hv) as [Hb Hj]. split_and!; [done|done|]. apply Hj.
  apply artifact_depth; [unfold DEFAULT_MAX_DEPTH; lia|done|rewrite Hu; simpl; lia|].
  intros p Hpp. rewrite (Hp p Hpp). unfold DEFAULT_MAX_DEPTH. simpl. lia.
Qed.

(** * Witnesses *)

Definition wire_tenant : list Z := lit "00000000-0000-4000-8000-000000000001".
Definition wire_id : list Z := lit "00000000-0000-7000-8000-000000000001".
Definition wire_ops : list Op :=
  [OStart wire_id; ORequest [1] None (Some (lit "2026-01-02T03:04:05Z")); OStream [2] None None;
   OUsage StreamEvent (Some [3]) 1 2 3 None; OError Connect (Some 10) None].

Lemma wire_ops_ok : Forall op_ok wire_ops.
Proof.
  assert (Hb : forall b, 0 <= b < 256 -> bytes_ok [b]).
  { intros b Hb. split; [by apply Forall_singleton|]. unfold I64_MAX, zlen. cbn. lia. }
  repeat (apply Forall_cons; split); [..|by apply Forall_nil].
  - split; [vm_compute; reflexivity|scalar_name].
  - split_and!; [apply Hb; lia|by intros ?|]. intros t [= <-]. split; [vm_compute; reflexivity|scalar_name].
  - split_and!; [apply Hb; lia|by intros ?|by intros ?].
  - split; [intros ? [= <-]; apply Hb; lia|]. unfold I64_MAX. split_and!; try lia. by intros ?.
  - split; [|by intros ?]. intros ? [= <-]. unfold I64_MAX. lia.
Qed.

Lemma sequenced_records_on_wire_witness :
  Forall artifact_ok (run (sequencer_new wire_tenant wire_tenant (start_inference wire_id wire_id)) [] wire_ops).2.
Proof.
  eapply Forall_impl; [apply (sequenced_records_on_wire wire_tenant wire_tenant wire_id wire_id wire_ops)|].
  - vm_compute. reflexivity.
  - vm_compute. reflexivity.
  - vm_compute. reflexivity.
  - vm_compute. reflexivity.
  - repeat (apply Forall_cons; split; [scalar_name|]). by apply Forall_nil.
  - exact wire_ops_ok.
  - unfold I64_MAX, zlen. simpl. lia.
  - by intros a [? _].
Defined.

Definition wire_artifact : InferenceArtifact :=
  mkArtifact wire_tenant wire_tenant wire_id wire_id wire_id 0 None
    (Some (mkPayload (repeat 7 32) 5 [])) None ProviderRequest [(lit "zz_note", VNull)].

Definition wire_value : Value :=
  Eval vm_compute in VObject (artifact_members wire_artifact).

Lemma wire_artifact_ok : artifact_ok wire_artifact.
Proof.
  assert (H : InferenceArtifact_parse (canonical_bytes wire_value) = Ok wire_artifact)
    by (vm_compute; reflexivity).
  apply InferenceArtifact_parse_Ok in H as (o & Hj & Ho).
  destruct (parse_accepts _ _ _ _ Hj) as [Hw _]. by apply (InferenceArtifact_sound o).
Qed.

Lemma inference_record_roundtrip_witness : InferenceArtifact_from_value wire_value = Ok wire_artifact.
Proof.
  pose proof (inference_record_roundtrip wire_artifact) as H.
  assert (E : InferenceArtifact_to_value wire_artifact = Some wire_value) by (vm_compute; reflexivity).
  rewrite E in H. exact (proj1 (H wire_artifact_ok)).
Defined.
