(* ===== verification/AttemptReconstruction.v ===== *)
(** The read-side fold of exact-inference artifacts
    ([crates/archivist-protocol/src/attempt_reconstruction.rs]): artifacts are
    partitioned by attempt ordinal and provider-attempt identity, each group
    is folded into a view, and every disagreement is disclosed.

    A [BTreeMap] is its list of entries in key order.  The theorems relate the
    fold to the sequencer of [AttemptSequence]: what the capture side emits is
    what the read side reconstructs. *)

From S2P Require Import Prelude Text Json Sha256 Vocabulary Derivation AttemptSequence.

Record PayloadRef := mkRef { ref_digest : list Z; ref_size : Z }.

(** [From<&Payload>]. *)
Definition payload_ref (p : Payload) : PayloadRef := mkRef (payload_digest p) (payload_size p).

Record AttemptTransportError := mkTransport { class : TransportErrorClass; te_timeout_ms : option Z }.

Record RetryTransition := mkTransition
  { reason : RetryReason; of_attempt_ordinal : Z; backoff : option Z }.

Record UsageObservation := mkUsage
  { usage_from : UsageSource; input_tokens : Z; output_tokens : Z; total_tokens : Z;
    usage_payload : option PayloadRef }.

Record StreamEventRef := mkEventRef { ev_ordinal : Z; ev_payload : PayloadRef }.

Inductive AttemptTerminalState :=
| Completed
| TransportFailed (class : TransportErrorClass)
| AbandonedMidStream (events : Z)
| Truncated.

Inductive AttemptOutcome :=
| FailedWith (class : TransportErrorClass)
| Responded
| Streamed (events : Z)
| Requested
| Entered
| Unevidenced.

Inductive PartitionField := PTraceId | PTenantId | POriginClientId.

Inductive ReconstructionAnomaly :=
| ConflictingAttemptOrdinal (ordinal : Z)
| InconsistentAttemptIdentity
| UnresolvedRetryCitation (ordinal cited_ordinal : Z)
| DuplicateEventOrdinal (ordinal event_ordinal : Z)
| EventOrdinalGap (ordinal expected_ordinal : Z)
| ConflictingAttemptEvidence (ordinal : Z) (kind : InferenceArtifactKind)
| InconsistentPartition (field : PartitionField).

Inductive ReconstructionError := MixedInference.

Record AttemptReconstruction := mkView
  { view_id : list Z;
    view_ordinal : Z;
    request : option PayloadRef;
    response : option PayloadRef;
    stream_events : list StreamEventRef;
    view_error : option AttemptTransportError;
    entered_via : option RetryTransition;
    usage_reports : list UsageObservation;
    artifacts : list InferenceArtifact;
    terminal_state : AttemptTerminalState;
    outcome_of : AttemptOutcome }.

Record InferenceReconstruction := mkReconstruction
  { rec_request_id : option (list Z);
    rec_trace_id : option (list Z);
    attempts : list AttemptReconstruction;
    anomalies : list ReconstructionAnomaly }.

Definition is_clean (r : InferenceReconstruction) : bool :=
  match anomalies r with [] => true | _ => false end.

(** * Partition *)

(** [entry(k).or_default().push(v)] on a [BTreeMap]. *)
Fixpoint btree_push {K V} (cmp : K -> K -> comparison) (k : K) (v : V) (m : list (K * list V))
    : list (K * list V) :=
  match m with
  | [] => [(k, [v])]
  | (k', vs) :: m' =>
      match cmp k k' with
      | Eq => (k', vs ++ [v]) :: m'
      | Lt => (k, [v]) :: m
      | Gt => (k', vs) :: btree_push cmp k v m'
      end
  end.

Abbreviation Key := (Z * list Z)%type.

(** [Ord] on [(u64, ProviderAttemptId)]. *)
Definition key_compare (a b : Key) : comparison :=
  match a.1 ?= b.1 with Eq => lex_compare a.2 b.2 | c => c end.

Definition artifact_key (a : InferenceArtifact) : Key := (attempt_ordinal a, provider_attempt_id a).

Definition group_by_attempt (arts : list InferenceArtifact) : list (Key * list InferenceArtifact) :=
  fold_left (fun m a => btree_push key_compare (artifact_key a) a m) arts [].

(** * One attempt *)

Record Fold := mkFold
  { view : AttemptReconstruction; event_ordinals : gset Z; found : list ReconstructionAnomaly }.

Definition empty_view (k : Key) (members : list InferenceArtifact) : AttemptReconstruction :=
  mkView k.2 k.1 None None [] None None [] members Truncated Unevidenced.

Definition set_request (v : AttemptReconstruction) p :=
  mkView (view_id v) (view_ordinal v) p (response v) (stream_events v) (view_error v)
    (entered_via v) (usage_reports v) (artifacts v) (terminal_state v) (outcome_of v).
Definition set_response (v : AttemptReconstruction) p :=
  mkView (view_id v) (view_ordinal v) (request v) p (stream_events v) (view_error v)
    (entered_via v) (usage_reports v) (artifacts v) (terminal_state v) (outcome_of v).
Definition set_stream_events (v : AttemptReconstruction) evs :=
  mkView (view_id v) (view_ordinal v) (request v) (response v) evs (view_error v)
    (entered_via v) (usage_reports v) (artifacts v) (terminal_state v) (outcome_of v).
Definition set_error (v : AttemptReconstruction) e :=
  mkView (view_id v) (view_ordinal v) (request v) (response v) (stream_events v) e
    (entered_via v) (usage_reports v) (artifacts v) (terminal_state v) (outcome_of v).
Definition set_entered (v : AttemptReconstruction) t :=
  mkView (view_id v) (view_ordinal v) (request v) (response v) (stream_events v) (view_error v)
    t (usage_reports v) (artifacts v) (terminal_state v) (outcome_of v).
Definition push_usage (v : AttemptReconstruction) u :=
  mkView (view_id v) (view_ordinal v) (request v) (response v) (stream_events v) (view_error v)
    (entered_via v) (usage_reports v ++ [u]) (artifacts v) (terminal_state v) (outcome_of v).
Definition set_states (v : AttemptReconstruction) t o :=
  mkView (view_id v) (view_ordinal v) (request v) (response v) (stream_events v) (view_error v)
    (entered_via v) (usage_reports v) (artifacts v) t o.

Definition disclose (f : Fold) (a : ReconstructionAnomaly) : Fold :=
  mkFold (view f) (event_ordinals f) (found f ++ [a]).
Definition with_view (f : Fold) (v : AttemptReconstruction) : Fold :=
  mkFold v (event_ordinals f) (found f).

(** The match on one member of the group. *)
Definition observe (f : Fold) (member : InferenceArtifact) : Fold :=
  let v := view f in
  match event member with
  | ProviderRequest =>
      match request v with
      | Some _ => disclose f (ConflictingAttemptEvidence (view_ordinal v) KProviderRequest)
      | None => with_view f (set_request v (payload_ref <$> payload member))
      end
  | ProviderResponse =>
      match response v with
      | Some _ => disclose f (ConflictingAttemptEvidence (view_ordinal v) KProviderResponse)
      | None => with_view f (set_response v (payload_ref <$> payload member))
      end
  | StreamingEvent event_ordinal =>
      let f := if bool_decide (event_ordinal ∈ event_ordinals f)
               then disclose f (DuplicateEventOrdinal (view_ordinal v) event_ordinal) else f in
      let f := mkFold (view f) ({[event_ordinal]} ∪ event_ordinals f) (found f) in
      match payload member with
      | Some p => with_view f (set_stream_events v
                    (stream_events v ++ [mkEventRef event_ordinal (payload_ref p)]))
      | None => f
      end
  | Retry cited why ms =>
      match entered_via v with
      | Some _ => disclose f (ConflictingAttemptEvidence (view_ordinal v) KRetry)
      | None => with_view f (set_entered v (Some (mkTransition why cited ms)))
      end
  | Usage source =>
      match metadata member with
      | Some m =>
          match usage_input_tokens m, usage_output_tokens m, usage_total_tokens m with
          | Some i, Some o, Some t =>
              with_view f (push_usage v (mkUsage source i o t (payload_ref <$> payload member)))
          | _, _, _ => f
          end
      | None => f
      end
  | TransportError error_class ms =>
      match view_error v with
      | Some _ => disclose f (ConflictingAttemptEvidence (view_ordinal v) KTransportError)
      | None => with_view f (set_error v (Some (mkTransport error_class ms)))
      end
  end.

(** The [expected] loop: the first ordinal the sorted events miss. *)
Fixpoint first_gap (expected : Z) (events : list StreamEventRef) : option Z :=
  match events with
  | [] => None
  | e :: events' =>
      if negb (ev_ordinal e =? expected) then Some expected
      else first_gap (sat_add64 expected 1) events'
  end.

Definition terminal_of (v : AttemptReconstruction) : AttemptTerminalState :=
  match view_error v with
  | Some e => TransportFailed (class e)
  | None =>
      match response v with
      | Some _ => Completed
      | None => match stream_events v with
                | [] => Truncated
                | evs => AbandonedMidStream (zlen evs)
                end
      end
  end.

Definition outcome_class (v : AttemptReconstruction) : AttemptOutcome :=
  match view_error v, response v, stream_events v, request v, entered_via v with
  | Some e, _, _, _, _ => FailedWith (class e)
  | None, Some _, _, _, _ => Responded
  | None, None, (_ :: _) as evs, _, _ => Streamed (zlen evs)
  | None, None, [], Some _, _ => Requested
  | None, None, [], None, Some _ => Entered
  | None, None, [], None, None => Unevidenced
  end.

(** One iteration of the loop over the groups: the view and what it disclosed. *)
Definition reconstruct_group (g : Key * list InferenceArtifact)
    : AttemptReconstruction * list ReconstructionAnomaly :=
  let '(k, members) := g in
  let f := fold_left observe members (mkFold (empty_view k members) ∅ []) in
  let v := view f in
  let v := set_stream_events v
             (sort_by (fun a b => ev_ordinal a <=? ev_ordinal b) (stream_events v)) in
  let gap := match first_gap 0 (stream_events v) with
             | Some expected => [EventOrdinalGap k.1 expected]
             | None => []
             end in
  (set_states v (terminal_of v) (outcome_class v), found f ++ gap).

(** * The inference *)

Definition partition_anomalies (first : InferenceArtifact) (arts : list InferenceArtifact)
    : list ReconstructionAnomaly :=
  (if forallb (fun a => bool_decide (trace_id a = trace_id first)) arts
   then [] else [InconsistentPartition PTraceId]) ++
  (if forallb (fun a => bool_decide (tenant_id a = tenant_id first)) arts
   then [] else [InconsistentPartition PTenantId]) ++
  (if forallb (fun a => bool_decide (origin_client_id a = origin_client_id first)) arts
   then [] else [InconsistentPartition POriginClientId]).

Definition ordinal_identities (keys : list Key) : list (Z * list (list Z)) :=
  fold_left (fun m k => btree_push Z.compare k.1 k.2 m) keys [].
Definition identity_ordinals (keys : list Key) : list (list Z * list Z) :=
  fold_left (fun m k => btree_push lex_compare k.2 k.1 m) keys [].

Definition identity_anomalies (keys : list Key) : list ReconstructionAnomaly :=
  flat_map (fun e => if (1 <? length e.2)%nat then [ConflictingAttemptOrdinal e.1] else [])
    (ordinal_identities keys) ++
  (if existsb (fun e => 1 <? length e.2)%nat (identity_ordinals keys)
   then [InconsistentAttemptIdentity] else []).

Definition citation_anomalies (views : list AttemptReconstruction) : list ReconstructionAnomaly :=
  let present := map view_ordinal views in
  flat_map (fun v => match entered_via v with
                     | Some t => if existsb (Z.eqb (of_attempt_ordinal t)) present then []
                                 else [UnresolvedRetryCitation (view_ordinal v) (of_attempt_ordinal t)]
                     | None => []
                     end) views.

Definition reconstruct_inference (arts : list InferenceArtifact)
    : result ReconstructionError InferenceReconstruction :=
  match arts with
  | [] => Ok (mkReconstruction None None [] [])
  | first :: _ =>
      let request_id := inference_request_id first in
      if existsb (fun a => negb (bool_decide (inference_request_id a = request_id))) arts
      then Err MixedInference
      else
        let trace := if forallb (fun a => bool_decide (trace_id a = trace_id first)) arts
                     then Some (trace_id first) else None in
        let groups := group_by_attempt arts in
        let results := map reconstruct_group groups in
        let views := map fst results in
        Ok (mkReconstruction (Some request_id) trace views
              (partition_anomalies first arts ++ identity_anomalies (map fst groups) ++
               flat_map snd results ++ citation_anomalies views))
  end.

(** * Ordered maps *)

Lemma btree_push_new {K V} (cmp : K -> K -> comparison) k (v : V) m :
  (forall k', k' ∈ m.*1 -> cmp k k' = Gt) -> btree_push cmp k v m = m ++ [(k, [v])].
Proof.
  induction m as [|[k' vs] m IH]; intros Hgt; simpl; [done|].
  rewrite (Hgt k') by (apply elem_of_cons; by left). f_equal. apply IH.
  intros k'' Hk. apply Hgt. apply elem_of_cons. by right.
Qed.

Lemma btree_push_last {K V} (cmp : K -> K -> comparison) k (v : V) m vs :
  (forall k', k' ∈ m.*1 -> cmp k k' = Gt) -> cmp k k = Eq ->
  btree_push cmp k v (m ++ [(k, vs)]) = m ++ [(k, vs ++ [v])].
Proof.
  intros Hgt Hrefl. induction m as [|[k' vs'] m IH]; simpl; [by rewrite Hrefl|].
  rewrite (Hgt k') by (apply elem_of_cons; by left). f_equal. apply IH.
  intros k'' Hk. apply Hgt. apply elem_of_cons. by right.
Qed.

(** Distinct keys are never pushed together. *)
Lemma btree_push_single {K V} (cmp : K -> K -> comparison) k (v : V) m :
  (forall a b, cmp a b = Eq -> a = b) -> k ∉ m.*1 ->
  Forall (fun e => length e.2 = 1%nat) m ->
  Forall (fun e => length e.2 = 1%nat) (btree_push cmp k v m) /\
  forall x, x ∈ (btree_push cmp k v m).*1 -> x = k \/ x ∈ m.*1.
Proof.
  intros Heq. induction m as [|[k' vs] m IH]; intros Hk Hm; simpl.
  - split; [by repeat constructor|]. set_solver.
  - apply Forall_cons in Hm as [Hv Hm]. simpl in Hk. apply not_elem_of_cons in Hk as [Hne Hk].
    destruct (cmp k k') eqn:E; [by apply Heq in E|split; [by repeat constructor|set_solver]|].
    destruct (IH Hk Hm) as [H1 H2]. split; [by constructor|]. simpl.
    intros x [->|Hx]%elem_of_cons; [set_solver|]. destruct (H2 x Hx); set_solver.
Qed.

Lemma btree_singles {K V A} (cmp : K -> K -> comparison) (key : A -> K) (val : A -> V) l m :
  (forall a b, cmp a b = Eq -> a = b) -> NoDup (map key l) ->
  (forall x, x ∈ l -> key x ∉ m.*1) -> Forall (fun e => length e.2 = 1%nat) m ->
  Forall (fun e => length e.2 = 1%nat)
    (fold_left (fun m x => btree_push cmp (key x) (val x) m) l m).
Proof.
  intros Heq. revert m. induction l as [|x l IH]; intros m Hnd Hk Hm; simpl; [done|].
  simpl in Hnd. apply NoDup_cons in Hnd as [Hx Hnd].
  destruct (btree_push_single cmp (key x) (val x) m Heq) as [H1 H2]; [|done|].
  { apply Hk. apply elem_of_cons. by left. }
  apply IH; [done| |done]. intros y Hy Hin. destruct (H2 _ Hin) as [E|Hin'].
  - apply Hx. rewrite <- E. by apply list_elem_of_fmap_2.
  - apply (Hk y); [apply elem_of_cons; by right|done].
Qed.

Lemma key_compare_refl k : key_compare k k = Eq.
Proof. unfold key_compare. by rewrite Z.compare_refl, lex_compare_refl. Qed.

Lemma key_compare_above (a b : Key) : b.1 < a.1 -> key_compare a b = Gt.
Proof. intros H. unfold key_compare. by rewrite (proj2 (Z.compare_gt_iff a.1 b.1)). Qed.

Lemma distinct_identities_clean keys :
  NoDup keys.*1 -> NoDup keys.*2 -> identity_anomalies keys = [].
Proof.
  intros H1 H2. unfold identity_anomalies.
  assert (Ho : Forall (fun e => length e.2 = 1%nat) (ordinal_identities keys)).
  { apply (btree_singles Z.compare fst snd); [by intros ? ? ?%Z.compare_eq|done|set_solver|done]. }
  assert (Hi : Forall (fun e => length e.2 = 1%nat) (identity_ordinals keys)).
  { apply (btree_singles lex_compare snd fst);
      [by intros ? ? ?%lex_compare_eq|done|set_solver|done]. }
  replace (existsb _ (identity_ordinals keys)) with false; [rewrite app_nil_r|symmetry].
  - induction Ho as [|e l He _ IH]; simpl; [done|]. rewrite IH, He. done.
  - induction Hi as [|e l He _ IH]; simpl; [done|]. by rewrite IH, He.
Qed.

(** * One attempt of the sequencer *)

Definition folded (k : Key) (members seg : list InferenceArtifact) : Fold :=
  fold_left observe seg (mkFold (empty_view k members) ∅ []).

(** The fold of an attempt's records agrees with what its track remembers. *)
Record agrees (k : Key) (t : AttemptTrack) (members : list InferenceArtifact) (f : Fold) : Prop := {
  ag_clean : found f = [];
  ag_ordinal : view_ordinal (view f) = k.1;
  ag_members : artifacts (view f) = members;
  ag_request : bool_decide (is_Some (request (view f))) = request_captured t;
  ag_response : bool_decide (is_Some (response (view f))) = response_captured t;
  ag_failed : bool_decide (is_Some (view_error (view f))) = failed t;
  ag_events : map ev_ordinal (stream_events (view f)) = seqZ 0 (next_event_ordinal t);
  ag_seen : forall x, x ∈ event_ordinals f <-> 0 <= x < next_event_ordinal t;
  ag_bound : 0 <= next_event_ordinal t <= U64_MAX;
  ag_entered : of_attempt_ordinal <$> entered_via (view f) =
                 if k.1 =? 0 then None else Some (k.1 - 1) }.

Lemma is_Some_false {A} (o : option A) : bool_decide (is_Some o) = false -> o = None.
Proof. rewrite bool_decide_eq_false. destruct o; [|done]. intros H. exfalso. eauto. Qed.

Lemma agrees_record k t members f e p m t' a :
  agrees k t members f -> failed t = false -> records t e p m t' ->
  event a = e -> payload a = p -> metadata a = m -> agrees k t' members (observe f a).
Proof.
  intros [Hc Ho Hm Hq Hp Hf Hev Hs Hb Hen] Hopen Hr He Hpay Hmeta. unfold observe. rewrite He.
  destruct Hr as [pl md Hn|pl md Hn|pl md Hn Hlt|src pl i o tot|cl ms Hn]; rewrite ?Hpay, ?Hmeta.
  - rewrite Hn in Hq. rewrite (is_Some_false _ Hq). by constructor.
  - rewrite Hn in Hp. rewrite (is_Some_false _ Hp). by constructor.
  - rewrite bool_decide_eq_false_2 by (rewrite Hs; lia). constructor; simpl; try done; try lia.
    + by rewrite Hp.
    + rewrite map_app, Hev. simpl. rewrite (seqZ_app 0 (next_event_ordinal t) 1) by lia. done.
    + intros x. rewrite elem_of_union, elem_of_singleton, Hs. lia.
  - by constructor.
  - rewrite Hopen in Hf. rewrite (is_Some_false _ Hf). constructor; simpl; try done. by rewrite Hp.
Qed.

Lemma folded_snoc k members seg a : folded k members (seg ++ [a]) = observe (folded k members seg) a.
Proof. unfold folded. by rewrite fold_left_app. Qed.

(** A group of records some attempt of the sequencer emitted. *)
Definition attempt_group (g : Key * list InferenceArtifact) : Prop :=
  g.2 <> [] /\ Forall (fun a => artifact_key a = g.1) g.2 /\ 0 <= g.1.1 /\
  exists t, forall members, agrees g.1 t members (folded g.1 members g.2).

Lemma seqZ_sorted (f : StreamEventRef -> Z) evs m n : map f evs = seqZ m n ->
  StronglySorted (fun a b => f a <=? f b) evs.
Proof.
  revert m n. induction evs as [|e evs IH]; intros m n H; [constructor|].
  destruct (decide (0 < n)) as [Hn|Hn]; [|by rewrite seqZ_nil in H by lia].
  rewrite seqZ_cons in H by done. simpl in H. apply cons_eq in H as [He Hevs].
  constructor; [by eapply IH|]. apply Forall_forall. intros x Hx. apply Is_true_eq_left, Z.leb_le.
  assert (Hin : f x ∈ seqZ (Z.succ m) (Z.pred n)) by (rewrite <- Hevs; by apply list_elem_of_fmap_2).
  apply elem_of_seqZ in Hin. lia.
Qed.

Lemma first_gap_dense evs m n : map ev_ordinal evs = seqZ m n -> 0 <= m -> m + n <= U64_MAX ->
  first_gap m evs = None.
Proof.
  revert m n. induction evs as [|e evs IH]; intros m n H Hm Hb; simpl; [done|].
  destruct (decide (0 < n)) as [Hn|Hn]; [|by rewrite seqZ_nil in H by lia].
  rewrite seqZ_cons in H by done. simpl in H. apply cons_eq in H as [He Hevs].
  rewrite He, Z.eqb_refl. simpl. replace (sat_add64 m 1) with (Z.succ m) by (unfold sat_add64; lia).
  eapply IH; [exact Hevs|lia|lia].
Qed.

(** The terminal state the track stands for. *)
Definition track_state (t : AttemptTrack) (s : AttemptTerminalState) : Prop :=
  if failed t then exists c, s = TransportFailed c
  else if response_captured t then s = Completed
  else if 0 <? next_event_ordinal t then s = AbandonedMidStream (next_event_ordinal t)
  else s = Truncated.

Lemma is_Some_true {A} (o : option A) : bool_decide (is_Some o) = true -> exists x, o = Some x.
Proof. rewrite bool_decide_eq_true. by intros [x ->]; eauto. Qed.

Lemma agrees_terminal k t members f : agrees k t members f -> track_state t (terminal_of (view f)).
Proof.
  intros [_ _ _ _ Hp Hf Hev _ Hb _]. unfold track_state, terminal_of.
  destruct (failed t).
  { destruct (is_Some_true _ Hf) as [e ->]. by exists (class e). }
  rewrite (is_Some_false _ Hf). destruct (response_captured t).
  { by destruct (is_Some_true _ Hp) as [r ->]. }
  rewrite (is_Some_false _ Hp).
  assert (Hl : zlen (stream_events (view f)) = next_event_ordinal t).
  { unfold zlen. rewrite <- (length_map ev_ordinal), Hev, length_seqZ. lia. }
  destruct (stream_events (view f)) as [|e evs]; destruct (0 <? next_event_ordinal t) eqn:E; try done.
  - change (zlen []) with 0 in Hl. lia.
  - by rewrite Hl.
  - rewrite zlen_cons in Hl. pose proof (zlen_nonneg evs). lia.
Qed.

Lemma reconstruct_attempt k t seg :
  (forall members, agrees k t members (folded k members seg)) ->
  let r := reconstruct_group (k, seg) in
  r.2 = [] /\ view_ordinal r.1 = k.1 /\ artifacts r.1 = seg /\
  (of_attempt_ordinal <$> entered_via r.1) = (if k.1 =? 0 then None else Some (k.1 - 1)) /\
  track_state t (terminal_state r.1).
Proof.
  intros Ha. specialize (Ha seg). unfold reconstruct_group. fold (folded k seg seg).
  set (f := folded k seg seg) in *. pose proof (agrees_terminal _ _ _ _ Ha) as Ht.
  destruct Ha as [Hc Ho Hm _ _ _ Hev _ Hb Hen].
  rewrite (sort_by_id _ (stream_events (view f))) by (by eapply (seqZ_sorted ev_ordinal)).
  cbn [fst snd stream_events set_stream_events].
  rewrite (first_gap_dense _ 0 (next_event_ordinal t)) by (done || lia).
  rewrite Hc. by split_and!.
Qed.

(** * The run invariant *)

Definition same_origin (s : AttemptSequencer) (a : InferenceArtifact) : Prop :=
  tenant_id a = sq_tenant_id s /\ origin_client_id a = sq_client_id s /\
  trace_id a = li_trace_id (inference s) /\ inference_request_id a = li_request_id (inference s).

(** The current attempt's group, absent while it has no record. *)
Definition current_group (t : AttemptTrack) (seg : list InferenceArtifact)
    : list (Key * list InferenceArtifact) :=
  match seg with [] => [] | _ => [((track_ordinal t, pa_id (attempt t)), seg)] end.

Record grouped (s : AttemptSequencer) (out : list InferenceArtifact) (used : list (list Z))
    (t : AttemptTrack) (b : Z) (closed : list (Key * list InferenceArtifact))
    (seg : list InferenceArtifact) : Prop := {
  gr_groups : group_by_attempt out = closed ++ current_group t seg;
  gr_all : concat closed.*2 ++ seg = out;
  gr_base : b = 0 \/ b = 1;
  gr_from : b <= track_ordinal t;
  gr_ordinals : closed.*1.*1 = seqZ b (track_ordinal t - b);
  gr_closed : Forall attempt_group closed;
  gr_ids : NoDup (closed.*1.*2 ++ [pa_id (attempt t)]);
  gr_used : Forall (fun id => id ∈ used) (closed.*1.*2 ++ [pa_id (attempt t)]);
  gr_first : seg = [] -> track_ordinal t = 0;
  gr_keys : Forall (fun a => artifact_key a = (track_ordinal t, pa_id (attempt t))) seg;
  gr_agrees : forall members, agrees (track_ordinal t, pa_id (attempt t)) t members
                (folded (track_ordinal t, pa_id (attempt t)) members seg) }.

Definition group_inv (s : AttemptSequencer) (out : list InferenceArtifact) (used : list (list Z)) : Prop :=
  Forall (same_origin s) out /\
  match current s with
  | None => out = [] /\ next_attempt_ordinal (inference s) = 0
  | Some t =>
      pa_trace_id (attempt t) = li_trace_id (inference s) /\
      pa_request_id (attempt t) = li_request_id (inference s) /\
      next_attempt_ordinal (inference s) = track_ordinal t + 1 /\
      exists b closed seg, grouped s out used t b closed seg
  end.

Lemma agrees_start id a members :
  agrees (0, id) (for_attempt a) members (folded (0, id) members []).
Proof.
  constructor; simpl; try done. intros x. rewrite elem_of_empty. lia.
Qed.

Lemma agrees_retry k id t members a r ms : 0 <= k -> event a = Retry k r ms ->
  next_event_ordinal t = 0 -> request_captured t = false -> response_captured t = false ->
  failed t = false -> agrees (k + 1, id) t members (folded (k + 1, id) members [a]).
Proof.
  intros Hk He Hn Hq Hp Hf. unfold folded. cbn [fold_left]. unfold observe. rewrite He.
  constructor; simpl; rewrite ?Hn, ?Hq, ?Hp, ?Hf; try done.
  - intros x. rewrite elem_of_empty. lia.
  - destruct (k + 1 =? 0) eqn:E; [lia|]. f_equal. lia.
Qed.

Lemma attempt_group_snoc out a :
  group_by_attempt (out ++ [a]) = btree_push key_compare (artifact_key a) a (group_by_attempt out).
Proof. unfold group_by_attempt. by rewrite fold_left_app. Qed.

(** Closed groups sit below the current attempt. *)
Lemma closed_below s out used t b closed seg : grouped s out used t b closed seg ->
  forall (k k' : Key), track_ordinal t <= k.1 -> k' ∈ closed.*1 -> key_compare k k' = Gt.
Proof.
  intros [_ _ _ _ Hord _ _ _ _ _ _] k k' Hk Hin. apply key_compare_above.
  assert (Hz : k'.1 ∈ closed.*1.*1) by (by apply list_elem_of_fmap_2).
  rewrite Hord in Hz. apply elem_of_seqZ in Hz. lia.
Qed.

(** A record of the current attempt joins its group. *)
Lemma grouped_record s out used t b closed seg t' a e p m :
  grouped s out used t b closed seg -> failed t = false -> records t e p m t' ->
  attempt t' = attempt t -> artifact_key a = (track_ordinal t, pa_id (attempt t)) ->
  event a = e -> payload a = p -> metadata a = m ->
  grouped s (out ++ [a]) used t' b closed (seg ++ [a]).
Proof.
  intros Hg Hf Hr Ha Hk He Hp Hm. pose proof (closed_below _ _ _ _ _ _ _ Hg) as Hbelow.
  destruct Hg as [Hgr Hall Hb Hfrom Hord Hcl Hids Hused Hfirst Hkeys Hag].
  assert (Ht : track_ordinal t' = track_ordinal t) by (unfold track_ordinal; by rewrite Ha).
  constructor; rewrite ?Ht, ?Ha; try done.
  - rewrite attempt_group_snoc, Hgr, Hk. unfold current_group. rewrite Ht, Ha.
    destruct seg as [|x seg]; simpl.
    + rewrite app_nil_r. apply btree_push_new. intros k'. by apply Hbelow.
    + rewrite btree_push_last; [done| |apply key_compare_refl]. intros k'. by apply Hbelow.
  - by rewrite app_assoc, Hall.
  - by destruct seg.
  - apply Forall_app. by repeat constructor.
  - intros members. rewrite folded_snoc. by eapply agrees_record.
Qed.

(** What the groups of a sequencer's records are: one per attempt that emitted
    anything, of dense ordinals from 0, or from 1 when attempt 0 was silent. *)
Record attempt_groups (out : list InferenceArtifact) (used : list (list Z)) (b n : Z)
    (gs : list (Key * list InferenceArtifact)) : Prop := {
  gs_groups : group_by_attempt out = gs;
  gs_all : concat gs.*2 = out;
  gs_base : b = 0 \/ b = 1;
  gs_from : b <= n;
  gs_ordinals : gs.*1.*1 = seqZ b (n - b);
  gs_each : Forall attempt_group gs;
  gs_ids : NoDup gs.*1.*2;
  gs_used : Forall (fun id => id ∈ used) gs.*1.*2 }.

Lemma grouped_all s out used t b closed seg : grouped s out used t b closed seg ->
  0 <= track_ordinal t ->
  exists b', attempt_groups out used b' (track_ordinal t + 1) (closed ++ current_group t seg).
Proof.
  intros [Hgr Hall Hb Hfrom Hord Hcl Hids Hused Hfirst Hkeys Hag] Hpos.
  apply NoDup_app in Hids as (Hnd & Hd & Hone). apply Forall_app in Hused as [Hu1 Hu2].
  destruct seg as [|x seg]; simpl in *; rewrite ?app_nil_r in *.
  - specialize (Hfirst eq_refl). exists 1. constructor; try done; try lia.
    rewrite Hord. rewrite !seqZ_nil by lia. done.
  - exists b. constructor; rewrite ?fmap_app; simpl; try done; try lia.
    + rewrite concat_app, <- Hall. simpl. by rewrite app_nil_r.
    + rewrite Hord. replace (track_ordinal t + 1 - b) with (track_ordinal t - b + 1) by lia.
      rewrite (seqZ_app b (track_ordinal t - b) 1) by lia.
      by replace (b + (track_ordinal t - b)) with (track_ordinal t) by lia.
    + apply Forall_app. split; [done|]. constructor; [|done]. split_and!; [done|done|simpl; lia|].
      by exists t.
    + by apply NoDup_app.
    + by apply Forall_app.
Qed.

(** A fresh identity joins the ones used. *)
Lemma fresh_ids (ids used : list (list Z)) id : NoDup ids -> Forall (fun x => x ∈ used) ids ->
  id ∉ used -> NoDup (ids ++ [id]) /\ Forall (fun x => x ∈ used ++ [id]) (ids ++ [id]).
Proof.
  intros Hnd Hu Hf. split.
  - apply NoDup_app. split_and!; [done| |apply NoDup_singleton].
    intros x Hx ->%list_elem_of_singleton. rewrite Forall_forall in Hu. by apply Hf, Hu.
  - apply Forall_app. split; [|by repeat constructor; set_solver].
    eapply Forall_impl; [exact Hu|]. set_solver.
Qed.

(** The next attempt is opened by its retry record. *)
Lemma grouped_retry s out used b k gs t a r ms :
  attempt_groups out used b (k + 1) gs -> 0 <= k -> t = for_attempt (attempt t) ->
  track_ordinal t = k + 1 -> artifact_key a = (track_ordinal t, pa_id (attempt t)) ->
  event a = Retry k r ms -> pa_id (attempt t) ∉ used ->
  grouped s (out ++ [a]) (used ++ [pa_id (attempt t)]) t b gs [a].
Proof.
  intros [Hgr Hall Hb Hfrom Hord Heach Hids Hused] Hk Ht Hord' Hkey He Hf.
  destruct (fresh_ids _ _ _ Hids Hused Hf) as [Hids' Hused'].
  constructor; rewrite ?Hord'; try done.
  - rewrite attempt_group_snoc, Hgr, Hkey. apply btree_push_new. intros k' Hin. apply key_compare_above.
    assert (Hz : k'.1 ∈ gs.*1.*1) by (by apply list_elem_of_fmap_2).
    rewrite Hord in Hz. apply elem_of_seqZ in Hz. simpl. lia.
  - by rewrite Hall.
  - rewrite <- Hord'. by repeat constructor.
  - intros members. rewrite Ht. eapply agrees_retry; done.
Qed.

Lemma group_step s out used op s' o : group_inv s out used -> performs s op s' o ->
  (forall id, id ∈ mints op -> id ∉ used) -> group_inv s' (out ++ emitted o) (used ++ mints op).
Proof.
  intros [Hsame Hc] Hp Hfresh.
  destruct Hp as [minted Hn Hmax|op t e p m time t' Ht Hf Hr Hns Hnr|t r ms time minted Ht Hmax].
  - rewrite Hn in Hc. destruct Hc as [-> Hz]. split; [done|]. simpl.
    split_and!; [done|done|unfold track_ordinal; simpl; lia|]. exists 0, [], [].
    unfold next_attempt, track_ordinal. rewrite Hz.
    constructor; simpl; try done; try (by left); try (unfold track_ordinal; simpl; lia);
      try apply NoDup_singleton.
    + repeat constructor. set_solver.
    + intros members. apply agrees_start.
  - rewrite Ht in Hc. destruct Hc as (Htr & Hrq & Hnext & b & closed & seg & Hg).
    destruct (records_track _ _ _ _ _ Hr Hf) as (Ha & _). split.
    + apply Forall_app. split; [done|]. constructor; [|done]. unfold same_origin. simpl.
      rewrite Ha. done.
    + cbn [set_current current inference]. unfold track_ordinal. rewrite Ha.
      split_and!; [done..|]. exists b, closed, (seg ++ [stamp t' (sq_tenant_id s) (sq_client_id s) e p m time]).
      replace (mints op) with (@nil (list Z)) by (by destruct op; try naive_solver).
      rewrite app_nil_r. cbn [emitted].
      assert (Hg' : grouped (set_current s t') out used t b closed seg) by (by destruct Hg; constructor).
      eapply grouped_record; try done. unfold artifact_key, stamp, track_ordinal. simpl. by rewrite Ha.
  - rewrite Ht in Hc. destruct Hc as (Htr & Hrq & Hnext & b & closed & seg & Hg). split.
    + apply Forall_app. split; [done|]. by constructor.
    + assert (Hpos : 0 <= track_ordinal t).
      { pose proof (gr_base _ _ _ _ _ _ _ Hg). pose proof (gr_from _ _ _ _ _ _ _ Hg). lia. }
      destruct (grouped_all _ _ _ _ _ _ _ Hg Hpos) as [b' Hall].
      cbn [opened current inference emitted mints]. split_and!; [done|done|unfold track_ordinal; simpl; lia|].
      exists b'. eexists _, _.
      apply (grouped_retry (opened s minted) out used b' (track_ordinal t) _
               (for_attempt (next_attempt s minted)) _ r ms Hall Hpos); try done.
      apply Hfresh. set_solver.
Qed.

(** * Reconstructing what was sequenced *)

(** The one disclosure a sequenced stream can give rise to: attempt 0 was
    retried before it emitted anything, so the first record cites an attempt
    with no record. *)
Definition silent_first (out : list InferenceArtifact) : list ReconstructionAnomaly :=
  match out with
  | a :: _ => if attempt_ordinal a =? 1 then [UnresolvedRetryCitation 1 0] else []
  | [] => []
  end.

Definition cites (v : AttemptReconstruction) : Prop :=
  (of_attempt_ordinal <$> entered_via v) =
    if view_ordinal v =? 0 then None else Some (view_ordinal v - 1).

Definition unresolved (present : list Z) (o : Z) : list ReconstructionAnomaly :=
  if (o =? 0) || existsb (Z.eqb (o - 1)) present then [] else [UnresolvedRetryCitation o (o - 1)].

Lemma citations_by_ordinal present views : Forall cites views ->
  flat_map (fun v => match entered_via v with
                     | Some t => if existsb (Z.eqb (of_attempt_ordinal t)) present then []
                                 else [UnresolvedRetryCitation (view_ordinal v) (of_attempt_ordinal t)]
                     | None => []
                     end) views
  = flat_map (unresolved present) (map view_ordinal views).
Proof.
  induction 1 as [|v views Hv _ IH]; simpl; [done|]. rewrite IH. f_equal.
  unfold cites in Hv. unfold unresolved.
  destruct (entered_via v) as [t|], (view_ordinal v =? 0); simpl in *; simplify_eq; [by rewrite Hv|done].
Qed.

Lemma citations_dense views b m : Forall cites views -> map view_ordinal views = seqZ b m ->
  b = 0 \/ b = 1 -> 0 < m ->
  citation_anomalies views = if b =? 1 then [UnresolvedRetryCitation 1 0] else [].
Proof.
  intros Hc Ho Hb Hm. unfold citation_anomalies. rewrite citations_by_ordinal by done. rewrite Ho.
  assert (Hin : forall o, b < o < b + m -> unresolved (seqZ b m) o = []).
  { intros o Hrange. unfold unresolved.
    replace (existsb (Z.eqb (o - 1)) (seqZ b m)) with true; [by rewrite orb_true_r|symmetry].
    apply existsb_exists. exists (o - 1). split; [|apply Z.eqb_refl].
    apply list_elem_of_In, elem_of_seqZ. lia. }
  assert (Hrest : flat_map (unresolved (seqZ b m)) (seqZ (Z.succ b) (Z.pred m)) = []).
  { assert (Hall : Forall (fun o => unresolved (seqZ b m) o = []) (seqZ (Z.succ b) (Z.pred m))).
    { apply Forall_forall. intros o Hx. apply elem_of_seqZ in Hx. apply Hin. lia. }
    induction Hall as [|o l Ho' _ IH]; simpl; [done|]. by rewrite Ho', IH. }
  rewrite (seqZ_cons b m) at 2 by done. cbn [flat_map]. rewrite Hrest, app_nil_r.
  unfold unresolved. destruct Hb as [-> | ->]; [done|].
  change (1 - 1) with 0. cbn [Z.eqb orb].
  replace (existsb (Z.eqb 0) (seqZ 1 m)) with false; [done|symmetry].
  apply not_true_iff_false. rewrite existsb_exists. intros (x & Hx%list_elem_of_In & E%Z.eqb_eq).
  apply elem_of_seqZ in Hx. lia.
Qed.

Lemma attempt_group_views gs : Forall attempt_group gs ->
  let views := map fst (map reconstruct_group gs) in
  flat_map snd (map reconstruct_group gs) = [] /\ map view_ordinal views = gs.*1.*1 /\
  Forall cites views /\ flat_map artifacts views = concat gs.*2.
Proof.
  induction 1 as [|[k seg] gs (_ & _ & _ & t & Ha) _ (H1 & H2 & H3 & H4)]; [done|].
  destruct (reconstruct_attempt k t seg Ha) as (E1 & E2 & E3 & E4 & _).
  cbn [map flat_map fmap list_fmap fst snd concat]. rewrite E1, E2, E3.
  cbv zeta in *. split_and!; [done|by rewrite H2| |by rewrite H4].
  constructor; [|done]. unfold cites. by rewrite E2.
Qed.

Lemma origin_clean s first out : Forall (same_origin s) (first :: out) ->
  partition_anomalies first (first :: out) = [] /\
  existsb (fun a => negb (bool_decide (inference_request_id a = inference_request_id first))) (first :: out) = false /\
  forallb (fun a => bool_decide (trace_id a = trace_id first)) (first :: out) = true.
Proof.
  intros Hall. assert (H0 : same_origin s first) by (by apply Forall_cons in Hall as [? _]).
  assert (Hb : forall (f : InferenceArtifact -> list Z),
    (forall a, same_origin s a -> f a = f first) ->
    forallb (fun a => bool_decide (f a = f first)) (first :: out) = true).
  { intros f Hf. apply forallb_forall. intros a Hin%list_elem_of_In.
    rewrite Forall_forall in Hall. apply bool_decide_eq_true_2, Hf, Hall, Hin. }
  destruct H0 as (E1 & E2 & E3 & E4). unfold partition_anomalies.
  rewrite !Hb by (intros a (? & ? & ? & ?); congruence). split_and!; [done| |done].
  apply not_true_iff_false. rewrite existsb_exists. intros (a & Hin%list_elem_of_In & Hn).
  rewrite Forall_forall in Hall. destruct (Hall _ Hin) as (_ & _ & _ & Ea).
  rewrite bool_decide_eq_true_2 in Hn by congruence. done.
Qed.

Lemma reconstruct_groups s out used b n gs :
  Forall (same_origin s) out -> attempt_groups out used b n gs -> out <> [] ->
  reconstruct_inference out =
    Ok (mkReconstruction (Some (li_request_id (inference s))) (Some (li_trace_id (inference s)))
          (map fst (map reconstruct_group gs)) (silent_first out)).
Proof.
  intros Hsame [Hgr Hall Hb Hfrom Hord Heach Hids _] Hne.
  destruct out as [|first out]; [done|]. destruct (origin_clean _ _ _ Hsame) as (Hp & Hmix & Htr).
  unfold reconstruct_inference. rewrite Hmix, Htr, Hp, Hgr. cbn [app].
  destruct (attempt_group_views gs Heach) as (H1 & H2 & H3 & H4).
  rewrite H1. cbn [app].
  rewrite distinct_identities_clean; [|change (NoDup gs.*1.*1); rewrite Hord; apply NoDup_seqZ|done]. cbn [app].
  apply Forall_cons in Hsame as [(_ & _ & E3 & E4) _]. rewrite E3, E4. do 2 f_equal.
  assert (Hgs : exists seg gs', gs = (b, provider_attempt_id first, first :: seg) :: gs' /\
                                attempt_ordinal first = b /\ 0 < n - b).
  { destruct gs as [|[k seg] gs']; [done|]. apply Forall_cons in Heach as [(Hn & Hk & _) _].
    simpl in *. destruct seg as [|x seg]; [done|]. simpl in Hall. injection Hall as -> _.
    apply Forall_cons in Hk as [Hk _]. unfold artifact_key in Hk.
    assert (0 < n - b) by (destruct (decide (0 < n - b)); [done|by rewrite seqZ_nil in Hord by lia]).
    rewrite seqZ_cons in Hord by done. apply cons_eq in Hord as [Ho _]. subst k. simpl in Ho. subst b.
    by exists seg, gs'. }
  destruct Hgs as (seg & gs' & -> & Hfirst & Hpos).
  rewrite (citations_dense _ b (n - b)); [|done|by rewrite H2|done|done].
  simpl. by rewrite Hfirst.
Qed.

Lemma run_grouped tenant client trace req ops : NoDup (flat_map mints ops) ->
  let '(s, out) := run (sequencer_new tenant client (start_inference trace req)) [] ops in
  exists used, group_inv s out used.
Proof.
  intros Hnd. apply (run_induction group_inv group_step ops _ [] []); [|done].
  split; [constructor|done].
Qed.

Lemma run_attempt_groups s out used : group_inv s out used ->
  exists b gs, attempt_groups out used b (next_attempt_ordinal (inference s)) gs.
Proof.
  intros [_ Hc]. destruct (current s) as [t|].
  - destruct Hc as (_ & _ & Hn & b & closed & seg & Hg). rewrite Hn.
    assert (Hpos : 0 <= track_ordinal t).
    { pose proof (gr_base _ _ _ _ _ _ _ Hg). pose proof (gr_from _ _ _ _ _ _ _ Hg). lia. }
    destruct (grouped_all _ _ _ _ _ _ _ Hg Hpos) as [b' Hall]. eauto.
  - destruct Hc as [-> ->]. exists 0, []. constructor; try done; [by left|constructor].
Qed.

Lemma last_snoc_map {A B} (f : A -> B) l x : last (map f (l ++ [x])) = Some (f x).
Proof. rewrite map_app. apply last_snoc. Qed.

(** * Properties *)

(** C34: The read side reconstructs what the capture side sequenced.  For every
    run of the sequencer with fresh identities, refused calls included, the
    fold succeeds, gives one view per minted attempt with dense ordinals,
    keeps every record in order, and discloses nothing; the one exception is
    an attempt 0 that was retried before it emitted a record, which leaves the
    first retry citing an ordinal with no record. *)
Theorem sequenced_stream_reconstructs tenant client trace req ops :
  NoDup (flat_map mints ops) ->
  let '(s, out) := run (sequencer_new tenant client (start_inference trace req)) [] ops in
  exists r b, reconstruct_inference out = Ok r /\ (b = 0 \/ b = 1) /\
    map view_ordinal (attempts r) = seqZ b (next_attempt_ordinal (inference s) - b) /\
    flat_map artifacts (attempts r) = out /\ anomalies r = silent_first out.
Proof.
  intros Hnd. pose proof (run_grouped tenant client trace req ops Hnd) as H.
  destruct (run _ [] ops) as [s out]. destruct H as (used & Hinv).
  destruct (run_attempt_groups _ _ _ Hinv) as (b & gs & Hgs). destruct Hinv as [Hsame _].
  destruct (attempt_group_views gs (gs_each _ _ _ _ _ Hgs)) as (_ & H2 & _ & H4).
  destruct (decide (out = [])) as [->|Hne].
  - destruct Hgs as [Hg _ Hb _ Hord _ _ _]. simpl in Hg. subst gs. eexists _, b. by split_and!.
  - rewrite (reconstruct_groups _ _ _ _ _ _ Hsame Hgs Hne).
    destruct Hgs as [_ Hall Hb _ Hord _ _ _]. eexists _, b. split; [done|]. simpl.
    split_and!; [done|by rewrite H2|by rewrite H4|done].
Qed.

(** The reconstructed terminal state of the current attempt is the one the
    sequencer is in: failed after its transport error, completed after its
    response, abandoned with exactly its number of stream events, and
    truncated before any of them. *)
Theorem sequenced_terminal_state tenant client trace req ops :
  NoDup (flat_map mints ops) ->
  let '(s, out) := run (sequencer_new tenant client (start_inference trace req)) [] ops in
  forall t, current s = Some t -> attempt_ordinal <$> last out = Some (track_ordinal t) ->
  exists r v, reconstruct_inference out = Ok r /\ last (attempts r) = Some v /\
    view_ordinal v = track_ordinal t /\ track_state t (terminal_state v).
Proof.
  intros Hnd. pose proof (run_grouped tenant client trace req ops Hnd) as H.
  destruct (run _ [] ops) as [s out]. destruct H as (used & Hsame & Hc).
  intros t Ht Hlast. rewrite Ht in Hc. destruct Hc as (_ & _ & Hn & b & closed & seg & Hg).
  assert (Hpos : 0 <= track_ordinal t).
  { pose proof (gr_base _ _ _ _ _ _ _ Hg). pose proof (gr_from _ _ _ _ _ _ _ Hg). lia. }
  destruct (grouped_all _ _ _ _ _ _ _ Hg Hpos) as [b' Hall].
  assert (Hne : out <> []) by (by intros ->).
  rewrite (reconstruct_groups _ _ _ _ _ _ Hsame Hall Hne).
  destruct Hg as [_ Hout Hb Hfrom Hord _ _ _ Hfirst _ Hag].
  destruct seg as [|x seg].
  - specialize (Hfirst eq_refl). rewrite Hfirst, seqZ_nil in Hord by lia.
    apply fmap_nil_inv, fmap_nil_inv in Hord. subst closed. by subst out.
  - eexists _, _. split; [done|]. cbn [attempts current_group]. rewrite map_map.
    split; [apply last_snoc_map|].
    destruct (reconstruct_attempt _ t _ Hag) as (_ & H2 & _ & _ & H5). by split.
Qed.

(** * Witnesses *)

(** Two failing attempts. *)
Definition failing_ops : list Op :=
  [OStart (lit "a"); OError Connect None None; OStream [3] None None;
   ORetry RTransportError (Some 10) None (lit "b"); OError Dns None None].

Lemma failing_fresh : NoDup (flat_map mints failing_ops).
Proof. apply (bool_decide_unpack _). vm_compute. exact I. Qed.

Lemma sequenced_stream_reconstructs_witness :
  exists r b, reconstruct_inference (run sample_sequencer [] failing_ops).2 = Ok r /\
    (b = 0 \/ b = 1) /\ map view_ordinal (attempts r) = seqZ b (2 - b) /\
    flat_map artifacts (attempts r) = (run sample_sequencer [] failing_ops).2 /\ anomalies r = [].
Proof.
  exact (sequenced_stream_reconstructs (lit "t") (lit "c") (lit "x") (lit "r") failing_ops
    failing_fresh).
Defined.

Lemma sequenced_terminal_state_witness :
  exists r v, reconstruct_inference (run sample_sequencer [] failing_ops).2 = Ok r /\
    last (attempts r) = Some v /\ view_ordinal v = 1 /\ exists c, terminal_state v = TransportFailed c.
Proof.
  exact (sequenced_terminal_state (lit "t") (lit "c") (lit "x") (lit "r") failing_ops
    failing_fresh _ eq_refl eq_refl).
Defined.

(** The exception: an attempt retried before its first record. *)
Example silent_attempt_disclosed :
  let out := (run sample_sequencer []
                [OStart (lit "a"); ORetry RTimeout None None (lit "b"); OError Dns None None]).2 in
  anomalies <$> (match reconstruct_inference out with Ok r => Some r | _ => None end)
    = Some [UnresolvedRetryCitation 1 0].
Proof. vm_compute. reflexivity. Qed.
