(* ===== verification/Framing.v ===== *)
(** The multipart framing tokenizer of [/v1/ingest]
    ([crates/archivist-server/src/parse/framing.rs]): the Content-Type check
    and the incremental tokenizer with its 8 KiB window, over any byte source.

    A byte source is an interface: [ByteSource] has the trait's [pull] and,
    for the theorems, the bytes still to come; [LawfulSource] states the
    trait's contract.  The tokenizer's [loop] gets two units of fuel more than
    the source has bytes, since every turn that neither returns nor fails has
    pulled at least one byte or closed the last part. *)

From S2P Require Import Prelude Text Json JsonFacts Sha256 Vocabulary.

Definition FRAMING_WINDOW_BYTES : nat := 8 * 1024.
Definition DELIMITER_MAX_BYTES : nat := 6 + 70.
Definition CONTENT_TYPE_HEADER_PREFIX : list Z := lit "content-type: ".
Definition CRLF : list Z := [13; 10].
Definition DASHES : list Z := lit "--".

(** An [io::ErrorKind], by its number. *)
Abbreviation ErrorKind := Z.

Inductive FramingError :=
| NotMultipartRelated | BoundaryInvalid | MissingOpeningBoundary | MalformedDelimiter
| PartHeaderMalformed | UnexpectedEndOfStream | TrailingBytesAfterClosingDelimiter
| SourceRead (kind : ErrorKind).

(** * The request header *)

Record RequestFraming := mkFraming { boundary : list Z }.

Definition validate_content_type (header : list Z) : result FramingError RequestFraming :=
  let! _ :=
    map_err (fun _ =>
      let media_type_exact :=
        starts_with header (lit "multipart/related") &&
        match as_bytes header !! length (lit "multipart/related") with
        | None => true
        | Some b => b =? 59
        end in
      if media_type_exact then BoundaryInvalid else NotMultipartRelated)
      (ContentType_parse header) in
  Ok (mkFraming (drop (length (lit "multipart/related; boundary=")) header)).

(** * Byte sources *)

Class ByteSource (S : Type) := {
  pull : S -> nat -> result ErrorKind (list Z) * S;
  remaining : S -> list Z }.

(** The trait's contract: a pull into a non-empty window writes a prefix of
    what is left, at most a window of it, and nothing only at the end. *)
Class LawfulSource (S : Type) `{ByteSource S} := pull_law : forall s n, (0 < n)%nat ->
  match pull s n with
  | (Ok chunk, s') => remaining s = chunk ++ remaining s' /\ (length chunk <= n)%nat /\
                      (chunk = [] -> remaining s = [])
  | (Err _, _) => True
  | (OutOfFuel, _) => False
  end.

(** [impl ByteSource for &[u8]]. *)
#[export] Instance slice_source : ByteSource (list Z) :=
  { pull s n := (Ok (take n s), drop n s); remaining s := s }.

(** * The tokenizer *)

Inductive FramingEvent :=
| PartStarted
| PartContentType (value : list Z)
| Payload (bytes : list Z)
| PartEnded
| EndOfParts.

Inductive Stage :=
| Opening | Headers | InPayload | AfterBoundary | AfterClose | NextPartOpening | ClosingPart | Done.

#[export] Instance Stage_eq : EqDecision Stage.
Proof. solve_decision. Defined.

Record FramingTokenizer (S : Type) := mkTokenizer
  { source : S;
    dash_boundary : list Z;
    payload_delimiter : list Z;
    window : list Z;
    pos : nat;
    stage : Stage }.
Arguments mkTokenizer {S} _ _ _ _ _ _.
Arguments source {S} _.
Arguments dash_boundary {S} _.
Arguments payload_delimiter {S} _.
Arguments window {S} _.
Arguments pos {S} _.
Arguments stage {S} _.

(** [windows(n).position(|w| w == pattern)] for a pattern of [n >= 1] bytes. *)
Fixpoint find_sub (pattern l : list Z) : option nat :=
  if starts_with l pattern then Some 0%nat
  else match l with [] => None | _ :: l' => S <$> find_sub pattern l' end.

Section Tokenizer.
Context {S : Type} `{ByteSource S}.

Definition tokenizer_new (framing : RequestFraming) (src : S) : FramingTokenizer S :=
  let dash := DASHES ++ as_bytes (boundary framing) in
  mkTokenizer src dash (CRLF ++ dash) [] 0 Opening.

(** [&self.window[self.pos..]] and its length. *)
Definition live_bytes (t : FramingTokenizer S) : list Z := drop (pos t) (window t).
Definition live (t : FramingTokenizer S) : nat := (length (window t) - pos t)%nat.

Definition consume (t : FramingTokenizer S) (n : nat) (st : Stage) : FramingTokenizer S :=
  mkTokenizer (source t) (dash_boundary t) (payload_delimiter t) (window t) (pos t + n) st.

Definition fill (t : FramingTokenizer S) : result FramingError (nat * FramingTokenizer S) :=
  let kept := if (0 <? pos t)%nat then drop (pos t) (window t) else window t in
  let t0 := mkTokenizer (source t) (dash_boundary t) (payload_delimiter t) kept 0 (stage t) in
  if (FRAMING_WINDOW_BYTES <=? length kept)%nat then Ok (0%nat, t0)
  else
    match pull (source t) (FRAMING_WINDOW_BYTES - length kept) with
    | (Ok chunk, s) =>
        Ok (length chunk,
            mkTokenizer s (dash_boundary t) (payload_delimiter t) (kept ++ chunk) 0 (stage t))
    | (Err kind, _) => Err (SourceRead kind)
    | (OutOfFuel, _) => OutOfFuel
    end.

(** How one turn of the loop ends: [continue], or [return Ok(..)]. *)
Inductive turn_result :=
| Again (t : FramingTokenizer S)
| Return (e : option FramingEvent) (t : FramingTokenizer S).

(** [if self.fill()? == 0 { return Err(at_end) } continue]. *)
Definition refill (t : FramingTokenizer S) (at_end : FramingTokenizer S -> FramingError)
    : result FramingError turn_result :=
  let! '(pulled, t) := fill t in
  if (pulled =? 0)%nat then Err (at_end t) else Ok (Again t).

(** The pinned header line's value. *)
Definition header_value (line : list Z) : option (list Z) :=
  if starts_with line CONTENT_TYPE_HEADER_PREFIX then
    match drop (length CONTENT_TYPE_HEADER_PREFIX) line with
    | [] => None
    | value => from_utf8 value
    end
  else None.

Definition turn_opening (t : FramingTokenizer S) : result FramingError turn_result :=
  let dash := dash_boundary t in
  if (live t <? length dash)%nat && negb (starts_with (live_bytes t) (take (live t) dash))
  then Err MissingOpeningBoundary
  else if (live t <? length dash + 2)%nat then
    refill t (fun t => if negb (starts_with (live_bytes t) dash) then MissingOpeningBoundary
                       else UnexpectedEndOfStream)
  else if negb (starts_with (live_bytes t) dash) then Err MissingOpeningBoundary
  else if negb (starts_with (drop (length dash) (live_bytes t)) CRLF) then Err MalformedDelimiter
  else Ok (Return (Some PartStarted) (consume t (length dash + 2) Headers)).

Definition turn_headers (t : FramingTokenizer S) : result FramingError turn_result :=
  if starts_with (live_bytes t) CRLF then Err PartHeaderMalformed
  else
    match find_sub (CRLF ++ CRLF) (live_bytes t) with
    | None =>
        if (FRAMING_WINDOW_BYTES <=? length (window t))%nat then Err PartHeaderMalformed
        else refill t (fun _ => UnexpectedEndOfStream)
    | Some at_ =>
        match header_value (take at_ (live_bytes t)) with
        | Some value => Ok (Return (Some (PartContentType value)) (consume t (at_ + 4) InPayload))
        | None => Err PartHeaderMalformed
        end
    end.

Definition turn_payload (t : FramingTokenizer S) : result FramingError turn_result :=
  if (live t =? 0)%nat then refill t (fun _ => UnexpectedEndOfStream)
  else
    match find_sub (payload_delimiter t) (live_bytes t) with
    | Some at_ =>
        Ok (Return (Some (Payload (take at_ (live_bytes t))))
              (consume t (at_ + length (payload_delimiter t)) AfterBoundary))
    | None =>
        let retain := (length (payload_delimiter t) - 1)%nat in
        if (retain <? live t)%nat then
          let emit := (live t - retain)%nat in
          Ok (Return (Some (Payload (take emit (live_bytes t)))) (consume t emit InPayload))
        else refill t (fun _ => UnexpectedEndOfStream)
    end.

Definition turn_after_boundary (t : FramingTokenizer S) : result FramingError turn_result :=
  if (live t <? 2)%nat then refill t (fun _ => UnexpectedEndOfStream)
  else if starts_with (live_bytes t) DASHES then Ok (Again (consume t 2 ClosingPart))
  else if starts_with (live_bytes t) CRLF
  then Ok (Return (Some PartEnded) (consume t 2 NextPartOpening))
  else Err MalformedDelimiter.

Definition turn_after_close (t : FramingTokenizer S) : result FramingError turn_result :=
  if (live t <? 2)%nat then refill t (fun _ => UnexpectedEndOfStream)
  else if negb (starts_with (live_bytes t) CRLF) then Err MalformedDelimiter
  else Ok (Return (Some EndOfParts) (consume t 2 Done)).

Definition turn_done (t : FramingTokenizer S) : result FramingError turn_result :=
  if (0 <? live t)%nat then Err TrailingBytesAfterClosingDelimiter
  else
    let! '(pulled, t) := fill t in
    if (0 <? pulled)%nat then Err TrailingBytesAfterClosingDelimiter else Ok (Return None t).

(** One turn of the [loop] of [next_event]. *)
Definition turn (t : FramingTokenizer S) : result FramingError turn_result :=
  match stage t with
  | Opening => turn_opening t
  | Headers => turn_headers t
  | InPayload => turn_payload t
  | AfterBoundary => turn_after_boundary t
  | ClosingPart => Ok (Return (Some PartEnded) (consume t 0 AfterClose))
  | AfterClose => turn_after_close t
  | NextPartOpening => Ok (Return (Some PartStarted) (consume t 0 Headers))
  | Done => turn_done t
  end.

Fixpoint event_loop (fuel : nat) (t : FramingTokenizer S)
    : result FramingError (option FramingEvent * FramingTokenizer S) :=
  match fuel with
  | O => OutOfFuel
  | Datatypes.S fuel' =>
      let! r := turn t in
      match r with
      | Again t => event_loop fuel' t
      | Return e t => Ok (e, t)
      end
  end.

Definition next_event (t : FramingTokenizer S)
    : result FramingError (option FramingEvent * FramingTokenizer S) :=
  event_loop (2 + length (remaining (source t))) t.

(** A consumer that pulls every event, as the layer above does. *)
Fixpoint drain (fuel : nat) (t : FramingTokenizer S) : result FramingError (list FramingEvent) :=
  match fuel with
  | O => OutOfFuel
  | Datatypes.S fuel' =>
      let! '(e, t) := next_event t in
      match e with
      | None => Ok []
      | Some e => let! rest := drain fuel' t in Ok (e :: rest)
      end
  end.

(** Two events per byte and three more are always enough. *)
Definition tokenize (framing : RequestFraming) (src : S) : result FramingError (list FramingEvent) :=
  drain (3 + 2 * length (remaining src)) (tokenizer_new framing src).
End Tokenizer.

(** * A reference parser over the whole body

    The same framing read from all bytes at once: no window, no refills. *)

Abbreviation Part := (list Z * list Z)%type.

Section Reference.
Variable dash : list Z.

(** After the closing dashes. *)
Definition ref_close (U : list Z) : result FramingError (list Part) :=
  if (length U <? 2)%nat then Err UnexpectedEndOfStream
  else if negb (starts_with U CRLF) then Err MalformedDelimiter
  else match drop 2 U with [] => Ok [] | _ => Err TrailingBytesAfterClosingDelimiter end.

Section Step.
Variable headers : list Z -> result FramingError (list Part).

(** After a delimiter. *)
Definition ref_after (U : list Z) : result FramingError (list Part) :=
  if (length U <? 2)%nat then Err UnexpectedEndOfStream
  else if starts_with U DASHES then ref_close (drop 2 U)
  else if starts_with U CRLF then headers (drop 2 U)
  else Err MalformedDelimiter.

(** In a part's payload, [q] of it already read. *)
Definition ref_payload (value q U : list Z) : result FramingError (list Part) :=
  match find_sub (CRLF ++ dash) U with
  | None => Err UnexpectedEndOfStream
  | Some at_ =>
      let! parts := ref_after (drop (at_ + length (CRLF ++ dash)) U) in
      Ok ((value, q ++ take at_ U) :: parts)
  end.
End Step.

Fixpoint ref_headers (fuel : nat) (U : list Z) : result FramingError (list Part) :=
  match fuel with
  | O => OutOfFuel
  | S fuel' =>
      if starts_with U CRLF then Err PartHeaderMalformed
      else
        match find_sub (CRLF ++ CRLF) U with
        | None => Err UnexpectedEndOfStream
        | Some at_ =>
            match header_value (take at_ U) with
            | None => Err PartHeaderMalformed
            | Some value => ref_payload (ref_headers fuel') value [] (drop (at_ + 4) U)
            end
        end
  end.

Definition headers_of (U : list Z) : result FramingError (list Part) := ref_headers (S (length U)) U.

Definition ref_body (U : list Z) : result FramingError (list Part) :=
  if negb (starts_with U dash) then Err MissingOpeningBoundary
  else if (length U <? length dash + 2)%nat then Err UnexpectedEndOfStream
  else if negb (starts_with (drop (length dash) U) CRLF) then Err MalformedDelimiter
  else headers_of (drop (length dash + 2) U).
End Reference.

(** The parts an event sequence spells out, [cur] being the part in progress. *)
Fixpoint parts_from (cur : Part) (es : list FramingEvent) : list Part :=
  match es with
  | [] => []
  | PartStarted :: es => parts_from ([], []) es
  | PartContentType value :: es => parts_from (value, []) es
  | Payload bytes :: es => parts_from (cur.1, cur.2 ++ bytes) es
  | PartEnded :: es => cur :: parts_from ([], []) es
  | EndOfParts :: es => parts_from ([], []) es
  end.

Definition parts_of (es : list FramingEvent) : list Part := parts_from ([], []) es.

(** * Substring search *)

Lemma starts_with_prefix l r p : starts_with l p = true -> starts_with (l ++ r) p = true.
Proof. rewrite !starts_with_spec. intros [x ->]. exists (x ++ r). by rewrite app_assoc. Qed.

Lemma starts_with_long l r p : (length p <= length l)%nat -> starts_with (l ++ r) p = starts_with l p.
Proof.
  revert l. induction p as [|x p IH]; intros [|y l] Hl; simpl in *; try done; [lia|].
  by rewrite IH by lia.
Qed.

Lemma find_sub_nil p l : find_sub p l = None -> starts_with l p = false.
Proof. destruct l; simpl; by case_match. Qed.

Lemma find_sub_app p l r k : find_sub p l = Some k -> find_sub p (l ++ r) = Some k.
Proof.
  revert k. induction l as [|x l IH]; intros k; simpl.
  - destruct p; [|done]. intros [= <-]. by destruct r.
  - destruct (starts_with (x :: l) p) eqn:E.
    + intros [= <-]. by rewrite (starts_with_prefix (x :: l) r p E : starts_with (x :: l ++ r) p = true).
    + destruct (find_sub p l) as [k'|] eqn:Ef; [|done]. simpl. intros [= <-].
      assert (Hlen : (length p <= length (x :: l))%nat).
      { clear -Ef. revert k' Ef. induction l as [|y l IH]; intros k' Ef; simpl in *.
        - destruct p; [simpl; lia|done].
        - destruct (starts_with (y :: l) p) eqn:E.
          + apply starts_with_spec in E as [s E]. apply (f_equal length) in E.
            rewrite length_app in E. simpl in E. lia.
          + destruct (find_sub p l); [|done]. specialize (IH _ eq_refl). lia. }
      change (x :: l ++ r) with ((x :: l) ++ r). rewrite starts_with_long, E by done.
      by rewrite (IH k').
Qed.

(** Where the pattern is found it stands, and nowhere before. *)
Lemma find_sub_spec p l k : find_sub p l = Some k <->
  starts_with (drop k l) p = true /\ (k <= length l)%nat /\
  forall i, (i < k)%nat -> starts_with (drop i l) p = false.
Proof.
  revert k. induction l as [|x l IH]; intros k; simpl.
  - destruct (starts_with [] p) eqn:E.
    + split; [intros [= <-]; split_and!; [done|lia|intros; lia]|].
      intros (_ & Hk & _). f_equal. lia.
    + split; [done|]. intros (H & Hk & _). replace k with 0%nat in H by lia. simpl in H. congruence.
  - destruct (starts_with (x :: l) p) eqn:E.
    + split; [intros [= <-]; split_and!; [done|lia|intros; lia]|].
      intros (_ & _ & Hn). destruct k as [|k]; [done|]. specialize (Hn 0%nat ltac:(lia)).
      simpl in Hn. congruence.
    + destruct k as [|k].
      { split; [by destruct (find_sub p l)|]. intros (H & _). simpl in H. congruence. }
      transitivity (find_sub p l = Some k); [destruct (find_sub p l); naive_solver|].
      rewrite IH. simpl. split; intros (H1 & H2 & H3); split_and!; try done; try lia.
      * intros [|i] Hi; [done|]. apply H3. lia.
      * intros i Hi. apply (H3 (S i)). lia.
Qed.

Lemma find_sub_None p l : find_sub p l = None <->
  forall i, (i <= length l)%nat -> starts_with (drop i l) p = false.
Proof.
  induction l as [|x l IH]; simpl.
  - destruct (starts_with [] p) eqn:E.
    + split; [done|]. intros H. specialize (H 0%nat ltac:(lia)). simpl in H. congruence.
    + split; [|done]. intros _ i Hi. by replace i with 0%nat by lia.
  - destruct (starts_with (x :: l) p) eqn:E.
    + split; [done|]. intros H. specialize (H 0%nat ltac:(lia)). simpl in H. congruence.
    + transitivity (find_sub p l = None); [destruct (find_sub p l); naive_solver|].
      rewrite IH. split; intros H.
      * intros [|i] Hi; [done|]. simpl. apply H. lia.
      * intros i Hi. apply (H (S i)). lia.
Qed.

(** Bytes before which no occurrence starts can be dropped. *)
Lemma find_sub_drop p l e : (e <= length l)%nat ->
  (forall i, (i < e)%nat -> starts_with (drop i l) p = false) ->
  find_sub p l = Nat.add e <$> find_sub p (drop e l).
Proof.
  revert l. induction e as [|e IH]; intros l He Hn.
  - rewrite drop_0. by destruct (find_sub p l).
  - destruct l as [|x l]; [simpl in He; lia|]. simpl in He. cbn [find_sub drop].
    pose proof (Hn 0%nat ltac:(lia)) as H0. simpl in H0. rewrite H0.
    rewrite IH by (try lia; intros i Hi; apply (Hn (S i)); lia).
    by destruct (find_sub p (drop e l)).
Qed.

(** When the pattern is not in [l], an occurrence in [l ++ r] starts in the
    last [length p - 1] bytes of [l] or later. *)
Lemma find_sub_retain p l r i : find_sub p l = None -> (i + length p <= length l)%nat ->
  starts_with (drop i (l ++ r)) p = false.
Proof.
  intros Hn Hi. rewrite drop_app_le by lia.
  rewrite starts_with_long by (rewrite length_drop; lia). apply find_sub_None; [done|lia].
Qed.

(** * Fuel of the reference parser *)

Section ReferenceFuel.
Variable dash : list Z.

Lemma ref_after_ext h1 h2 U : (2 <= length U)%nat ->
  (forall V, (length V + 2 <= length U)%nat -> h1 V = h2 V) -> ref_after h1 U = ref_after h2 U.
Proof.
  intros Hl Hh. unfold ref_after. repeat case_match; try done. apply Hh. rewrite length_drop. lia.
Qed.

Lemma find_sub_bound p l k : find_sub p l = Some k -> (k + length p <= length l)%nat.
Proof.
  intros (H1 & H2 & _)%find_sub_spec. apply starts_with_spec in H1 as [r E].
  apply (f_equal length) in E. rewrite length_drop, length_app in E. lia.
Qed.

Lemma ref_payload_ext h1 h2 v q U :
  (forall V, (length V < length U)%nat -> h1 V = h2 V) ->
  ref_payload dash h1 v q U = ref_payload dash h2 v q U.
Proof.
  intros Hh. unfold ref_payload. destruct (find_sub _ U) as [k|] eqn:E; [|done].
  apply find_sub_bound in E. rewrite length_app in E. simpl in E.
  set (W := drop _ U). assert (HW : (length W + 2 <= length U)%nat).
  { unfold W. rewrite length_drop, length_app. simpl. lia. }
  destruct (decide (2 <= length W)%nat) as [HL|HL].
  - rewrite (ref_after_ext h1 h2 W HL); [done|]. intros V HV. apply Hh. lia.
  - unfold ref_after. by rewrite !(proj2 (Nat.ltb_lt (length W) 2)) by lia.
Qed.

Lemma ref_headers_fuel n m U : (length U < n)%nat -> (length U < m)%nat ->
  ref_headers dash n U = ref_headers dash m U.
Proof.
  revert m U. induction n as [|n IH]; intros m U Hn Hm; [lia|].
  destruct m as [|m]; [lia|]. cbn [ref_headers]. repeat case_match; try done.
  match goal with H : find_sub _ U = Some _ |- _ => apply find_sub_bound in H; rewrite length_app in H; simpl in H end.
  apply ref_payload_ext. intros V. rewrite length_drop. intros HV. apply IH; lia.
Qed.

Lemma headers_of_eq U : headers_of dash U =
  if starts_with U CRLF then Err PartHeaderMalformed
  else match find_sub (CRLF ++ CRLF) U with
       | None => Err UnexpectedEndOfStream
       | Some at_ =>
           match header_value (take at_ U) with
           | None => Err PartHeaderMalformed
           | Some value => ref_payload dash (headers_of dash) value [] (drop (at_ + 4) U)
           end
       end.
Proof.
  unfold headers_of at 1. cbn [ref_headers]. repeat case_match; try done.
  match goal with H : find_sub _ U = Some _ |- _ => apply find_sub_bound in H; rewrite length_app in H; simpl in H end.
  apply ref_payload_ext. intros V. rewrite length_drop. intros HV. apply ref_headers_fuel; lia.
Qed.
End ReferenceFuel.

(** * Simulation *)

(** What is still to come of the parts, in the reference reading of the unread
    bytes; [cur] is the part in progress. *)
Definition expected (dash : list Z) (st : Stage) (cur : Part) (U : list Z)
    : result FramingError (list Part) :=
  match st with
  | Opening => ref_body dash U
  | Headers | NextPartOpening => headers_of dash U
  | InPayload => ref_payload dash (headers_of dash) cur.1 cur.2 U
  | AfterBoundary => let! ps := ref_after (headers_of dash) U in Ok (cur :: ps)
  | ClosingPart => let! ps := ref_close U in Ok (cur :: ps)
  | AfterClose => ref_close U
  | Done => match U with [] => Ok [] | _ => Err TrailingBytesAfterClosingDelimiter end
  end.

Section Simulation.
Context {S : Type} `{LawfulSource S}.
Implicit Type t : FramingTokenizer S.

Definition unread t : list Z := live_bytes t ++ remaining (source t).

(** [N] is the size of the body. *)
Record tokenizer_inv (dash : list Z) (N : nat) t : Prop := {
  ti_dash : dash_boundary t = dash;
  ti_delimiter : payload_delimiter t = CRLF ++ dash;
  ti_short : (length dash <= 72)%nat;
  ti_pos : (pos t <= length (window t))%nat;
  ti_window : (length (window t) <= FRAMING_WINDOW_BYTES)%nat;
  ti_size : (length (window t) + length (remaining (source t)) <= N)%nat }.

Lemma live_length t : live t = length (live_bytes t).
Proof. unfold live, live_bytes. by rewrite length_drop. Qed.

Lemma fill_sim dash N t : tokenizer_inv dash N t -> (live t < FRAMING_WINDOW_BYTES)%nat ->
  match fill t with
  | Ok (n, t') => tokenizer_inv dash N t' /\ stage t' = stage t /\ unread t' = unread t /\
      (n = 0%nat -> remaining (source t) = [] /\ live_bytes t' = live_bytes t /\
                    remaining (source t') = []) /\
      (length (remaining (source t')) + n = length (remaining (source t)))%nat
  | Err e => exists k, e = SourceRead k
  | OutOfFuel => False
  end.
Proof.
  intros [Hd Hp Hs Hpos Hw HN] Hl. unfold fill.
  assert (Hk : (if (0 <? pos t)%nat then drop (pos t) (window t) else window t) = live_bytes t).
  { unfold live_bytes. destruct (pos t); done. }
  rewrite Hk. rewrite live_length in Hl.
  rewrite (proj2 (Nat.leb_gt _ _)) by lia.
  pose proof (pull_law (source t) (FRAMING_WINDOW_BYTES - length (live_bytes t)) ltac:(lia)) as Hpull.
  destruct (pull (source t) _) as [[chunk|k|] s]; [|by eauto|done].
  destruct Hpull as (Hr & Hlen & Hnil).
  assert (Hle : (length (live_bytes t) <= length (window t))%nat)
    by (unfold live_bytes; rewrite length_drop; lia).
  apply (f_equal length) in Hr as Hr'. rewrite length_app in Hr'.
  split_and!; try done; try lia.
  - constructor; simpl; rewrite ?length_app; try done; try lia.
  - unfold unread, live_bytes at 1. simpl. by rewrite Hr, app_assoc.
  - intros Hz. apply nil_length_inv in Hz as ->. specialize (Hnil eq_refl).
    split; [done|]. split; [|by rewrite Hnil in Hr; symmetry].
    unfold live_bytes at 1. simpl. by rewrite app_nil_r.
  - simpl. lia.
Qed.

(** What one turn owes to the reference reading. *)
Definition turn_ok (dash : list Z) (N : nat) t (r : result FramingError (turn_result (S:=S))) : Prop :=
  forall cur, match r with
  | Err (SourceRead _) => True
  | Err e => expected dash (stage t) cur (unread t) = Err e \/
             (e = PartHeaderMalformed /\ (FRAMING_WINDOW_BYTES <= N)%nat)
  | Ok (Again t') =>
      tokenizer_inv dash N t' /\
      expected dash (stage t') cur (unread t') = expected dash (stage t) cur (unread t) /\
      (unread t' = unread t /\ stage t' = stage t /\
       (length (remaining (source t')) < length (remaining (source t)))%nat \/
       stage t = AfterBoundary /\ stage t' = ClosingPart /\ source t' = source t /\
       (length (unread t') + 2 = length (unread t))%nat)
  | Ok (Return (Some e) t') =>
      tokenizer_inv dash N t' /\
      expected dash (stage t) cur (unread t) =
        match e with
        | PartStarted => expected dash (stage t') ([], []) (unread t')
        | PartContentType v => expected dash (stage t') (v, []) (unread t')
        | Payload b => expected dash (stage t') (cur.1, cur.2 ++ b) (unread t')
        | PartEnded => let! ps := expected dash (stage t') ([], []) (unread t') in Ok (cur :: ps)
        | EndOfParts => expected dash (stage t') ([], []) (unread t')
        end /\
      (length (unread t') < length (unread t) \/
       length (unread t') = length (unread t) /\
       (stage t = ClosingPart /\ stage t' = AfterClose \/
        stage t = NextPartOpening /\ stage t' = Headers))%nat
  | Ok (Return None t') => expected dash (stage t) cur (unread t) = Ok []
  | OutOfFuel => False
  end.

Lemma refill_ok dash N t at_end : tokenizer_inv dash N t -> (live t < FRAMING_WINDOW_BYTES)%nat ->
  (forall t' cur, live_bytes t' = live_bytes t -> unread t = live_bytes t -> tokenizer_inv dash N t' ->
     (forall k, at_end t' <> SourceRead k) /\
     expected dash (stage t) cur (live_bytes t) = Err (at_end t')) ->
  turn_ok dash N t (refill t at_end).
Proof.
  intros Hi Hl Hend cur. unfold refill. pose proof (fill_sim dash N t Hi Hl) as Hf.
  destruct (fill t) as [[n t']|e|]; simpl; [|by destruct Hf as [k ->]|done].
  destruct Hf as (Hi' & Hst & Hu & Hz & Hn). destruct (n =? 0)%nat eqn:E.
  - apply Nat.eqb_eq in E. destruct (Hz E) as (Hrem & Hlive & _).
    assert (Hul : unread t = live_bytes t) by (unfold unread; by rewrite Hrem, app_nil_r).
    destruct (Hend t' cur Hlive Hul Hi') as [Hk He]. rewrite Hul.
    destruct (at_end t') eqn:Ea; try (by left). by destruct (Hk kind).
  - apply Nat.eqb_neq in E. split_and!; [done|by rewrite Hst, Hu|]. left. split_and!; [done|done|lia].
Qed.

Lemma unread_consume t n st : (n <= live t)%nat -> unread (consume t n st) = drop n (unread t).
Proof.
  intros Hn. unfold unread, live_bytes, live in *. simpl.
  rewrite drop_app_le by (rewrite length_drop; lia). by rewrite drop_drop.
Qed.

Lemma consume_inv dash N t n st : tokenizer_inv dash N t -> (n <= live t)%nat ->
  tokenizer_inv dash N (consume t n st).
Proof. intros [Hd Hp Hs Hpos Hw HN] Hn. unfold live in Hn. constructor; simpl; try done. lia. Qed.

Lemma consume_shorter t n st : (0 < n <= live t)%nat ->
  (length (unread (consume t n st)) < length (unread t))%nat.
Proof.
  intros Hn. rewrite unread_consume by lia. rewrite length_drop. unfold unread.
  rewrite length_app, <- live_length. lia.
Qed.

(** Tests on the first bytes see the same in the window as in all unread bytes. *)
Lemma starts_unread t p : (length p <= live t)%nat ->
  starts_with (unread t) p = starts_with (live_bytes t) p.
Proof. intros Hp. apply starts_with_long. by rewrite <- live_length. Qed.

Lemma unread_length t : (live t <= length (unread t))%nat.
Proof. unfold unread. rewrite length_app, live_length. lia. Qed.

(** Rewrite a literal comparison of lengths decided by arithmetic. *)
Ltac decide_len :=
  repeat match goal with
  | |- context [(?a <? ?b)%nat] =>
      first [rewrite (proj2 (Nat.ltb_lt a b)) by lia | rewrite (proj2 (Nat.ltb_ge a b)) by lia]
  end.

Lemma starts_with_length l p : starts_with l p = true -> (length p <= length l)%nat.
Proof. intros [r ->]%starts_with_spec. rewrite length_app. lia. Qed.

Lemma turn_opening_ok dash N t : tokenizer_inv dash N t -> stage t = Opening ->
  turn_ok dash N t (turn_opening t).
Proof.
  intros Hi Hst. pose proof Hi as [Hd _ Hs Hpos Hw _]. unfold turn_opening. rewrite Hd.
  pose proof (unread_length t) as Hul. pose proof (live_length t) as Hll.
  destruct (_ && _) eqn:E1.
  { apply andb_true_iff in E1 as [E1 E2]. apply Nat.ltb_lt in E1. apply negb_true_iff in E2.
    intros cur. left. rewrite Hst. cbn [expected]. unfold ref_body.
    destruct (starts_with (unread t) dash) eqn:Eu; [|done].
    apply starts_with_spec in Eu as [r Er]. exfalso.
    rewrite <- (take_app_le dash r (live t)) in E2 by lia. rewrite <- Er in E2.
    unfold unread in E2. rewrite Hll, take_app_length in E2.
    rewrite <- (app_nil_r (live_bytes t)) in E2 at 1. by rewrite starts_with_app in E2. }
  destruct (live t <? length dash + 2)%nat eqn:E3.
  { apply Nat.ltb_lt in E3. apply refill_ok; [done|unfold FRAMING_WINDOW_BYTES; lia|].
    intros t' cur Hl' _ _. rewrite Hl', Hst. cbn [expected]. unfold ref_body.
    destruct (starts_with (live_bytes t) dash); simpl; [|done]. rewrite <- Hll. by decide_len. }
  apply Nat.ltb_ge in E3. intros cur. rewrite <- (starts_unread t dash) by lia.
  assert (Hdrop : starts_with (drop (length dash) (live_bytes t)) CRLF
                  = starts_with (drop (length dash) (unread t)) CRLF).
  { unfold unread. rewrite drop_app_le by lia. rewrite starts_with_long; [done|].
    rewrite length_drop. simpl. lia. }
  rewrite Hdrop, Hst. cbn [expected]. unfold ref_body. decide_len.
  destruct (starts_with (unread t) dash); cbn [negb]; [|by left].
  destruct (starts_with (drop (length dash) (unread t)) CRLF); cbn [negb]; [|by left].
  split_and!; [by apply consume_inv; [|lia]|by rewrite unread_consume by lia|].
  left. apply consume_shorter. lia.
Qed.

Lemma turn_headers_ok dash N t : tokenizer_inv dash N t -> stage t = Headers ->
  turn_ok dash N t (turn_headers t).
Proof.
  intros Hi Hst. pose proof Hi as [Hd _ Hs Hpos Hw HN]. unfold turn_headers.
  pose proof (live_length t) as Hll.
  destruct (starts_with (live_bytes t) CRLF) eqn:E1.
  { intros cur. left. rewrite Hst. cbn [expected]. rewrite headers_of_eq.
    unfold unread. by rewrite (starts_with_prefix _ _ _ E1). }
  destruct (find_sub (CRLF ++ CRLF) (live_bytes t)) as [k|] eqn:E2.
  - pose proof (find_sub_bound _ _ _ E2) as Hk. rewrite length_app in Hk. simpl in Hk.
    assert (Hexp : forall cur, expected dash (stage t) cur (unread t) =
      match header_value (take k (live_bytes t)) with
      | None => Err PartHeaderMalformed
      | Some v => ref_payload dash (headers_of dash) v [] (drop (k + 4) (unread t))
      end).
    { intros cur. rewrite Hst. cbn [expected]. rewrite headers_of_eq.
      rewrite starts_unread, E1 by (simpl; lia). unfold unread at 1. rewrite (find_sub_app _ _ _ _ E2).
      unfold unread at 1. by rewrite take_app_le by lia. }
    destruct (header_value _) as [v|]; intros cur; rewrite Hexp; [|by left].
    split_and!; [apply consume_inv; [done|lia]|by rewrite unread_consume by lia|].
    left. apply consume_shorter. lia.
  - destruct (FRAMING_WINDOW_BYTES <=? length (window t))%nat eqn:E3.
    { intros cur. right. apply Nat.leb_le in E3. split; [done|lia]. }
    apply Nat.leb_gt in E3. apply refill_ok; [done|unfold live; lia|].
    intros t' cur Hl' _ _. split; [done|]. rewrite Hst. cbn [expected]. by rewrite headers_of_eq, E1, E2.
Qed.

Lemma turn_payload_ok dash N t : tokenizer_inv dash N t -> stage t = InPayload ->
  turn_ok dash N t (turn_payload t).
Proof.
  intros Hi Hst. pose proof Hi as [Hd Hp Hs Hpos Hw HN]. unfold turn_payload. rewrite Hp.
  pose proof (live_length t) as Hll.
  assert (Hlen : length (CRLF ++ dash) = (2 + length dash)%nat) by done.
  destruct (live t =? 0)%nat eqn:E0.
  { apply Nat.eqb_eq in E0. apply refill_ok; [done|unfold FRAMING_WINDOW_BYTES; lia|].
    intros t' cur _ _ _. split; [done|]. rewrite Hst. cbn [expected]. unfold ref_payload.
    rewrite E0 in Hll. symmetry in Hll. apply nil_length_inv in Hll. by rewrite Hll. }
  apply Nat.eqb_neq in E0. destruct (find_sub (CRLF ++ dash) (live_bytes t)) as [k|] eqn:E2.
  - pose proof (find_sub_bound _ _ _ E2) as Hk. intros cur.
    split_and!; [apply consume_inv; [done|lia]| |left; apply consume_shorter; lia].
    rewrite Hst. cbn [expected consume stage fst snd]. unfold ref_payload.
    unfold unread at 1. rewrite (find_sub_app _ _ _ _ E2). rewrite unread_consume by lia.
    do 2 f_equal. unfold unread. rewrite take_app_le by lia. done.
  - destruct (length (CRLF ++ dash) - 1 <? live t)%nat eqn:E3.
    + apply Nat.ltb_lt in E3. set (e := (live t - (length (CRLF ++ dash) - 1))%nat).
      intros cur. split_and!; [apply consume_inv; [done|lia]| |left; apply consume_shorter; lia].
      rewrite Hst. cbn [expected consume stage fst snd]. unfold ref_payload.
      rewrite unread_consume by lia.
      rewrite (find_sub_drop _ (unread t) e); cycle 1.
      { pose proof (unread_length t). lia. }
      { intros i Hi'. apply find_sub_retain; [done|lia]. }
      destruct (find_sub (CRLF ++ dash) (drop e (unread t))) as [k|]; simpl; [|done].
      rewrite drop_drop. rewrite Nat.add_assoc. f_equal.
      assert (He : take e (live_bytes t) = take e (unread t))
        by (unfold unread; rewrite take_app_le by lia; done).
      by rewrite He, <- app_assoc, take_take_drop.
    + apply Nat.ltb_ge in E3. apply refill_ok; [done|unfold FRAMING_WINDOW_BYTES; lia|].
      intros t' cur _ _ _. split; [done|]. rewrite Hst. cbn [expected]. unfold ref_payload. by rewrite E2.
Qed.

Lemma turn_after_boundary_ok dash N t : tokenizer_inv dash N t -> stage t = AfterBoundary ->
  turn_ok dash N t (turn_after_boundary t).
Proof.
  intros Hi Hst. pose proof Hi as [Hd Hp Hs Hpos Hw HN]. unfold turn_after_boundary.
  pose proof (live_length t) as Hll. destruct (live t <? 2)%nat eqn:E0.
  { apply Nat.ltb_lt in E0. apply refill_ok; [done|unfold FRAMING_WINDOW_BYTES; lia|].
    intros t' cur _ _ _. split; [done|]. rewrite Hst. cbn [expected]. unfold ref_after.
    rewrite <- Hll. by decide_len. }
  apply Nat.ltb_ge in E0. pose proof (unread_length t) as Hul.
  rewrite <- (starts_unread t DASHES), <- (starts_unread t CRLF) by (simpl; lia). intros cur.
  rewrite Hst. cbn [expected]. unfold ref_after. decide_len.
  destruct (starts_with (unread t) DASHES).
  { split_and!; [apply consume_inv; [done|lia]|by rewrite unread_consume by lia|].
    right. rewrite unread_consume, length_drop by lia. split_and!; [done|done|done|lia]. }
  destruct (starts_with (unread t) CRLF); [|by left].
  split_and!; [apply consume_inv; [done|lia]|by rewrite unread_consume by lia|].
  left. apply consume_shorter. lia.
Qed.

Lemma turn_after_close_ok dash N t : tokenizer_inv dash N t -> stage t = AfterClose ->
  turn_ok dash N t (turn_after_close t).
Proof.
  intros Hi Hst. pose proof Hi as [Hd Hp Hs Hpos Hw HN]. unfold turn_after_close.
  pose proof (live_length t) as Hll. destruct (live t <? 2)%nat eqn:E0.
  { apply Nat.ltb_lt in E0. apply refill_ok; [done|unfold FRAMING_WINDOW_BYTES; lia|].
    intros t' cur _ _ _. split; [done|]. rewrite Hst. cbn [expected]. unfold ref_close.
    rewrite <- Hll. by decide_len. }
  apply Nat.ltb_ge in E0. pose proof (unread_length t) as Hul.
  rewrite <- (starts_unread t CRLF) by (simpl; lia). intros cur.
  rewrite Hst. cbn [expected]. unfold ref_close. decide_len.
  destruct (starts_with (unread t) CRLF); cbn [negb]; [|by left].
  split_and!; [apply consume_inv; [done|lia]|by rewrite unread_consume by lia|].
  left. apply consume_shorter. lia.
Qed.

Lemma turn_done_ok dash N t : tokenizer_inv dash N t -> stage t = Done ->
  turn_ok dash N t (turn_done t).
Proof.
  intros Hi Hst. unfold turn_done. pose proof (live_length t) as Hll.
  destruct (0 <? live t)%nat eqn:E0.
  { apply Nat.ltb_lt in E0. intros cur. left. rewrite Hst. cbn [expected].
    pose proof (unread_length t). destruct (unread t) eqn:E; [simpl in *; lia|done]. }
  apply Nat.ltb_ge in E0.
  pose proof (fill_sim dash N t Hi ltac:(unfold FRAMING_WINDOW_BYTES; lia)) as Hf. intros cur.
  destruct (fill t) as [[n t']|e|]; simpl; [|by destruct Hf as [k ->]|done].
  destruct Hf as (_ & _ & _ & Hz & Hn). rewrite Hst. cbn [expected].
  assert (Hlive : live_bytes t = []) by (apply nil_length_inv; lia).
  unfold unread. rewrite Hlive. cbn [app]. destruct n as [|n]; simpl.
  - destruct (Hz eq_refl) as [-> _]. done.
  - left. destruct (remaining (source t)); [simpl in *; lia|done].
Qed.

Lemma turn_sim dash N t : tokenizer_inv dash N t -> turn_ok dash N t (turn t).
Proof.
  intros Hi. unfold turn. destruct (stage t) eqn:Hst.
  - by apply turn_opening_ok.
  - by apply turn_headers_ok.
  - by apply turn_payload_ok.
  - by apply turn_after_boundary_ok.
  - by apply turn_after_close_ok.
  - intros cur. rewrite Hst. pose proof (unread_consume t 0 Headers ltac:(lia)) as Hu.
    rewrite drop_0 in Hu. rewrite Hu. split_and!; [apply consume_inv; [done|lia]|done|]. right. auto.
  - intros cur. rewrite Hst. pose proof (unread_consume t 0 AfterClose ltac:(lia)) as Hu.
    rewrite drop_0 in Hu. rewrite Hu. split_and!; [apply consume_inv; [done|lia]|done|]. right. auto.
  - by apply turn_done_ok.
Qed.

(** ** Events *)

(** What one event, or the end, owes to the reference reading. *)
Definition event_ok (dash : list Z) (N : nat) t
    (r : result FramingError (option FramingEvent * FramingTokenizer S)) : Prop :=
  forall cur, match r with
  | Err (SourceRead _) => True
  | Err e => expected dash (stage t) cur (unread t) = Err e \/
             (e = PartHeaderMalformed /\ (FRAMING_WINDOW_BYTES <= N)%nat)
  | Ok (Some e, t') =>
      tokenizer_inv dash N t' /\
      expected dash (stage t) cur (unread t) =
        match e with
        | PartStarted => expected dash (stage t') ([], []) (unread t')
        | PartContentType v => expected dash (stage t') (v, []) (unread t')
        | Payload b => expected dash (stage t') (cur.1, cur.2 ++ b) (unread t')
        | PartEnded => let! ps := expected dash (stage t') ([], []) (unread t') in Ok (cur :: ps)
        | EndOfParts => expected dash (stage t') ([], []) (unread t')
        end /\
      (length (unread t') < length (unread t) \/
       length (unread t') = length (unread t) /\
       (stage t = ClosingPart /\ stage t' = AfterClose \/
        stage t = NextPartOpening /\ stage t' = Headers))%nat
  | Ok (None, _) => expected dash (stage t) cur (unread t) = Ok []
  | OutOfFuel => False
  end.

Lemma event_loop_sim dash N fuel t : tokenizer_inv dash N t ->
  (length (remaining (source t)) + (if decide (stage t = ClosingPart) then 0 else 1) < fuel)%nat ->
  event_ok dash N t (event_loop fuel t).
Proof.
  revert t. induction fuel as [|fuel IH]; intros t Hi Hfuel; [lia|].
  cbn [event_loop]. pose proof (turn_sim dash N t Hi) as Ht. intros cur. specialize (Ht cur).
  destruct (turn t) as [[t'|[e|] t']|e|]; cbn [rbind]; [|done|done|done|done].
  destruct Ht as (Hi' & Hexp & Hor).
  assert (Hloop : event_ok dash N t' (event_loop fuel t')).
  { apply IH; [done|]. destruct Hor as [(_ & Hst & Hrem)|(Hst & Hst' & Hsrc & _)].
    - rewrite Hst. lia.
    - rewrite Hst', Hsrc. rewrite Hst in Hfuel. simpl in *. lia. }
  specialize (Hloop cur). rewrite Hexp in Hloop.
  destruct (event_loop fuel t') as [[[e|] t'']|e|]; try done.
  destruct Hloop as (Hi'' & He & Hw). split_and!; [done|done|].
  destruct Hor as [(Hu & Hst & _)|(_ & _ & _ & Hu)]; [by rewrite <- Hu, <- Hst|left; lia].
Qed.

Lemma next_event_sim dash N t : tokenizer_inv dash N t -> event_ok dash N t (next_event t).
Proof. intros Hi. apply event_loop_sim; [done|]. case_decide; lia. Qed.

(** Events still possible: two per unread byte, and the one a closed
    delimiter still owes. *)
Definition weight t : nat :=
  (2 * length (unread t) +
   match stage t with ClosingPart | NextPartOpening => 1 | _ => 0 end)%nat.

Lemma drain_sim dash N fuel t cur : tokenizer_inv dash N t -> (weight t < fuel)%nat ->
  match drain fuel t with
  | Ok es => expected dash (stage t) cur (unread t) = Ok (parts_from cur es)
  | Err (SourceRead _) => True
  | Err e => expected dash (stage t) cur (unread t) = Err e \/
             (e = PartHeaderMalformed /\ (FRAMING_WINDOW_BYTES <= N)%nat)
  | OutOfFuel => False
  end.
Proof.
  revert t cur. induction fuel as [|fuel IH]; intros t cur Hi Hf; [lia|].
  cbn [drain]. pose proof (next_event_sim dash N t Hi cur) as He.
  destruct (next_event t) as [[[e|] t']|e|]; cbn [rbind]; [|done|done|done].
  destruct He as (Hi' & Hexp & Hw).
  assert (Hwt : (weight t' < fuel)%nat).
  { unfold weight in *. destruct Hw as [Hw|(Hw & [[Hs1 Hs2]|[Hs1 Hs2]])].
    - destruct (stage t), (stage t'); lia.
    - rewrite Hs1, Hs2, Hw in *. lia.
    - rewrite Hs1, Hs2, Hw in *. lia. }
  rewrite Hexp. set (cur' := match e with
    | PartContentType v => (v, []) | Payload b => (cur.1, cur.2 ++ b) | _ => ([], []) end).
  specialize (IH t' cur' Hi' Hwt). subst cur'.
  destruct (drain fuel t') as [es|err|]; cbn [rbind]; [| |done].
  - destruct e; simpl; rewrite IH; done.
  - destruct err; try done; destruct e; try done;
      (destruct IH as [IH|IH]; [left; by rewrite IH|by right]).
Qed.
End Simulation.

(** * What a framed body is *)

(** A part's value is text that ends where its header's blank line is, and its
    payload ends where the first delimiter is. *)
Definition part_ok (dash : list Z) (p : Part) : Prop :=
  p.1 <> [] /\ Forall is_scalar p.1 /\
  find_sub (CRLF ++ CRLF) (as_bytes p.1 ++ CRLF ++ CRLF) = Some (length (as_bytes p.1)) /\
  find_sub (CRLF ++ dash) (p.2 ++ CRLF ++ dash) = Some (length p.2).

(** A header line, a blank line, the payload and the delimiter. *)
Definition part_bytes (dash : list Z) (p : Part) : list Z :=
  (CONTENT_TYPE_HEADER_PREFIX ++ as_bytes p.1) ++ (CRLF ++ CRLF) ++ p.2 ++ (CRLF ++ dash).

(** What follows a delimiter: the next part, or the close. *)
Fixpoint framed_tail (dash : list Z) (ps : list Part) : list Z :=
  match ps with
  | [] => DASHES ++ CRLF
  | p :: ps => CRLF ++ part_bytes dash p ++ framed_tail dash ps
  end.

Definition framed (dash : list Z) (ps : list Part) : list Z := dash ++ framed_tail dash ps.

Lemma find_sub_at p x r : find_sub p (x ++ p ++ r) = Some (length x) <->
  find_sub p (x ++ p) = Some (length x).
Proof.
  split; [|intros E; rewrite app_assoc; by apply find_sub_app].
  rewrite !find_sub_spec. rewrite !length_app, !drop_app_length. intros (_ & _ & Hn). split_and!.
  - rewrite <- (app_nil_r p) at 1. apply starts_with_app.
  - lia.
  - intros i Hi. specialize (Hn i Hi). apply not_true_is_false. intros E.
    rewrite app_assoc, drop_app_le in Hn by (rewrite length_app; lia).
    by rewrite (starts_with_prefix _ _ _ E) in Hn.
Qed.

(** A found pattern splits the text. *)
Lemma find_sub_split p l k : find_sub p l = Some k ->
  l = take k l ++ p ++ drop (k + length p) l /\ length (take k l) = k.
Proof.
  intros E. pose proof (find_sub_bound _ _ _ E). apply find_sub_spec in E as (E & Hk & _).
  apply starts_with_spec in E as [r E]. split; [|rewrite length_take; lia].
  rewrite <- (take_drop k l) at 1. f_equal. rewrite <- drop_drop, E. f_equal. by rewrite drop_app_length.
Qed.

Lemma header_value_spec line v : header_value line = Some v <->
  line = CONTENT_TYPE_HEADER_PREFIX ++ as_bytes v /\ v <> [] /\ Forall is_scalar v.
Proof.
  unfold header_value. destruct (starts_with line _) eqn:E.
  - apply starts_with_spec in E as [r ->]. rewrite drop_app_length. split.
    + destruct r as [|b r]; [done|]. intros [Hb Hs]%from_utf8_sound.
      split_and!; [by rewrite Hb|by intros ->|done].
    + intros (E & Hv & Hs). apply app_inv_head in E as ->.
      destruct (as_bytes v) eqn:Eb; [by apply as_bytes_nil in Eb|].
      rewrite <- Eb. by apply from_utf8_as_bytes.
  - split; [done|]. intros (-> & _). by rewrite starts_with_app in E.
Qed.

(** The header prefix holds no carriage return. *)
Lemma find_sub_prefix x :
  find_sub (CRLF ++ CRLF) (CONTENT_TYPE_HEADER_PREFIX ++ x) =
  Nat.add 14 <$> find_sub (CRLF ++ CRLF) x.
Proof.
  rewrite (find_sub_drop _ _ 14).
  - by rewrite (drop_app_length CONTENT_TYPE_HEADER_PREFIX x : drop 14 _ = x).
  - rewrite length_app. change (length CONTENT_TYPE_HEADER_PREFIX) with 14%nat. lia.
  - intros i Hi. do 14 (destruct i as [|i]; [done|]). lia.
Qed.

Section Grammar.
Variable dash : list Z.

Lemma ref_close_spec U ps : ref_close U = Ok ps <-> ps = [] /\ U = CRLF.
Proof.
  unfold ref_close. split; [|by intros [-> ->]].
  destruct (length U <? 2)%nat; [done|]. destruct (starts_with U CRLF) eqn:E; cbn [negb]; [|done].
  apply starts_with_spec in E as [r ->]. rewrite (drop_app_length CRLF r : drop 2 _ = r).
  destruct r; [|done]. by intros [= <-].
Qed.

(** A delimiter is followed by the close or by a part. *)
Lemma ref_after_spec h U ps :
  (forall V ps, (length V < length U)%nat -> h V = Ok ps <->
     ps <> [] /\ Forall (part_ok dash) ps /\ CRLF ++ V = framed_tail dash ps) ->
  ref_after h U = Ok ps <-> Forall (part_ok dash) ps /\ U = framed_tail dash ps.
Proof.
  intros Hh. unfold ref_after. destruct (length U <? 2)%nat eqn:El.
  { apply Nat.ltb_lt in El. split; [done|]. intros [_ ->]. exfalso. destruct ps; cbn in El; lia. }
  destruct (starts_with U DASHES) eqn:Ed.
  { apply starts_with_spec in Ed as [r ->]. rewrite (drop_app_length DASHES r : drop 2 _ = r).
    rewrite ref_close_spec. split; [by intros [-> ->]|].
    intros [_ E]. destruct ps as [|p ps]; [|done]. split; [done|]. by apply app_inv_head in E. }
  destruct (starts_with U CRLF) eqn:Ec.
  { apply starts_with_spec in Ec as [r ->]. rewrite (drop_app_length CRLF r : drop 2 _ = r).
    rewrite Hh by (rewrite length_app; simpl; lia). split; [tauto|]. intros [Hps E].
    split_and!; [|done|done]. by intros ->. }
  split; [done|]. intros [_ ->]. destruct ps; [done|].
  cbn [framed_tail] in Ec. by rewrite starts_with_app in Ec.
Qed.

(** A header block and its payload make the next part. *)
Lemma headers_step U : forall v k j, starts_with U CRLF = false ->
  find_sub (CRLF ++ CRLF) U = Some k -> header_value (take k U) = Some v ->
  find_sub (CRLF ++ dash) (drop (k + 4) U) = Some j ->
  let p := (v, take j (drop (k + 4) U)) in
  part_ok dash p /\ U = part_bytes dash p ++ drop (j + length (CRLF ++ dash)) (drop (k + 4) U).
Proof.
  intros v k j _ Hk Hv Hj p. apply header_value_spec in Hv as (Hv & Hne & Hs).
  pose proof (find_sub_split _ _ _ Hk) as [Hu Hku]. pose proof (find_sub_split _ _ _ Hj) as [Hw Hjw].
  change (length (CRLF ++ CRLF)) with 4%nat in Hu.
  assert (Hpre : (length CONTENT_TYPE_HEADER_PREFIX + length (as_bytes v) = k)%nat)
    by (by rewrite <- length_app, <- Hv).
  split.
  - split_and!; [done|done| |].
    + change (p.1) with v. apply (find_sub_at _ _ (drop (k + 4) U)).
      rewrite Hu, Hv, <- app_assoc, find_sub_prefix in Hk.
      destruct (find_sub _ (as_bytes v ++ _)) as [n|]; [|done]. cbn in Hk, Hpre.
      injection Hk. intros. f_equal. lia.
    + change (p.2) with (take j (drop (k + 4) U)). apply (find_sub_at _ _ (drop (j + length (CRLF ++ dash)) (drop (k + 4) U))).
      by rewrite <- Hw, Hjw.
  - unfold part_bytes. change (p.1) with v. change (p.2) with (take j (drop (k + 4) U)).
    rewrite <- Hv, <- !app_assoc. rewrite <- !app_assoc in Hw, Hu. by rewrite <- Hw.
Qed.

(** ... and the reading takes exactly that part off. *)
Lemma headers_part h p V : part_ok dash p ->
  (if starts_with (part_bytes dash p ++ V) CRLF then Err PartHeaderMalformed
   else match find_sub (CRLF ++ CRLF) (part_bytes dash p ++ V) with
        | None => Err UnexpectedEndOfStream
        | Some at_ =>
            match header_value (take at_ (part_bytes dash p ++ V)) with
            | None => Err PartHeaderMalformed
            | Some value => ref_payload dash h value [] (drop (at_ + 4) (part_bytes dash p ++ V))
            end
        end) = let! ps := ref_after h V in Ok (p :: ps).
Proof.
  destruct p as [v b]. intros (Hne & Hs & Hv & Hb). cbn [fst snd] in *.
  assert (Hf : find_sub (CRLF ++ CRLF) (part_bytes dash (v, b) ++ V) = Some (14 + length (as_bytes v))%nat).
  { unfold part_bytes. cbn [fst snd]. rewrite <- !app_assoc, find_sub_prefix.
    apply (find_sub_at _ _ (b ++ (CRLF ++ dash) ++ V)) in Hv. rewrite <- !app_assoc in Hv.
    by rewrite Hv. }
  change (starts_with (part_bytes dash (v, b) ++ V) CRLF) with false. cbn iota. rewrite Hf.
  assert (Hsplit : part_bytes dash (v, b) ++ V =
    (CONTENT_TYPE_HEADER_PREFIX ++ as_bytes v) ++ (CRLF ++ CRLF) ++ b ++ (CRLF ++ dash) ++ V).
  { unfold part_bytes. by rewrite <- !app_assoc. }
  assert (Hlen : length (CONTENT_TYPE_HEADER_PREFIX ++ as_bytes v) = (14 + length (as_bytes v))%nat)
    by (rewrite length_app; done).
  rewrite Hsplit, <- Hlen, take_app_length.
  rewrite (proj2 (header_value_spec _ v)) by done.
  rewrite <- drop_drop, drop_app_length, (drop_app_length (CRLF ++ CRLF) _ : drop 4 _ = _).
  unfold ref_payload. rewrite (proj2 (find_sub_at _ _ _) Hb).
  by rewrite <- drop_drop, drop_app_length, drop_app_length, take_app_length.
Qed.

Lemma headers_of_spec U ps : headers_of dash U = Ok ps <->
  ps <> [] /\ Forall (part_ok dash) ps /\ CRLF ++ U = framed_tail dash ps.
Proof.
  revert ps. induction U as [U IH] using (induction_ltof1 _ (@length Z)). unfold ltof in IH.
  assert (Hafter : forall V ps, (length V < length U)%nat -> ref_after (headers_of dash) V = Ok ps <->
            Forall (part_ok dash) ps /\ V = framed_tail dash ps).
  { intros V ps HV. apply ref_after_spec. intros W ps' HW. apply IH. lia. }
  intros ps. split.
  - rewrite headers_of_eq. destruct (starts_with U CRLF) eqn:E1; [done|].
    destruct (find_sub (CRLF ++ CRLF) U) as [k|] eqn:E2; [|done].
    destruct (header_value _) as [v|] eqn:E3; [|done]. unfold ref_payload.
    destruct (find_sub (CRLF ++ dash) _) as [j|] eqn:E4; [|done].
    destruct (headers_step U v k j E1 E2 E3 E4) as [Hok Hu].
    destruct (ref_after _ _) as [ps'|e|] eqn:E5; cbn [rbind]; [|done|done]. intros [= <-].
    apply Hafter in E5 as [Hps' E5].
    + split_and!; [done|by constructor|]. cbn [framed_tail]. by rewrite <- E5, <- Hu.
    + apply find_sub_bound in E2. change (length (CRLF ++ CRLF)) with 4%nat in E2.
      rewrite !length_drop. lia.
  - intros (Hne & Hps & E). destruct ps as [|p ps]; [done|]. inversion Hps as [|?? Hp Hps']; subst.
    cbn [framed_tail] in E. apply app_inv_head in E as ->.
    rewrite headers_of_eq, (headers_part (headers_of dash) p _ Hp).
    assert (Hlen : (length (framed_tail dash ps) < length (part_bytes dash p ++ framed_tail dash ps))%nat).
    { rewrite length_app. unfold part_bytes. rewrite !length_app. change (length CRLF) with 2%nat. lia. }
    by rewrite (proj2 (Hafter _ ps Hlen)).
Qed.
End Grammar.

(** The reading accepts exactly the framed bodies, and reads their parts back. *)
Lemma ref_body_spec dash U ps : ref_body dash U = Ok ps <->
  ps <> [] /\ Forall (part_ok dash) ps /\ U = framed dash ps.
Proof.
  unfold ref_body, framed. split.
  - destruct (starts_with U dash) eqn:E1; cbn [negb]; [|done].
    destruct (_ <? _)%nat; [done|].
    destruct (starts_with (drop _ U) CRLF) eqn:E2; cbn [negb]; [|done].
    intros (Hne & Hps & E)%headers_of_spec. split_and!; [done|done|].
    apply starts_with_spec in E1 as [r ->]. rewrite drop_app_length in E2.
    apply starts_with_spec in E2 as [r2 ->]. rewrite <- E. rewrite <- drop_drop, drop_app_length. done.
  - intros (Hne & Hps & ->). rewrite starts_with_app. cbn [negb].
    destruct ps as [|p ps]; [done|]. cbn [framed_tail].
    rewrite (proj2 (Nat.ltb_ge _ _)) by (rewrite !length_app; cbn; lia).
    rewrite <- drop_drop, drop_app_length, starts_with_app. cbn [negb].
    rewrite (drop_app_length CRLF _ : drop 2 _ = _). by apply headers_of_spec.
Qed.

(** * The tokenizer against the reading *)

#[export] Instance slice_lawful : LawfulSource (list Z).
Proof.
  intros s n Hn. simpl. rewrite take_drop, length_take. split_and!; [done|lia|].
  destruct s, n; done || lia.
Qed.

Lemma ascii_bound t : forallb (fun c => in_range 0 c 0x7F) t = true -> Forall (fun c => 0 <= c <= 0x7F) t.
Proof.
  rewrite forallb_forall. intros Ht. apply Forall_forall. intros c Hc%list_elem_of_In.
  specialize (Ht c Hc). by unrange.
Qed.

Lemma boundary_char_ascii c : boundary_char c = true -> 0 <= c <= 0x7F.
Proof.
  unfold boundary_char. intros [E|E]%orb_true_iff.
  - unfold is_alphanumeric, is_digit in E. rewrite !orb_true_iff in E. destruct E as [[E|E]|E]; unrange; lia.
  - apply existsb_exists in E as (x & Hx & ->%Z.eqb_eq).
    pose proof (ascii_bound (lit "'()+_,.:=?-") eq_refl) as Hb. rewrite Forall_forall in Hb.
    apply Hb. by apply list_elem_of_In.
Qed.

(** A validated header pins its boundary's length. *)
Lemma validated_boundary header f : Forall is_scalar header ->
  validate_content_type header = Ok f ->
  header = lit "multipart/related; boundary=" ++ boundary f /\
  (1 <= length (as_bytes (boundary f)) <= 70)%nat.
Proof.
  intros Hs Hv. unfold validate_content_type, ContentType_parse, text_parse in Hv.
  destruct (content_type_grammar header) eqn:E; [|done]. cbn [map_err rbind] in Hv.
  injection Hv as <-. cbn [boundary]. unfold content_type_grammar in E.
  destruct (_ || _) eqn:E1; [done|]. apply orb_false_iff in E1 as [_ E1].
  apply negb_false_iff, starts_with_spec in E1 as [r Hr]. rewrite Hr, drop_app_length in E.
  rewrite !andb_true_iff in E. destruct E as [[E1 E2] E3]. apply Nat.leb_le in E1, E2.
  assert (Hr' : Forall (fun c => 0 <= c <= 0x7F) r).
  { apply Forall_forall. intros c Hc. rewrite forallb_forall in E3. apply boundary_char_ascii, E3.
    by apply list_elem_of_In. }
  assert (Hh : header = content_type_prefix ++ r).
  { apply as_bytes_inj; [done| |].
    - apply Forall_app. split; [by apply ascii_scalar|]. eapply Forall_impl; [done|].
      unfold is_scalar. simpl. lia.
    - rewrite Hr. symmetry. apply as_bytes_ascii. apply Forall_app. split; [|done].
      apply ascii_bound. done. }
  rewrite Hh. rewrite (drop_app_length content_type_prefix r : drop 28 _ = r). split; [done|].
  rewrite as_bytes_ascii by done. lia.
Qed.

Section Tokenize.
Context {S : Type} `{LawfulSource S}.

Lemma new_inv f (src : S) : (length (as_bytes (boundary f)) <= 70)%nat ->
  tokenizer_inv (DASHES ++ as_bytes (boundary f)) (length (remaining src)) (tokenizer_new f src).
Proof. intros Hb. constructor; simpl; try done; unfold FRAMING_WINDOW_BYTES; lia. Qed.

Lemma tokenize_sim f (src : S) : (length (as_bytes (boundary f)) <= 70)%nat ->
  match tokenize f src with
  | Ok es => ref_body (DASHES ++ as_bytes (boundary f)) (remaining src) = Ok (parts_of es)
  | Err (SourceRead _) => True
  | Err e => ref_body (DASHES ++ as_bytes (boundary f)) (remaining src) = Err e \/
             (e = PartHeaderMalformed /\ (FRAMING_WINDOW_BYTES <= length (remaining src))%nat)
  | OutOfFuel => False
  end.
Proof.
  intros Hb. pose proof (drain_sim _ _ (3 + 2 * length (remaining src)) (tokenizer_new f src)
    ([], []) (new_inv f src Hb)) as Hd.
  apply Hd. unfold weight, unread. simpl. lia.
Qed.
End Tokenize.

(** * Theorems *)

Section Theorems.
Context {S : Type} `{LawfulSource S}.

(** The delimiter line's dash-boundary of a validated request. *)
Definition request_dash (f : RequestFraming) : list Z := DASHES ++ as_bytes (boundary f).

(** C35: Under a validated Content-Type, over any source that keeps the
    [ByteSource] contract however it splits the body, the windowed tokenizer
    agrees with the reading of the whole body: it yields events whose parts are
    the parts read, or the very error of the reading; it always returns.  The
    one exception: a body of at least one window can be refused as
    [PartHeaderMalformed]. *)
Theorem framing_tokenizer_refines header f (src : S) :
  Forall is_scalar header -> validate_content_type header = Ok f ->
  match tokenize f src with
  | Ok es => ref_body (request_dash f) (remaining src) = Ok (parts_of es)
  | Err (SourceRead _) => True
  | Err e => ref_body (request_dash f) (remaining src) = Err e \/
             (e = PartHeaderMalformed /\ (FRAMING_WINDOW_BYTES <= length (remaining src))%nat)
  | OutOfFuel => False
  end.
Proof. intros Hs [_ [_ Hb]]%validated_boundary; [|done]. by apply tokenize_sim. Qed.

(** What the tokenizer accepts is byte for byte the pinned framing of the
    parts it yields, one or more, each with one non-empty UTF-8 content type
    and a payload that ends at the first delimiter; and every such body smaller
    than the window is accepted with exactly its parts, unless the source fails. *)
Theorem framing_exact header f (src : S) :
  Forall is_scalar header -> validate_content_type header = Ok f ->
  (forall es, tokenize f src = Ok es ->
     parts_of es <> [] /\ Forall (part_ok (request_dash f)) (parts_of es) /\
     remaining src = framed (request_dash f) (parts_of es)) /\
  (forall ps, ps <> [] -> Forall (part_ok (request_dash f)) ps ->
     remaining src = framed (request_dash f) ps ->
     (length (remaining src) < FRAMING_WINDOW_BYTES)%nat ->
     (exists es, tokenize f src = Ok es /\ parts_of es = ps) \/
     exists kind, tokenize f src = Err (SourceRead kind)).
Proof.
  intros Hs [_ [_ Hb]]%validated_boundary; [|done].
  pose proof (tokenize_sim f src Hb) as Ht. fold (request_dash f) in Ht. split.
  - intros es E. rewrite E in Ht. by apply ref_body_spec.
  - intros ps Hne Hps Hr Hlen.
    pose proof (proj2 (ref_body_spec _ _ ps) (conj Hne (conj Hps Hr))) as Href. rewrite Href in Ht.
    destruct (tokenize f src) as [es|e|]; [|destruct e; naive_solver lia|done].
    left. exists es. split; [done|]. by injection Ht.
Qed.

(** The tokenizers a consumer of events can hold. *)
Inductive tokenizing (f : RequestFraming) (src : S) : FramingTokenizer S -> Prop :=
| tokenizing_new : tokenizing f src (tokenizer_new f src)
| tokenizing_event t e t' : tokenizing f src t -> next_event t = Ok (Some e, t') ->
    tokenizing f src t'.

Lemma tokenizing_inv f src t : (length (as_bytes (boundary f)) <= 70)%nat -> tokenizing f src t ->
  tokenizer_inv (request_dash f) (length (remaining src)) t.
Proof.
  intros Hb. induction 1 as [|t e t' _ IH E]; [by apply new_inv|].
  pose proof (next_event_sim _ _ t IH ([], [])) as Hn. rewrite E in Hn. apply Hn.
Qed.

(** Whatever the size of the body and however the source splits it, at
    every event the tokenizer holds at most one window of bytes (VAL-008), its
    delimiter fits the retention bound, and the next call to [next_event]
    terminates. *)
Theorem framing_window_bounded header f (src : S) t :
  Forall is_scalar header -> validate_content_type header = Ok f -> tokenizing f src t ->
  (length (window t) <= FRAMING_WINDOW_BYTES)%nat /\ (pos t <= length (window t))%nat /\
  (length (payload_delimiter t) < DELIMITER_MAX_BYTES)%nat /\ next_event t <> OutOfFuel.
Proof.
  intros Hs [_ [_ Hb]]%validated_boundary Ht; [|done]. apply tokenizing_inv in Ht; [|done].
  pose proof (next_event_sim _ _ t Ht ([], [])) as Hn.
  destruct Ht as [_ Hd Hs72 Hpos Hw _]. split_and!; [done|done| |].
  - rewrite Hd, length_app. change (length CRLF) with 2%nat. unfold DELIMITER_MAX_BYTES. lia.
  - intros E. by rewrite E in Hn.
Qed.
End Theorems.

(** The body of the conformance tests' shape: an envelope and a payload. *)
Definition sample_header : list Z := lit "multipart/related; boundary=B".
Definition sample_framing : RequestFraming := mkFraming (lit "B").
Definition sample_parts : list Part :=
  [(lit "application/json", lit "{}"); (lit "application/octet-stream", [13; 10; 45; 45; 65])].
Definition sample_body : list Z := framed (request_dash sample_framing) sample_parts.

Lemma sample_request_valid : Forall is_scalar sample_header /\
  validate_content_type sample_header = Ok sample_framing.
Proof. split; [by apply ascii_scalar|]. vm_compute. reflexivity. Qed.

Lemma framing_tokenizer_refines_witness :
  ref_body (request_dash sample_framing) sample_body = Ok sample_parts.
Proof.
  pose proof (framing_tokenizer_refines sample_header sample_framing sample_body
    (proj1 sample_request_valid) (proj2 sample_request_valid)) as Ht.
  vm_compute in Ht. vm_compute. exact Ht.
Defined.

(** Decide [part_ok] of literal parts by evaluation. *)
Ltac parts_ok :=
  repeat (apply Forall_cons; split;
    [split; [discriminate|split; [apply ascii_scalar|split]; vm_compute; reflexivity]|]);
  apply Forall_nil; exact I.

Lemma sample_parts_ok : Forall (part_ok (request_dash sample_framing)) sample_parts.
Proof.
  parts_ok.
Qed.

Lemma framing_exact_witness :
  (exists es, tokenize sample_framing sample_body = Ok es /\ parts_of es = sample_parts) \/
  exists kind, tokenize sample_framing sample_body = Err (SourceRead kind).
Proof.
  apply (proj2 (framing_exact sample_header sample_framing sample_body
    (proj1 sample_request_valid) (proj2 sample_request_valid)) sample_parts).
  - discriminate.
  - exact sample_parts_ok.
  - reflexivity.
  - apply Nat.ltb_lt. vm_compute. reflexivity.
Defined.

Lemma framing_window_bounded_witness :
  (length (window (tokenizer_new sample_framing sample_body)) <= FRAMING_WINDOW_BYTES)%nat.
Proof.
  exact (proj1 (framing_window_bounded sample_header sample_framing sample_body _
    (proj1 sample_request_valid) (proj2 sample_request_valid) (tokenizing_new _ _))).
Defined.

(** A body larger than the window whose second header block straddles the
    window's end. *)
Definition straddling_parts : list Part :=
  [(lit "application/json", replicate 8132 65); (lit "application/zstd", [])].

(** The exception is real: a correctly framed body of two parts with short
    headers is refused as [PartHeaderMalformed] when its second header block
    straddles the end of a full window, because the [Headers] stage looks at
    the window's length before it drops the consumed bytes. *)
Theorem straddling_header_refused :
  Forall (part_ok (request_dash sample_framing)) straddling_parts /\
  tokenize sample_framing (framed (request_dash sample_framing) straddling_parts)
    = Err PartHeaderMalformed.
Proof.
  split; [|vm_compute; reflexivity].
  parts_ok.
Qed.
