(* ===== verification/Ingest.v ===== *)
(** The ingest request parser over the framing tokenizer
    ([crates/archivist-server/src/parse/parts.rs] and [parse/ingest.rs]): the
    two-part policy, the streaming payload reader, the composition with the
    envelope parser, and the message of every rejection.

    A loop over events gets as fuel the number of events the unread bytes can
    still give ([Framing.weight]). *)

From S2P Require Import Prelude Text Json JsonFacts Sha256 Vocabulary Records Framing.
From S2P Require Envelope.

Definition ENVELOPE_PART_MEDIA_TYPE : list Z :=
  lit "application/vnd.agent-archivist.envelope+json;version=1".
Definition DEFAULT_ENVELOPE_MAX_BYTES : Z := 65536.

Inductive TwoPartError :=
| EnvelopeNotFirst
| EnvelopeExceedsCap (limit_bytes : Z)
| PayloadPartMissing
| TrailingPart
| TFraming (e : FramingError).

(** [TwoPartError::code]. *)
Definition two_part_code (e : TwoPartError) : list Z :=
  match e with
  | EnvelopeExceedsCap _ => lit "envelope.size_exceeded"
  | EnvelopeNotFirst => lit "envelope.media_type_unsupported"
  | PayloadPartMissing | TrailingPart | TFraming _ => lit "request.framing_invalid"
  end.

Record TwoPartRequest (S : Type) := mkRequest { tokenizer : FramingTokenizer S; envelope_cap : Z }.
Arguments mkRequest {S} _ _.
Arguments tokenizer {S} _.
Arguments envelope_cap {S} _.

Record PayloadStream (S : Type) := mkStream
  { stream_tokenizer : FramingTokenizer S;
    remainder : list Z;
    remainder_pos : nat;
    media_type : list Z;
    ended : bool }.
Arguments mkStream {S} _ _ _ _ _.
Arguments stream_tokenizer {S} _.
Arguments remainder {S} _.
Arguments remainder_pos {S} _.
Arguments media_type {S} _.
Arguments ended {S} _.

(** The [io::Error] kinds [read] reports. *)
Inductive ReadError := UnexpectedEof | InvalidData | ReadKind (kind : ErrorKind).

Section Parts.
Context {S : Type} `{ByteSource S}.

Abbreviation split := (result TwoPartError).

Definition with_envelope_cap (f : RequestFraming) (src : S) (cap : Z) : TwoPartRequest S :=
  mkRequest (tokenizer_new f src) cap.

(** [TwoPartRequest::new]. *)
Definition request_new (f : RequestFraming) (src : S) : TwoPartRequest S :=
  with_envelope_cap f src DEFAULT_ENVELOPE_MAX_BYTES.

(** [self.tokenizer.next_event()?]. *)
Definition event (t : FramingTokenizer S) : split (option FramingEvent * FramingTokenizer S) :=
  map_err TFraming (next_event t).

(** The two catch-all arms. *)
Definition unexpected (e : option FramingEvent) : TwoPartError :=
  match e with Some _ => TFraming MalformedDelimiter | None => TFraming UnexpectedEndOfStream end.

Fixpoint envelope_loop (fuel : nat) (cap : Z) (t : FramingTokenizer S) (bytes : list Z)
    : split (list Z * FramingTokenizer S) :=
  match fuel with
  | O => OutOfFuel
  | Datatypes.S fuel' =>
      let! '(e, t) := event t in
      match e with
      | Some (Payload run) =>
          if cap <? zlen bytes + zlen run then Err (EnvelopeExceedsCap cap)
          else envelope_loop fuel' cap t (bytes ++ run)
      | Some PartEnded => Ok (bytes, t)
      | e => Err (unexpected e)
      end
  end.

(** [TwoPartRequest::envelope]. *)
Definition envelope (r : TwoPartRequest S) : split (list Z * TwoPartRequest S) :=
  let! '(e, t) := event (tokenizer r) in
  match e with
  | Some PartStarted =>
      let! '(e, t) := event t in
      match e with
      | Some (PartContentType mt) =>
          if bool_decide (mt = ENVELOPE_PART_MEDIA_TYPE) then
            let! '(bytes, t) := envelope_loop (Datatypes.S (weight t)) (envelope_cap r) t [] in
            Ok (bytes, mkRequest t (envelope_cap r))
          else Err EnvelopeNotFirst
      | e => Err (unexpected e)
      end
  | e => Err (unexpected e)
  end.

(** [TwoPartRequest::payload]. *)
Definition payload (r : TwoPartRequest S) : split (PayloadStream S) :=
  let! '(e, t) := event (tokenizer r) in
  match e with
  | Some PartStarted =>
      let! '(e, t) := event t in
      match e with
      | Some (PartContentType mt) => Ok (mkStream t [] 0 mt false)
      | e => Err (unexpected e)
      end
  | Some EndOfParts => Err PayloadPartMissing
  | e => Err (unexpected e)
  end.

(** [PayloadStream::buffered_bytes]. *)
Definition buffered_bytes (p : PayloadStream S) : nat :=
  (length (window (stream_tokenizer p)) + length (remainder p) - remainder_pos p)%nat.

Fixpoint read_loop (fuel : nat) (p : PayloadStream S) (n : nat)
    : result ReadError (list Z * PayloadStream S) :=
  match fuel with
  | O => OutOfFuel
  | Datatypes.S fuel' =>
      match next_event (stream_tokenizer p) with
      | Ok (Some (Payload run), t) =>
          match run with
          | [] => read_loop fuel' (mkStream t (remainder p) (remainder_pos p) (media_type p) (ended p)) n
          | _ =>
              let k := Nat.min (length run) n in
              Ok (take k run,
                  if (k <? length run)%nat then mkStream t (drop k run) 0 (media_type p) (ended p)
                  else mkStream t (remainder p) (remainder_pos p) (media_type p) (ended p))
          end
      | Ok (Some PartEnded, t) =>
          Ok ([], mkStream t (remainder p) (remainder_pos p) (media_type p) true)
      | Ok (Some _, t) =>
          read_loop fuel' (mkStream t (remainder p) (remainder_pos p) (media_type p) (ended p)) n
      | Ok (None, _) => Err UnexpectedEof
      | Err (SourceRead kind) => Err (ReadKind kind)
      | Err UnexpectedEndOfStream => Err UnexpectedEof
      | Err _ => Err InvalidData
      | OutOfFuel => OutOfFuel
      end
  end.

(** [impl Read for PayloadStream], into a buffer of [n] bytes. *)
Definition read (p : PayloadStream S) (n : nat) : result ReadError (list Z * PayloadStream S) :=
  if (n =? 0)%nat || ended p then Ok ([], p)
  else if (remainder_pos p <? length (remainder p))%nat then
    let unread := drop (remainder_pos p) (remainder p) in
    let k := Nat.min (length unread) n in
    Ok (take k unread,
        mkStream (stream_tokenizer p) (remainder p) (remainder_pos p + k) (media_type p) (ended p))
  else read_loop (Datatypes.S (weight (stream_tokenizer p))) p n.

(** The draining loop of [finish]. *)
Fixpoint skip_payload (fuel : nat) (t : FramingTokenizer S) : split (FramingTokenizer S) :=
  match fuel with
  | O => OutOfFuel
  | Datatypes.S fuel' =>
      let! '(e, t) := event t in
      match e with
      | Some (Payload _) => skip_payload fuel' t
      | Some PartEnded => Ok t
      | e => Err (unexpected e)
      end
  end.

(** The end of [finish]. *)
Definition close (t : FramingTokenizer S) : split unit :=
  let! '(e, t) := event t in
  match e with
  | Some EndOfParts =>
      let! '(e, t) := event t in
      match e with None => Ok tt | Some _ => Err TrailingPart end
  | Some PartStarted | Some (PartContentType _) => Err TrailingPart
  | Some (Payload _) | Some PartEnded | None => Err (TFraming MalformedDelimiter)
  end.

Definition finish (p : PayloadStream S) : split unit :=
  let! t := if ended p then Ok (stream_tokenizer p)
            else skip_payload (Datatypes.S (weight (stream_tokenizer p))) (stream_tokenizer p) in
  close t.

(** * Composition with the envelope parser *)

Inductive IngestParseError :=
| IFraming (e : TwoPartError)
| IEnvelope (e : Envelope.EnvelopeError).

Record IngestRejection := mkRejection { error : IngestParseError; rejected_request_id : option (list Z) }.

Definition ok {E A} (r : result E A) : option A := match r with Ok a => Some a | _ => None end.

Definition envelope_request_id (part_one : list Z) : option (list Z) :=
  v ← ok (Json.parse part_one);
  match v with
  | VObject o =>
      match object_get o (lit "request_id") with
      | Some (VText t) => ok (RequestId_parse t)
      | _ => None
      end
  | _ => None
  end.

Definition parse_ingest_with_cap (f : RequestFraming) (src : S) (cap : Z)
    : result IngestRejection (Envelope.Envelope * PayloadStream S) :=
  let! '(part_one, request) :=
    map_err (fun e => mkRejection (IFraming e) None) (envelope (with_envelope_cap f src cap)) in
  let! env :=
    map_err (fun e => mkRejection (IEnvelope e) (envelope_request_id part_one))
      (Envelope.Envelope_parse part_one) in
  let! stream := map_err (fun e => mkRejection (IFraming e) None) (payload request) in
  Ok (env, stream).

Definition parse_ingest (f : RequestFraming) (src : S)
    : result IngestRejection (Envelope.Envelope * PayloadStream S) :=
  parse_ingest_with_cap f src DEFAULT_ENVELOPE_MAX_BYTES.

(** A consumer of the stream: one [read] per buffer size. *)
Fixpoint reads (p : PayloadStream S) (ns : list nat) : result ReadError (list Z * PayloadStream S) :=
  match ns with
  | [] => Ok ([], p)
  | n :: ns =>
      let! '(chunk, p) := read p n in
      let! '(rest, p) := reads p ns in
      Ok (chunk ++ rest, p)
  end.

(** A whole request: parse, read the payload, verify the close. *)
Inductive RequestError :=
| Rejected (r : IngestRejection)
| ReadFailed (e : ReadError)
| NotClosed (e : TwoPartError).

Definition take_request (f : RequestFraming) (src : S) (cap : Z) (ns : list nat)
    : result RequestError (Envelope.Envelope * list Z * list Z) :=
  let! '(env, stream) := map_err Rejected (parse_ingest_with_cap f src cap) in
  let! '(bytes, stream) := map_err ReadFailed (reads stream ns) in
  let! _ := map_err NotClosed (finish stream) in
  Ok (env, media_type stream, bytes).
End Parts.

(** * The wire rendering of a rejection *)

Definition MESSAGE_REQUEST_FRAMING_INVALID : list Z :=
  lit "The request is not the pinned two-part multipart/related framing; send the identical bytes the signature covered.".
Definition MESSAGE_ENVELOPE_MALFORMED : list Z :=
  lit "The request envelope is not valid canonical JSON for the declared schema version.".
Definition TEMPLATE_ENVELOPE_VERSION_UNSUPPORTED : list Z :=
  lit "Envelope schema version {version} is not supported by this server.".
Definition TEMPLATE_ENVELOPE_SCHEMA_INVALID : list Z :=
  lit "The envelope fails schema validation at field {field}.".
Definition TEMPLATE_ENVELOPE_SIZE_EXCEEDED : list Z :=
  lit "The canonical envelope exceeds the {limit_bytes} byte limit.".
Definition TEMPLATE_ENVELOPE_MEDIA_TYPE_UNSUPPORTED : list Z :=
  lit "Media type {media_type} is not accepted; this path accepts {expected_media_type}.".

(** [str::replace] of a non-empty pattern: each turn passes one occurrence. *)
Fixpoint replace_loop (fuel : nat) (pattern by_ text : list Z) : list Z :=
  match fuel with
  | O => text
  | S fuel' =>
      match find_sub pattern text with
      | None => text
      | Some at_ => take at_ text ++ by_ ++ replace_loop fuel' pattern by_ (drop (at_ + length pattern) text)
      end
  end.

Definition replace (text pattern by_ : list Z) : list Z := replace_loop (length text) pattern by_ text.

Definition render_version (found : Z) : list Z :=
  let text := i64_to_string found in
  if (length text <=? 32)%nat &&
     forallb (fun b => is_lowercase b || in_range 65 b 90 || is_digit b || one_of b (lit "._+-")) text
  then text else lit "[version]".

Definition render_field (field : list Z) : list Z :=
  let raw := as_bytes field in
  if negb (length raw =? 0)%nat && (length raw <=? 64)%nat &&
     forallb (fun b => is_lowercase b || is_digit b || one_of b (lit "_.-")) raw
  then field else lit "[field]".

Definition render_bytes (limit : Z) : list Z :=
  if limit <=? I64_MAX then i64_to_string limit else lit "[limit_bytes]".

(** [IngestParseError::code] and [IngestParseError::message]: an error is a
    panic of [expect]. *)
Definition ingest_code (e : IngestParseError) : result GrammarError (list Z) :=
  ErrorCode_parse
    match e with IFraming e => two_part_code e | IEnvelope e => Envelope.error_code e end.

Definition message (e : IngestParseError) : result GrammarError (list Z) :=
  SafeMessage_parse
    match e with
    | IFraming EnvelopeNotFirst =>
        replace (replace TEMPLATE_ENVELOPE_MEDIA_TYPE_UNSUPPORTED (lit "{media_type}") (lit "[media_type]"))
          (lit "{expected_media_type}") (lit "[expected_media_type]")
    | IFraming (EnvelopeExceedsCap limit) =>
        replace TEMPLATE_ENVELOPE_SIZE_EXCEEDED (lit "{limit_bytes}") (render_bytes limit)
    | IFraming _ => MESSAGE_REQUEST_FRAMING_INVALID
    | IEnvelope (Envelope.EnvelopeMalformed _) => MESSAGE_ENVELOPE_MALFORMED
    | IEnvelope (Envelope.VersionUnsupported _ found) =>
        replace TEMPLATE_ENVELOPE_VERSION_UNSUPPORTED (lit "{version}") (render_version found)
    | IEnvelope (Envelope.SchemaInvalid field) =>
        replace TEMPLATE_ENVELOPE_SCHEMA_INVALID (lit "{field}") (render_field field)
    | IEnvelope (Envelope.SizeExceeded limit) =>
        replace TEMPLATE_ENVELOPE_SIZE_EXCEEDED (lit "{limit_bytes}") (render_bytes limit)
    end.

(** * The events of each stage *)

(** The event a stage gives, and the stages it leads to. *)
Definition follows (st : Stage) (e : option FramingEvent) (st' : Stage) : Prop :=
  match st with
  | Opening | NextPartOpening => e = Some PartStarted /\ st' = Headers
  | Headers => (exists v, e = Some (PartContentType v)) /\ st' = InPayload
  | InPayload => (exists b, e = Some (Payload b) /\ (length b <= FRAMING_WINDOW_BYTES)%nat) /\
                 (st' = InPayload \/ st' = AfterBoundary)
  | AfterBoundary => e = Some PartEnded /\ (st' = NextPartOpening \/ st' = AfterClose)
  | ClosingPart => e = Some PartEnded /\ st' = AfterClose
  | AfterClose => e = Some EndOfParts /\ st' = Done
  | Done => e = None /\ st' = Done
  end.

Section Policy.
Context {S : Type} `{LawfulSource S}.
Implicit Type t : FramingTokenizer S.
Implicit Type p : PayloadStream S.

Lemma fill_stage t n t' : fill t = Ok (n, t') -> stage t' = stage t.
Proof.
  unfold fill. destruct (_ <=? _)%nat; [by intros [= <- <-]|].
  destruct (pull _ _) as [[?|?|] ?]; intros E; by simplify_eq.
Qed.

Definition turn_follows t (r : turn_result (S:=S)) : Prop :=
  match r with
  | Again t' => stage t' = stage t \/ stage t = AfterBoundary /\ stage t' = ClosingPart
  | Return e t' => follows (stage t) e (stage t')
  end.

Lemma refill_follows t at_end r : refill t at_end = Ok r -> turn_follows t r.
Proof.
  unfold refill. destruct (fill t) as [[n t']|?|] eqn:E; cbn [rbind]; [|done|done].
  case_match; [done|]. intros [= <-]. left. by eapply fill_stage.
Qed.

Lemma turn_follows_ok dash N t r : tokenizer_inv dash N t -> turn t = Ok r -> turn_follows t r.
Proof.
  intros Hi. assert (Hw : (length (live_bytes t) <= FRAMING_WINDOW_BYTES)%nat).
  { unfold live_bytes. rewrite length_drop. pose proof (ti_window _ _ _ Hi). lia. }
  unfold turn. destruct (stage t) eqn:Hst;
    unfold turn_opening, turn_headers, turn_payload, turn_after_boundary, turn_after_close, turn_done;
    repeat case_match; cbn [rbind]; intros E;
    try (exact (refill_follows _ _ _ E)); simplify_eq; unfold turn_follows; rewrite ?Hst;
    cbn [stage consume follows]; try (by eauto).
  - split; [|by right]. eexists. split; [done|]. rewrite length_take. lia.
  - split; [|by left]. eexists. split; [done|]. rewrite length_take. lia.
  - destruct (fill t) as [[n t']|?|] eqn:E'; cbn [rbind] in E; [|done|done].
    case_match; [done|]. simplify_eq. split; [done|].
    by rewrite (fill_stage _ _ _ E').
Qed.

Lemma event_loop_follows dash N fuel t e t' : tokenizer_inv dash N t ->
  event_loop fuel t = Ok (e, t') -> follows (stage t) e (stage t').
Proof.
  revert t. induction fuel as [|fuel IH]; intros t Hi; cbn [event_loop]; [done|].
  pose proof (turn_sim dash N t Hi ([], [])) as Hs.
  pose proof (turn_follows_ok dash N t) as Hf.
  destruct (turn t) as [[t1|e1 t1]|?|]; cbn [rbind]; [| |done|done].
  - destruct (Hf _ Hi eq_refl) as [Hst|[Hst Hst']]; intros E; apply IH in E; try apply Hs.
    + by rewrite <- Hst.
    + rewrite Hst' in E. rewrite Hst. destruct E as [-> ->]. split; [done|by right].
  - intros [= <- <-]. by apply (Hf _ Hi eq_refl).
Qed.

(** Why a framing error is not held against the tokenizer: the source failed,
    or the body reaches the window's size, or the unread bytes are not the rest
    of a framed body. *)
Definition excused (dash : list Z) (N : nat) (e : FramingError) t (cur : Part) : Prop :=
  (exists kind, e = SourceRead kind) \/ (FRAMING_WINDOW_BYTES <= N)%nat \/
  forall ps, expected dash (stage t) cur (unread t) <> Ok ps.

(** One call of [next_event], for the policy above it. *)
Lemma event_spec dash N t cur : tokenizer_inv dash N t ->
  match next_event t with
  | Ok (e, t') =>
      follows (stage t) e (stage t') /\
      (e <> None -> tokenizer_inv dash N t' /\ (weight t' < weight t)%nat) /\
      expected dash (stage t) cur (unread t) =
        match e with
        | None => Ok []
        | Some (PartContentType v) => expected dash (stage t') (v, []) (unread t')
        | Some (Payload b) => expected dash (stage t') (cur.1, cur.2 ++ b) (unread t')
        | Some PartEnded => let! ps := expected dash (stage t') ([], []) (unread t') in Ok (cur :: ps)
        | Some _ => expected dash (stage t') ([], []) (unread t')
        end
  | Err e => excused dash N e t cur
  | OutOfFuel => False
  end.
Proof.
  intros Hi. pose proof (next_event_sim dash N t Hi cur) as Hs.
  destruct (next_event t) as [[e t']|e|] eqn:E; [| |done].
  - split; [by eapply event_loop_follows|]. destruct e as [e|]; [|done].
    destruct Hs as (Hi' & Hexp & Hw). split; [|by destruct e]. intros _. split; [done|].
    unfold weight. destruct Hw as [Hw|(Hw & [[-> ->]|[-> ->]])]; [|lia|lia].
    destruct (stage t), (stage t'); lia.
  - unfold excused. destruct e; try (by left; eauto); destruct Hs as [Hs|[_ Hs]]; auto;
      right; right; intros ps; by rewrite Hs.
Qed.

(** Inside a part, and after its end. *)
Abbreviation in_part st := (st = InPayload \/ st = AfterBoundary).
Abbreviation part_done st := (st = NextPartOpening \/ st = AfterClose).

(** The part in progress stays the first of the parts to come. *)
Lemma expected_head dash st v q U ps : in_part st -> expected dash st (v, q) U = Ok ps ->
  exists q' ps', ps = (v, q ++ q') :: ps'.
Proof.
  intros [-> | ->]; cbn [expected]; unfold ref_payload; cbn [fst snd].
  - case_match; [|done]. destruct (ref_after _ _); cbn [rbind]; intros E; simplify_eq. eauto.
  - destruct (ref_after _ _); cbn [rbind]; intros E; simplify_eq. exists []. rewrite app_nil_r. eauto.
Qed.

Lemma excused_ext dash N e t cur t' cur' :
  expected dash (stage t) cur (unread t) = expected dash (stage t') cur' (unread t') ->
  excused dash N e t' cur' -> excused dash N e t cur.
Proof. unfold excused. by intros ->. Qed.

Lemma envelope_loop_spec dash N cap v fuel t bytes : tokenizer_inv dash N t -> in_part (stage t) ->
  (weight t < fuel)%nat -> zlen bytes <= cap ->
  match envelope_loop fuel cap t bytes with
  | Ok (bytes', t') =>
      tokenizer_inv dash N t' /\ part_done (stage t') /\ zlen bytes' <= cap /\
      expected dash (stage t) (v, bytes) (unread t) =
        (let! ps := expected dash (stage t') ([], []) (unread t') in Ok ((v, bytes') :: ps))
  | Err e =>
      (e = EnvelopeExceedsCap cap /\ forall ps, expected dash (stage t) (v, bytes) (unread t) = Ok ps ->
         exists q ps', ps = (v, q) :: ps' /\ cap < zlen q) \/
      exists e', e = TFraming e' /\ excused dash N e' t (v, bytes)
  | OutOfFuel => False
  end.
Proof.
  revert t bytes. induction fuel as [|fuel IH]; intros t bytes Hi Hst Hw Hcap; [lia|].
  cbn [envelope_loop]. unfold event. pose proof (event_spec dash N t (v, bytes) Hi) as He.
  destruct (next_event t) as [[e t']|e|]; cbn [map_err rbind]; [|by eauto|done].
  destruct He as (Hf & Hi' & Hexp). destruct Hst as [Hst|Hst]; rewrite Hst in Hf.
  - destruct Hf as [(b & -> & _) Hst']. destruct (Hi' ltac:(done)) as [Hi'' Hw'].
    cbn [fst snd] in Hexp. destruct (cap <? zlen bytes + zlen b) eqn:Ec.
    + left. split; [done|]. intros ps. rewrite Hexp. intros (q' & ps' & ->)%expected_head; [|done].
      exists ((bytes ++ b) ++ q'), ps'. split; [done|]. unfold zlen in *. rewrite !length_app. lia.
    + specialize (IH t' (bytes ++ b) Hi'' Hst' ltac:(lia)).
      specialize (IH ltac:(unfold zlen in *; rewrite length_app; lia)). rewrite Hexp. destruct (envelope_loop _ _ _ _) as [[b' t'']|e|]; [done| |done].
      destruct IH as [IH|(e' & -> & IH)]; [by left|right]. exists e'. split; [done|].
      by eapply excused_ext.
  - destruct Hf as [-> Hst']. destruct (Hi' ltac:(done)) as [Hi'' _]. done.
Qed.

(** What the whole body says about a two-part error of the head of a request. *)
Definition head_excused (dash : list Z) (N : nat) (cap : Z) (e : TwoPartError)
    (whole : result FramingError (list Part)) : Prop :=
  match e with
  | TFraming e => (exists kind, e = SourceRead kind) \/ (FRAMING_WINDOW_BYTES <= N)%nat \/
                  forall ps, whole <> Ok ps
  | EnvelopeNotFirst => forall ps, whole = Ok ps ->
      exists v q ps', ps = (v, q) :: ps' /\ v <> ENVELOPE_PART_MEDIA_TYPE
  | EnvelopeExceedsCap c => c = cap /\ forall ps, whole = Ok ps ->
      exists v q ps', ps = (v, q) :: ps' /\ cap < zlen q
  | PayloadPartMissing => forall ps, whole = Ok ps -> exists only, ps = [only]
  | TrailingPart => False
  end.

Lemma envelope_spec dash N cap t : tokenizer_inv dash N t -> stage t = Opening -> 0 <= cap ->
  match envelope (mkRequest t cap) with
  | Ok (bytes, r) =>
      tokenizer_inv dash N (tokenizer r) /\ part_done (stage (tokenizer r)) /\ zlen bytes <= cap /\
      expected dash Opening ([], []) (unread t) =
        (let! ps := expected dash (stage (tokenizer r)) ([], []) (unread (tokenizer r)) in
         Ok ((ENVELOPE_PART_MEDIA_TYPE, bytes) :: ps))
  | Err e => head_excused dash N cap e (expected dash Opening ([], []) (unread t))
  | OutOfFuel => False
  end.
Proof.
  intros Hi Hst Hcap. unfold envelope, event. cbn [tokenizer envelope_cap].
  pose proof (event_spec dash N t ([], []) Hi) as He. rewrite Hst in He. unfold excused in He.
  rewrite Hst in He.
  destruct (next_event t) as [[e t1]|e|]; cbn [map_err rbind]; [|exact He|done].
  destruct He as ([-> Hst1] & Hi1 & ->). destruct (Hi1 ltac:(done)) as [Hj1 _].
  pose proof (event_spec dash N t1 ([], []) Hj1) as He. unfold excused in He. rewrite Hst1 in *.
  destruct (next_event t1) as [[e t2]|e|]; cbn [map_err rbind]; [|exact He|done].
  destruct He as ([[v ->] Hst2] & Hi2 & ->). destruct (Hi2 ltac:(done)) as [Hj2 _].
  rewrite Hst2. case_bool_decide as Hv.
  - pose proof (envelope_loop_spec dash N cap v (Datatypes.S (weight t2)) t2 [] Hj2) as Hl.
    rewrite Hst2 in Hl. specialize (Hl ltac:(by left) ltac:(lia) ltac:(by unfold zlen)). subst v.
    destruct (envelope_loop _ _ _ _) as [[b t3]|e|]; cbn [rbind]; [exact Hl| |done].
    destruct Hl as [[-> Hl]|(e' & -> & Hl)].
    + split; [done|]. intros ps (q & ps' & -> & Hq)%Hl. by eexists _, _, _.
    + unfold excused in Hl. by rewrite Hst2 in Hl.
  - intros ps (q & ps' & ->)%expected_head; [|by left]. by eexists _, _, _.
Qed.

(** A part that ended, then the next part's payload. *)
Lemma payload_spec dash N cap t cur cap' : tokenizer_inv dash N t -> part_done (stage t) ->
  match payload (mkRequest t cap') with
  | Ok p =>
      tokenizer_inv dash N (stream_tokenizer p) /\ stage (stream_tokenizer p) = InPayload /\
      ended p = false /\ remainder p = [] /\ remainder_pos p = 0%nat /\
      expected dash (stage t) ([], []) (unread t) =
        expected dash InPayload (media_type p, []) (unread (stream_tokenizer p))
  | Err e => head_excused dash N cap e
      (let! ps := expected dash (stage t) ([], []) (unread t) in Ok (cur :: ps))
  | OutOfFuel => False
  end.
Proof.
  intros Hi Hst. unfold payload, event. cbn [tokenizer].
  assert (Hprop : forall t' e, excused dash N e t' ([], []) ->
    expected dash (stage t) ([], []) (unread t) = expected dash (stage t') ([], []) (unread t') ->
    head_excused dash N cap (TFraming e)
      (let! ps := expected dash (stage t) ([], []) (unread t) in Ok (cur :: ps))).
  { intros t' e [He|[He|He]] ->; [by left|by right; left|right; right]. intros ps.
    destruct (expected _ _ _ _) as [ps'|?|]; cbn [rbind]; [by destruct (He ps')|done|done]. }
  pose proof (event_spec dash N t ([], []) Hi) as He.
  destruct (next_event t) as [[e t1]|e|]; cbn [map_err rbind]; [|by eapply Hprop|done].
  destruct He as (Hf & Hi1 & Hexp). destruct Hst as [Hst|Hst]; rewrite Hst in Hf;
    destruct Hf as [-> Hst1]; destruct (Hi1 ltac:(done)) as [Hj1 _].
  - pose proof (event_spec dash N t1 ([], []) Hj1) as He.
    destruct (next_event t1) as [[e t2]|e|]; cbn [map_err rbind]; [|by eapply Hprop|done].
    destruct He as (Hf & Hi2 & Hexp2). rewrite Hst1 in Hf. destruct Hf as [[v ->] Hst2].
    destruct (Hi2 ltac:(done)) as [Hj2 _]. cbn. split_and!; try done. by rewrite Hexp, Hexp2, Hst2.
  - intros ps. rewrite Hexp, Hst1. cbn [expected]. destruct (unread t1); cbn [rbind]; [|done].
    intros [= <-]. by eexists.
Qed.

(** ** The payload reader *)

(** The bytes a reader got from the tokenizer and has not given out. *)
Definition pending p : list Z := drop (remainder_pos p) (remainder p).

Record stream_inv (dash : list Z) (N : nat) p : Prop := {
  si_tokenizer : tokenizer_inv dash N (stream_tokenizer p);
  si_remainder : (length (remainder p) <= FRAMING_WINDOW_BYTES)%nat;
  si_pos : (remainder_pos p <= length (remainder p))%nat;
  si_ended : ended p = true -> pending p = [];
  si_stage : if ended p then part_done (stage (stream_tokenizer p))
             else in_part (stage (stream_tokenizer p)) }.

(** The parts from the one being read on, [got] of it given out already. *)
Definition stream_expected (dash : list Z) p (got : list Z) : result FramingError (list Part) :=
  let t := stream_tokenizer p in
  if ended p then let! ps := expected dash (stage t) ([], []) (unread t) in Ok ((media_type p, got) :: ps)
  else expected dash (stage t) (media_type p, got ++ pending p) (unread t).

Definition read_excused (dash : list Z) (N : nat) (e : ReadError)
    (whole : result FramingError (list Part)) : Prop :=
  (exists kind, e = ReadKind kind) \/ (FRAMING_WINDOW_BYTES <= N)%nat \/ forall ps, whole <> Ok ps.

(** What a [read] of [n > 0] bytes owes. *)
Definition read_ok (dash : list Z) (N n : nat) p (got : list Z)
    (r : result ReadError (list Z * PayloadStream S)) : Prop :=
  match r with
  | Ok (chunk, p') =>
      stream_inv dash N p' /\ media_type p' = media_type p /\ (length chunk <= n)%nat /\
      stream_expected dash p got = stream_expected dash p' (got ++ chunk) /\
      (ended p' = true \/ chunk <> [])
  | Err e => read_excused dash N e (stream_expected dash p got)
  | OutOfFuel => False
  end.

Lemma stream_running dash t rm rp mt got : drop rp rm = [] ->
  stream_expected dash (mkStream t rm rp mt false) got = expected dash (stage t) (mt, got) (unread t).
Proof. intros Hp. unfold stream_expected, pending. cbn. by rewrite Hp, app_nil_r. Qed.

Lemma read_loop_spec dash N n p got fuel : stream_inv dash N p -> ended p = false -> pending p = [] ->
  (0 < n)%nat -> (weight (stream_tokenizer p) < fuel)%nat ->
  read_ok dash N n p got (read_loop fuel p n).
Proof.
  revert p. induction fuel as [|fuel IH]; intros p Hi Hend Hp Hn Hw; [lia|].
  destruct p as [t rm rp mt en]. cbn [ended] in Hend. subst en.
  destruct Hi as [Hi Hrm Hrp _ Hst]. unfold pending in Hp.
  cbn [stream_tokenizer remainder remainder_pos ended] in Hi, Hrm, Hrp, Hp, Hst, Hw.
  cbn [read_loop stream_tokenizer remainder remainder_pos media_type ended].
  pose proof (event_spec dash N t (mt, got) Hi) as He. unfold read_ok.
  rewrite (stream_running dash t rm rp mt got Hp). cbn [media_type].
  destruct (next_event t) as [[e t']|e|];
    [|destruct He as [[k ->]|He]; [by left; exists k|destruct e; solve [by right|left; eauto]]|done].
  destruct He as (Hf & Hi' & Hexp). destruct Hst as [Hst|Hst]; rewrite Hst in Hf.
  - destruct Hf as [(b & -> & Hb) Hst']. destruct (Hi' ltac:(done)) as [Hj Hw'].
    cbn [fst snd] in Hexp. rewrite Hexp. destruct b as [|x b].
    + set (p' := mkStream t' rm rp mt false).
      assert (Hsi : stream_inv dash N p') by (constructor; cbn; done).
      specialize (IH p' Hsi eq_refl Hp Hn ltac:(unfold p'; cbn [stream_tokenizer]; lia)).
      unfold read_ok, p' in IH. rewrite (stream_running dash t' rm rp mt got Hp) in IH.
      unfold p'. rewrite app_nil_r. exact IH.
    + set (run := x :: b) in *. set (k := Nat.min (length run) n).
      assert (Hk : (0 < k)%nat) by (subst k run; cbn [length]; lia).
      assert (Hne : take k run <> []) by (destruct k; [lia|done]).
      assert (Hlen : (length (take k run) <= n)%nat) by (rewrite length_take; subst k; lia).
      destruct (k <? length run)%nat eqn:Ek.
      * split_and!; [|done|done| |by right].
        -- constructor; cbn [stream_tokenizer remainder remainder_pos ended]; try done;
             rewrite ?length_drop; lia.
        -- unfold stream_expected, pending. cbn. by rewrite drop_0, <- app_assoc, take_drop.
      * apply Nat.ltb_ge in Ek. rewrite (take_ge run k) in * by lia.
        split_and!; [|done|done| |by right].
        -- constructor; cbn; try done.
        -- unfold stream_expected, pending. cbn. by rewrite Hp, app_nil_r.
  - destruct Hf as [-> Hst']. destruct (Hi' ltac:(done)) as [Hj _].
    split_and!; [|done|simpl; lia| |by left].
    + constructor; cbn; done.
    + rewrite Hexp. unfold stream_expected. cbn. by rewrite app_nil_r.
Qed.

Lemma read_spec dash N n p got : stream_inv dash N p -> (0 < n)%nat ->
  read_ok dash N n p got (read p n).
Proof.
  intros Hi Hn. unfold read. rewrite (proj2 (Nat.eqb_neq n 0)) by lia. cbn [orb].
  destruct (ended p) eqn:Hend; cbn [orb].
  { cbn. rewrite app_nil_r. split_and!; try done; [simpl; lia|by left]. }
  destruct (_ <? _)%nat eqn:Epos.
  - apply Nat.ltb_lt in Epos. destruct p as [t rm rp mt en]. cbn in *. subst en.
    destruct Hi as [Hi Hrm Hrp _ Hst]. cbn in *.
    set (k := Nat.min (length (drop rp rm)) n).
    assert (Hk : (0 < k <= length (drop rp rm))%nat) by (subst k; rewrite length_drop; lia).
    split_and!; [|done| | |].
    + constructor; cbn; try done. rewrite length_drop in Hk. lia.
    + rewrite length_take. subst k. lia.
    + unfold stream_expected, pending. cbn. by rewrite <- app_assoc, <- drop_drop, take_drop.
    + right. destruct k, (drop rp rm); simpl in *; lia || done.
  - apply Nat.ltb_ge in Epos. apply read_loop_spec; try done; [|lia].
    unfold pending. by rewrite drop_ge.
Qed.

Lemma reads_spec dash N ns p got : stream_inv dash N p ->
  match reads p ns with
  | Ok (bytes, p') =>
      stream_inv dash N p' /\ media_type p' = media_type p /\
      stream_expected dash p got = stream_expected dash p' (got ++ bytes) /\
      (ended p = true -> ended p' = true) /\
      (Forall (lt 0) ns -> (length bytes < length ns)%nat -> ended p' = true)
  | Err e => read_excused dash N e (stream_expected dash p got)
  | OutOfFuel => False
  end.
Proof.
  revert p got. induction ns as [|n ns IH]; intros p got Hi; cbn [reads].
  { rewrite app_nil_r. split_and!; try done. simpl. lia. }
  assert (Hstep : match read p n with
    | Ok (chunk, p') => stream_inv dash N p' /\ media_type p' = media_type p /\
        stream_expected dash p got = stream_expected dash p' (got ++ chunk) /\
        (ended p = true -> ended p' = true) /\ ((0 < n)%nat -> ended p' = true \/ chunk <> [])
    | Err e => read_excused dash N e (stream_expected dash p got) | OutOfFuel => False end).
  { destruct n as [|n]; [cbn; rewrite app_nil_r; split_and!; done || lia|].
    pose proof (read_spec dash N (Datatypes.S n) p got Hi ltac:(lia)) as Hr.
    destruct (read p _) as [[chunk p']|e|] eqn:E; [|done|done].
    destruct Hr as (? & ? & _ & ? & ?). split_and!; try done.
    intros Hend. unfold read in E. rewrite Hend, orb_true_r in E. by injection E as <- <-. }
  destruct (read p n) as [[chunk p1]|e|]; cbn [rbind]; [|done|done].
  destruct Hstep as (Hi1 & Hm1 & Hexp & He1 & Hc). specialize (IH p1 (got ++ chunk) Hi1).
  rewrite Hexp. destruct (reads p1 ns) as [[rest p2]|e|]; cbn [rbind]; [|done|done].
  destruct IH as (Hi2 & Hm2 & Hexp2 & He2 & Hl). split_and!; [done|congruence|by rewrite app_assoc|auto|].
  intros [Hn Hns]%Forall_cons. rewrite length_app. cbn [length]. intros Hlen.
  destruct (Hc Hn) as [He|Hne]; [auto|]. apply Hl; [done|].
  destruct chunk; [done|]. simpl in Hlen. lia.
Qed.

Lemma skip_payload_spec dash N v q fuel t : tokenizer_inv dash N t -> in_part (stage t) ->
  (weight t < fuel)%nat ->
  match skip_payload fuel t with
  | Ok t' => tokenizer_inv dash N t' /\ part_done (stage t') /\ exists rest,
      expected dash (stage t) (v, q) (unread t) =
        (let! ps := expected dash (stage t') ([], []) (unread t') in Ok ((v, q ++ rest) :: ps))
  | Err e => exists e', e = TFraming e' /\ excused dash N e' t (v, q)
  | OutOfFuel => False
  end.
Proof.
  revert t q. induction fuel as [|fuel IH]; intros t q Hi Hst Hw; [lia|].
  cbn [skip_payload]. unfold event. pose proof (event_spec dash N t (v, q) Hi) as He.
  destruct (next_event t) as [[e t']|e|]; cbn [map_err rbind]; [|by eauto|done].
  destruct He as (Hf & Hi' & Hexp). destruct Hst as [Hst|Hst]; rewrite Hst in Hf.
  - destruct Hf as [(b & -> & _) Hst']. destruct (Hi' ltac:(done)) as [Hj Hw']. cbn [fst snd] in Hexp.
    specialize (IH t' (q ++ b) Hj Hst' ltac:(lia)). rewrite Hexp.
    destruct (skip_payload fuel t') as [t''|e|]; [| |done].
    + destruct IH as (? & ? & rest & IH). split_and!; try done. exists (b ++ rest).
      by rewrite IH, app_assoc.
    + destruct IH as (e' & -> & IH). exists e'. split; [done|]. by eapply excused_ext.
  - destruct Hf as [-> Hst']. destruct (Hi' ltac:(done)) as [Hj _]. split_and!; try done.
    exists []. by rewrite Hexp, app_nil_r.
Qed.

(** After the payload part: the close, and nothing more. *)
Definition finish_excused (N : nat) (e : TwoPartError) (whole : result FramingError (list Part)) : Prop :=
  match e with
  | TFraming e => (exists kind, e = SourceRead kind) \/ (FRAMING_WINDOW_BYTES <= N)%nat \/
                  forall ps, whole <> Ok ps
  | TrailingPart => forall ps, whole = Ok ps -> (2 <= length ps)%nat
  | _ => False
  end.

Lemma close_spec dash N t cur : tokenizer_inv dash N t -> part_done (stage t) ->
  let whole := let! ps := expected dash (stage t) ([], []) (unread t) in Ok (cur :: ps) in
  match close t with
  | Ok _ => whole = Ok [cur]
  | Err e => finish_excused N e whole
  | OutOfFuel => False
  end.
Proof.
  intros Hi Hst whole. unfold close, event.
  assert (Hprop : forall t' e, excused dash N e t' ([], []) ->
    expected dash (stage t) ([], []) (unread t) = expected dash (stage t') ([], []) (unread t') ->
    finish_excused N (TFraming e) whole).
  { intros t' e [He|[He|He]] E; [by left|by right; left|right; right]. intros ps. unfold whole. rewrite E.
    destruct (expected _ _ _ (unread t')) as [ps'|?|] eqn:E'; cbn [rbind]; [by destruct (He ps')|done|done]. }
  pose proof (event_spec dash N t ([], []) Hi) as He.
  destruct (next_event t) as [[e t1]|e|]; cbn [map_err rbind]; [|by eapply Hprop|done].
  destruct He as (Hf & Hi1 & Hexp). destruct Hst as [Hst|Hst]; rewrite Hst in Hf;
    destruct Hf as [-> Hst1]; destruct (Hi1 ltac:(done)) as [Hj1 _].
  - intros ps. unfold whole. rewrite Hst. cbn [expected].
    destruct (headers_of _ _) as [ps'|?|] eqn:E; cbn [rbind]; intros [= <-].
    apply headers_of_spec in E as [Hne _]. destruct ps'; [done|]. simpl. lia.
  - pose proof (event_spec dash N t1 ([], []) Hj1) as He.
    destruct (next_event t1) as [[e t2]|e|]; cbn [map_err rbind]; [|by eapply Hprop|done].
    destruct He as (Hf & _ & Hexp2). rewrite Hst1 in Hf. destruct Hf as [-> _].
    unfold whole. by rewrite Hexp, Hexp2.
Qed.

Lemma finish_spec dash N p got : stream_inv dash N p ->
  match finish p with
  | Ok _ => exists rest, stream_expected dash p got = Ok [(media_type p, got ++ rest)] /\
            (ended p = true -> rest = [])
  | Err e => finish_excused N e (stream_expected dash p got)
  | OutOfFuel => False
  end.
Proof.
  intros [Hi _ _ Hend Hst]. unfold finish, stream_expected. destruct (ended p).
  - cbn [rbind]. pose proof (close_spec dash N _ (media_type p, got) Hi Hst) as Hc. cbv zeta in Hc.
    destruct (close _); [|done|done]. exists []. by rewrite app_nil_r.
  - pose proof (skip_payload_spec dash N (media_type p) (got ++ pending p)
      (Datatypes.S (weight (stream_tokenizer p))) _ Hi Hst ltac:(lia)) as Hs.
    destruct (skip_payload _ _) as [t'|e|]; cbn [rbind]; [| |done].
    + destruct Hs as (Hi' & Hst' & rest & ->).
      pose proof (close_spec dash N t' (media_type p, (got ++ pending p) ++ rest) Hi' Hst') as Hc.
      destruct (close t'); [|done|done]. exists (pending p ++ rest). by rewrite app_assoc.
    + by destruct Hs as (e' & -> & Hs).
Qed.

(** ** Whole requests *)

(** A body that is the pinned framing of an envelope part within the cap and a
    payload part. *)
Definition ingest_body (dash : list Z) (cap : Z) (body : list Z) (env : Envelope.Envelope)
    (mt bytes : list Z) : Prop :=
  exists part_one, Envelope.Envelope_parse part_one = Ok env /\ zlen part_one <= cap /\
    Forall (part_ok dash) [(ENVELOPE_PART_MEDIA_TYPE, part_one); (mt, bytes)] /\
    body = framed dash [(ENVELOPE_PART_MEDIA_TYPE, part_one); (mt, bytes)].

(** The source failed. *)
Definition source_failure (e : RequestError) : Prop :=
  exists kind, e = Rejected (mkRejection (IFraming (TFraming (SourceRead kind))) None) \/
    e = ReadFailed (ReadKind kind) \/ e = NotClosed (TFraming (SourceRead kind)).

Lemma ingest_body_ref dash cap body env mt bytes : ingest_body dash cap body env mt bytes ->
  exists part_one, Envelope.Envelope_parse part_one = Ok env /\ zlen part_one <= cap /\
    ref_body dash body = Ok [(ENVELOPE_PART_MEDIA_TYPE, part_one); (mt, bytes)].
Proof. intros (p1 & Hp & Hc & Hf & Hb). exists p1. split_and!; try done. by apply ref_body_spec. Qed.

(** A refusal of the head of a request against the body. *)
Lemma head_excused_body dash N cap body env mt bytes e : head_excused dash N cap e (ref_body dash body) ->
  ingest_body dash cap body env mt bytes ->
  (exists kind, e = TFraming (SourceRead kind)) \/ (FRAMING_WINDOW_BYTES <= N)%nat.
Proof.
  intros He (p1 & _ & Hc & Hr)%ingest_body_ref. destruct e as [|c| | |e]; cbn [head_excused] in He.
  - destruct (He _ Hr) as (v & q & ps & E & Hne). by injection E as <- <- <-.
  - destruct He as [_ He]. destruct (He _ Hr) as (v & q & ps & E & Hq). injection E as <- <- <-. lia.
  - by destruct (He _ Hr).
  - done.
  - destruct He as [[k ->]|[He|He]]; [by left; exists k|by right|by destruct (He _ Hr)].
Qed.

(** What the head of a request establishes. *)
Lemma parse_ingest_spec f (src : S) cap : (length (as_bytes (boundary f)) <= 70)%nat -> 0 <= cap ->
  let dash := request_dash f in let N := length (remaining src) in
  match parse_ingest_with_cap f src cap with
  | Ok (env, p) => stream_inv dash N p /\ ended p = false /\ exists part_one,
      Envelope.Envelope_parse part_one = Ok env /\ zlen part_one <= cap /\
      ref_body dash (remaining src) =
        (let! ps := stream_expected dash p [] in Ok ((ENVELOPE_PART_MEDIA_TYPE, part_one) :: ps))
  | Err e => source_failure (Rejected e) \/ (FRAMING_WINDOW_BYTES <= N)%nat \/
      forall env mt bytes, ~ ingest_body dash cap (remaining src) env mt bytes
  | OutOfFuel => False
  end.
Proof.
  intros Hb Hcap dash N. unfold parse_ingest_with_cap, with_envelope_cap.
  assert (Hprop : forall e, head_excused dash N cap e (ref_body dash (remaining src)) ->
    source_failure (Rejected (mkRejection (IFraming e) None)) \/ (FRAMING_WINDOW_BYTES <= N)%nat \/
    forall env mt bytes, ~ ingest_body dash cap (remaining src) env mt bytes).
  { intros e He. destruct (decide (FRAMING_WINDOW_BYTES <= N)%nat); [by right; left|].
    destruct e as [|c| | |[]]; try (right; right; intros env mt bytes Hbody;
      by destruct (head_excused_body _ _ _ _ _ _ _ _ He Hbody) as [[? ?]|?]).
    left. exists kind. by left. }
  pose proof (envelope_spec dash N cap (tokenizer_new f src) (new_inv f src Hb) eq_refl Hcap) as He.
  change (expected dash Opening ([], []) (unread (tokenizer_new f src)))
    with (ref_body dash (remaining src)) in He.
  destruct (envelope _) as [[part_one r]|e|]; cbn [map_err rbind]; [|by apply Hprop|done].
  destruct He as (Hi & Hst & Hcap1 & Hexp).
  destruct (Envelope.Envelope_parse part_one) as [env|e|] eqn:Ep; cbn [map_err rbind];
    [| |by apply Envelope.Envelope_parse_fuel in Ep].
  - destruct r as [t cap']. cbn [tokenizer] in *.
    pose proof (payload_spec dash N cap t (ENVELOPE_PART_MEDIA_TYPE, part_one) cap' Hi Hst) as Hp.
    rewrite <- Hexp in Hp. destruct (payload _) as [p|e|]; cbn [map_err rbind]; [|by apply Hprop|done].
    destruct Hp as (Hi' & Hst' & Hend & Hrm & Hrp & Hexp'). split_and!; [|done|].
    + constructor; rewrite ?Hrm, ?Hrp, ?Hend, ?Hst'; try done; first [by left|cbn; lia].
    + exists part_one. split_and!; try done. rewrite Hexp, Hexp'. unfold stream_expected, pending.
      by rewrite Hend, Hst', Hrm, Hrp.
  - right. right. intros env mt bytes (p1 & Hp1 & _ & Hr)%ingest_body_ref. rewrite Hr in Hexp.
    destruct (expected _ _ _ _); cbn [rbind] in Hexp; [|done|done].
    injection Hexp as -> _. congruence.
Qed.

(** C14: A request is accepted exactly when its body is the pinned two-part
    framing, byte for byte: an envelope part of the pinned media type, within
    the cap, that parses to the envelope returned, and a payload part with the
    media type returned, which the reads give in order and without loss
    whatever the buffer sizes; once more reads were made than bytes came, all of
    it.  A request refused although the source kept working and the body fits
    the window has no such body, and every stage terminates. *)
Theorem ingest_exact header f (src : S) cap ns :
  Forall is_scalar header -> validate_content_type header = Ok f -> 0 <= cap ->
  match take_request f src cap ns with
  | Ok (env, mt, bytes) => exists rest,
      ingest_body (request_dash f) cap (remaining src) env mt (bytes ++ rest) /\
      (Forall (lt 0) ns -> (length bytes < length ns)%nat -> rest = [])
  | Err e => source_failure e \/ (FRAMING_WINDOW_BYTES <= length (remaining src))%nat \/
      forall env mt bytes, ~ ingest_body (request_dash f) cap (remaining src) env mt bytes
  | OutOfFuel => False
  end.
Proof.
  intros Hs [_ [_ Hb]]%validated_boundary Hcap; [|done]. unfold take_request.
  pose proof (parse_ingest_spec f src cap Hb Hcap) as Hp. cbv zeta in Hp.
  destruct (parse_ingest_with_cap f src cap) as [[env p]|e|]; cbn [map_err rbind]; [|done|done].
  destruct Hp as (Hi & _ & part_one & Hpe & Hpc & Hexp).
  assert (Hno : forall P : Prop, (forall ps, stream_expected (request_dash f) p [] = Ok ps -> length ps <> 1%nat) ->
    P \/ (FRAMING_WINDOW_BYTES <= length (remaining src))%nat \/
    forall env mt bytes, ~ ingest_body (request_dash f) cap (remaining src) env mt bytes).
  { intros P Hps. right. right. intros env' mt bytes (p1 & _ & _ & Hr)%ingest_body_ref.
    rewrite Hr in Hexp. destruct (stream_expected _ p _) as [ps|?|] eqn:E; cbn [rbind] in Hexp; simplify_eq.
    by destruct (Hps _ eq_refl). }
  pose proof (reads_spec (request_dash f) _ ns p [] Hi) as Hr.
  destruct (reads p ns) as [[bytes p']|e|]; cbn [map_err rbind]; [| |done].
  - destruct Hr as (Hi' & Hmt & Hexp' & _ & Hfull). cbn [app] in Hexp'.
    pose proof (finish_spec (request_dash f) _ p' bytes Hi') as Hf.
    destruct (finish p') as [u|e|]; cbn [map_err rbind]; [| |done].
    + destruct Hf as (rest & Hrest & Hend). exists rest. split; [|auto].
      rewrite Hexp', Hrest in Hexp. cbn [rbind] in Hexp. apply ref_body_spec in Hexp as (_ & Hok & Hbody).
      by exists part_one.
    + rewrite <- Hexp' in Hf. destruct e as [|c| | |e]; cbn [finish_excused] in Hf; try done.
      * apply Hno. intros ps Hps. specialize (Hf ps Hps). lia.
      * destruct Hf as [[k ->]|[Hf|Hf]]; [left; exists k; auto|by right; left|].
        apply Hno. intros ps Hps. by destruct (Hf ps).
  - destruct Hr as [[k ->]|[Hr|Hr]]; [left; exists k; auto|by right; left|].
    apply Hno. intros ps Hps. by destruct (Hr ps).
Qed.

(** ** Bounds of the reader *)

(** The streams a caller of the parser can hold. *)
Inductive streaming (f : RequestFraming) (src : S) (cap : Z) : PayloadStream S -> Prop :=
| streaming_new env p : parse_ingest_with_cap f src cap = Ok (env, p) -> streaming f src cap p
| streaming_read p n chunk p' : streaming f src cap p -> read p n = Ok (chunk, p') ->
    streaming f src cap p'.

Lemma streaming_inv f src cap p : (length (as_bytes (boundary f)) <= 70)%nat -> 0 <= cap ->
  streaming f src cap p -> stream_inv (request_dash f) (length (remaining src)) p.
Proof.
  intros Hb Hcap. induction 1 as [env p E|p n chunk p' _ IH E].
  - pose proof (parse_ingest_spec f src cap Hb Hcap) as Hp. cbv zeta in Hp. rewrite E in Hp. apply Hp.
  - destruct n as [|n]; [cbn in E; by injection E as <- <-|].
    pose proof (read_spec (request_dash f) _ (Datatypes.S n) p [] IH ltac:(lia)) as Hr.
    rewrite E in Hr. apply Hr.
Qed.

(** Whatever the body weighs and however it is read, a payload stream holds
    at most two windows of bytes (VAL-008), a read gives at most the buffer's
    size, every read and the closing check terminate, and a non-empty read that
    gives nothing has met the end of the part. *)
Theorem payload_stream_bounded header f (src : S) cap p n :
  Forall is_scalar header -> validate_content_type header = Ok f -> 0 <= cap ->
  streaming f src cap p ->
  (buffered_bytes p <= 2 * FRAMING_WINDOW_BYTES)%nat /\ finish p <> OutOfFuel /\
  match read p n with
  | Ok (chunk, p') => (length chunk <= n)%nat /\ ((0 < n)%nat -> chunk = [] -> ended p' = true)
  | Err _ => True
  | OutOfFuel => False
  end.
Proof.
  intros Hs [_ [_ Hb]]%validated_boundary Hcap Hp; [|done].
  apply streaming_inv in Hp as Hi; [|done|done]. split_and!.
  - destruct Hi as [[_ _ _ _ Hw _] Hr _ _ _]. unfold buffered_bytes. lia.
  - pose proof (finish_spec _ _ p [] Hi) as Hf. by destruct (finish p).
  - destruct n as [|n]; [cbn; lia|].
    pose proof (read_spec _ _ (Datatypes.S n) p [] Hi ltac:(lia)) as Hr.
    destruct (read p _) as [[chunk p']|e|]; [|done|done]. naive_solver.
Qed.
End Policy.

(** * Messages *)

Definition safe_byte (b : Z) : bool := in_range 0x20 b 0x7a || (b =? 0x7c) || (b =? 0x7e).

(** Text a placeholder may carry. *)
Definition safe_insert (t : list Z) : Prop :=
  (length t <= 64)%nat /\ forallb safe_byte (as_bytes t) = true.

Lemma safe_message pre t post : (length pre + length post <= 136)%nat ->
  forallb safe_byte (as_bytes pre) = true -> forallb safe_byte (as_bytes post) = true -> safe_insert t ->
  SafeMessage_parse (pre ++ t ++ post) = Ok (pre ++ t ++ post).
Proof.
  intros Hl Hpre Hpost [Ht Hs]. unfold SafeMessage_parse, text_parse.
  rewrite (proj2 (Nat.leb_le _ _)) by (rewrite !length_app; lia).
  fold safe_byte. rewrite !as_bytes_app, !forallb_app.
  change (forallb _ ?l) with (forallb safe_byte l). by rewrite Hpre, Hs, Hpost.
Qed.

Lemma digits_safe ds : Forall (fun d => is_digit d = true) ds -> forallb safe_byte (as_bytes ds) = true.
Proof.
  intros Hd. rewrite as_bytes_ascii.
  - apply forallb_forall. intros d Hin. rewrite List.Forall_forall in Hd.
    specialize (Hd d Hin). unfold safe_byte. unrange. decide_tests. done.
  - eapply Forall_impl; [exact Hd|]. intros d Hx. cbn in Hx. unrange. lia.
Qed.

Lemma dec_digits_length f n acc : (length (dec_digits f n acc) <= S f + length acc)%nat.
Proof.
  revert n acc. induction f as [|f IH]; intros n acc; cbn [dec_digits]; destruct (n <? 10); simpl; try lia.
  specialize (IH (n / 10) (48 + n mod 10 :: acc)). simpl in IH. lia.
Qed.

Lemma i64_text_safe n : is_i64 n -> safe_insert (i64_to_string n).
Proof.
  intros Hn. split.
  - unfold i64_to_string. pose proof (dec_digits_length 18 (- n) []). pose proof (dec_digits_length 18 n []).
    cbn [length] in *. destruct (n <? 0); cbn [length]; lia.
  - destruct (i64_to_string_spec n Hn) as (ds & [Hd _] & _ & ->).
    destruct (n <? 0); [|by apply digits_safe]. change (as_bytes (45 :: ds)) with (45 :: as_bytes ds).
    cbn [forallb]. by rewrite digits_safe.
Qed.

Lemma length_as_bytes t : (length t <= length (as_bytes t))%nat.
Proof.
  induction t as [|c t IH]; [done|]. change (as_bytes (c :: t)) with (encode_utf8 c ++ as_bytes t).
  rewrite length_app. unfold encode_utf8. repeat case_match; cbn [length]; lia.
Qed.

Lemma render_field_safe field : safe_insert (render_field field).
Proof.
  unfold render_field. cbv zeta. destruct (_ && _) eqn:E; [|split; [cbn; lia|done]].
  apply andb_true_iff in E as [[_ Hl]%andb_true_iff Hf]. apply Nat.leb_le in Hl. split.
  - pose proof (length_as_bytes field). lia.
  - apply forallb_forall. intros b Hb. rewrite forallb_forall in Hf. specialize (Hf b Hb).
    apply orb_true_iff in Hf as [[Hf|Hf]%orb_true_iff|Hf].
    + unfold safe_byte. unfold is_lowercase in Hf. unrange. decide_tests. done.
    + unfold safe_byte. unrange. decide_tests. done.
    + unfold one_of in Hf. apply existsb_exists in Hf as (x & Hx & ->%Z.eqb_eq). clear Hb. revert x Hx.
      apply forallb_forall. reflexivity.
Qed.

Lemma render_version_safe n : is_i64 n -> safe_insert (render_version n).
Proof.
  intros Hn. unfold render_version. cbv zeta.
  destruct (_ && _); [by apply i64_text_safe|split; [cbn; lia|done]].
Qed.

Lemma render_bytes_safe n : 0 <= n -> safe_insert (render_bytes n).
Proof.
  intros Hn. unfold render_bytes. destruct (n <=? I64_MAX) eqn:E; [|split; [cbn; lia|done]].
  apply Z.leb_le in E. apply i64_text_safe. unfold is_i64. unfold I64_MIN. lia.
Qed.

(** The widths of the integers an error carries. *)
Definition error_width (e : IngestParseError) : Prop :=
  match e with
  | IFraming (EnvelopeExceedsCap limit) => 0 <= limit
  | IEnvelope (Envelope.VersionUnsupported _ found) => is_i64 found
  | IEnvelope (Envelope.SizeExceeded limit) => 0 <= limit
  | _ => True
  end.

(** The placeholder of each template. *)
Lemma version_text t : replace TEMPLATE_ENVELOPE_VERSION_UNSUPPORTED (lit "{version}") t =
  lit "Envelope schema version " ++ t ++ lit " is not supported by this server.".
Proof. vm_compute. reflexivity. Qed.

Lemma field_text t : replace TEMPLATE_ENVELOPE_SCHEMA_INVALID (lit "{field}") t =
  lit "The envelope fails schema validation at field " ++ t ++ lit ".".
Proof. vm_compute. reflexivity. Qed.

Lemma limit_text t : replace TEMPLATE_ENVELOPE_SIZE_EXCEEDED (lit "{limit_bytes}") t =
  lit "The canonical envelope exceeds the " ++ t ++ lit " byte limit.".
Proof. vm_compute. reflexivity. Qed.

(** No rejection makes the error contract panic: the code of every parse
    error is a registry code, and the message, whatever field, version or limit
    it names, is a safe message of printable ASCII within two hundred
    characters, with no placeholder left in it. *)
Theorem rejection_renders e : error_width e ->
  (exists code, ingest_code e = Ok code) /\ exists text, message e = Ok text.
Proof.
  intros Hw. split.
  - destruct e as [[]|[]]; eexists; vm_compute; reflexivity.
  - destruct e as [[|limit| | |e]|[pe|field found|field|limit]]; cbn [message error_width] in *;
      rewrite ?version_text, ?field_text, ?limit_text; eexists;
      solve [ apply safe_message; [apply Nat.leb_le; reflexivity|reflexivity..|];
              auto using render_version_safe, render_field_safe, render_bytes_safe
            | vm_compute; reflexivity ].
Qed.

(** * Instances *)

Definition sample_payload : list Z := [1; 2; 13; 10; 45].
Definition sample_request : list Z :=
  framed (request_dash sample_framing)
    [(ENVELOPE_PART_MEDIA_TYPE, Envelope.sample_bytes); (lit "application/octet-stream", sample_payload)].

Lemma sample_request_taken :
  take_request sample_framing sample_request DEFAULT_ENVELOPE_MAX_BYTES [3; 3; 3; 3; 3; 3]%nat
  = Ok (Envelope.sample_envelope, lit "application/octet-stream", sample_payload).
Proof. vm_compute. reflexivity. Qed.

Lemma ingest_exact_witness : exists rest,
  ingest_body (request_dash sample_framing) DEFAULT_ENVELOPE_MAX_BYTES sample_request
    Envelope.sample_envelope (lit "application/octet-stream") (sample_payload ++ rest) /\
  (Forall (lt 0) [3; 3; 3; 3; 3; 3]%nat -> (length sample_payload < 6)%nat -> rest = []).
Proof.
  pose proof (ingest_exact sample_header sample_framing sample_request DEFAULT_ENVELOPE_MAX_BYTES
    [3; 3; 3; 3; 3; 3]%nat (proj1 sample_request_valid) (proj2 sample_request_valid) ltac:(done)) as Hw.
  rewrite sample_request_taken in Hw. exact Hw.
Defined.

Lemma payload_stream_bounded_witness : exists p : PayloadStream (list Z),
  streaming sample_framing sample_request DEFAULT_ENVELOPE_MAX_BYTES p /\
  (buffered_bytes p <= 2 * FRAMING_WINDOW_BYTES)%nat.
Proof.
  destruct (parse_ingest_with_cap sample_framing sample_request DEFAULT_ENVELOPE_MAX_BYTES)
    as [[env p]|e|] eqn:E; [|vm_compute in E; discriminate E..].
  exists p. assert (Hs : streaming sample_framing sample_request DEFAULT_ENVELOPE_MAX_BYTES p)
    by exact (streaming_new _ _ _ env p E). split; [exact Hs|].
  exact (proj1 (payload_stream_bounded sample_header sample_framing sample_request
    DEFAULT_ENVELOPE_MAX_BYTES p 1 (proj1 sample_request_valid) (proj2 sample_request_valid)
    ltac:(done) Hs)).
Defined.

Lemma rejection_renders_witness :
  (exists code, ingest_code (IEnvelope (Envelope.VersionUnsupported (lit "envelope_version") 2)) = Ok code) /\
  exists text, message (IEnvelope (Envelope.VersionUnsupported (lit "envelope_version") 2)) = Ok text.
Proof. apply rejection_renders. cbn. unfold is_i64, I64_MIN, I64_MAX. lia. Defined.
