(* ===== verification/Store.v ===== *)
(** The raw-write store as the commit path sees it
    ([crates/archivist-storage/src/raw_write.rs], [commit.rs], [capability.rs],
    [error.rs]): the trait's operations as the class [RawWriteStore], what its
    documentation promises of them as [LawfulStore], and asynchronous code as
    programs [prog], whose awaited store calls are the points where other tasks
    run and where a task can be cancelled.  [run] executes a program alone; the
    pool of [CommitSafety] interleaves many.

    Every operation returns the next store state also when it fails: a call that
    reports an error may have taken effect. *)

From stdpp Require Import gmap.
From S2P Require Import Prelude Text Sha256 Vocabulary.

Open Scope Z_scope.

(** * Errors, capabilities, evidence *)

Inductive StorageErrorKind :=
| Unavailable | CapabilityUnavailable | ScopeViolation | IntegrityConflict | MalformedInput
| StaleEpoch | InventoryFault.

Record StorageError := mkStorageError { kind : StorageErrorKind; detail : list Z }.

(** [Result<T, E>] of code without loops. *)
Inductive io (E A : Type) := Done (a : A) | Fail (e : E).
Arguments Done {E A} _.
Arguments Fail {E A} _.

Abbreviation stored := (io StorageError).

Inductive ConditionalCreate := CreateSupported | CreateUnavailable.

#[export] Instance ConditionalCreate_eq : EqDecision ConditionalCreate.
Proof. solve_decision. Defined.

Inductive StoredChecksum := StoredSha256 | StoredMd5 | StoredProviderSpecific | StoredNone.
Inductive VersioningState := VersioningEnabled | VersioningDisabled | VersioningUnknown.
Inductive EncryptionState := EncryptionVerified | EncryptionUnavailable.

Record StoreCapabilities := mkCapabilities
  { conditional_create : ConditionalCreate;
    stored_checksum : StoredChecksum;
    versioning : VersioningState;
    server_side_encryption : EncryptionState }.

Record ExistingObject := mkExisting { size : option Z; stored_sha256 : option (list Z) }.

Inductive CreateIfAbsent := CreatedNow | AlreadyExists (existing : ExistingObject).

(** * Keys and sessions *)

Inductive ManifestKey := OccurrenceKey (key : list Z) | AttestationKey (key : list Z).

(** [ManifestKey::as_str]. *)
Definition manifest_text (k : ManifestKey) : list Z :=
  match k with OccurrenceKey t | AttestationKey t => t end.

Abbreviation UploadId := (list Z).

Definition PART_NUMBER_MAX : Z := 10000.

(** [PartNumber::new]. *)
Definition PartNumber_new (n : Z) : option Z :=
  if (n =? 0) || (PART_NUMBER_MAX <? n) then None else Some n.

Record PartCommitment := mkCommitment { number : Z; tag : list Z }.

(** * Programs

    One constructor per operation that touches shared state.  The store calls
    are awaited; [Capabilities] and the registry operations of
    [multipart.rs]'s [OpenUploads] are synchronous. *)

Inductive prog (A : Type) :=
| Ret (a : A)
| WriteManifest (k : ManifestKey) (bytes : list Z) (next : stored StorageOutcome -> prog A)
| CreateManifest (k : ManifestKey) (bytes : list Z) (next : stored CreateIfAbsent -> prog A)
| BeginMultipart (blob : list Z) (next : stored UploadId -> prog A)
| WritePart (u : UploadId) (n : Z) (bytes : list Z) (next : stored PartCommitment -> prog A)
| CommitMultipart (u : UploadId) (parts : list PartCommitment) (next : stored StorageOutcome -> prog A)
| AbortMultipart (u : UploadId) (next : stored unit -> prog A)
| Capabilities (next : StoreCapabilities -> prog A)
| Register (u : UploadId) (next : prog A)
| Release (u : UploadId) (next : prog A)
| Abandon (u : UploadId) (next : prog A)
| ListAbandoned (next : list UploadId -> prog A).
Arguments Ret {A} _.
Arguments WriteManifest {A} _ _ _.
Arguments CreateManifest {A} _ _ _.
Arguments BeginMultipart {A} _ _.
Arguments WritePart {A} _ _ _ _.
Arguments CommitMultipart {A} _ _ _.
Arguments AbortMultipart {A} _ _.
Arguments Capabilities {A} _.
Arguments Register {A} _ _.
Arguments Release {A} _ _.
Arguments Abandon {A} _ _.
Arguments ListAbandoned {A} _.

Fixpoint pbind {A B} (p : prog A) (k : A -> prog B) : prog B :=
  match p with
  | Ret a => k a
  | WriteManifest key b next => WriteManifest key b (fun r => pbind (next r) k)
  | CreateManifest key b next => CreateManifest key b (fun r => pbind (next r) k)
  | BeginMultipart blob next => BeginMultipart blob (fun r => pbind (next r) k)
  | WritePart u n b next => WritePart u n b (fun r => pbind (next r) k)
  | CommitMultipart u ps next => CommitMultipart u ps (fun r => pbind (next r) k)
  | AbortMultipart u next => AbortMultipart u (fun r => pbind (next r) k)
  | Capabilities next => Capabilities (fun r => pbind (next r) k)
  | Register u next => Register u (pbind next k)
  | Release u next => Release u (pbind next k)
  | Abandon u next => Abandon u (pbind next k)
  | ListAbandoned next => ListAbandoned (fun us => pbind (next us) k)
  end.

(** [.await] and [.await?]. *)
Declare Scope prog_scope.
Delimit Scope prog_scope with prog.
Notation "'do' x '<-' p ';' q" := (pbind p (fun x => q))
  (at level 200, x pattern, p at level 100, q at level 200) : prog_scope.
Notation "'try' x '<-' p ';' q" :=
  (pbind p (fun r => match r with Done x => q | Fail e => Ret (Fail e) end))
  (at level 200, x pattern, p at level 100, q at level 200) : prog_scope.
Open Scope prog_scope.

Definition map_fail {E F A} (f : E -> F) (r : io E A) : io F A :=
  match r with Done a => Done a | Fail e => Fail (f e) end.

(** * The registry of open uploads *)

Record RegistryEntry := mkEntry { entry_upload : UploadId; abandoned : bool }.

Abbreviation Registry := (list RegistryEntry).

Definition register (u : UploadId) (r : Registry) : Registry := r ++ [mkEntry u false].

Definition release (u : UploadId) (r : Registry) : Registry :=
  List.filter (fun e => negb (bool_decide (entry_upload e = u))) r.

(** [entries.iter_mut().find(..)]: the first entry. *)
Fixpoint abandon (u : UploadId) (r : Registry) : Registry :=
  match r with
  | [] => []
  | e :: r => if bool_decide (entry_upload e = u) then mkEntry u true :: r else e :: abandon u r
  end.

Definition abandoned_uploads (r : Registry) : list UploadId :=
  map entry_upload (List.filter abandoned r).

Definition live_count (r : Registry) : nat := length (List.filter (fun e => negb (abandoned e)) r).
Definition abandoned_count (r : Registry) : nat := length (List.filter abandoned r).

(** * Stores *)

(** [RawWriteStore] with [ConditionalCreateStore]. *)
Class RawWriteStore (S : Type) := {
  capabilities : S -> StoreCapabilities;
  write_manifest : S -> ManifestKey -> list Z -> stored StorageOutcome * S;
  create_manifest_if_absent : S -> ManifestKey -> list Z -> stored CreateIfAbsent * S;
  begin_multipart : S -> list Z -> stored UploadId * S;
  write_part : S -> UploadId -> Z -> list Z -> stored PartCommitment * S;
  commit_multipart : S -> UploadId -> list PartCommitment -> stored StorageOutcome * S;
  abort_multipart : S -> UploadId -> stored unit * S }.

(** The provided body of [create_manifest_if_absent]. *)
Definition no_atomic_primitive : stored CreateIfAbsent :=
  Fail (mkStorageError CapabilityUnavailable
    (lit "this store does not implement an atomic create-if-absent primitive")).

(** A program alone. *)
Fixpoint run {S A} `{RawWriteStore S} (p : prog A) (s : S) (r : Registry) : A * S * Registry :=
  match p with
  | Ret a => (a, s, r)
  | WriteManifest k b next => let '(x, s) := write_manifest s k b in run (next x) s r
  | CreateManifest k b next => let '(x, s) := create_manifest_if_absent s k b in run (next x) s r
  | BeginMultipart blob next => let '(x, s) := begin_multipart s blob in run (next x) s r
  | WritePart u n b next => let '(x, s) := write_part s u n b in run (next x) s r
  | CommitMultipart u ps next => let '(x, s) := commit_multipart s u ps in run (next x) s r
  | AbortMultipart u next => let '(x, s) := abort_multipart s u in run (next x) s r
  | Capabilities next => run (next (capabilities s)) s r
  | Register u next => run next s (register u r)
  | Release u next => run next s (release u r)
  | Abandon u next => run next s (abandon u r)
  | ListAbandoned next => run (next (abandoned_uploads r)) s r
  end.

Lemma run_bind {S A B} `{RawWriteStore S} (p : prog A) (k : A -> prog B) (s : S) r :
  run (pbind p k) s r = (let '(a, s', r') := run p s r in run (k a) s' r').
Proof.
  revert s r. induction p as [|?? next IH|?? next IH|? next IH|??? next IH|?? next IH|? next IH|next IH
    |? next IH|? next IH|? next IH|next IH]; intros s r; cbn [run pbind]; try apply IH; [done|..].
  all: match goal with |- (let '(_, _) := ?call in _) = _ => destruct call as [x s1]; apply IH end.
Qed.

(** ** What the traits promise *)

(** A store's state as its documentation speaks of it: the objects by key, the
    uncommitted sessions with their key and parts, the handles issued so far. *)
Class StoreView (S : Type) := {
  visible : S -> gmap (list Z) (list Z);
  sessions : S -> gmap UploadId (list Z * list (Z * list Z));
  issued : S -> gset UploadId }.

(** Sessions other than [u] are not touched. *)
Definition kept {S} `{StoreView S} (u : option UploadId) (s s' : S) : Prop :=
  issued s ⊆ issued s' /\
  forall v, v ∈ issued s -> u <> Some v -> sessions s' !! v = sessions s !! v.

(** The evidence a backend attaches is about the object that is there. *)
Definition truthful (e : ExistingObject) (old : list Z) : Prop :=
  (forall n, size e = Some n -> n = zlen old) /\
  (forall d, stored_sha256 e = Some d -> d = digest old).

(** The documentation of [RawWriteStore] and [ConditionalCreateStore]: an
    uncommitted session shows nothing at its key; a handle names one session;
    a commit of all its parts makes exactly them visible, or converges on the
    object already there; a failed write has taken effect or has not; creation
    is atomic and reports what it found; aborting is idempotent. *)
Class LawfulStore (S : Type) `{RawWriteStore S} `{StoreView S} := {
  write_manifest_law (s : S) k b : match write_manifest s k b with
    | (Done _, s') => kept None s s' /\ visible s' = <[manifest_text k := b]> (visible s)
    | (Fail _, s') => kept None s s' /\
        (visible s' = visible s \/ visible s' = <[manifest_text k := b]> (visible s))
    end;
  create_law (s : S) k b : match create_manifest_if_absent s k b with
    | (Done CreatedNow, s') => kept None s s' /\ visible s !! manifest_text k = None /\
        visible s' = <[manifest_text k := b]> (visible s)
    | (Done (AlreadyExists e), s') => kept None s s' /\ visible s' = visible s /\
        exists old, visible s !! manifest_text k = Some old /\ truthful e old
    | (Fail _, s') => kept None s s' /\ (visible s' = visible s \/
        visible s !! manifest_text k = None /\ visible s' = <[manifest_text k := b]> (visible s))
    end;
  begin_law (s : S) blob : match begin_multipart s blob with
    | (Done u, s') => kept None s s' /\ visible s' = visible s /\
        u ∉ issued s /\ u ∈ issued s' /\ sessions s' !! u = Some (blob, [])
    | (Fail _, s') => kept None s s' /\ visible s' = visible s
    end;
  write_part_law (s : S) u n b key ps : sessions s !! u = Some (key, ps) ->
    Forall (fun p => p.1 < n) ps ->
    match write_part s u n b with
    | (Done _, s') => kept (Some u) s s' /\ visible s' = visible s /\
        sessions s' !! u = Some (key, ps ++ [(n, b)])
    | (Fail _, s') => kept (Some u) s s' /\ visible s' = visible s
    end;
  commit_law (s : S) u cs key ps : sessions s !! u = Some (key, ps) -> map number cs = ps.*1 ->
    match commit_multipart s u cs with
    | (Done _, s') => kept (Some u) s s' /\ sessions s' !! u = None /\
        (visible s' = <[key := concat ps.*2]> (visible s) \/
         is_Some (visible s !! key) /\ visible s' = visible s)
    | (Fail _, s') => kept (Some u) s s' /\
        (visible s' = visible s \/ visible s' = <[key := concat ps.*2]> (visible s))
    end;
  abort_law (s : S) u : match abort_multipart s u with
    | (Done _, s') => kept (Some u) s s' /\ visible s' = visible s /\ sessions s' !! u = None
    | (Fail _, s') => kept (Some u) s s' /\ visible s' = visible s /\
        (sessions s !! u = None -> sessions s' !! u = None)
    end }.

(** * A store in memory

    Its faults are scheduled: each call takes the next one. *)

Inductive fault := NoFault | FailBefore | FailAfter.

Record MemStore := mkMem
  { mem_capabilities : StoreCapabilities;
    readable : bool;
    objects : gmap (list Z) (list Z);
    open_sessions : gmap UploadId (list Z * list (Z * list Z));
    minted : nat;
    faults : list fault }.

Definition next_fault (m : MemStore) : fault * MemStore :=
  match faults m with
  | [] => (NoFault, m)
  | f :: fs => (f, mkMem (mem_capabilities m) (readable m) (objects m) (open_sessions m) (minted m) fs)
  end.

(** A call with effect [m'] and answer [a] under the next fault. *)
Definition attempt {A} (m : MemStore) (effect : MemStore -> MemStore) (a : A) : stored A * MemStore :=
  match next_fault m with
  | (NoFault, m) => (Done a, effect m)
  | (FailBefore, m) => (Fail (mkStorageError Unavailable []), m)
  | (FailAfter, m) => (Fail (mkStorageError Unavailable []), effect m)
  end.

Definition put (k b : list Z) (m : MemStore) : MemStore :=
  mkMem (mem_capabilities m) (readable m) (<[k := b]> (objects m)) (open_sessions m) (minted m) (faults m).

Definition set_session (u : UploadId) (x : option (list Z * list (Z * list Z))) (m : MemStore) : MemStore :=
  mkMem (mem_capabilities m) (readable m) (objects m) (partial_alter (fun _ => x) u (open_sessions m))
    (minted m) (faults m).

(** The [n]-th handle. *)
Definition handle (n : nat) : UploadId := replicate (S n) 97.

Definition mint (blob : list Z) (m : MemStore) : MemStore :=
  mkMem (mem_capabilities m) (readable m) (objects m)
    (<[handle (minted m) := (blob, [])]> (open_sessions m)) (S (minted m)) (faults m).

Definition evidence (m : MemStore) (old : list Z) : ExistingObject :=
  if readable m then mkExisting (Some (zlen old)) (Some (digest old)) else mkExisting None None.

Definition malformed_call {A} (m : MemStore) : stored A * MemStore := (Fail (mkStorageError MalformedInput []), m).

#[export] Instance mem_store : RawWriteStore MemStore := {|
  capabilities := mem_capabilities;
  write_manifest m k b :=
    attempt m (put (manifest_text k) b) LogicallyCommittedUnknownPhysicalResult;
  create_manifest_if_absent m k b :=
    match objects m !! manifest_text k with
    | Some old => attempt m id (AlreadyExists (evidence m old))
    | None => attempt m (put (manifest_text k) b) CreatedNow
    end;
  begin_multipart m blob := attempt m (mint blob) (handle (minted m));
  write_part m u n b :=
    match open_sessions m !! u with
    | Some (key, ps) => attempt m (set_session u (Some (key, ps ++ [(n, b)]))) (mkCommitment n [97])
    | None => malformed_call m
    end;
  commit_multipart m u cs :=
    match open_sessions m !! u with
    | Some (key, ps) =>
        if bool_decide (map number cs = ps.*1) then
          attempt m (fun m => set_session u None (put key (concat ps.*2) m))
            (match objects m !! key with Some _ => ReplacedEquivalent | None => Created end)
        else malformed_call m
    | None => malformed_call m
    end;
  abort_multipart m u := attempt m (set_session u None) tt |}.

#[export] Instance mem_view : StoreView MemStore := {|
  visible := objects;
  sessions := open_sessions;
  issued m := list_to_set (map handle (seq 0 (minted m))) |}.

Lemma handle_inj n m : handle n = handle m -> n = m.
Proof. intros E. apply (f_equal length) in E. unfold handle in E. rewrite !length_replicate in E. lia. Qed.

Lemma handle_issued (m : MemStore) n : handle n ∈ issued m <-> (n < minted m)%nat.
Proof.
  cbn. rewrite elem_of_list_to_set, list_elem_of_fmap. split.
  - intros (k & ->%handle_inj & Hk%elem_of_seq). lia.
  - intros Hn. exists n. rewrite elem_of_seq. split; [done|lia].
Qed.

(** The state without its scheduled faults. *)
Definition same_view (m m1 : MemStore) : Prop :=
  objects m1 = objects m /\ open_sessions m1 = open_sessions m /\ minted m1 = minted m.

(** A call takes effect, or fails before or after it. *)
Lemma attempt_cases {A} (m : MemStore) (effect : MemStore -> MemStore) (a : A) :
  exists m1 e, same_view m m1 /\
    (attempt m effect a = (Done a, effect m1) \/
     attempt m effect a = (Fail e, m1) \/ attempt m effect a = (Fail e, effect m1)).
Proof.
  unfold attempt, next_fault. exists (match faults m with [] => m | _ :: fs =>
    mkMem (mem_capabilities m) (readable m) (objects m) (open_sessions m) (minted m) fs end),
    (mkStorageError Unavailable []).
  destruct (faults m) as [|[] fs]; (split; [done|auto]).
Qed.

Lemma evidence_truthful m old : truthful (evidence m old) old.
Proof. unfold truthful, evidence. destruct (readable m); split; intros ? [= <-]; done. Qed.

Ltac mem_call m f a :=
  let m1 := fresh "m1" in let e := fresh "e" in
  destruct (attempt_cases m f a) as (m1 & e & (? & ? & ?) & [-> | [-> | ->]]).

(** The laws are met: the hypotheses of the theorems on stores hold of this one. *)
#[export] Instance mem_lawful : LawfulStore MemStore.
Proof.
  assert (Hkept : forall u m m1 m2, same_view m m1 ->
    minted m2 = minted m1 -> (forall v, Some v <> u -> open_sessions m2 !! v = open_sessions m1 !! v) ->
    kept u m m2).
  { intros u m m1 m2 (_ & Hs & Hm) Hm2 Ho. split; cbn; [by rewrite Hm2, Hm|].
    intros v _ Hv. rewrite Ho by congruence. by rewrite Hs. }
  assert (Hset : forall u x m m1, same_view m m1 -> kept (Some u) m (set_session u x m1)).
  { intros u x m m1 Hm. eapply (Hkept _ _ m1); [done|done|]. intros v Hv. cbn.
    apply lookup_partial_alter_ne. congruence. }
  split.
  - intros m k b. cbn. mem_call m (put (manifest_text k) b) LogicallyCommittedUnknownPhysicalResult;
      (split; [by eapply Hkept|cbn]); [congruence|left; congruence|right; congruence].
  - intros m k b. cbn. destruct (objects m !! manifest_text k) as [old|] eqn:E.
    + mem_call m (@id MemStore) (AlreadyExists (evidence m old)); (split; [by eapply Hkept|]);
        [|by left|by left]. split; [done|]. exists old. split; [done|apply evidence_truthful].
    + mem_call m (put (manifest_text k) b) CreatedNow; (split; [by eapply Hkept|cbn]);
        [split; congruence|left; congruence|right; split; congruence].
  - intros m blob. cbn [begin_multipart mem_store].
    assert (Hmint : forall m1, same_view m m1 -> kept None m (mint blob m1)).
    { intros m1 (_ & Hs & Hm). split.
      - intros v. cbn -[seq]. rewrite Hm, !elem_of_list_to_set, !list_elem_of_fmap.
        intros (k & -> & Hk%elem_of_seq). exists k. rewrite elem_of_seq. split; [done|lia].
      - intros v Hv _. cbn. rewrite Hs. apply lookup_insert_ne. intros <-.
        rewrite Hm in Hv. apply handle_issued in Hv. lia. }
    mem_call m (mint blob) (handle (minted m)).
    + split_and!; [by apply Hmint|done| | |].
      * rewrite (handle_issued m). lia.
      * rewrite (handle_issued (mint blob m1)). cbn. lia.
      * cbn. replace (minted m) with (minted m1) by done. by rewrite lookup_insert_eq.
    + split; [by eapply Hkept|done].
    + split; [by apply Hmint|done].
  - intros m u n b key ps E Hps. cbn in *. rewrite E.
    mem_call m (set_session u (Some (key, ps ++ [(n, b)]))) (mkCommitment n [97]).
    + split_and!; [by apply Hset|done|]. cbn. by rewrite lookup_partial_alter_eq.
    + split; [by eapply Hkept|done].
    + split; [by apply Hset|done].
  - intros m u cs key ps E Hn. cbn in *. rewrite E, bool_decide_true by done.
    mem_call m (fun m => set_session u None (put key (concat ps.*2) m))
      (match objects m !! key with Some _ => ReplacedEquivalent | None => Created end).
    + split_and!; [|cbn; by rewrite lookup_partial_alter_eq|left; cbn; congruence].
      eapply (Hkept _ _ m1); [done|done|]. intros v Hv. cbn. apply lookup_partial_alter_ne. congruence.
    + split; [by eapply Hkept|by left].
    + split; [|right; cbn; congruence].
      eapply (Hkept _ _ m1); [done|done|]. intros v Hv. cbn. apply lookup_partial_alter_ne. congruence.
  - intros m u. cbn. mem_call m (set_session u None) tt.
    + split_and!; [by apply Hset|done|]. cbn. by rewrite lookup_partial_alter_eq.
    + split_and!; [by eapply Hkept|done|]. cbn. congruence.
    + split_and!; [by apply Hset|done|]. intros _. cbn. by rewrite lookup_partial_alter_eq.
Qed.
