(* ===== verification/Commit.v ===== *)
(** The commit path of the object store
    ([crates/archivist-storage/src/multipart.rs], [blob.rs], [commit.rs],
    [manifests.rs], [sequence.rs]): the streaming multipart writer, the
    content-addressed blob commit, the manifest commit decision, the two
    provenance manifests and the three-object sequence, as programs over the
    store.

    Dropping a writer is written out at each place it goes out of scope
    ([drop_writer]). *)

From stdpp Require Import gmap.
From S2P Require Import Prelude Text Json Sha256 Vocabulary ObjectKey Records Store.
From S2P Require Envelope.

(** * The streaming multipart writer *)

Definition PART_BYTES : Z := 8 * 1024 * 1024.

Definition malformed (detail : string) : StorageError := mkStorageError MalformedInput (lit detail).

Definition dead_session : StorageError := malformed "multipart session is no longer usable".
Definition finished_stream : StorageError := malformed "multipart stream already finished".
Definition unfinished_stream : StorageError := malformed "finish the stream before committing".
Definition empty_stream : StorageError :=
  malformed "an empty stream cannot complete a content-addressed object".

(** [MultipartWriterError], and [BlobCommitError] with the same two halves. *)
Record WriterError := mkWriterError { failure : StorageError; cleanup : option StorageError }.

Inductive Session := SessionOpen | SessionFlushed | SessionFailed.

Record MultipartWriter := mkWriter
  { upload : UploadId;
    blob : list Z;
    buffer : list Z;
    next_ordinal : Z;
    parts : list PartCommitment;
    uploaded_bytes : Z;
    session : Session;
    terminal : bool }.

Definition with_session (w : MultipartWriter) (x : Session) : MultipartWriter :=
  mkWriter (upload w) (blob w) (buffer w) (next_ordinal w) (parts w) (uploaded_bytes w) x (terminal w).

Definition with_terminal (w : MultipartWriter) : MultipartWriter :=
  mkWriter (upload w) (blob w) (buffer w) (next_ordinal w) (parts w) (uploaded_bytes w) (session w) true.

Definition with_buffer (w : MultipartWriter) (b : list Z) : MultipartWriter :=
  mkWriter (upload w) (blob w) b (next_ordinal w) (parts w) (uploaded_bytes w) (session w) (terminal w).

(** What a method on [&mut self] leaves. *)
Abbreviation step A := (prog (io WriterError A * MultipartWriter)).

(** [MultipartWriter::begin]. *)
Definition writer_begin (blob : list Z) : prog (io WriterError MultipartWriter) :=
  BeginMultipart blob (fun r =>
    match r with
    | Fail e => Ret (Fail (mkWriterError e None))
    | Done u => Register u (Ret (Done (mkWriter u blob [] 1 [] 0 SessionOpen false)))
    end).

(** [Drop for MultipartWriter]. *)
Definition drop_writer (w : MultipartWriter) : prog unit :=
  if terminal w then Ret tt else Abandon (upload w) (Ret tt).

Definition terminate_by_abort (w : MultipartWriter) : prog (stored unit * MultipartWriter) :=
  AbortMultipart (upload w) (fun r =>
    match r with
    | Done _ => Release (upload w) (Ret (Done tt, with_terminal w))
    | Fail e => Abandon (upload w) (Ret (Fail e, w))
    end).

Definition writer_fail (w : MultipartWriter) (failure : StorageError) : prog (WriterError * MultipartWriter) :=
  do rw <- terminate_by_abort (with_session w SessionFailed);
  Ret (mkWriterError failure (match rw.1 with Done _ => None | Fail e => Some e end), rw.2).

(** [Err(self.fail(failure).await)]. *)
Definition fail_with {A} (w : MultipartWriter) (failure : StorageError) : step A :=
  do ew <- writer_fail w failure; Ret (Fail ew.1, ew.2).

(** [part_ordinal]: [u16::try_from], then [PartNumber::new]. *)
Definition part_ordinal (next : Z) : option Z :=
  if next <=? 0xFFFF then PartNumber_new next else None.

Definition upload_part (w : MultipartWriter) (len : Z) : step unit :=
  match part_ordinal (next_ordinal w) with
  | None => fail_with w (malformed "part count exceeds the portable multipart bound")
  | Some n =>
      WritePart (upload w) n (take (Z.to_nat len) (buffer w)) (fun r =>
        match r with
        | Fail e => fail_with w e
        | Done c =>
            if negb (number c =? n)
            then fail_with w (malformed "backend returned a commitment for a different part")
            else Ret (Done tt,
                   mkWriter (upload w) (blob w) (drop (Z.to_nat len) (buffer w)) (next_ordinal w + 1)
                     (parts w ++ [c]) (uploaded_bytes w + len) (session w) (terminal w))
        end)
  end.

(** The [while offset < chunk.len()] loop: a turn takes at least one byte, so
    as many turns as the chunk has bytes are enough. *)
Fixpoint write_loop (fuel : nat) (w : MultipartWriter) (chunk : list Z) : step unit :=
  match chunk, fuel with
  | [], _ | _, O => Ret (Done tt, w)
  | _, S fuel' =>
      let n := Z.to_nat (Z.min (PART_BYTES - zlen (buffer w)) (zlen chunk)) in
      let w := with_buffer w (buffer w ++ take n chunk) in
      if zlen (buffer w) =? PART_BYTES then
        do rw <- upload_part w PART_BYTES;
        match rw.1 with
        | Done _ => write_loop fuel' rw.2 (drop n chunk)
        | Fail e => Ret (Fail e, rw.2)
        end
      else write_loop fuel' w (drop n chunk)
  end.

(** [MultipartWriter::write_chunk]. *)
Definition write_chunk (w : MultipartWriter) (chunk : list Z) : step unit :=
  match session w with
  | SessionFailed => Ret (Fail (mkWriterError dead_session None), w)
  | SessionFlushed => Ret (Fail (mkWriterError finished_stream None), w)
  | SessionOpen => write_loop (length chunk) w chunk
  end.

(** [MultipartWriter::finish]. *)
Definition writer_finish (w : MultipartWriter) : step unit :=
  match session w with
  | SessionFlushed => Ret (Done tt, w)
  | SessionFailed => Ret (Fail (mkWriterError dead_session None), w)
  | SessionOpen =>
      let tail := zlen (buffer w) in
      if 0 <? tail then
        do rw <- upload_part w tail;
        match rw.1 with
        | Done _ => Ret (Done tt, with_session rw.2 SessionFlushed)
        | Fail e => Ret (Fail e, rw.2)
        end
      else Ret (Done tt, with_session w SessionFlushed)
  end.

(** The body of [MultipartWriter::commit]; the writer it leaves is dropped. *)
Definition commit_body (w : MultipartWriter) : step StorageOutcome :=
  match session w with
  | SessionFailed => Ret (Fail (mkWriterError dead_session None), w)
  | _ =>
      if negb (length (buffer w) =? 0)%nat then fail_with w unfinished_stream
      else if (length (parts w) =? 0)%nat then fail_with w empty_stream
      else
        CommitMultipart (upload w) (parts w) (fun r =>
          match r with
          | Done outcome => Release (upload w) (Ret (Done outcome, with_terminal w))
          | Fail e => fail_with w e
          end)
  end.

Definition writer_commit (w : MultipartWriter) : prog (io WriterError StorageOutcome) :=
  do rw <- commit_body w; do _ <- drop_writer rw.2; Ret rw.1.

(** [MultipartWriter::abort]. *)
Definition writer_abort (w : MultipartWriter) : prog (stored unit) :=
  do rw <- terminate_by_abort w; do _ <- drop_writer rw.2; Ret rw.1.

(** [OpenUploads::abort_abandoned]. *)
Fixpoint abort_each (targets : list UploadId) : prog (list (UploadId * StorageError)) :=
  match targets with
  | [] => Ret []
  | u :: targets =>
      AbortMultipart u (fun r =>
        match r with
        | Done _ => Release u (abort_each targets)
        | Fail e => do failures <- abort_each targets; Ret ((u, e) :: failures)
        end)
  end.

Definition abort_abandoned : prog (list (UploadId * StorageError)) :=
  ListAbandoned (fun targets => abort_each targets).

(** * The blob commit *)

Record BlobExpectation := mkExpectation { content : list Z; expected_bytes : Z }.

Record BlobCommit := mkBlobCommit
  { blob_key : list Z;
    blob_outcome : StorageOutcome;
    uncompressed_bytes : Z;
    stored_bytes : Z;
    blob_stored_sha256 : list Z;
    part_count : nat }.

(** The trait [BlobEncoder]. *)
Class BlobEncoder (E : Type) := {
  encode_update : E -> list Z -> stored (list Z * E);
  encode_finish : E -> stored (list Z) }.

(** What the loop of [commit_blob] threads. *)
Record Streaming (E : Type) := mkStreaming
  { writer : MultipartWriter;
    encoder : E;
    canonical_hasher : Sha256;
    canonical_bytes : Z;
    stored_hasher : Sha256;
    drained_bytes : Z }.
Arguments mkStreaming {E} _ _ _ _ _ _.
Arguments writer {E} _.
Arguments encoder {E} _.
Arguments canonical_hasher {E} _.
Arguments canonical_bytes {E} _.
Arguments stored_hasher {E} _.
Arguments drained_bytes {E} _.

Section Blob.
Context {E : Type} `{BlobEncoder E}.

(** [Err(abort_writer(writer, failure).await)]. *)
Definition abort_writer {A} (w : MultipartWriter) (failure : StorageError) : prog (io WriterError A) :=
  do r <- writer_abort w;
  Ret (Fail (mkWriterError failure (match r with Done _ => None | Fail e => Some e end))).

(** [drain_encoded(..).await?]: a failed writer is dropped by the caller's
    return. *)
Definition drain_encoded (x : Streaming E) (encoded : list Z) : prog (io WriterError (Streaming E)) :=
  match encoded with
  | [] => Ret (Done x)
  | _ =>
      do rw <- write_chunk (writer x) encoded;
      match rw.1 with
      | Done _ =>
          Ret (Done (mkStreaming rw.2 (encoder x) (canonical_hasher x) (canonical_bytes x)
            (update (stored_hasher x) encoded) (sat_add64 (drained_bytes x) (zlen encoded))))
      | Fail e => do _ <- drop_writer rw.2; Ret (Fail e)
      end
  end.

(** The [for chunk in canonical] loop. *)
Fixpoint stream_chunks (x : Streaming E) (canonical : list (list Z)) : prog (io WriterError (Streaming E)) :=
  match canonical with
  | [] => Ret (Done x)
  | chunk :: canonical =>
      let hasher := update (canonical_hasher x) chunk in
      let bytes := sat_add64 (canonical_bytes x) (zlen chunk) in
      match encode_update (encoder x) chunk with
      | Fail failure => abort_writer (writer x) failure
      | Done (encoded, enc) =>
          try x <- drain_encoded
            (mkStreaming (writer x) enc hasher bytes (stored_hasher x) (drained_bytes x)) encoded;
          stream_chunks x canonical
      end
  end.

(** From the end of the stream on. *)
Definition complete_blob (key : list Z) (expectation : BlobExpectation) (x : Streaming E)
    : prog (io WriterError BlobCommit) :=
  do rw <- writer_finish (writer x);
  let w := rw.2 in
  match rw.1 with
  | Fail e => do _ <- drop_writer w; Ret (Fail e)
  | Done _ =>
      if negb (bool_decide (finalize (canonical_hasher x) = content expectation))
      then abort_writer w (mkStorageError IntegrityConflict
             (lit "computed canonical digest does not match the declared blob digest"))
      else if negb (canonical_bytes x =? expected_bytes expectation)
      then abort_writer w (malformed "decoded canonical size does not match the declared size")
      else
        do r <- writer_commit w;
        Ret (match r with
             | Done outcome =>
                 Done (mkBlobCommit key outcome (canonical_bytes x) (drained_bytes x)
                         (finalize (stored_hasher x)) (length (parts w)))
             | Fail e => Fail e
             end)
  end.

Definition commit_blob (tenant : list Z) (expectation : BlobExpectation) (enc : E)
    (canonical : list (list Z)) : prog (io WriterError BlobCommit) :=
  let key := BlobObjectKey_new tenant ZstdV1 (content expectation) in
  try w <- writer_begin key;
  try x <- stream_chunks (mkStreaming w enc new 0 new 0) canonical;
  match encode_finish (encoder x) with
  | Fail failure => abort_writer (writer x) failure
  | Done tail =>
      try x <- drain_encoded x tail;
      complete_blob key expectation x
  end.
End Blob.

(** * The manifest commit decision *)

(** [bounded_manifest_bytes]. *)
Definition bounded_manifest_bytes (bytes : list Z) : stored unit :=
  match bytes with
  | [] => Fail (malformed "manifest bytes are empty")
  | _ => if Envelope.CANONICAL_MAX_BYTES <? zlen bytes
         then Fail (malformed "manifest exceeds the canonical document bound") else Done tt
  end.

Definition put_manifest (k : ManifestKey) (bytes : list Z) : prog (stored StorageOutcome) :=
  match bounded_manifest_bytes bytes with
  | Fail e => Ret (Fail e)
  | Done _ => WriteManifest k bytes Ret
  end.

Inductive ExistingCompatibility := Equivalent | Contradicts | Unproven.

Definition classify_existing (existing : ExistingObject) (bytes : list Z) : ExistingCompatibility :=
  match stored_sha256 existing with
  | Some d => if bool_decide (d = digest bytes) then Equivalent else Contradicts
  | None =>
      match size existing with
      | Some n => if n =? zlen bytes then Unproven else Contradicts
      | None => Unproven
      end
  end.

Definition commit_by_conditional_create (k : ManifestKey) (bytes : list Z) : prog (stored StorageOutcome) :=
  match bounded_manifest_bytes bytes with
  | Fail e => Ret (Fail e)
  | Done _ =>
      Capabilities (fun c =>
        if negb (bool_decide (conditional_create c = CreateSupported))
        then Ret (Fail (mkStorageError CapabilityUnavailable
               (lit "conditional create is not a reported capability of this store")))
        else
          CreateManifest k bytes (fun r =>
            Ret (match r with
                 | Fail e => Fail e
                 | Done CreatedNow => Done Created
                 | Done (AlreadyExists existing) =>
                     match classify_existing existing bytes with
                     | Equivalent => Done AlreadyPresent
                     | Contradicts => Fail (mkStorageError IntegrityConflict
                         (lit "existing object at the derived key is incompatible with the committed bytes"))
                     | Unproven => Done LogicallyCommittedUnknownPhysicalResult
                     end
                 end)))
  end.

Definition commit_by_deterministic_overwrite (k : ManifestKey) (bytes : list Z)
    : prog (stored StorageOutcome) :=
  try _ <- put_manifest k bytes; Ret (Done LogicallyCommittedUnknownPhysicalResult).

Definition commit_manifest (k : ManifestKey) (bytes : list Z) : prog (stored StorageOutcome) :=
  Capabilities (fun c =>
    match conditional_create c with
    | CreateSupported => commit_by_conditional_create k bytes
    | CreateUnavailable => commit_by_deterministic_overwrite k bytes
    end).

(** * The provenance manifests *)

Definition OCCURRENCE_VERSION : Z := 1.
Definition ATTESTATION_VERSION : Z := 1.

Inductive Delegation := Direct | Relay.

Definition delegation_token (d : Delegation) : list Z :=
  match d with Direct => lit "direct" | Relay => lit "relay" end.

Record ManifestCommit := mkManifestCommit { manifest_key : ManifestKey; manifest_outcome : StorageOutcome }.

Section Manifests.
Import Envelope.

Definition verified_occurrence_id (e : Envelope) : stored (list Z) :=
  if bool_decide (occurrence_id e = rederive_occurrence_id e) then Done (rederive_occurrence_id e)
  else Fail (mkStorageError IntegrityConflict
         (lit "declared occurrence_id does not match the server-side re-derivation")).

Definition verified_attestation_identity (e : Envelope) : stored (list Z * list Z) :=
  match verified_occurrence_id e with
  | Fail x => Fail x
  | Done occurrence =>
      if bool_decide (attestation_id e = rederive_attestation_id e)
      then Done (occurrence, rederive_attestation_id e)
      else Fail (mkStorageError IntegrityConflict
             (lit "declared attestation_id does not match the server-side re-derivation"))
  end.

(** The members in the order they are set; the integers of a parsed envelope
    fit, so [u63] does not panic. *)
Definition occurrence_manifest_fields (e : Envelope) (occurrence session : list Z)
    : list (list Z * option Value) :=
  [(lit "adapter_artifact_id", Some (VText (adapter_artifact_id e)));
   (lit "adapter_id", Some (VText (adapter_id e)));
   (lit "adapter_projection_version", Some (VText (adapter_projection_version e)));
   (lit "artifact_hash", Some (VText (to_hex (rederive_artifact_hash e))));
   (lit "artifact_kind", Some (VText (token (artifact_kind e))));
   (lit "blob_digest", Some (VText (to_hex (blob_digest e))));
   (lit "generation", Some (VText (generation e)));
   (lit "harness", Some (VText (harness e)));
   (lit "id_source", Some (VText (token (id_source e))));
   (lit "occurrence_id", Some (VText (to_hex occurrence)));
   (lit "occurrence_version", Some (VInt OCCURRENCE_VERSION));
   (lit "origin_client_id", Some (VText (origin_client_id e)));
   (lit "range_end", Some (VInt (range_end e)));
   (lit "range_kind", Some (VText (token (range_kind e))));
   (lit "range_start", Some (VInt (range_start e)));
   (lit "session_hash", Some (VText (to_hex session)));
   (lit "source_time", VText <$> source_time e);
   (lit "storage_profile", Some (VText (token (storage_profile e))));
   (lit "tenant_id", Some (VText (tenant_id e)));
   (lit "upstream_session_id", Some (VText (upstream_session_id e)))].

Definition occurrence_manifest_value (e : Envelope) (occurrence session : list Z) : Value :=
  VObject (set_members (occurrence_manifest_fields e occurrence session) []).

Definition attestation_manifest_fields (e : Envelope) (d : Delegation) (occurrence attestation : list Z)
    : list (list Z * option Value) :=
  [(lit "attestation_id", Some (VText (to_hex attestation)));
   (lit "attestation_version", Some (VInt ATTESTATION_VERSION));
   (lit "capture_time", Some (VText (capture_time e)));
   (lit "delegation", Some (VText (delegation_token d)));
   (lit "envelope_creation_time", Some (VText (envelope_creation_time e)));
   (lit "occurrence_id", Some (VText (to_hex occurrence)));
   (lit "origin_client_id", Some (VText (origin_client_id e)));
   (lit "request_id", Some (VText (request_id e)));
   (lit "tenant_id", Some (VText (tenant_id e)));
   (lit "uploader_client_id", Some (VText (uploader_client_id e)))].

Definition attestation_manifest_value (e : Envelope) (d : Delegation) (occurrence attestation : list Z)
    : Value :=
  VObject (set_members (attestation_manifest_fields e d occurrence attestation) []).

Definition commit_at_key (k : ManifestKey) (bytes : list Z) : prog (stored ManifestCommit) :=
  try outcome <- commit_manifest k bytes; Ret (Done (mkManifestCommit k outcome)).

Definition commit_occurrence_manifest (e : Envelope) : prog (stored ManifestCommit) :=
  match verified_occurrence_id e with
  | Fail x => Ret (Fail x)
  | Done occurrence =>
      let session := rederive_session_hash e in
      let key := OccurrenceObjectKey_new (tenant_id e) (origin_client_id e) (harness e) session occurrence in
      commit_at_key (OccurrenceKey key)
        (Json.canonical_bytes (occurrence_manifest_value e occurrence session))
  end.

Definition consistent (d : Delegation) (e : Envelope) : bool :=
  match d with
  | Direct => bool_decide (uploader_client_id e = origin_client_id e)
  | Relay => negb (bool_decide (uploader_client_id e = origin_client_id e))
  end.

Definition commit_attestation_manifest (e : Envelope) (d : Delegation) : prog (stored ManifestCommit) :=
  match verified_attestation_identity e with
  | Fail x => Ret (Fail x)
  | Done (occurrence, attestation) =>
      if negb (consistent d e)
      then Ret (Fail (malformed "delegation relation contradicts the envelope's uploader and origin clients"))
      else
        commit_at_key (AttestationKey (AttestationObjectKey_new (tenant_id e) occurrence attestation))
          (Json.canonical_bytes (attestation_manifest_value e d occurrence attestation))
  end.

(** * The three-object sequence *)

Inductive DurableState := NothingDurable | BlobOnly | BlobAndOccurrence.

Record SequenceError := mkSequenceError
  { durable : DurableState; seq_failure : StorageError; seq_cleanup : option StorageError }.

Record ProvenanceCommit := mkProvenance { occurrence_commit : ManifestCommit; attestation_commit : ManifestCommit }.
Record SequenceCommit := mkSequenceCommit { blob_commit : BlobCommit; provenance : ProvenanceCommit }.

Definition commit_provenance (e : Envelope) (d : Delegation) : prog (io SequenceError ProvenanceCommit) :=
  do r <- commit_occurrence_manifest e;
  match r with
  | Fail x => Ret (Fail (mkSequenceError BlobOnly x None))
  | Done occurrence =>
      do r <- commit_attestation_manifest e d;
      match r with
      | Fail x => Ret (Fail (mkSequenceError BlobAndOccurrence x None))
      | Done attestation => Ret (Done (mkProvenance occurrence attestation))
      end
  end.

Definition commit_sequence {E} `{BlobEncoder E} (e : Envelope) (d : Delegation) (enc : E)
    (canonical : list (list Z)) : prog (io SequenceError SequenceCommit) :=
  do r <- commit_blob (tenant_id e) (mkExpectation (blob_digest e) (uncompressed_size e)) enc canonical;
  match r with
  | Fail x => Ret (Fail (mkSequenceError NothingDurable (failure x) (cleanup x)))
  | Done blob =>
      try provenance <- commit_provenance e d;
      Ret (Done (mkSequenceCommit blob provenance))
  end.
End Manifests.
