(* ===== verification/Pool.v ===== *)
(** Tasks on one store ([crates/archivist-storage/src/multipart.rs]: the writer's
    [Drop], [OpenUploads]; the interleavings of an async runtime).

    Any number of tasks run programs on one store and one registry, interleaved
    at every shared operation; a task can be dropped at an awaited store call,
    whose effect may or may not have happened.  [safe] is a rely-guarantee
    judgement on programs: it follows what a task owns (the session it opened)
    and what it knows of the store that no other task can undo, and asks of each
    write that it is [allowed].  [inv_reachable] is its soundness, for every store
    that meets [LawfulStore] and every property that allowed writes preserve. *)

From stdpp Require Import gmap functions.
From S2P Require Import Prelude Text Vocabulary Store Commit.

Open Scope prog_scope.

(** * Tasks *)

Record task (A : Type) := mkTask { held : option UploadId; code : prog A }.
Arguments mkTask {A} _ _.
Arguments held {A} _.
Arguments code {A} _.

Record pool (S A : Type) := mkPool
  { store : S;
    registry : Registry;
    tasks : gmap nat (task A);
    registered : gset UploadId }.
Arguments mkPool {S A} _ _ _ _.
Arguments store {S A} _.
Arguments registry {S A} _.
Arguments tasks {S A} _.
Arguments registered {S A} _.

Section Steps.
Context {S A : Type} `{RawWriteStore S}.

(** The store after the awaited call of a program, and the program after it;
    [None] when its next operation is not awaited. *)
Definition await (p : prog A) (s : S) : option (prog A * S) :=
  match p with
  | WriteManifest k b next => let '(x, s) := write_manifest s k b in Some (next x, s)
  | CreateManifest k b next => let '(x, s) := create_manifest_if_absent s k b in Some (next x, s)
  | BeginMultipart blob next => let '(x, s) := begin_multipart s blob in Some (next x, s)
  | WritePart u n b next => let '(x, s) := write_part s u n b in Some (next x, s)
  | CommitMultipart u ps next => let '(x, s) := commit_multipart s u ps in Some (next x, s)
  | AbortMultipart u next => let '(x, s) := abort_multipart s u in Some (next x, s)
  | _ => None
  end.

(** Dropping a task drops its writer. *)
Definition drop_held (h : option UploadId) (r : Registry) : Registry :=
  match h with Some u => abandon u r | None => r end.

(** The programs a pool starts. *)
Variable spawnable : prog A -> Prop.

Inductive pool_step : pool S A -> pool S A -> Prop :=
| step_spawn s r ts g i p : ts !! i = None -> spawnable p ->
    pool_step (mkPool s r ts g) (mkPool s r (<[i := mkTask None p]> ts) g)
| step_await s r ts g i h p p' s' : ts !! i = Some (mkTask h p) -> await p s = Some (p', s') ->
    pool_step (mkPool s r ts g) (mkPool s' r (<[i := mkTask h p']> ts) g)
| step_capabilities s r ts g i h next : ts !! i = Some (mkTask h (Capabilities next)) ->
    pool_step (mkPool s r ts g) (mkPool s r (<[i := mkTask h (next (capabilities s))]> ts) g)
| step_register s r ts g i h u next : ts !! i = Some (mkTask h (Register u next)) ->
    pool_step (mkPool s r ts g)
      (mkPool s (register u r) (<[i := mkTask (Some u) next]> ts) ({[u]} ∪ g))
| step_release s r ts g i h u next : ts !! i = Some (mkTask h (Release u next)) ->
    pool_step (mkPool s r ts g)
      (mkPool s (release u r) (<[i := mkTask (if bool_decide (h = Some u) then None else h) next]> ts) g)
| step_abandon s r ts g i h u next : ts !! i = Some (mkTask h (Abandon u next)) ->
    pool_step (mkPool s r ts g) (mkPool s (abandon u r) (<[i := mkTask h next]> ts) g)
| step_list s r ts g i h next : ts !! i = Some (mkTask h (ListAbandoned next)) ->
    pool_step (mkPool s r ts g) (mkPool s r (<[i := mkTask h (next (abandoned_uploads r))]> ts) g)
| step_cancel s r ts g i h p p' s' : ts !! i = Some (mkTask h p) -> await p s = Some (p', s') ->
    pool_step (mkPool s r ts g) (mkPool s (drop_held h r) (delete i ts) g)
| step_cancel_late s r ts g i h p p' s' : ts !! i = Some (mkTask h p) -> await p s = Some (p', s') ->
    pool_step (mkPool s r ts g) (mkPool s' (drop_held h r) (delete i ts) g).

(** Pools that start with no task and no session registered. *)
Inductive pool_reachable (s0 : S) : pool S A -> Prop :=
| pool_start : pool_reachable s0 (mkPool s0 [] ∅ ∅)
| pool_next P P' : pool_reachable s0 P -> pool_step P P' -> pool_reachable s0 P'.
End Steps.

(** A task of a pool can run to its end. *)
Lemma pool_runs {S A} `{RawWriteStore S} (spawnable : prog A -> Prop) (s0 s : S) r ts g i h p :
  pool_reachable spawnable s0 (mkPool s r (<[i := mkTask h p]> ts) g) ->
  let '(a, s', r') := run p s r in
  exists h' g', pool_reachable spawnable s0 (mkPool s' r' (<[i := mkTask h' (Ret a)]> ts) g').
Proof.
  assert (Hgo : forall s r g t s1 r1 g1 t1, pool_reachable spawnable s0 (mkPool s r (<[i := t]> ts) g) ->
    pool_step spawnable (mkPool s r (<[i := t]> ts) g) (mkPool s1 r1 (<[i := t1]> (<[i := t]> ts)) g1) ->
    pool_reachable spawnable s0 (mkPool s1 r1 (<[i := t1]> ts) g1)).
  { intros s1 r1 g1 t s2 r2 g2 t2 HP Hstep. rewrite <- (insert_insert_eq ts i t2 t). by eapply pool_next. }
  revert s r g h. induction p as [a|k b next IH|k b next IH|blob next IH|u n b next IH|u ps next IH|u next IH|next IH
    |u next IH|u next IH|u next IH|next IH]; intros s r g h HP; cbn [run]; [by exists h, g|..].
  - destruct (write_manifest s k b) as [x s1] eqn:Ecall. eapply IH, Hgo, step_await; [exact HP|apply lookup_insert_eq|].
    cbn. by rewrite Ecall.
  - destruct (create_manifest_if_absent s k b) as [x s1] eqn:Ecall. eapply IH, Hgo, step_await; [exact HP|apply lookup_insert_eq|].
    cbn. by rewrite Ecall.
  - destruct (begin_multipart s blob) as [x s1] eqn:Ecall. eapply IH, Hgo, step_await; [exact HP|apply lookup_insert_eq|].
    cbn. by rewrite Ecall.
  - destruct (write_part s u n b) as [x s1] eqn:Ecall. eapply IH, Hgo, step_await; [exact HP|apply lookup_insert_eq|].
    cbn. by rewrite Ecall.
  - destruct (commit_multipart s u ps) as [x s1] eqn:Ecall. eapply IH, Hgo, step_await; [exact HP|apply lookup_insert_eq|].
    cbn. by rewrite Ecall.
  - destruct (abort_multipart s u) as [x s1] eqn:Ecall. eapply IH, Hgo, step_await; [exact HP|apply lookup_insert_eq|].
    cbn. by rewrite Ecall.
  - eapply IH, Hgo, step_capabilities; [exact HP|apply lookup_insert_eq].
  - eapply IH, Hgo, step_register; [exact HP|apply lookup_insert_eq].
  - eapply IH, Hgo, step_release; [exact HP|apply lookup_insert_eq].
  - eapply IH, Hgo, step_abandon; [exact HP|apply lookup_insert_eq].
  - eapply IH, Hgo, step_list; [exact HP|apply lookup_insert_eq].
Qed.

Lemma insert_stands (vis : gmap (list Z) (list Z)) k b k' : is_Some (vis !! k') -> is_Some (<[k := b]> vis !! k').
Proof. intros Hk. destruct (decide (k = k')) as [->|]; [by rewrite lookup_insert_eq|by rewrite lookup_insert_ne]. Qed.

(** * The judgement *)

(** What a task holds: the session it opened, if any. *)
Inductive status :=
| Fresh (blob : list Z)
| Holding (key : list Z) (ps : list (Z * list Z))
| Spoiled
| Closed
| Orphaned.

Abbreviation own := (option (UploadId * status)).

(** What a task knows: keys where an object stands, uploads closed for good, and
    uploads no task will write to again. *)
Record facts := mkFacts
  { standing : gset (list Z); closed : gset UploadId; dead : gset UploadId }.

Definition no_facts : facts := mkFacts ∅ ∅ ∅.
Definition stand (k : list Z) (F : facts) : facts := mkFacts ({[k]} ∪ standing F) (closed F) (dead F).
Definition close_upload (u : UploadId) (F : facts) : facts :=
  mkFacts (standing F) ({[u]} ∪ closed F) (dead F).
Definition bury (us : list UploadId) (F : facts) : facts :=
  mkFacts (standing F) (closed F) (list_to_set us ∪ dead F).

Lemma stand_same k F : k ∈ standing (stand k F).
Proof. apply elem_of_union_l. by apply elem_of_singleton. Qed.

Lemma stand_more k k' F : k ∈ standing F -> k ∈ standing (stand k' F).
Proof. apply elem_of_union_r. Qed.

Section Judgement.
(** [allowed F k b]: [b] may be written at [k] by a task that knows [F]. *)
Variable allowed : facts -> list Z -> list Z -> Prop.

(** The parts of a session: numbered from one, full but for the last. *)
Record next_part (ps : list (Z * list Z)) (n : Z) (b : list Z) : Prop := {
  np_number : n = 1 + zlen ps;
  np_bound : n <= PART_NUMBER_MAX;
  np_above : Forall (fun p => p.1 < n) ps;
  np_full : Forall (fun p => zlen p.2 = PART_BYTES) ps;
  np_size : 0 < zlen b <= PART_BYTES }.

Fixpoint safe {A} (Q : A -> own -> facts -> Prop) (p : prog A) (o : own) (F : facts) : Prop :=
  match p with
  | Ret a => Q a o F
  | WriteManifest k b next => o = None /\ allowed F (manifest_text k) b /\
      (forall x, safe Q (next (Done x)) None (stand (manifest_text k) F)) /\
      (forall x, safe Q (next (Fail x)) None F)
  | CreateManifest k b next => o = None /\ allowed F (manifest_text k) b /\
      (forall x, safe Q (next (Done x)) None (stand (manifest_text k) F)) /\
      (forall x, safe Q (next (Fail x)) None F)
  | BeginMultipart blob next => o = None /\
      (forall u, safe Q (next (Done u)) (Some (u, Fresh blob)) F) /\
      (forall x, safe Q (next (Fail x)) None F)
  | WritePart u n b next => exists key ps, o = Some (u, Holding key ps) /\ next_part ps n b /\
      (forall c, safe Q (next (Done c)) (Some (u, Holding key (ps ++ [(n, b)]))) F) /\
      (forall x, safe Q (next (Fail x)) (Some (u, Spoiled)) F)
  | CommitMultipart u cs next => exists key ps, o = Some (u, Holding key ps) /\
      map number cs = ps.*1 /\ allowed F key (concat ps.*2) /\
      (forall x, safe Q (next (Done x)) (Some (u, Closed)) (stand key F)) /\
      (forall x, safe Q (next (Fail x)) (Some (u, Spoiled)) F)
  | AbortMultipart u next =>
      (exists st, o = Some (u, st) /\ (st = Spoiled \/ exists key ps, st = Holding key ps) /\
         (forall x, safe Q (next (Done x)) (Some (u, Closed)) F) /\
         (forall x, safe Q (next (Fail x)) (Some (u, Spoiled)) F)) \/
      (o = None /\ u ∈ dead F /\
         (forall x, safe Q (next (Done x)) None (close_upload u F)) /\
         (forall x, safe Q (next (Fail x)) None F))
  | Capabilities next => forall c, safe Q (next c) o F
  | Register u next => exists blob, o = Some (u, Fresh blob) /\ safe Q next (Some (u, Holding blob [])) F
  | Release u next =>
      (o = Some (u, Closed) /\ safe Q next None F) \/ (o = None /\ u ∈ closed F /\ safe Q next None F)
  | Abandon u next => (exists st, o = Some (u, st) /\ st <> Closed /\ forall blob, st <> Fresh blob) /\
      safe Q next (Some (u, Orphaned)) F
  | ListAbandoned next => forall us, safe Q (next us) o (bury us F)
  end.

Lemma safe_bind {A B} (Q : B -> own -> facts -> Prop) (p : prog A) (k : A -> prog B) o F :
  safe (fun a o F => safe Q (k a) o F) p o F -> safe Q (pbind p k) o F.
Proof.
  revert o F. induction p; intros o F; cbn [safe pbind]; naive_solver eauto 10.
Qed.

Lemma safe_mono {A} (Q Q' : A -> own -> facts -> Prop) (p : prog A) o F :
  (forall a o F, Q a o F -> Q' a o F) -> safe Q p o F -> safe Q' p o F.
Proof.
  intros HQ. revert o F. induction p; intros o F; cbn [safe]; naive_solver eauto 10.
Qed.
End Judgement.

(** * Soundness *)

Definition in_registry (u : UploadId) (r : Registry) : Prop := u ∈ map entry_upload r.

Definition is_abandoned (u : UploadId) (r : Registry) : Prop := u ∈ abandoned_uploads r.

Lemma is_abandoned_iff u r : is_abandoned u r <-> mkEntry u true ∈ r.
Proof.
  unfold is_abandoned, abandoned_uploads. rewrite list_elem_of_fmap. split.
  - intros ([v b] & -> & Hin). apply list_elem_of_In, filter_In in Hin as [Hin Hb]. cbn in Hb. subst b.
    by apply list_elem_of_In.
  - intros Hin. exists (mkEntry u true). split; [done|]. apply list_elem_of_In, filter_In.
    split; [by apply list_elem_of_In|done].
Qed.

Lemma in_release u v r : in_registry u (release v r) <-> in_registry u r /\ u <> v.
Proof.
  unfold in_registry, release. rewrite !list_elem_of_fmap. split.
  - intros (e & -> & Hin). apply list_elem_of_In, filter_In in Hin as [Hin Hb].
    apply negb_true_iff, bool_decide_eq_false in Hb. split; [|done]. exists e. split; [done|by apply list_elem_of_In].
  - intros [(e & -> & Hin) Hne]. exists e. split; [done|]. apply list_elem_of_In, filter_In.
    split; [by apply list_elem_of_In|]. by apply negb_true_iff, bool_decide_eq_false.
Qed.

Lemma abandoned_release u v r : is_abandoned u (release v r) <-> is_abandoned u r /\ u <> v.
Proof.
  rewrite !is_abandoned_iff. unfold release. rewrite list_elem_of_In, filter_In, <- list_elem_of_In.
  by rewrite negb_true_iff, bool_decide_eq_false.
Qed.

Lemma in_abandon u v r : in_registry u (abandon v r) <-> in_registry u r.
Proof.
  unfold in_registry. induction r as [|e r IH]; [done|]. cbn [abandon].
  case_bool_decide as E; cbn [map entry_upload]; [by rewrite E|]. by rewrite !elem_of_cons, IH.
Qed.

Lemma abandon_uploads v r : map entry_upload (abandon v r) = map entry_upload r.
Proof. induction r as [|e r IH]; [done|]. cbn [abandon]. case_bool_decide as E; cbn; congruence. Qed.

Lemma abandoned_abandon u v r : is_abandoned u (abandon v r) -> is_abandoned u r \/ u = v.
Proof.
  rewrite !is_abandoned_iff. induction r as [|e r IH]; [by left|]. cbn [abandon].
  case_bool_decide as E; rewrite !elem_of_cons; naive_solver.
Qed.

Lemma abandon_marks v r : in_registry v r -> is_abandoned v (abandon v r).
Proof.
  rewrite is_abandoned_iff. unfold in_registry. induction r as [|e r IH]; [by intros ?%elem_of_nil|].
  cbn [abandon map]. rewrite elem_of_cons. case_bool_decide as E; [by left|].
  intros [->|Hr]; [done|]. right. auto.
Qed.

Lemma abandon_keeps u v r : is_abandoned u r -> is_abandoned u (abandon v r).
Proof.
  rewrite !is_abandoned_iff. induction r as [|[w b] r IH]; [done|]. cbn [abandon entry_upload].
  case_bool_decide as E; rewrite !elem_of_cons; naive_solver.
Qed.

Lemma in_register u v r : in_registry u (register v r) <-> in_registry u r \/ u = v.
Proof. unfold in_registry, register. rewrite map_app, elem_of_app. cbn. by rewrite list_elem_of_singleton. Qed.

Lemma abandoned_register u v r : is_abandoned u (register v r) <-> is_abandoned u r.
Proof.
  rewrite !is_abandoned_iff. unfold register. rewrite elem_of_app, list_elem_of_singleton. naive_solver.
Qed.

Definition live_status (st : status) : Prop := st = Spoiled \/ exists key ps, st = Holding key ps.

Section Soundness.
Context {S : Type} `{LawfulStore S} {A : Type}.
Implicit Types (s : S) (ts : gmap nat (task A)) (ann : nat -> own) (fs : nat -> facts).

Definition own_ok s (g : gset UploadId) (h : option UploadId) (o : own) : Prop :=
  match o with
  | None => h = None
  | Some (u, st) => u ∈ issued s /\
      match st with
      | Fresh blob => sessions s !! u = Some (blob, []) /\ h = None /\ u ∉ g
      | Holding key ps => sessions s !! u = Some (key, ps) /\ h = Some u /\ u ∈ g
      | Closed => sessions s !! u = None /\ h = Some u /\ u ∈ g
      | Spoiled | Orphaned => h = Some u /\ u ∈ g
      end
  end.

Definition dead_upload s ann (u : UploadId) : Prop :=
  u ∈ issued s /\ forall i st, ann i = Some (u, st) -> st = Orphaned.

Record facts_ok s ann (F : facts) : Prop := {
  fo_standing : forall k, k ∈ standing F -> is_Some (visible s !! k);
  fo_closed : forall u, u ∈ closed F -> u ∈ issued s /\ sessions s !! u = None;
  fo_dead : forall u, u ∈ dead F -> dead_upload s ann u }.

Variable allowed : facts -> list Z -> list Z -> Prop.
Variable Q : A -> own -> facts -> Prop.
Abbreviation safe := (safe allowed).

(** What allowed writes preserve. *)
Variable vis_ok : gmap (list Z) (list Z) -> Prop.
Hypothesis write_ok : forall vis F k b, vis_ok vis -> (forall k, k ∈ standing F -> is_Some (vis !! k)) ->
  allowed F k b -> vis_ok (<[k := b]> vis).

Record inv (P : pool S A) ann fs : Prop := {
  inv_visible : vis_ok (visible (store P));
  inv_safe : forall i t, tasks P !! i = Some t -> safe Q (code t) (ann i) (fs i);
  inv_none : forall i, tasks P !! i = None -> ann i = None;
  inv_own : forall i t, tasks P !! i = Some t -> own_ok (store P) (registered P) (held t) (ann i);
  inv_facts : forall i, facts_ok (store P) ann (fs i);
  inv_disjoint : forall i j u st st', ann i = Some (u, st) -> ann j = Some (u, st') -> i = j;
  inv_issued : registered P ⊆ issued (store P);
  inv_entries : forall u, in_registry u (registry P) -> u ∈ registered P;
  inv_abandoned : forall u, is_abandoned u (registry P) -> dead_upload (store P) ann u;
  inv_tracked : forall u, u ∈ registered P -> is_Some (sessions (store P) !! u) ->
    in_registry u (registry P) /\
    (is_abandoned u (registry P) \/ exists i st, ann i = Some (u, st) /\ live_status st) }.

(** An upload that no task writes to stays so when one task's ownership changes,
    unless it acquires it. *)
Lemma dead_frame s s' ann i o' u : dead_upload s ann u -> issued s ⊆ issued s' ->
  (forall v st, o' = Some (v, st) -> v ∉ issued s \/ st = Orphaned \/
     exists st0, ann i = Some (v, st0) /\ st0 <> Orphaned) ->
  dead_upload s' (<[i := o']> ann) u.
Proof.
  intros [Hu Hd] Hsub Ho. split; [set_solver|]. intros j st. destruct (decide (i = j)) as [<-|].
  - rewrite fn_lookup_insert. intros ->. destruct (Ho u st eq_refl) as [?|[->|(st0 & Ha & Hne)]]; [done|done|].
    by destruct Hne; eapply Hd.
  - rewrite fn_lookup_insert_ne by done. apply Hd.
Qed.

Lemma facts_frame s s' ann ann' F : facts_ok s ann F ->
  (forall k, is_Some (visible s !! k) -> is_Some (visible s' !! k)) ->
  issued s ⊆ issued s' ->
  (forall u, u ∈ issued s -> sessions s !! u = None -> sessions s' !! u = None) ->
  (forall u, dead_upload s ann u -> dead_upload s' ann' u) ->
  facts_ok s' ann' F.
Proof.
  intros [Hst Hc Hd] Hv Hi Hn Hdead. split; [auto| |auto].
  intros u Hu. destruct (Hc u Hu) as [Hu1 Hu2]. split; [set_solver|auto].
Qed.

(** The ownership a task may move to. *)
Definition own_moves s (o o' : own) : Prop :=
  forall v st, o' = Some (v, st) -> v ∉ issued s \/ exists st0, o = Some (v, st0) /\ (st0 = Orphaned -> st = Orphaned).

Lemma own_moves_dead s ann i o' : own_moves s (ann i) o' ->
  forall v st, o' = Some (v, st) -> v ∉ issued s \/ st = Orphaned \/
     exists st0, ann i = Some (v, st0) /\ st0 <> Orphaned.
Proof.
  intros Hm v st Eo. destruct (Hm v st Eo) as [?|(st0 & Ha & Ho)]; [by left|right].
  destruct st0; try (right; eexists; split; [exact Ha|discriminate]). left. auto.
Qed.

Lemma disjoint_frame s g ts r ann fs i o' : inv (mkPool s r ts g) ann fs -> own_moves s (ann i) o' ->
  forall j k u st st', (<[i := o']> ann) j = Some (u, st) -> (<[i := o']> ann) k = Some (u, st') -> j = k.
Proof.
  intros Hinv Hm.
  assert (Hother : forall j u st st', j <> i -> o' = Some (u, st) -> ann j = Some (u, st') -> False).
  { intros j u st st' Hne Eo Ej. destruct (Hm u st Eo) as [Hu|(st0 & Ha & _)].
    - apply Hu. destruct (tasks (mkPool s r ts g) !! j) as [t|] eqn:Et.
      + pose proof (inv_own _ _ _ Hinv j t Et) as Ho. rewrite Ej in Ho. apply Ho.
      + rewrite (inv_none _ _ _ Hinv j Et) in Ej. done.
    - apply Hne. by eapply (inv_disjoint _ _ _ Hinv). }
  intros j k u st st'. destruct (decide (i = j)) as [<-|Hj], (decide (i = k)) as [<-|Hk];
    rewrite ?fn_lookup_insert, ?fn_lookup_insert_ne by done; intros E1 E2; try done.
  - exfalso. by eapply (Hother k).
  - exfalso. by eapply (Hother j).
  - by eapply (inv_disjoint _ _ _ Hinv).
Qed.

(** What a task may learn. *)
Record facts_grow s s' ann (F F' : facts) : Prop := {
  fg_standing : forall k, k ∈ standing F' -> k ∈ standing F \/ is_Some (visible s' !! k);
  fg_closed : forall u, u ∈ closed F' -> u ∈ closed F \/ u ∈ issued s /\ sessions s' !! u = None;
  fg_dead : forall u, u ∈ dead F' -> u ∈ dead F \/ dead_upload s ann u }.

Lemma facts_same s s' ann F : facts_grow s s' ann F F.
Proof. split; auto. Qed.

Lemma facts_stand s s' ann F k : is_Some (visible s' !! k) -> facts_grow s s' ann F (stand k F).
Proof. intros Hk. split; [|by left..]. cbn. intros k' [->%elem_of_singleton|]%elem_of_union; auto. Qed.

(** The session a task leaves is dead. *)
Lemma dropped_dead P s' ann fs i u st o' : inv P ann fs -> ann i = Some (u, st) -> u ∈ issued s' ->
  (forall st', o' = Some (u, st') -> st' = Orphaned) -> dead_upload s' (<[i := o']> ann) u.
Proof.
  intros Hinv Eo Hu Ho. split; [done|]. intros j st'. destruct (decide (i = j)) as [<-|Hne].
  - rewrite fn_lookup_insert. apply Ho.
  - rewrite fn_lookup_insert_ne by done. intros Ej. destruct Hne. by eapply (inv_disjoint _ _ _ Hinv).
Qed.

(** A change of the store that task [i] may make, to at most the session [uo]: one
    it owns or one no task will write to. *)
Record store_moves s s' ann (i : nat) (uo : option UploadId) : Prop := {
  sm_kept : kept uo s s';
  sm_visible : vis_ok (visible s');
  sm_stands : forall k, is_Some (visible s !! k) -> is_Some (visible s' !! k);
  sm_owned : forall u, uo = Some u ->
    (exists st, ann i = Some (u, st)) \/ forall j st, ann j = Some (u, st) -> st = Orphaned;
  sm_none : forall u, uo = Some u -> sessions s !! u = None -> sessions s' !! u = None }.

Lemma moves_issued s s' ann i uo : store_moves s s' ann i uo -> issued s ⊆ issued s'.
Proof. by intros [[]]. Qed.

Lemma moves_none s s' ann i uo u : store_moves s s' ann i uo ->
  u ∈ issued s -> sessions s !! u = None -> sessions s' !! u = None.
Proof.
  intros [[_ Hk] _ _ _ Hn] Hu Hs. destruct (decide (uo = Some u)) as [->|]; [by apply Hn|]. by rewrite Hk.
Qed.

(** The other tasks own what they owned. *)
Lemma own_frame s s' r ts g ann fs i j t uo : inv (mkPool s r ts g) ann fs -> store_moves s s' ann i uo ->
  j <> i -> ts !! j = Some t -> own_ok s' g (held t) (ann j).
Proof.
  intros Hinv [[Hsub Hkept] _ _ Huo _] Hne Hj. pose proof (inv_own _ _ _ Hinv j t Hj) as Ho. cbn in Ho.
  destruct (ann j) as [[u st]|] eqn:Ej; [|done]. destruct Ho as [Hu Ho]. split; [set_solver|].
  assert (Hk : st <> Orphaned -> sessions s' !! u = sessions s !! u).
  { intros Hst. apply Hkept; [done|]. intros ->. destruct (Huo u eq_refl) as [(st' & Hown')|Horph].
    - apply Hne. by eapply (inv_disjoint _ _ _ Hinv).
    - apply Hst. by eapply Horph. }
  destruct st; try done; rewrite Hk by discriminate; exact Ho.
Qed.

Lemma facts_moves s s' r ts g ann fs i j uo o' : inv (mkPool s r ts g) ann fs -> store_moves s s' ann i uo ->
  own_moves s (ann i) o' -> facts_ok s' (<[i := o']> ann) (fs j).
Proof.
  intros Hinv Hmv Hm. eapply facts_frame; [apply (inv_facts _ _ _ Hinv)|apply Hmv|by eapply moves_issued| |].
  - intros u. by eapply moves_none.
  - intros u Hd. eapply dead_frame; [done|by eapply moves_issued|by apply own_moves_dead].
Qed.

(** One task moves with the store. *)
Lemma inv_move s s' r ts g ann fs i h p p' uo o' F' :
  inv (mkPool s r ts g) ann fs -> ts !! i = Some (mkTask h p) -> store_moves s s' ann i uo ->
  safe Q p' o' F' -> own_ok s' g h o' -> own_moves s (ann i) o' ->
  facts_grow s s' ann (fs i) F' ->
  (forall u st, ann i = Some (u, st) -> live_status st -> is_Some (sessions s' !! u) ->
     exists st', o' = Some (u, st') /\ live_status st') ->
  inv (mkPool s' r (<[i := mkTask h p']> ts) g) (<[i := o']> ann) (<[i := F']> fs).
Proof.
  intros Hinv Hi Hmv Hsafe Hown Hmove Hfacts Htrack. pose proof (moves_issued _ _ _ _ _ Hmv) as Hsub.
  assert (Hdead : forall u, dead_upload s ann u -> dead_upload s' (<[i := o']> ann) u).
  { intros u Hd. eapply dead_frame; [done|done|by apply own_moves_dead]. }
  split; cbn [store registry tasks registered].
  - apply Hmv.
  - intros j t. destruct (decide (i = j)) as [<-|].
    + rewrite lookup_insert_eq, !fn_lookup_insert. by intros [= <-].
    + rewrite lookup_insert_ne, !fn_lookup_insert_ne by done. apply (inv_safe _ _ _ Hinv).
  - intros j. destruct (decide (i = j)) as [<-|]; [by rewrite lookup_insert_eq|].
    rewrite lookup_insert_ne, fn_lookup_insert_ne by done. apply (inv_none _ _ _ Hinv).
  - intros j t. destruct (decide (i = j)) as [<-|Hne].
    + rewrite lookup_insert_eq, fn_lookup_insert. by intros [= <-].
    + rewrite lookup_insert_ne, fn_lookup_insert_ne by done. eapply own_frame; eauto.
  - intros j. pose proof (facts_moves s s' r ts g ann fs i j uo o' Hinv Hmv Hmove) as Hframe.
    destruct (decide (i = j)) as [<-|]; [|by rewrite (fn_lookup_insert_ne fs)].
    rewrite (fn_lookup_insert fs). destruct Hfacts as [G1 G2 G3], Hframe as [H5 H6 H7]. split.
    + intros k [?|?]%G1; auto.
    + intros u [?|[? ?]]%G2; [auto|]. split; [set_solver|done].
    + intros u [?|?]%G3; auto.
  - by eapply disjoint_frame.
  - pose proof (inv_issued _ _ _ Hinv). set_solver.
  - apply (inv_entries _ _ _ Hinv).
  - intros u Hu. by apply Hdead, (inv_abandoned _ _ _ Hinv).
  - intros u Hu [x Hx]. assert (His : u ∈ issued s) by (apply (inv_issued _ _ _ Hinv); exact Hu).
    destruct (sessions s !! u) as [y|] eqn:Hs; [|by rewrite (moves_none _ _ _ _ _ _ Hmv) in Hx].
    destruct (inv_tracked _ _ _ Hinv u Hu (ex_intro _ y Hs)) as [Hr [Hab|(j & st & Ej & Hst)]];
      (split; [done|]); [by left|right]. destruct (decide (i = j)) as [<-|Hne].
    + destruct (Htrack u st Ej Hst (ex_intro _ x Hx)) as (st' & Ho & Hst').
      exists i, st'. by rewrite fn_lookup_insert.
    + exists j, st. by rewrite fn_lookup_insert_ne.
Qed.

(** ** Awaited calls *)

(** What an awaited call of task [i] does to the store, whether or not the task
    lives to see the answer, and where the task stands if it does. *)
Definition effect_ok s s' (g : gset UploadId) (h : option UploadId) ann fs (i : nat) (p' : prog A) : Prop :=
  exists uo, store_moves s s' ann i uo /\
    exists o' F', safe Q p' o' F' /\ own_ok s' g h o' /\ own_moves s (ann i) o' /\
      facts_grow s s' ann (fs i) F' /\
      (forall u st, ann i = Some (u, st) -> live_status st -> is_Some (sessions s' !! u) ->
         exists st', o' = Some (u, st') /\ live_status st').

(** A call of a task that owns nothing. *)
Lemma effect_idle s s' g ann fs i uo p' F' : ann i = None -> store_moves s s' ann i uo ->
  safe Q p' None F' -> facts_grow s s' ann (fs i) F' -> effect_ok s s' g None ann fs i p'.
Proof. intros Eo Hm Hs HF. exists uo. split; [done|]. exists None, F'. rewrite Eo. by split_and!. Qed.

(** A write at a key, done or not. *)
Lemma effect_manifest s s' g ann fs i k b p' F' : ann i = None -> vis_ok (visible s) ->
  vis_ok (<[k := b]> (visible s)) -> kept None s s' ->
  (visible s' = visible s \/ visible s' = <[k := b]> (visible s)) ->
  safe Q p' None F' -> facts_grow s s' ann (fs i) F' ->
  effect_ok s s' g None ann fs i p'.
Proof.
  intros Eo Ha Hg Hk Hv Hs HF. apply (effect_idle s s' g ann fs i None p' F'); try done. split; try done.
  - destruct Hv as [->| ->]; done.
  - destruct Hv as [->| ->]; [done|apply insert_stands].
Qed.

(** A call on the session the task owns. *)
Lemma effect_session s s' g h ann fs i u st st' p' F' : ann i = Some (u, st) -> live_status st ->
  vis_ok (visible s') -> (forall k, is_Some (visible s !! k) -> is_Some (visible s' !! k)) ->
  kept (Some u) s s' -> (sessions s !! u = None -> sessions s' !! u = None) ->
  safe Q p' (Some (u, st')) F' -> own_ok s' g h (Some (u, st')) -> facts_grow s s' ann (fs i) F' ->
  (live_status st' \/ sessions s' !! u = None) ->
  effect_ok s s' g h ann fs i p'.
Proof.
  intros Eo Hst Ha Hv Hk Hn Hs Ho HF Hl. exists (Some u). split.
  - split; try done; intros v [= <-]; [|done]. left. by exists st.
  - exists (Some (u, st')), F'. split_and!; try done.
    + intros v st2 [= <- <-]. right. exists st. split; [done|]. intros ->. by destruct Hst as [?|(? & ? & ?)].
    + rewrite Eo. intros v st2 [= <- <-] _ [x Hx]. exists st'. split; [done|].
      destruct Hl as [?|Hl]; [done|]. by rewrite Hl in Hx.
Qed.

Lemma live_holding key ps : live_status (Holding key ps).
Proof. right. by eexists _, _. Qed.

Lemma live_spoiled : live_status Spoiled.
Proof. by left. Qed.

Hint Resolve live_holding live_spoiled facts_same : core.

(** The task at its next operation: its judgement, its ownership, its facts and
    the store's invariant. *)
Ltac at_task Hinv i Hi :=
  pose proof (inv_safe _ _ _ Hinv i _ Hi) as Hs; cbn [code safe] in Hs;
  pose proof (inv_own _ _ _ Hinv i _ Hi) as Ho; cbn [held store registered] in Ho;
  pose proof (inv_issued _ _ _ Hinv) as Hgi; cbn [store registered] in Hgi;
  pose proof (inv_facts _ _ _ Hinv i) as Hf; cbn [store] in Hf;
  pose proof (inv_visible _ _ _ Hinv) as Ha; cbn [store] in Ha.

Section Calls.
Context {s : S} {r : Registry} {ts : gmap nat (task A)} {g : gset UploadId} {ann : nat -> own} {fs : nat -> facts}.
Context {i : nat} {h : option UploadId} (Hinv : inv (mkPool s r ts g) ann fs).
Abbreviation at_code p := (ts !! i = Some (mkTask h p)).
Abbreviation effect s' p' := (effect_ok s s' g h ann fs i p').

Lemma write_manifest_effect k b next : at_code (WriteManifest k b next) ->
  let '(x, s') := write_manifest s k b in effect s' (next x).
Proof.
  intros Hi. at_task Hinv i Hi. destruct Hs as (Eo & Hg & HD & HF). rewrite Eo in Ho. cbn in Ho. rewrite Ho.
  pose proof (write_ok _ _ _ _ Ha (fo_standing _ _ _ Hf) Hg) as Hgood.
  pose proof (write_manifest_law s k b) as Hl.
  destruct (write_manifest s k b) as [[x|x] s1]; destruct Hl as [Hk Hv]; eapply effect_manifest; eauto.
  apply facts_stand. rewrite Hv, lookup_insert_eq. by eexists.
Qed.

Lemma create_manifest_effect k b next : at_code (CreateManifest k b next) ->
  let '(x, s') := create_manifest_if_absent s k b in effect s' (next x).
Proof.
  intros Hi. at_task Hinv i Hi. destruct Hs as (Eo & Hg & HD & HF). rewrite Eo in Ho. cbn in Ho. rewrite Ho.
  pose proof (write_ok _ _ _ _ Ha (fo_standing _ _ _ Hf) Hg) as Hgood.
  pose proof (create_law s k b) as Hl.
  destruct (create_manifest_if_absent s k b) as [[[|e]|x] s1].
  - destruct Hl as (Hk & _ & Hv). eapply effect_manifest; eauto.
    apply facts_stand. rewrite Hv, lookup_insert_eq. by eexists.
  - destruct Hl as (Hk & Hv & old & Hold & _). eapply effect_manifest; eauto.
    apply facts_stand. rewrite Hv. by eexists.
  - destruct Hl as (Hk & [Hv|[_ Hv]]); eapply effect_manifest; eauto.
Qed.

Lemma begin_effect blob next : at_code (BeginMultipart blob next) ->
  let '(x, s') := begin_multipart s blob in effect s' (next x).
Proof.
  intros Hi. at_task Hinv i Hi. destruct Hs as (Eo & HD & HF). rewrite Eo in Ho. cbn in Ho. rewrite Ho.
  pose proof (begin_law s blob) as Hl.
  destruct (begin_multipart s blob) as [[u|x] s1].
  - destruct Hl as (Hk & Hv & Hu & Hu' & Hse). exists None. split; [by split; rewrite ?Hv|].
    exists (Some (u, Fresh blob)), (fs i). split_and!; [done| | |apply facts_same|by rewrite Eo].
    + cbn. split_and!; [done|done|done|]. intros Hg. by apply Hu, Hgi.
    + intros v st [= <- <-]. by left.
  - destruct Hl as (Hk & Hv). eapply (effect_idle _ _ _ _ _ _ None); eauto. by split; rewrite ?Hv.
Qed.

Lemma write_part_effect u n b next : at_code (WritePart u n b next) ->
  let '(x, s') := write_part s u n b in effect s' (next x).
Proof.
  intros Hi. at_task Hinv i Hi. destruct Hs as (key & ps & Eo & Hn & HD & HF). rewrite Eo in Ho.
  destruct Ho as (Hu & Hse & Hh & Hg). pose proof (write_part_law s u n b key ps Hse (np_above _ _ _ Hn)) as Hl.
  destruct (write_part s u n b) as [[c|x] s1].
  - destruct Hl as (Hk & Hv & Hse'). eapply effect_session; eauto; rewrite ?Hv; try done; try congruence.
    cbn. destruct Hk as [Hsub _]. split_and!; [set_solver|done..].
  - destruct Hl as (Hk & Hv). eapply effect_session; eauto; rewrite ?Hv; try done; try congruence.
    cbn. destruct Hk as [Hsub _]. split_and!; [set_solver|done..].
Qed.

Lemma commit_effect u cs next : at_code (CommitMultipart u cs next) ->
  let '(x, s') := commit_multipart s u cs in effect s' (next x).
Proof.
  intros Hi. at_task Hinv i Hi. destruct Hs as (key & ps & Eo & Hn & Hgp & HD & HF). rewrite Eo in Ho.
  destruct Ho as (Hu & Hse & Hh & Hg). pose proof (commit_law s u cs key ps Hse Hn) as Hl.
  pose proof (write_ok _ _ _ _ Ha (fo_standing _ _ _ Hf) Hgp) as Hgood.
  destruct (commit_multipart s u cs) as [[x|x] s1].
  - destruct Hl as (Hk & Hnone & Hv).
    eapply (effect_session _ _ _ _ _ _ _ u _ Closed _ (stand key (fs i))); eauto; try congruence.
    + destruct Hv as [->|[_ ->]]; done.
    + destruct Hv as [->|[_ ->]]; [apply insert_stands|done].
    + cbn. destruct Hk as [Hsub _]. split_and!; [set_solver|done..].
    + apply facts_stand. destruct Hv as [->|[? ->]]; [rewrite lookup_insert_eq; by eexists|done].
  - destruct Hl as (Hk & Hv).
    eapply (effect_session _ _ _ _ _ _ _ u _ Spoiled); eauto; try congruence.
    + destruct Hv as [->| ->]; done.
    + destruct Hv as [->| ->]; [done|apply insert_stands].
    + cbn. destruct Hk as [Hsub _]. split_and!; [set_solver|done..].
Qed.

Lemma abort_effect u next : at_code (AbortMultipart u next) ->
  let '(x, s') := abort_multipart s u in effect s' (next x).
Proof.
  intros Hi. at_task Hinv i Hi. pose proof (abort_law s u) as Hl.
  destruct Hs as [(st & Eo & Hst & HD & HF)|(Eo & Hd & HD & HF)]; rewrite Eo in Ho.
  - assert (Hu : u ∈ issued s /\ h = Some u /\ u ∈ g)
      by (destruct Hst as [->|(key & ps & ->)]; cbn in Ho; tauto). destruct Hu as (Hu & Hh & Hg).
    assert (Hlive : live_status st) by done.
    destruct (abort_multipart s u) as [[x|x] s1]; destruct Hl as (Hk & Hv & Hse).
    + eapply (effect_session _ _ _ _ _ _ _ u _ Closed); eauto; rewrite ?Hv; try done.
      cbn. destruct Hk as [Hsub _]. split_and!; [set_solver|done..].
    + eapply (effect_session _ _ _ _ _ _ _ u _ Spoiled); eauto; rewrite ?Hv; try done.
      cbn. destruct Hk as [Hsub _]. split_and!; [set_solver|done..].
  - cbn in Ho. rewrite Ho. destruct (fo_dead _ _ _ Hf u Hd) as [Hu Horph].
    destruct (abort_multipart s u) as [[x|x] s1]; destruct Hl as (Hk & Hv & Hse).
    all: assert (Hmv : store_moves s s1 ann i (Some u))
      by (split; rewrite ?Hv; try done; intros v [= <-]; [by right|done]).
    + eapply effect_idle; eauto. split; cbn; [by left| |by left].
      intros v [->%elem_of_singleton|?]%elem_of_union; [by right|by left].
    + eapply effect_idle; eauto.
Qed.

Lemma await_effect p p' s' : at_code p -> await p s = Some (p', s') -> effect s' p'.
Proof.
  intros Hi Haw. destruct p; cbn [await] in Haw; try discriminate Haw.
  - pose proof (write_manifest_effect _ _ _ Hi) as He. destruct (write_manifest _ _ _). by injection Haw as <- <-.
  - pose proof (create_manifest_effect _ _ _ Hi) as He.
    destruct (create_manifest_if_absent _ _ _). by injection Haw as <- <-.
  - pose proof (begin_effect _ _ Hi) as He. destruct (begin_multipart _ _). by injection Haw as <- <-.
  - pose proof (write_part_effect _ _ _ _ Hi) as He. destruct (write_part _ _ _ _). by injection Haw as <- <-.
  - pose proof (commit_effect _ _ _ Hi) as He. destruct (commit_multipart _ _ _). by injection Haw as <- <-.
  - pose proof (abort_effect _ _ Hi) as He. destruct (abort_multipart _ _). by injection Haw as <- <-.
Qed.
End Calls.

Lemma inv_await s r ts g ann fs i h p p' s' : inv (mkPool s r ts g) ann fs ->
  ts !! i = Some (mkTask h p) -> await p s = Some (p', s') ->
  exists ann' fs', inv (mkPool s' r (<[i := mkTask h p']> ts) g) ann' fs'.
Proof.
  intros Hinv Hi Haw.
  destruct (await_effect Hinv _ _ _ Hi Haw) as (uo & Hmv & o' & F' & Hs & Ho & Hm & Hf & Ht).
  exists (<[i := o']> ann), (<[i := F']> fs). by eapply inv_move.
Qed.

(** A synchronous operation on the store, with the facts it shows. *)
Lemma inv_sync s r ts g ann fs i h p p' F' : inv (mkPool s r ts g) ann fs ->
  ts !! i = Some (mkTask h p) -> safe Q p' (ann i) F' -> facts_grow s s ann (fs i) F' ->
  exists ann' fs', inv (mkPool s r (<[i := mkTask h p']> ts) g) ann' fs'.
Proof.
  intros Hinv Hi Hs HF. exists (<[i := ann i]> ann), (<[i := F']> fs).
  eapply (inv_move s s r ts g ann fs i h p p' None); try done.
  - split; try done. apply (inv_visible _ _ _ Hinv).
  - exact (inv_own _ _ _ Hinv i _ Hi).
  - intros v st Eo. right. by exists st.
  - intros u st Eo Hst _. by exists st.
Qed.

(** One task changes its registration; [o'] is a new status of the same session, or
    none. *)
Lemma inv_register_change s r r' ts g g' ann fs i h h' p p' o' :
  inv (mkPool s r ts g) ann fs -> ts !! i = Some (mkTask h p) ->
  safe Q p' o' (fs i) -> own_ok s g' h' o' -> own_moves s (ann i) o' ->
  g ⊆ g' -> g' ⊆ issued s ->
  (forall j u blob, j <> i -> ann j = Some (u, Fresh blob) -> u ∉ g') ->
  (forall u, in_registry u r' -> u ∈ g') ->
  (forall u, is_abandoned u r' -> dead_upload s (<[i := o']> ann) u) ->
  (forall u, u ∈ g' -> is_Some (sessions s !! u) -> in_registry u r' /\
     (is_abandoned u r' \/ exists j st, (<[i := o']> ann) j = Some (u, st) /\ live_status st)) ->
  inv (mkPool s r' (<[i := mkTask h' p']> ts) g') (<[i := o']> ann) fs.
Proof.
  intros Hinv Hi Hs Ho Hm Hg Hgi Hfr Hin Hab Htr. split; cbn [store registry tasks registered].
  - apply (inv_visible _ _ _ Hinv).
  - intros j t. destruct (decide (i = j)) as [<-|].
    + rewrite lookup_insert_eq, fn_lookup_insert. by intros [= <-].
    + rewrite lookup_insert_ne, fn_lookup_insert_ne by done. apply (inv_safe _ _ _ Hinv).
  - intros j. destruct (decide (i = j)) as [<-|]; [by rewrite lookup_insert_eq|].
    rewrite lookup_insert_ne, fn_lookup_insert_ne by done. apply (inv_none _ _ _ Hinv).
  - intros j t. destruct (decide (i = j)) as [<-|Hne].
    + rewrite lookup_insert_eq, fn_lookup_insert. by intros [= <-].
    + rewrite lookup_insert_ne, fn_lookup_insert_ne by done. intros Hj.
      pose proof (inv_own _ _ _ Hinv j t Hj) as Hoj. cbn in Hoj.
      destruct (ann j) as [[u st]|] eqn:Ej; [|done]. destruct Hoj as [Hu Hoj]. split; [done|].
      destruct st; set_solver.
  - intros j. eapply facts_frame; [apply (inv_facts _ _ _ Hinv)|done..|]. intros u Hd.
    eapply dead_frame; [done|done|]. by apply own_moves_dead.
  - by eapply disjoint_frame.
  - done.
  - done.
  - done.
  - done.
Qed.

(** A task disappears with its writer. *)
Lemma inv_drop s s' r ts g ann fs i h p uo : inv (mkPool s r ts g) ann fs ->
  ts !! i = Some (mkTask h p) -> (forall u blob, ann i <> Some (u, Fresh blob)) ->
  store_moves s s' ann i uo ->
  inv (mkPool s' (drop_held h r) (delete i ts) g) (<[i := None]> ann) fs.
Proof.
  intros Hinv Hi Hfresh Hmv. pose proof (moves_issued _ _ _ _ _ Hmv) as Hsub.
  pose proof (inv_own _ _ _ Hinv i _ Hi) as Hown. cbn [held store registered] in Hown.
  assert (Hm : own_moves s (ann i) None) by done.
  assert (Hheld : forall u st, ann i = Some (u, st) -> h = Some u).
  { intros u st Eo. rewrite Eo in Hown. destruct Hown as [_ Hown]. destruct st; try tauto.
    by destruct (Hfresh u blob). }
  assert (Hh : forall u, h = Some u -> exists st, ann i = Some (u, st)).
  { intros u ->. destruct (ann i) as [[v st]|] eqn:Eo; [|done]. specialize (Hheld v st eq_refl).
    injection Hheld as ->. by exists st. }
  split; cbn [store registry tasks registered].
  - apply Hmv.
  - intros j t [Hne Hj]%lookup_delete_Some. rewrite fn_lookup_insert_ne by done. by apply (inv_safe _ _ _ Hinv).
  - intros j Hj. destruct (decide (i = j)) as [<-|]; [by rewrite fn_lookup_insert|].
    rewrite lookup_delete_ne in Hj by done. rewrite fn_lookup_insert_ne by done. by apply (inv_none _ _ _ Hinv).
  - intros j t [Hne Hj]%lookup_delete_Some. rewrite fn_lookup_insert_ne by done. eapply own_frame; eauto.
  - intros j. by eapply facts_moves.
  - by eapply disjoint_frame.
  - pose proof (inv_issued _ _ _ Hinv). set_solver.
  - intros u Hu. apply (inv_entries _ _ _ Hinv u). cbn [registry]. destruct h; [by apply in_abandon in Hu|done].
  - intros u Hu. assert (Hor : is_abandoned u r \/ h = Some u).
    { destruct h as [v|]; [|by left]. apply abandoned_abandon in Hu as [Hu| ->]; [by left|by right]. }
    destruct Hor as [Hor|Hor].
    + eapply dead_frame; [by apply (inv_abandoned _ _ _ Hinv)|done|by apply own_moves_dead].
    + destruct (Hh u Hor) as [st Eo]. eapply dropped_dead; [done|done| |done]. rewrite Eo in Hown. apply Hsub, Hown.
  - intros u Hu [x Hx]. assert (His : u ∈ issued s) by (apply (inv_issued _ _ _ Hinv); exact Hu).
    destruct (sessions s !! u) as [y|] eqn:Hs; [|by rewrite (moves_none _ _ _ _ _ _ Hmv) in Hx].
    destruct (inv_tracked _ _ _ Hinv u Hu (ex_intro _ y Hs)) as [Hr Hor]. cbn [registry] in Hr, Hor.
    split; [by destruct h; [apply in_abandon|]|]. destruct Hor as [Hab|(j & st & Ej & Hst)].
    + left. destruct h; [by apply abandon_keeps|done].
    + destruct (decide (i = j)) as [<-|Hne].
      * left. rewrite (Hheld u st Ej). by apply abandon_marks.
      * right. exists j, st. by rewrite fn_lookup_insert_ne.
Qed.

Variable spawnable : prog A -> Prop.
Hypothesis spawn_safe : forall p, spawnable p -> safe Q p None no_facts.

Lemma inv_spawn s r ts g ann fs i p : inv (mkPool s r ts g) ann fs -> ts !! i = None -> spawnable p ->
  inv (mkPool s r (<[i := mkTask None p]> ts) g) ann (<[i := no_facts]> fs).
Proof.
  intros Hinv Hi Hp. pose proof (inv_none _ _ _ Hinv i Hi) as Eo.
  split; cbn [store registry tasks registered]; try apply Hinv.
  - intros j t. destruct (decide (i = j)) as [<-|].
    + rewrite lookup_insert_eq, fn_lookup_insert, Eo. intros [= <-]. by apply spawn_safe.
    + rewrite lookup_insert_ne, fn_lookup_insert_ne by done. apply (inv_safe _ _ _ Hinv).
  - intros j. destruct (decide (i = j)) as [<-|]; [by rewrite lookup_insert_eq|].
    rewrite lookup_insert_ne by done. apply (inv_none _ _ _ Hinv).
  - intros j t. destruct (decide (i = j)) as [<-|].
    + rewrite lookup_insert_eq, Eo. by intros [= <-].
    + rewrite lookup_insert_ne by done. apply (inv_own _ _ _ Hinv).
  - intros j. destruct (decide (i = j)) as [<-|].
    + rewrite fn_lookup_insert. split; cbn; intros ?; by rewrite elem_of_empty.
    + rewrite fn_lookup_insert_ne by done. apply (inv_facts _ _ _ Hinv).
Qed.

Lemma fresh_unregistered s r ts g ann fs j u blob : inv (mkPool s r ts g) ann fs ->
  ann j = Some (u, Fresh blob) -> u ∉ g.
Proof.
  intros Hinv Ej. destruct (tasks (mkPool s r ts g) !! j) as [t|] eqn:Et.
  - pose proof (inv_own _ _ _ Hinv j t Et) as Hoj. rewrite Ej in Hoj. by destruct Hoj as (_ & _ & _ & Hv).
  - by rewrite (inv_none _ _ _ Hinv j Et) in Ej.
Qed.

Lemma inv_do_register s r ts g ann fs i h u next : inv (mkPool s r ts g) ann fs ->
  ts !! i = Some (mkTask h (Register u next)) -> exists ann',
  inv (mkPool s (register u r) (<[i := mkTask (Some u) next]> ts) ({[u]} ∪ g)) ann' fs.
Proof.
  intros Hinv Hi. at_task Hinv i Hi. destruct Hs as (blob & Eo & Hs). rewrite Eo in Ho.
  destruct Ho as (Hu & Hse & -> & Hg). exists (<[i := Some (u, Holding blob [])]> ann).
  assert (Hm : own_moves s (ann i) (Some (u, Holding blob []))).
  { intros v st [= <- <-]. right. exists (Fresh blob). by split. }
  eapply inv_register_change; try done.
  - cbn. set_solver.
  - set_solver.
  - set_solver.
  - intros j v b Hne Ej. apply not_elem_of_union. split; [|by eapply fresh_unregistered].
    apply not_elem_of_singleton. intros ->. destruct Hne. by eapply (inv_disjoint _ _ _ Hinv).
  - intros v [Hv| ->]%in_register; [|set_solver]. apply (inv_entries _ _ _ Hinv) in Hv. set_solver.
  - intros v Hv%abandoned_register. eapply dead_frame; [by apply (inv_abandoned _ _ _ Hinv)|done|].
    by apply own_moves_dead.
  - intros v Hv Hsv. rewrite in_register. destruct (decide (v = u)) as [->|Hne].
    + split; [by right|]. right. exists i, (Holding blob []). rewrite fn_lookup_insert. auto.
    + assert (Hv' : v ∈ g) by set_solver.
      destruct (inv_tracked _ _ _ Hinv v Hv' Hsv) as [Hr [Hab|(j & st & Ej & Hst)]]; (split; [by left|]).
      * left. by apply abandoned_register.
      * right. exists j, st. rewrite fn_lookup_insert_ne; [done|]. intros <-. congruence.
Qed.

Lemma inv_do_release s r ts g ann fs i h u next : inv (mkPool s r ts g) ann fs ->
  ts !! i = Some (mkTask h (Release u next)) -> exists ann',
  inv (mkPool s (release u r) (<[i := mkTask (if bool_decide (h = Some u) then None else h) next]> ts) g) ann' fs.
Proof.
  intros Hinv Hi. at_task Hinv i Hi. exists (<[i := None]> ann).
  assert (Hc : sessions s !! u = None /\ safe Q next None (fs i) /\
    (ann i = None /\ h = None \/ ann i = Some (u, Closed) /\ h = Some u)).
  { destruct Hs as [[Eo Hs]|(Eo & Hc & Hs)]; rewrite Eo in Ho.
    - destruct Ho as (? & ? & -> & ?). split_and!; auto.
    - destruct (fo_closed _ _ _ (inv_facts _ _ _ Hinv i) u Hc). split_and!; auto. }
  destruct Hc as (Hse & Hsafe & Hoh). eapply inv_register_change; try done.
  - cbn. destruct Hoh as [[_ ->]|[_ ->]]; [by rewrite bool_decide_false|by rewrite bool_decide_true].
  - intros j v b _ Ej. by eapply fresh_unregistered.
  - intros v [Hv _]%in_release. by apply (inv_entries _ _ _ Hinv).
  - intros v [Hv _]%abandoned_release. eapply dead_frame; [by apply (inv_abandoned _ _ _ Hinv)|done|done].
  - intros v Hv Hsv. assert (Hvu : v <> u) by (intros ->; rewrite Hse in Hsv; by destruct Hsv).
    rewrite in_release. destruct (inv_tracked _ _ _ Hinv v Hv Hsv) as [Hr [Hab|(j & st & Ej & Hst)]];
      (split; [done|]); [left; by apply abandoned_release|right].
    exists j, st. rewrite fn_lookup_insert_ne; [done|]. intros <-.
    destruct Hoh as [[E1 _]|[E1 _]]; rewrite E1 in Ej; simplify_eq.
Qed.

Lemma inv_do_abandon s r ts g ann fs i h u next : inv (mkPool s r ts g) ann fs ->
  ts !! i = Some (mkTask h (Abandon u next)) -> exists ann',
  inv (mkPool s (abandon u r) (<[i := mkTask h next]> ts) g) ann' fs.
Proof.
  intros Hinv Hi. at_task Hinv i Hi. exists (<[i := Some (u, Orphaned)]> ann).
  destruct Hs as ((st & Eo & Hst1 & Hst2) & Hs). rewrite Eo in Ho.
  assert (Hh : u ∈ issued s /\ h = Some u /\ u ∈ g).
  { destruct Ho as [Hu Ho]. destruct st; try tauto. by destruct (Hst2 blob). }
  destruct Hh as (Hu & -> & Hg).
  assert (Hm : own_moves s (ann i) (Some (u, Orphaned))).
  { intros v st' [= <- <-]. right. exists st. by split. }
  eapply inv_register_change; try done.
  - intros j v b _ Ej. by eapply fresh_unregistered.
  - intros v Hv%in_abandon. by apply (inv_entries _ _ _ Hinv).
  - intros v [Hv| ->]%abandoned_abandon.
    + eapply dead_frame; [by apply (inv_abandoned _ _ _ Hinv)|done|by apply own_moves_dead].
    + eapply dropped_dead; [done|done|done|]. by intros st' [= <-].
  - intros v Hv Hsv. destruct (inv_tracked _ _ _ Hinv v Hv Hsv) as [Hr Hor]. split; [by apply in_abandon|].
    destruct Hor as [Hab|(j & st' & Ej & Hst')]; [left; by apply abandon_keeps|].
    destruct (decide (i = j)) as [<-|Hne].
    + left. assert (v = u) as -> by congruence. by apply abandon_marks.
    + right. exists j, st'. by rewrite fn_lookup_insert_ne.
Qed.

(** A task at an awaited call has registered the session it opened. *)
Lemma await_not_fresh p s p' s' o F u blob : await p s = Some (p', s') -> safe Q p o F -> o <> Some (u, Fresh blob).
Proof.
  intros Haw Hs ->. destruct p; cbn [await] in Haw; try discriminate Haw; cbn [safe] in Hs;
    naive_solver.
Qed.

Lemma inv_step P P' ann fs : inv P ann fs -> pool_step spawnable P P' -> exists ann' fs', inv P' ann' fs'.
Proof.
  intros Hinv Hstep. destruct Hstep as [s r ts g i p Hi Hp|s r ts g i h p p' s' Hi Haw|s r ts g i h next Hi
    |s r ts g i h u next Hi|s r ts g i h u next Hi|s r ts g i h u next Hi|s r ts g i h next Hi
    |s r ts g i h p p' s' Hi Haw|s r ts g i h p p' s' Hi Haw].
  - eexists _, _. by apply inv_spawn.
  - by eapply inv_await.
  - pose proof (inv_safe _ _ _ Hinv i _ Hi) as Hs. cbn in Hs. eapply inv_sync; [done|done|apply Hs|done].
  - destruct (inv_do_register _ _ _ _ _ _ _ _ _ _ Hinv Hi) as [ann' ?]. eauto.
  - destruct (inv_do_release _ _ _ _ _ _ _ _ _ _ Hinv Hi) as [ann' ?]. eauto.
  - destruct (inv_do_abandon _ _ _ _ _ _ _ _ _ _ Hinv Hi) as [ann' ?]. eauto.
  - pose proof (inv_safe _ _ _ Hinv i _ Hi) as Hs. cbn in Hs. eapply inv_sync; [done|done|apply Hs|].
    split; cbn; [by left|by left|]. intros u [Hu|?]%elem_of_union; [right|by left].
    apply elem_of_list_to_set in Hu. by apply (inv_abandoned _ _ _ Hinv).
  - eexists _, _. eapply (inv_drop _ _ _ _ _ _ _ _ _ _ None); try done.
    + intros u blob. eapply await_not_fresh; [done|]. apply (inv_safe _ _ _ Hinv i _ Hi).
    + split; try done. apply (inv_visible _ _ _ Hinv).
  - destruct (await_effect Hinv _ _ _ Hi Haw) as (uo & Hmv & _).
    eexists _, _. eapply (inv_drop _ _ _ _ _ _ _ _ _ _ uo); try done.
    intros u blob. eapply await_not_fresh; [done|]. apply (inv_safe _ _ _ Hinv i _ Hi).
Qed.

Lemma inv_reachable s0 P : vis_ok (visible s0) -> pool_reachable spawnable s0 P ->
  exists ann fs, inv P ann fs.
Proof.
  intros Ha. induction 1 as [|P P' _ (ann & fs & IH) Hstep]; [|by eapply inv_step].
  exists (fun _ => None), (fun _ => no_facts). split; cbn; try done.
  all: intros u Hu; by apply elem_of_nil in Hu.
Qed.
End Soundness.
