(* ===== verification/CommitSafety.v ===== *)
(** Safety of the commit path under concurrency and cancellation: the programs of
    [Commit] are [safe], so the pool's invariant holds whatever is interleaved,
    fails or is cancelled.

    The section [Programs] proves each routine for any notion of an allowed write;
    [archive_allowed] instantiates it with the well-formedness of the archive,
    [replay_allowed] with writing what is already there. *)

From stdpp Require Import gmap functions.
From S2P Require Import Prelude Text Json Sha256 Vocabulary ObjectKey Records Store Commit Pool.
From S2P Require Import Envelope.

Open Scope prog_scope.

(** * The archive *)

(** A deterministic encoder (VAL-006): whatever the chunking, the stored form is
    a function of the content. *)
Fixpoint encode_chunks {E} `{BlobEncoder E} (enc : E) (chunks : list (list Z)) : stored (list Z * E) :=
  match chunks with
  | [] => Done ([], enc)
  | c :: cs =>
      match encode_update enc c with
      | Fail e => Fail e
      | Done (out, enc) =>
          match encode_chunks enc cs with Fail e => Fail e | Done (rest, enc) => Done (out ++ rest, enc) end
      end
  end.

Class LawfulEncoder (E : Type) `{BlobEncoder E} := {
  encode : list Z -> list Z;
  starts : E -> Prop;
  encode_law enc chunks out enc' tail : starts enc -> encode_chunks enc chunks = Done (out, enc') ->
    encode_finish enc' = Done tail -> out ++ tail = encode (concat chunks) }.

(** The values of the envelope's newtypes. *)
Record typed_envelope (e : Envelope) : Prop := {
  te_tenant : TenantId_parse (tenant_id e) = Ok (tenant_id e);
  te_origin : ClientId_parse (origin_client_id e) = Ok (origin_client_id e);
  te_harness : HarnessId_parse (harness e) = Ok (harness e);
  te_digest : is_digest (blob_digest e) }.

Definition blob_key_of (e : Envelope) : list Z := BlobObjectKey_new (tenant_id e) ZstdV1 (blob_digest e).
Definition occurrence_key_of (e : Envelope) : list Z :=
  OccurrenceObjectKey_new (tenant_id e) (origin_client_id e) (harness e)
    (rederive_session_hash e) (rederive_occurrence_id e).
Definition attestation_key_of (e : Envelope) : list Z :=
  AttestationObjectKey_new (tenant_id e) (rederive_occurrence_id e) (rederive_attestation_id e).

Definition occurrence_bytes (e : Envelope) : list Z :=
  Json.canonical_bytes (occurrence_manifest_value e (rederive_occurrence_id e) (rederive_session_hash e)).
Definition attestation_bytes (e : Envelope) (d : Delegation) : list Z :=
  Json.canonical_bytes
    (attestation_manifest_value e d (rederive_occurrence_id e) (rederive_attestation_id e)).

Section Archive.
Context {E : Type} `{LawfulEncoder E}.

(** A blob's address is the hash of what it stores; an occurrence names a blob
    that is there; an attestation names an occurrence that is there. *)
Inductive good (vis : gmap (list Z) (list Z)) : list Z -> list Z -> Prop :=
| good_blob tenant content : TenantId_parse tenant = Ok tenant ->
    good vis (BlobObjectKey_new tenant ZstdV1 (digest content)) (encode content)
| good_occurrence e : typed_envelope e -> occurrence_id e = rederive_occurrence_id e ->
    is_Some (vis !! blob_key_of e) -> good vis (occurrence_key_of e) (occurrence_bytes e)
| good_attestation e d : typed_envelope e -> occurrence_id e = rederive_occurrence_id e ->
    attestation_id e = rederive_attestation_id e -> consistent d e = true ->
    is_Some (vis !! occurrence_key_of e) -> good vis (attestation_key_of e) (attestation_bytes e d).

Definition archive_ok (vis : gmap (list Z) (list Z)) : Prop :=
  forall k b, vis !! k = Some b -> good vis k b.

Lemma good_mono vis vis' k b : (forall k, is_Some (vis !! k) -> is_Some (vis' !! k)) ->
  good vis k b -> good vis' k b.
Proof.
  intros Hm [tenant c Ht|e Ht Hid Hb|e d Ht Hid Ha Hd Ho].
  - by apply good_blob.
  - apply good_occurrence; [done|done|by apply Hm].
  - apply good_attestation; [done|done|done|done|by apply Hm].
Qed.

Lemma archive_insert vis k b : archive_ok vis -> good vis k b -> archive_ok (<[k := b]> vis).
Proof.
  intros Ha Hg k' b'. destruct (decide (k = k')) as [->|].
  - rewrite lookup_insert_eq. intros [= <-]. eapply good_mono; [|done]. apply insert_stands.
  - rewrite lookup_insert_ne by done. intros Hk. eapply good_mono; [|by apply Ha]. apply insert_stands.
Qed.
End Archive.

(** * The programs are safe *)

Section Programs.
Context {E : Type} `{LawfulEncoder E}.
Variable allowed : facts -> list Z -> list Z -> Prop.
Abbreviation safe := (safe allowed).

(** A task that is done holds no session it could still use. *)
Definition finished (o : own) : Prop := o = None \/ exists u, o = Some (u, Orphaned).

(** A writer whose session is over: aborted and released, or left to the drain. *)
Definition ended (w : MultipartWriter) (F : facts) (o : own) (F' : facts) : Prop :=
  F' = F /\ (terminal w = true /\ o = None \/ terminal w = false /\ o = Some (upload w, Orphaned)).

Lemma terminate_safe w st F : live_status st -> terminal w = false ->
  safe (fun rw o F' => ended rw.2 F o F') (terminate_by_abort w) (Some (upload w, st)) F.
Proof.
  intros Hst Ht. cbn. left. exists st. split_and!; [done|done| |].
  - intros _. left. split; [done|]. split; [done|]. by left.
  - intros x. split; [|by split; [done|right]]. by exists Spoiled.
Qed.

Lemma fail_with_safe {A} w st F e : live_status st -> terminal w = false ->
  safe (fun rw o F' => (exists x, rw.1 = Fail x) /\ ended rw.2 F o F')
    (fail_with (A:=A) w e) (Some (upload w, st)) F.
Proof.
  intros Hst Ht. unfold fail_with, writer_fail. apply safe_bind, safe_bind.
  eapply safe_mono; [|by apply (terminate_safe (with_session w SessionFailed) st)].
  intros rw o F' He. cbn. split; [by eexists|done].
Qed.

Lemma drop_safe w F o F' : ended w F o F' ->
  safe (fun _ o F' => F' = F /\ finished o) (drop_writer w) o F'.
Proof.
  intros [-> [[Ht ->]|[Ht ->]]]; unfold drop_writer; rewrite Ht; cbn.
  - split; [done|by left].
  - split; [|by split; [done|right; eexists]]. by exists Orphaned.
Qed.

(** [return Err(..)] from a function that holds the writer. *)
Lemma return_safe {A} w F o F' (r : A) : ended w F o F' ->
  safe (fun x o F' => x = r /\ F' = F /\ finished o) (do _ <- drop_writer w; Ret r) o F'.
Proof.
  intros He. apply safe_bind. eapply safe_mono; [|by apply drop_safe]. intros _ o' F'' [? ?]. by split_and!.
Qed.

Lemma abort_writer_safe {A} w st F e : live_status st -> terminal w = false ->
  safe (fun r o F' => (exists x, r = Fail x) /\ F' = F /\ finished o)
    (abort_writer (A:=A) w e) (Some (upload w, st)) F.
Proof.
  intros Hst Ht. unfold abort_writer, writer_abort. apply safe_bind, safe_bind.
  eapply safe_mono; [|by apply (terminate_safe w st)]. intros rw o F' He. cbn beta.
  eapply safe_mono; [|exact (return_safe _ _ _ _ _ He)]. intros r o' F'' (-> & ? & ?). cbn. split_and!; eauto.
Qed.

(** ** The writer *)

(** A writer that has sent [ps]. *)
Record writer_at (w : MultipartWriter) (ps : list (Z * list Z)) : Prop := {
  wa_numbers : ps.*1 = seqZ 1 (zlen ps);
  wa_next : next_ordinal w = 1 + zlen ps;
  wa_parts : map number (parts w) = ps.*1;
  wa_terminal : terminal w = false }.

Lemma numbers_below ps : ps.*1 = seqZ 1 (zlen ps) -> Forall (fun p : Z * list Z => p.1 < 1 + zlen ps) ps.
Proof.
  intros Hn. rewrite Forall_forall. intros p Hp. apply (list_elem_of_fmap_2 fst) in Hp.
  rewrite Hn in Hp. apply elem_of_seqZ in Hp. lia.
Qed.

(** The writer after a part. *)
Lemma sent_part w ps b buf c len : writer_at w ps -> number c = 1 + zlen ps ->
  writer_at (mkWriter (upload w) (Commit.blob w) buf (1 + zlen ps + 1) (parts w ++ [c]) len (session w) (terminal w))
    (ps ++ [(1 + zlen ps, b)]).
Proof.
  intros [Hnum Hnext Hparts Hterm] Ec. pose proof (zlen_nonneg ps).
  split; cbn [next_ordinal parts terminal]; rewrite ?zlen_app, ?fmap_app, ?map_app.
  - rewrite Hnum. replace (zlen ps + zlen [(1 + zlen ps, b)]) with (zlen ps + 1) by (unfold zlen; cbn; lia).
    rewrite seqZ_app by lia. cbn. done.
  - unfold zlen. cbn. lia.
  - f_equal; [exact Hparts|]. cbn. by rewrite Ec.
  - done.
Qed.

(** Sending the whole buffer. *)
Lemma upload_part_safe w key ps F : writer_at w ps -> Forall (fun p => zlen p.2 = PART_BYTES) ps ->
  0 < zlen (buffer w) <= PART_BYTES ->
  safe (fun rw o F' => match rw.1 with
      | Done _ => F' = F /\ exists n, writer_at rw.2 (ps ++ [(n, buffer w)]) /\ buffer rw.2 = [] /\
                  session rw.2 = session w /\ o = Some (upload rw.2, Holding key (ps ++ [(n, buffer w)]))
      | Fail _ => ended rw.2 F o F'
      end) (upload_part w (zlen (buffer w))) (Some (upload w, Holding key ps)) F.
Proof.
  intros Hw Hfull Hb. unfold upload_part, part_ordinal, PartNumber_new.
  assert (Hfail : forall st e, live_status st -> safe (fun rw o F' => match rw.1 with
      | Done _ => F' = F /\ exists n, writer_at rw.2 (ps ++ [(n, buffer w)]) /\ buffer rw.2 = [] /\
                  session rw.2 = session w /\ o = Some (upload rw.2, Holding key (ps ++ [(n, buffer w)]))
      | Fail _ => ended rw.2 F o F' end) (fail_with (A:=unit) w e) (Some (upload w, st)) F).
  { intros st e Hst. eapply safe_mono; [|apply fail_with_safe; [exact Hst|by destruct Hw]].
    intros rw o F' [[x ->] He]. done. }
  rewrite (wa_next _ _ Hw). assert (Hpos : 0 <= zlen ps) by apply zlen_nonneg.
  destruct (1 + zlen ps <=? 65535) eqn:E1; [|by apply Hfail; right; eexists _, _].
  destruct (1 + zlen ps =? 0) eqn:E2; [lia|]. cbn [orb].
  destruct (PART_NUMBER_MAX <? 1 + zlen ps) eqn:E3; [by apply Hfail; right; eexists _, _|].
  assert (Htake : take (Z.to_nat (zlen (buffer w))) (buffer w) = buffer w) by (apply take_ge; unfold zlen; lia).
  rewrite Htake. cbn [safe]. exists key, ps. split_and!; [done| | |].
  - split; [done|lia|apply numbers_below, Hw|done|done].
  - intros c. destruct (number c =? 1 + zlen ps) eqn:Ec; cbn [negb]; [|by apply Hfail; right; eexists _, _].
    cbn. split; [done|]. exists (1 + zlen ps). apply Z.eqb_eq in Ec.
    split_and!; [by apply sent_part|by rewrite drop_ge; [|unfold zlen; lia]|done|done].
  - intros e. by apply Hfail; left.
Qed.

(** A writer in mid-stream: [data] was given to it, and what the session does not
    hold of it is in the buffer, less than a part. *)
Definition writing (w : MultipartWriter) (key data : list Z) (o : own) : Prop :=
  exists ps, writer_at w ps /\ Forall (fun p => zlen p.2 = PART_BYTES) ps /\
    zlen (buffer w) < PART_BYTES /\ session w = SessionOpen /\
    concat ps.*2 ++ buffer w = data /\ o = Some (upload w, Holding key ps).

Lemma concat_snoc (ps : list (Z * list Z)) n b : concat (ps ++ [(n, b)]).*2 = concat ps.*2 ++ b.
Proof. rewrite fmap_app, concat_app. cbn. by rewrite app_nil_r. Qed.

(** A turn of the loop takes what the buffer has room for. *)
Lemma loop_turn w chunk data fuel : zlen (buffer w) < PART_BYTES -> chunk <> [] ->
  (length chunk <= Datatypes.S fuel)%nat ->
  let n := Z.to_nat (Z.min (PART_BYTES - zlen (buffer w)) (zlen chunk)) in
  let w1 := with_buffer w (buffer w ++ take n chunk) in
  data ++ chunk = (data ++ take n chunk) ++ drop n chunk /\ (length (drop n chunk) <= fuel)%nat /\
  zlen (buffer w1) <= PART_BYTES /\ 0 < zlen (buffer w1).
Proof.
  intros Hbuf Hne Hlen n w1. pose proof (zlen_nonneg (buffer w)) as Hb0.
  assert (Hall : 0 < zlen chunk) by (destruct chunk; [done|unfold zlen; cbn [length]; lia]).
  assert (Htk : zlen (take n chunk) = Z.min (PART_BYTES - zlen (buffer w)) (zlen chunk))
    by (unfold n, zlen in *; rewrite length_take; lia).
  split_and!; [by rewrite <- app_assoc, take_drop|rewrite length_drop; unfold n, zlen in *; lia|..];
    cbn; rewrite zlen_app; lia.
Qed.

Lemma loop_sent w1 w2 key ps data num o : Forall (fun p => zlen p.2 = PART_BYTES) ps ->
  zlen (buffer w1) = PART_BYTES -> writer_at w2 (ps ++ [(num, buffer w1)]) -> buffer w2 = [] ->
  session w2 = SessionOpen -> concat ps.*2 ++ buffer w1 = data ->
  o = Some (upload w2, Holding key (ps ++ [(num, buffer w1)])) -> writing w2 key data o.
Proof.
  intros Hfull Hb Hat Hb2 Hses Hdata ->. exists (ps ++ [(num, buffer w1)]).
  split_and!; [done| | |done| |done].
  - apply Forall_app. split; [done|]. by repeat constructor.
  - rewrite Hb2. unfold zlen, PART_BYTES. cbn. lia.
  - by rewrite concat_snoc, Hb2, app_nil_r.
Qed.

Lemma write_loop_safe key fuel w data chunk o F : writing w key data o -> (length chunk <= fuel)%nat ->
  safe (fun rw o F' => match rw.1 with
      | Done _ => F' = F /\ writing rw.2 key (data ++ chunk) o
      | Fail _ => ended rw.2 F o F'
      end) (write_loop fuel w chunk) o F.
Proof.
  revert w data chunk o. induction fuel as [|fuel IH]; intros w data chunk o Hw Hlen.
  { destruct chunk; [|cbn in Hlen; lia]. cbn. by rewrite app_nil_r. }
  destruct chunk as [|c chunk]; [cbn; by rewrite app_nil_r|]. cbn [write_loop].
  destruct Hw as (ps & Hat & Hfull & Hbuf & Hses & Hdata & ->).
  pose proof (loop_turn w (c :: chunk) data fuel Hbuf ltac:(done) Hlen) as (Hrest & Hdrop & Hb1 & Hpart).
  set (n := Z.to_nat _) in *. set (w1 := with_buffer w _) in *.
  assert (Hat1 : writer_at w1 ps) by (destruct Hat; split; done).
  assert (Hdata1 : concat ps.*2 ++ buffer w1 = data ++ take n (c :: chunk)) by (cbn; by rewrite app_assoc, Hdata).
  rewrite Hrest. destruct (zlen (buffer w1) =? PART_BYTES) eqn:Efull.
  - apply Z.eqb_eq in Efull. apply safe_bind. rewrite <- Efull.
    eapply safe_mono; [|apply (upload_part_safe w1 key ps F Hat1 Hfull ltac:(rewrite Efull; unfold PART_BYTES; lia))].
    intros [[u|x] w2] o F'; cbn [fst snd]; [|by intros He].
    intros (-> & num & Hat2 & Hb2 & Hses2 & ->). eapply (IH w2); [|done].
    by eapply loop_sent; rewrite ?Hses2.
  - apply Z.eqb_neq in Efull. eapply (IH w1); [|done]. exists ps. split_and!; try done; lia.
Qed.

Lemma write_chunk_safe key w data chunk o F : writing w key data o ->
  safe (fun rw o F' => match rw.1 with
      | Done _ => F' = F /\ writing rw.2 key (data ++ chunk) o
      | Fail _ => ended rw.2 F o F'
      end) (write_chunk w chunk) o F.
Proof.
  intros Hw. unfold write_chunk. assert (session w = SessionOpen) as -> by (by destruct Hw as (ps & ? & ? & ? & ? & _)).
  by apply write_loop_safe.
Qed.

(** A writer whose stream is flushed: the session holds all of [data]. *)
Definition flushed (w : MultipartWriter) (key data : list Z) (o : own) : Prop :=
  exists ps, writer_at w ps /\ session w = SessionFlushed /\ buffer w = [] /\
    concat ps.*2 = data /\ o = Some (upload w, Holding key ps).

Lemma writer_finish_safe key w data o F : writing w key data o ->
  safe (fun rw o F' => match rw.1 with
      | Done _ => F' = F /\ flushed rw.2 key data o
      | Fail _ => ended rw.2 F o F'
      end) (writer_finish w) o F.
Proof.
  intros (ps & Hat & Hfull & Hbuf & Hses & Hdata & ->). unfold writer_finish. rewrite Hses.
  destruct (0 <? zlen (buffer w)) eqn:Eb.
  - apply safe_bind. eapply safe_mono; [|apply (upload_part_safe w key ps F Hat Hfull ltac:(lia))].
    intros [[u|x] w2] o F'; cbn [fst snd]; [|by intros He].
    intros (-> & num & Hat2 & Hb2 & Hses2 & ->). cbn. split; [done|].
    exists (ps ++ [(num, buffer w)]). split_and!; try done; [by destruct Hat2|by rewrite concat_snoc].
  - assert (Hnil : buffer w = []) by (apply nil_length_inv; unfold zlen in Eb; lia).
    cbn. split; [done|]. exists ps. split_and!; try done; [by destruct Hat|].
    by rewrite <- Hdata, Hnil, app_nil_r.
Qed.

(** The commit of a flushed stream. *)
Lemma writer_commit_safe key w data o F : flushed w key data o -> allowed F key data ->
  safe (fun r o F' => match r with
      | Done _ => o = None /\ F' = stand key F
      | Fail _ => finished o /\ F' = F
      end) (writer_commit w) o F.
Proof.
  intros (ps & Hat & Hses & Hbuf & Hdata & ->) Hal.
  assert (Hterm : terminal w = false) by (by destruct Hat).
  assert (Hfail : forall st e, live_status st ->
    safe (fun rw o F' => safe (fun r o F' => match r with
        | Done _ => o = None /\ F' = stand key F | Fail _ => finished o /\ F' = F end) (do _ <- drop_writer rw.2; Ret rw.1) o F')
      (fail_with (A:=StorageOutcome) w e) (Some (upload w, st)) F).
  { intros st e Hst. eapply safe_mono; [|by apply fail_with_safe]. intros rw o F' [[x ->] He].
    eapply safe_mono; [|exact (return_safe _ _ _ _ _ He)]. intros r o' F'' (-> & -> & ?). done. }
  unfold writer_commit. apply safe_bind. unfold commit_body. rewrite Hses, Hbuf. cbn [length Nat.eqb negb].
  destruct (length (parts w) =? 0)%nat eqn:Ep; [by apply Hfail; right; eexists _, _|].
  cbn [safe]. exists key, ps. split_and!; [done|by destruct Hat|by rewrite Hdata| |].
  - intros x. left. split; [done|]. by cbn.
  - intros x. by apply Hfail; left.
Qed.

(** ** The blob *)

(** The loop of [commit_blob] after the chunks [seen], with [out] encoded. *)
Record streamed (x : Streaming E) (key : list Z) (seen : list (list Z)) (out : list Z) (o : own) : Prop := {
  sd_writing : writing (writer x) key out o;
  sd_canonical : absorbed (canonical_hasher x) (concat seen);
  sd_bytes : canonical_bytes x = Z.min U64_MAX (zlen (concat seen));
  sd_stored : absorbed (stored_hasher x) out;
  sd_drained : drained_bytes x = Z.min U64_MAX (zlen out) }.

Lemma sat_add_len (a b : list Z) : sat_add64 (Z.min U64_MAX (zlen a)) (zlen b) = Z.min U64_MAX (zlen (a ++ b)).
Proof. unfold sat_add64. rewrite zlen_app. pose proof (zlen_nonneg b). lia. Qed.

Lemma drain_encoded_safe x key seen out encoded o F : streamed x key seen out o ->
  safe (fun r o F' => F' = F /\ match r with
      | Done x' => streamed x' key seen (out ++ encoded) o /\ encoder x' = encoder x
      | Fail _ => finished o
      end) (drain_encoded x encoded) o F.
Proof.
  intros Hx. destruct encoded as [|c cs]; [cbn; by rewrite app_nil_r|].
  set (encoded := c :: cs). change (drain_encoded x encoded) with
    (do rw <- write_chunk (writer x) encoded;
     match rw.1 with
     | Done _ =>
         Ret (Done (mkStreaming rw.2 (encoder x) (canonical_hasher x) (canonical_bytes x)
           (update (stored_hasher x) encoded) (sat_add64 (drained_bytes x) (zlen encoded))))
     | Fail e => do _ <- drop_writer rw.2; Ret (Fail e)
     end).
  apply safe_bind. eapply safe_mono; [|apply write_chunk_safe, Hx].
  intros [[u|e] w] o' F'; cbn [fst snd].
  - intros [-> Hw]. cbn [safe]. split; [done|]. split; [|done]. destruct Hx as [_ G2 G3 G4 G5].
    split; cbn; [done|done|done|by apply absorbed_update|]. by rewrite G5, sat_add_len.
  - intros He. eapply safe_mono; [|exact (return_safe _ _ _ _ _ He)]. intros r o2 F2 (-> & -> & ?). done.
Qed.

Lemma encode_chunks_snoc enc cs c out enc1 more enc2 :
  encode_chunks enc cs = Done (out, enc1) -> encode_update enc1 c = Done (more, enc2) ->
  encode_chunks enc (cs ++ [c]) = Done (out ++ more, enc2).
Proof.
  revert enc out. induction cs as [|d cs IH]; intros enc out; cbn [encode_chunks app].
  - intros [= <- <-] ->. by rewrite app_nil_r.
  - destruct (encode_update enc d) as [[o1 e1]|]; [|done].
    destruct (encode_chunks e1 cs) as [[o2 e2]|] eqn:Ec; [|done]. intros [= <- <-] Hu.
    rewrite (IH _ _ Ec Hu). by rewrite app_assoc.
Qed.

(** The session an unfinished stream holds. *)
Lemma writing_live w key data o : writing w key data o -> terminal w = false /\
  exists st, o = Some (upload w, st) /\ live_status st.
Proof. intros (ps & [] & _ & _ & _ & _ & ->). split; [done|]. eexists. split; [done|]. right. by eexists _, _. Qed.

Lemma streamed_snoc x key seen out c enc o : streamed x key seen out o ->
  streamed (mkStreaming (writer x) enc (update (canonical_hasher x) c)
    (sat_add64 (canonical_bytes x) (zlen c)) (stored_hasher x) (drained_bytes x)) key (seen ++ [c]) out o.
Proof.
  intros [G1 G2 G3 G4 G5]. assert (Hcat : concat (seen ++ [c]) = concat seen ++ c)
    by (rewrite concat_app; cbn; by rewrite app_nil_r).
  split; cbn; rewrite ?Hcat; try done; [by apply absorbed_update|]. by rewrite G3, sat_add_len.
Qed.

Lemma stream_chunks_safe enc0 x key seen out rest o F : streamed x key seen out o ->
  encode_chunks enc0 seen = Done (out, encoder x) ->
  safe (fun r o F' => F' = F /\ match r with
      | Done x' => exists out', streamed x' key (seen ++ rest) out' o /\
                   encode_chunks enc0 (seen ++ rest) = Done (out', encoder x')
      | Fail _ => finished o
      end) (stream_chunks x rest) o F.
Proof.
  revert x seen out o. induction rest as [|c rest IH]; intros x seen out o Hx Henc.
  { cbn. rewrite app_nil_r. eauto. }
  cbn [stream_chunks]. destruct (encode_update (encoder x) c) as [[more enc1]|e] eqn:Eu.
  - apply safe_bind. set (x1 := mkStreaming (writer x) enc1 _ _ _ _).
    assert (Hx1 : streamed x1 key (seen ++ [c]) out o) by (by apply streamed_snoc).
    eapply safe_mono; [|apply drain_encoded_safe, Hx1]. intros [x2|e] o' F' [-> Hr]; [|done].
    destruct Hr as [Hx2 He2]. replace (seen ++ c :: rest) with ((seen ++ [c]) ++ rest) by (by rewrite <- app_assoc).
    eapply IH; [done|]. rewrite He2. by eapply encode_chunks_snoc.
  - destruct (writing_live _ _ _ _ (sd_writing _ _ _ _ _ Hx)) as (Ht & st & -> & Hst).
    eapply safe_mono; [|by apply abort_writer_safe]. intros r o' F' ([y ->] & -> & Hf). done.
Qed.

(** What a committed blob is. *)
Definition blob_committed (tenant : list Z) (x : BlobExpectation) (data : list Z) (c : BlobCommit) : Prop :=
  digest data = content x /\ Z.min U64_MAX (zlen data) = expected_bytes x /\
  blob_key c = BlobObjectKey_new tenant ZstdV1 (content x) /\ uncompressed_bytes c = expected_bytes x /\
  stored_bytes c = Z.min U64_MAX (zlen (encode data)) /\ blob_stored_sha256 c = digest (encode data).

Lemma complete_blob_safe tenant expect x seen out o F :
  out = encode (concat seen) ->
  (digest (concat seen) = content expect -> allowed F (BlobObjectKey_new tenant ZstdV1 (content expect)) out) ->
  streamed x (BlobObjectKey_new tenant ZstdV1 (content expect)) seen out o ->
  safe (fun r o F' => match r with
      | Done c => o = None /\ F' = stand (BlobObjectKey_new tenant ZstdV1 (content expect)) F /\
                  blob_committed tenant expect (concat seen) c
      | Fail _ => finished o /\ F' = F
      end) (complete_blob (BlobObjectKey_new tenant ZstdV1 (content expect)) expect x) o F.
Proof.
  intros Hout Hal Hx. set (key := BlobObjectKey_new _ _ _) in *. unfold complete_blob.
  destruct Hx as [Hw Hc Hb Hs Hd]. apply safe_bind.
  eapply safe_mono; [|by apply writer_finish_safe]. intros [[u|e] w] o' F'; cbn [fst snd].
  2:{ intros He. eapply safe_mono; [|exact (return_safe _ _ _ _ _ He)]. intros r o2 F2 (-> & -> & ?). done. }
  intros [-> Hfl].
  assert (Hlive : terminal w = false /\ exists st, o' = Some (upload w, st) /\ live_status st).
  { destruct Hfl as (ps & [] & _ & _ & _ & ->). split; [done|]. eexists. split; [done|]. right. by eexists _, _. }
  destruct Hlive as (Hterm & st & Ho & Hst).
  assert (Habort : forall e, safe (fun r o F' => match r with
      | Done c => o = None /\ F' = stand key F /\ blob_committed tenant expect (concat seen) c
      | Fail _ => finished o /\ F' = F end) (abort_writer (A:=BlobCommit) w e) o' F).
  { intros e. rewrite Ho. eapply safe_mono; [|by apply abort_writer_safe].
    intros r o2 F2 ([y ->] & -> & Hf). done. }
  rewrite (finalize_absorbed _ _ Hc), <- digest_spec.
  case_bool_decide as Hdig; cbn [negb]; [|apply Habort].
  destruct (canonical_bytes x =? expected_bytes expect) eqn:Eb; cbn [negb]; [|apply Habort].
  apply Z.eqb_eq in Eb. apply safe_bind.
  eapply safe_mono; [|eapply writer_commit_safe; [done|by apply Hal]].
  intros [oc|e] o2 F2 [Hf ->]; cbn [safe]; [|done]. split_and!; [done|done|].
  unfold blob_committed. cbn. rewrite (finalize_absorbed _ _ Hs), <- digest_spec, Hd, Hout.
  split_and!; try done. by rewrite <- Hb.
Qed.

Lemma commit_blob_safe tenant expect enc canonical F :
  starts enc ->
  (digest (concat canonical) = content expect ->
     allowed F (BlobObjectKey_new tenant ZstdV1 (content expect)) (encode (concat canonical))) ->
  safe (fun r o F' => match r with
      | Done c => o = None /\ F' = stand (BlobObjectKey_new tenant ZstdV1 (content expect)) F /\
                  blob_committed tenant expect (concat canonical) c
      | Fail _ => finished o /\ F' = F
      end) (commit_blob tenant expect enc canonical) None F.
Proof.
  intros Hstart Hal. set (key := BlobObjectKey_new tenant ZstdV1 (content expect)).
  unfold commit_blob. fold key. apply safe_bind. cbn [writer_begin safe]. split_and!; [done| |].
  2:{ intros e. cbn. split; [by left|done]. }
  intros u. cbn [safe]. exists key. split; [done|]. cbn [safe]. apply safe_bind.
  set (x0 := mkStreaming _ enc new 0 new 0).
  assert (Hx0 : streamed x0 key [] [] (Some (u, Holding key []))).
  { split; cbn; try apply absorbed_new; try done. exists []. by split_and!. }
  eapply safe_mono; [|by apply (stream_chunks_safe enc x0 key [] [] canonical _ F)].
  intros [x1|e] o F' [-> Hr]; cbn [app] in Hr; [|by split].
  destruct Hr as (out & Hx1 & Henc).
  destruct (writing_live _ _ _ _ (sd_writing _ _ _ _ _ Hx1)) as (Hterm & st & Ho & Hst).
  destruct (encode_finish (encoder x1)) as [tail|e] eqn:Ef.
  - apply safe_bind. eapply safe_mono; [|apply drain_encoded_safe, Hx1].
    intros [x2|e] o2 F2 [-> Hr2]; [|by split]. destruct Hr2 as [Hx2 _].
    assert (Hout : out ++ tail = encode (concat canonical)) by (by eapply encode_law).
    eapply complete_blob_safe; [done|by rewrite Hout|done].
  - rewrite Ho. eapply safe_mono; [|by apply abort_writer_safe].
    intros r o2 F2 ([y ->] & -> & Hf). done.
Qed.

(** ** The manifests and the sequence *)

Lemma commit_manifest_safe k b F : allowed F (manifest_text k) b ->
  safe (fun r o F' => o = None /\ match r with
      | Done _ => F' = stand (manifest_text k) F
      | Fail _ => F' = F \/ F' = stand (manifest_text k) F
      end) (commit_manifest k b) None F.
Proof.
  intros Hg. unfold commit_manifest. cbn [safe]. intros c. destruct (conditional_create c).
  - unfold commit_by_conditional_create. destruct (bounded_manifest_bytes b); [|by cbn; auto].
    cbn [safe]. intros c'. destruct (bool_decide _); cbn [negb safe]; [|by auto].
    split_and!; [done|done| |by auto]. intros [|ex]; [done|]. destruct (classify_existing ex b); auto.
  - unfold commit_by_deterministic_overwrite, put_manifest.
    destruct (bounded_manifest_bytes b); cbn [pbind safe]; [|by auto]. split_and!; auto.
Qed.

Lemma commit_occurrence_safe e F :
  (occurrence_id e = rederive_occurrence_id e -> allowed F (occurrence_key_of e) (occurrence_bytes e)) ->
  safe (fun r o F' => o = None /\ match r with
      | Done m => F' = stand (occurrence_key_of e) F /\ manifest_key m = OccurrenceKey (occurrence_key_of e)
      | Fail _ => F' = F \/ F' = stand (occurrence_key_of e) F
      end) (commit_occurrence_manifest e) None F.
Proof.
  intros Hal. unfold commit_occurrence_manifest, verified_occurrence_id.
  case_bool_decide as Hid; [|cbn [safe]; split; [done|by left]]. apply safe_bind.
  eapply safe_mono; [|apply commit_manifest_safe; by apply Hal].
  intros [x|x] o F' [-> Hr]; cbn [safe manifest_key manifest_text] in *; [by split_and!|by split].
Qed.

Lemma commit_attestation_safe e d F :
  (occurrence_id e = rederive_occurrence_id e -> attestation_id e = rederive_attestation_id e ->
   consistent d e = true -> allowed F (attestation_key_of e) (attestation_bytes e d)) ->
  safe (fun r o F' => o = None /\ match r with
      | Done m => F' = stand (attestation_key_of e) F /\ manifest_key m = AttestationKey (attestation_key_of e)
      | Fail _ => F' = F \/ F' = stand (attestation_key_of e) F
      end) (commit_attestation_manifest e d) None F.
Proof.
  intros Hal. unfold commit_attestation_manifest, verified_attestation_identity, verified_occurrence_id.
  case_bool_decide as Hid; [|cbn [safe]; split; [done|by left]]. case_bool_decide as Hatt; [|cbn [safe]; split; [done|by left]].
  destruct (consistent d e) eqn:Hd; cbn [negb]; [|cbn [safe]; split; [done|by left]]. apply safe_bind.
  eapply safe_mono; [|apply commit_manifest_safe; by apply Hal].
  intros [x|x] o F' [-> Hr]; cbn [safe manifest_key manifest_text] in *; [by split_and!|by split].
Qed.

(** What the result of a sequence says of the store. *)
Definition sequence_truth (e : Envelope) (data : list Z) (r : io SequenceError SequenceCommit)
    (stands : list Z -> Prop) : Prop :=
  match r with
  | Done c =>
      stands (blob_key_of e) /\ stands (occurrence_key_of e) /\ stands (attestation_key_of e) /\
      blob_committed (tenant_id e) (mkExpectation (blob_digest e) (uncompressed_size e)) data (blob_commit c) /\
      manifest_key (occurrence_commit (provenance c)) = OccurrenceKey (occurrence_key_of e) /\
      manifest_key (attestation_commit (provenance c)) = AttestationKey (attestation_key_of e)
  | Fail x =>
      match durable x with
      | NothingDurable => True
      | BlobOnly => stands (blob_key_of e)
      | BlobAndOccurrence => stands (blob_key_of e) /\ stands (occurrence_key_of e)
      end
  end.

(** The three writes of a submission that passes its checks, each made when the
    object it names stands. *)
Record submission_allowed (e : Envelope) (d : Delegation) (data : list Z) : Prop := {
  sa_blob F : digest data = blob_digest e -> allowed F (blob_key_of e) (encode data);
  sa_occurrence F : occurrence_id e = rederive_occurrence_id e -> blob_key_of e ∈ standing F ->
    allowed F (occurrence_key_of e) (occurrence_bytes e);
  sa_attestation F : occurrence_id e = rederive_occurrence_id e ->
    attestation_id e = rederive_attestation_id e -> consistent d e = true ->
    occurrence_key_of e ∈ standing F -> allowed F (attestation_key_of e) (attestation_bytes e d) }.

Lemma commit_sequence_safe e d enc canonical F : submission_allowed e d (concat canonical) -> starts enc ->
  safe (fun r o F' => finished o /\ sequence_truth e (concat canonical) r (fun k => k ∈ standing F'))
    (commit_sequence e d enc canonical) None F.
Proof.
  intros Ht Hs. unfold commit_sequence. apply safe_bind.
  eapply safe_mono; [|apply commit_blob_safe; [done|apply Ht]].
  intros [c|x] o F1; [|intros [Hf ->]; by cbn].
  intros (-> & -> & Hc). cbn [content] in *. fold (blob_key_of e) in *. unfold commit_provenance.
  apply safe_bind, safe_bind.
  eapply safe_mono; [|apply commit_occurrence_safe; intros; apply Ht; [done|apply stand_same]].
  intros [m|x] o F2 [-> Hm].
  2:{ cbn [safe]. split; [by left|]. cbn [sequence_truth durable]. destruct Hm as [->| ->]; auto using stand_same, stand_more. }
  destruct Hm as [-> Hkm]. apply safe_bind.
  eapply safe_mono; [|apply commit_attestation_safe; intros; apply Ht; [done..|apply stand_same]].
  intros [m'|x] o F3 [-> Hm']; cbn [safe]; (split; [by left|]); cbn [sequence_truth durable].
  - destruct Hm' as [-> Hkm']. split_and!; auto using stand_same, stand_more.
  - destruct Hm' as [->| ->]; auto using stand_same, stand_more.
Qed.

Lemma abort_each_safe us F : (forall u, u ∈ us -> u ∈ dead F) ->
  safe (fun _ o _ => finished o) (abort_each us) None F.
Proof.
  revert F. induction us as [|u us IH]; intros F Hd; [by left|]. cbn [abort_each safe]. right.
  split_and!; [done|set_solver| |].
  - intros _. cbn [safe]. right. split_and!; [done|cbn; set_solver|]. apply IH. intros v Hv. cbn. set_solver.
  - intros x. apply safe_bind. eapply safe_mono; [|apply IH; set_solver]. intros fs o F' Hf. done.
Qed.

Lemma abort_abandoned_safe F : safe (fun _ o _ => finished o) abort_abandoned None F.
Proof. cbn. intros us. apply abort_each_safe. intros u Hu. cbn. set_solver. Qed.
End Programs.

(** * Keys *)

(** A hasher that has absorbed something gives a digest. *)
Definition hashed (h : Sha256) : Prop := exists m, absorbed h m.

Lemma hashed_update h d : hashed h -> hashed (update h d).
Proof. intros [m Hm]. exists (m ++ d). by apply absorbed_update. Qed.

Lemma hashed_finalize h : hashed h -> is_digest (finalize h).
Proof.
  intros [m Hm]. rewrite (finalize_absorbed _ _ Hm), <- digest_spec.
  split; [apply digest_bytes|apply length_digest].
Qed.

Lemma hashed_new : hashed new.
Proof. exists []. apply absorbed_new. Qed.

Ltac rederived := apply hashed_finalize; repeat apply hashed_update; apply hashed_new.

Lemma session_is_digest e : is_digest (rederive_session_hash e).
Proof. rederived. Qed.

Lemma occurrence_is_digest e : is_digest (rederive_occurrence_id e).
Proof. rederived. Qed.

Lemma attestation_is_digest e : is_digest (rederive_attestation_id e).
Proof. rederived. Qed.

(** * What the archive allows *)

Section Instances.
Context {E : Type} `{LawfulEncoder E}.

(** What [good] asks of a write, with what the writer knows to stand. *)
Definition archive_allowed (F : facts) (k b : list Z) : Prop :=
  forall vis, (forall k, k ∈ standing F -> is_Some (vis !! k)) -> good vis k b.

Lemma archive_write_ok vis F k b : archive_ok vis -> (forall k, k ∈ standing F -> is_Some (vis !! k)) ->
  archive_allowed F k b -> archive_ok (<[k := b]> vis).
Proof. intros Ha Hs Hg. apply archive_insert; [done|]. by apply Hg. Qed.

Lemma archive_submission e d data : typed_envelope e -> submission_allowed archive_allowed e d data.
Proof.
  intros Ht. split; intros F.
  - intros Hd vis _. unfold blob_key_of. rewrite <- Hd. apply good_blob, Ht.
  - intros Hid Hb vis Hv. by apply good_occurrence; [| |apply Hv].
  - intros Hid Hatt Hd Ho vis Hv. by apply good_attestation; [| | | |apply Hv].
Qed.

(** Writes of what is there already. *)
Definition replay_allowed (vis : gmap (list Z) (list Z)) (F : facts) (k b : list Z) : Prop := vis !! k = Some b.

Lemma replay_write_ok vis vis' F k b : vis' = vis -> (forall k, k ∈ standing F -> is_Some (vis' !! k)) ->
  replay_allowed vis F k b -> <[k := b]> vis' = vis.
Proof. intros -> _ Hk. by apply insert_id. Qed.

(** The three objects of a submission are stored. *)
Definition archived (vis : gmap (list Z) (list Z)) (e : Envelope) (d : Delegation) (data : list Z) : Prop :=
  vis !! blob_key_of e = Some (encode data) /\
  vis !! occurrence_key_of e = Some (occurrence_bytes e) /\
  vis !! attestation_key_of e = Some (attestation_bytes e d).

Lemma replay_submission vis e d data : archived vis e d data -> submission_allowed (replay_allowed vis) e d data.
Proof. intros (Hb & Ho & Ha). by split; intros. Qed.

(** ** Requests *)

(** What a task ends with. *)
Inductive outcome :=
| Committed (e : Envelope) (data : list Z) (r : io SequenceError SequenceCommit)
| Drained (failures : list (UploadId * StorageError)).

(** An upload: the sequence of a submission. *)
Definition serve (e : Envelope) (d : Delegation) (enc : E) (canonical : list (list Z)) : prog outcome :=
  do r <- commit_sequence e d enc canonical; Ret (Committed e (concat canonical) r).

(** The sweep of abandoned uploads. *)
Definition sweep : prog outcome := do failures <- abort_abandoned; Ret (Drained failures).

(** The programs of a pool whose submissions satisfy [admits]. *)
Inductive serving (admits : Envelope -> Delegation -> list Z -> Prop) : prog outcome -> Prop :=
| serving_upload e d enc canonical : admits e d (concat canonical) -> starts enc ->
    serving admits (serve e d enc canonical)
| serving_sweep : serving admits sweep.

Definition outcome_ok (a : outcome) (o : own) (F : facts) : Prop :=
  finished o /\
  match a with
  | Committed e data r => sequence_truth e data r (fun k => k ∈ standing F)
  | Drained _ => True
  end.

Lemma serving_safe allowed (admits : Envelope -> Delegation -> list Z -> Prop) p :
  (forall e d data, admits e d data -> submission_allowed allowed e d data) ->
  serving admits p -> safe allowed outcome_ok p None no_facts.
Proof.
  intros Ha [e d enc canonical Hs Henc|]; apply safe_bind.
  - eapply safe_mono; [|apply commit_sequence_safe; [by apply Ha|done]]. by intros r o F.
  - eapply safe_mono; [|apply abort_abandoned_safe]. by intros r o F.
Qed.
End Instances.

(** * What stands at a key *)

Section Addresses.
Context {E : Type} `{LawfulEncoder E}.

Lemma blob_key_segments tenant h : TenantId_parse tenant = Ok tenant -> is_digest h ->
  length (split_slash (BlobObjectKey_new tenant ZstdV1 h)) = 9%nat.
Proof. intros. by rewrite blob_segments. Qed.

Lemma occurrence_key_segments e : typed_envelope e -> length (split_slash (occurrence_key_of e)) = 10%nat.
Proof.
  intros []. unfold occurrence_key_of. by rewrite occurrence_segments; auto using session_is_digest, occurrence_is_digest.
Qed.

Lemma attestation_key_segments e : typed_envelope e -> length (split_slash (attestation_key_of e)) = 8%nat.
Proof.
  intros []. unfold attestation_key_of.
  by rewrite attestation_segments; auto using occurrence_is_digest, attestation_is_digest.
Qed.

Lemma digest_is_digest data : is_digest (digest data).
Proof. split; [apply digest_bytes|apply length_digest]. Qed.

(** The three kinds of key are told apart by their segments. *)
Ltac other_kind Hk :=
  exfalso; apply (f_equal (fun k => length (split_slash k))) in Hk;
  rewrite ?blob_key_segments, ?occurrence_key_segments, ?attestation_key_segments in Hk
    by auto using digest_is_digest; discriminate Hk.

Lemma good_at_blob vis k b tenant h : good vis k b -> k = BlobObjectKey_new tenant ZstdV1 h ->
  TenantId_parse tenant = Ok tenant -> is_digest h -> exists data, digest data = h /\ b = encode data.
Proof.
  intros [tenant' data Ht'|e Ht' _ _|e d Ht' _ _ _ _] Hk Ht Hh; [|other_kind Hk..].
  destruct (proj1 object_keys_injective _ _ _ _ _ _ Ht' Ht (digest_is_digest data) Hh Hk) as (_ & _ & <-). eauto.
Qed.

Lemma good_at_occurrence vis k b e : good vis k b -> k = occurrence_key_of e -> typed_envelope e ->
  exists e', rederive_occurrence_id e' = rederive_occurrence_id e /\ occurrence_id e' = rederive_occurrence_id e' /\
    tenant_id e' = tenant_id e /\ b = occurrence_bytes e' /\ is_Some (vis !! blob_key_of e').
Proof.
  intros [tenant' data Ht'|e' Ht' Hid Hb|e' d Ht' _ _ _ _] Hk Ht; [other_kind Hk| |other_kind Hk].
  exists e'. destruct Ht, Ht'.
  edestruct (proj1 (proj2 object_keys_injective)) as (E1 & _ & _ & _ & E2);
    [| | | | | | | | | |exact Hk|]; auto using session_is_digest, occurrence_is_digest.
Qed.

Lemma good_at_attestation vis k b e : good vis k b -> k = attestation_key_of e -> typed_envelope e ->
  exists e' d, rederive_attestation_id e' = rederive_attestation_id e /\
    rederive_occurrence_id e' = rederive_occurrence_id e /\ attestation_id e' = rederive_attestation_id e' /\
    tenant_id e' = tenant_id e /\ consistent d e' = true /\
    b = attestation_bytes e' d /\ is_Some (vis !! occurrence_key_of e').
Proof.
  intros [tenant' data Ht'|e' Ht' _ _|e' d Ht' Hid Hatt Hd Ho] Hk Ht; [other_kind Hk..|].
  exists e', d. destruct Ht, Ht'.
  edestruct (proj2 (proj2 object_keys_injective)) as (E1 & E2 & E3);
    [| | | | | |exact Hk|]; auto using attestation_is_digest, occurrence_is_digest.
  by split_and!.
Qed.
End Addresses.

(** * Properties *)

Section Properties.
Context {S : Type} `{LawfulStore S} {E : Type} `{LawfulEncoder E}.

(** Every reachable pool meets the invariant, for any preserved property of the
    visible objects that the submissions' writes keep. *)
Lemma serving_invariant (allowed : facts -> list Z -> list Z -> Prop) (vis_ok : gmap (list Z) (list Z) -> Prop)
    (admits : Envelope -> Delegation -> list Z -> Prop) (s0 : S) P :
  (forall vis F k b, vis_ok vis -> (forall k, k ∈ standing F -> is_Some (vis !! k)) ->
     allowed F k b -> vis_ok (<[k := b]> vis)) ->
  (forall e d data, admits e d data -> submission_allowed allowed e d data) ->
  vis_ok (visible s0) -> pool_reachable (serving admits) s0 P ->
  exists ann fs, inv allowed outcome_ok vis_ok P ann fs.
Proof.
  intros Hw Ha Hv HP. eapply inv_reachable; [done| |done|done]. intros p. by apply serving_safe.
Qed.

Abbreviation any_submission := (fun (_ : Envelope) (_ : Delegation) (_ : list Z) => True).

Lemma any_invariant (s0 : S) P : pool_reachable (serving any_submission) s0 P ->
  exists ann fs, inv (fun _ _ _ => True) outcome_ok (fun _ => True) P ann fs.
Proof. intros HP. eapply serving_invariant; [done| |done|done]. by split. Qed.

(** C7: The archive is well-formed at every moment of every execution:
    however uploads and sweeps interleave, whatever store calls fail with or
    without effect, and whichever tasks are cancelled, each visible blob stores
    the encoding of bytes that hash to its address, each visible occurrence
    manifest was derived from an envelope with that occurrence identity whose
    blob is visible, and each visible attestation from one whose occurrence is. *)
Theorem archive_integrity (s0 : S) P : archive_ok (visible s0) ->
  pool_reachable (serving (fun e _ _ => typed_envelope e)) s0 P ->
  let vis := visible (store P) in archive_ok vis /\
  (forall tenant h b, TenantId_parse tenant = Ok tenant -> is_digest h ->
     vis !! BlobObjectKey_new tenant ZstdV1 h = Some b -> exists data, digest data = h /\ b = encode data) /\
  (forall e b, typed_envelope e -> vis !! occurrence_key_of e = Some b ->
     exists e', rederive_occurrence_id e' = rederive_occurrence_id e /\
       occurrence_id e' = rederive_occurrence_id e' /\ tenant_id e' = tenant_id e /\
       b = occurrence_bytes e' /\ is_Some (vis !! blob_key_of e')) /\
  (forall e b, typed_envelope e -> vis !! attestation_key_of e = Some b ->
     exists e' d, rederive_attestation_id e' = rederive_attestation_id e /\
       rederive_occurrence_id e' = rederive_occurrence_id e /\
       attestation_id e' = rederive_attestation_id e' /\ tenant_id e' = tenant_id e /\
       consistent d e' = true /\ b = attestation_bytes e' d /\ is_Some (vis !! occurrence_key_of e')).
Proof.
  intros Ha HP vis.
  destruct (serving_invariant archive_allowed archive_ok _ s0 P archive_write_ok
    (fun e d data => archive_submission e d data) Ha HP) as (ann & fs & Hinv).
  assert (Hok : archive_ok vis) by apply Hinv.
  split_and!; [done| | |].
  - intros tenant h b Ht Hh Hk. eapply good_at_blob; eauto.
  - intros e b Ht Hk. eapply good_at_occurrence; eauto.
  - intros e b Ht Hk. eapply good_at_attestation; eauto.
Qed.

(** C8: What an upload reports is true of the store when it reports it and from
    then on: a receipt's three objects are visible under the receipt's keys, its
    blob fields are the digests and sizes of what was uploaded, and a failure's
    durable state names objects that are visible. *)
Theorem sequence_results_true (s0 : S) P i h e data r :
  pool_reachable (serving any_submission) s0 P ->
  tasks P !! i = Some (mkTask h (Ret (Committed e data r))) ->
  sequence_truth e data r (fun k => is_Some (visible (store P) !! k)).
Proof.
  intros HP Hi. destruct (any_invariant s0 P HP) as (ann & fs & Hinv).
  pose proof (inv_safe _ _ _ _ _ _ Hinv i _ Hi) as [_ Ht]. cbn [code] in Ht.
  assert (Hs : forall k, k ∈ standing (fs i) -> is_Some (visible (store P) !! k))
    by apply (fo_standing _ _ _ (inv_facts _ _ _ _ _ _ Hinv i)).
  destruct r as [c|x]; cbn [sequence_truth] in *; [naive_solver|]. destruct (durable x); naive_solver.
Qed.

(** C9: No multipart session is lost: a session that was registered and is still
    open in the store is in the registry, and either it is abandoned, which the
    sweep aborts, or a task that has not ended holds it. *)
Theorem sessions_tracked (s0 : S) P u : pool_reachable (serving any_submission) s0 P ->
  u ∈ registered P -> is_Some (sessions (store P) !! u) ->
  u ∈ map entry_upload (registry P) /\
  (u ∈ abandoned_uploads (registry P) \/
   exists i t, tasks P !! i = Some t /\ held t = Some u /\ forall a, code t <> Ret a).
Proof.
  intros HP Hu Hs. destruct (any_invariant s0 P HP) as (ann & fs & Hinv).
  destruct (inv_tracked _ _ _ _ _ _ Hinv u Hu Hs) as [Hr [Hab|(i & st & Ei & Hst)]];
    (split; [done|]); [by left|right].
  destruct (tasks P !! i) as [t|] eqn:Et; [|by rewrite (inv_none _ _ _ _ _ _ Hinv i Et) in Ei].
  exists i, t. pose proof (inv_own _ _ _ _ _ _ Hinv i t Et) as Ho. rewrite Ei in Ho.
  split_and!; [done| |].
  - destruct Ho as [_ Ho]. by destruct Hst as [->|(key & ps & ->)]; apply Ho.
  - intros a Ec. pose proof (inv_safe _ _ _ _ _ _ Hinv i t Et) as Hsafe. rewrite Ec, Ei in Hsafe.
    destruct Hsafe as [[?|[v Hv]] _]; [done|]. injection Hv as -> ->. by destruct Hst as [?|(? & ? & ?)].
Qed.

(** The parts of a session are what S3 accepts and what the store has: a part
    about to be written has the next number from one, at most [PART_NUMBER_MAX],
    is not empty, is at most [PART_BYTES] long and follows only full parts; a
    session about to be completed lists exactly the parts it holds. *)
Theorem parts_well_formed (s0 : S) P i h : pool_reachable (serving any_submission) s0 P ->
  (forall u n b next, tasks P !! i = Some (mkTask h (WritePart u n b next)) ->
     exists key ps, h = Some u /\ sessions (store P) !! u = Some (key, ps) /\ next_part ps n b) /\
  (forall u cs next, tasks P !! i = Some (mkTask h (CommitMultipart u cs next)) ->
     exists key ps, h = Some u /\ sessions (store P) !! u = Some (key, ps) /\ map number cs = ps.*1).
Proof.
  intros HP. destruct (any_invariant s0 P HP) as (ann & fs & Hinv).
  assert (Hat : forall p, tasks P !! i = Some (mkTask h p) ->
    safe (fun _ _ _ => True) outcome_ok p (ann i) (fs i) /\ own_ok (store P) (registered P) h (ann i)).
  { intros p Hi. split; [apply (inv_safe _ _ _ _ _ _ Hinv i _ Hi)|apply (inv_own _ _ _ _ _ _ Hinv i _ Hi)]. }
  split; [intros u n b next Hi|intros u cs next Hi]; destruct (Hat _ Hi) as [(key & ps & Eo & Hn & _) Ho];
    rewrite Eo in Ho; destruct Ho as (_ & Hse & -> & _); eauto.
Qed.

(** C11: Uploading again what is stored changes no object, whatever is interleaved,
    fails or is cancelled. *)
Theorem replay_unchanged (s0 : S) P : pool_reachable (serving (archived (visible s0))) s0 P ->
  visible (store P) = visible s0.
Proof.
  intros HP.
  destruct (serving_invariant (replay_allowed (visible s0)) (fun vis => vis = visible s0) _ s0 P
    (fun vis F k b => replay_write_ok (visible s0) vis F k b)
    (fun e d data => replay_submission (visible s0) e d data) eq_refl HP) as (ann & fs & Hinv).
  apply Hinv.
Qed.

(** The conditional-create commit overwrites nothing and claims no more than it
    knows: [Created] only when the key was empty and now holds the bytes,
    [AlreadyPresent] only when the object there has their digest; without
    evidence it reports the weaker outcome, on an object that is there. *)
Theorem conditional_create_honest (s : S) r k b :
  let '(x, s', r') := run (commit_by_conditional_create k b) s r in
  r' = r /\ (forall key old, visible s !! key = Some old -> visible s' !! key = Some old) /\
  match x with
  | Done Created => visible s !! manifest_text k = None /\ visible s' = <[manifest_text k := b]> (visible s)
  | Done AlreadyPresent => visible s' = visible s /\
      exists old, visible s !! manifest_text k = Some old /\ digest old = digest b
  | Done LogicallyCommittedUnknownPhysicalResult =>
      visible s' = visible s /\ is_Some (visible s !! manifest_text k)
  | Done ReplacedEquivalent => False
  | Fail _ => True
  end.
Proof.
  unfold commit_by_conditional_create. destruct (bounded_manifest_bytes b); [|done].
  cbn [run]. destruct (bool_decide _); cbn [negb run]; [|done].
  assert (Hins : forall key old, visible s !! manifest_text k = None -> visible s !! key = Some old ->
    <[manifest_text k := b]> (visible s) !! key = Some old).
  { intros key old Hk Ho. rewrite lookup_insert_ne; [done|]. intros Ek. congruence. }
  pose proof (create_law s k b) as Hl.
  destruct (create_manifest_if_absent s k b) as [[[|ex]|x] s1]; cbn [run].
  - destruct Hl as (_ & Hk & Hv). rewrite Hv. by split_and!; auto.
  - destruct Hl as (_ & Hv & old & Hold & Hsz & Hdg). rewrite Hv. split_and!; [done|done|].
    unfold classify_existing. destruct (stored_sha256 ex) as [dg|] eqn:Ed.
    + case_bool_decide as Eq; [|done]. split; [done|]. exists old. by rewrite <- (Hdg dg).
    + assert (is_Some (visible s !! manifest_text k)) by eauto.
      destruct (size ex) as [n|]; [destruct (n =? zlen b)|]; done.
  - destruct Hl as (_ & [Hv|[Hk Hv]]); rewrite Hv; by split_and!; auto.
Qed.

End Properties.
