(* ===== verification/CommitProgress.v ===== *)
(** What the commit path achieves: the sweep of abandoned uploads, and that an
    upload to a store that answers is committed, with as many parts as its stored
    form needs.  [CommitSafety] says what holds whatever happens; here programs
    run to their end ([run]). *)

From stdpp Require Import gmap functions.
From S2P Require Import Prelude Text Json Sha256 Vocabulary ObjectKey Records Store Commit Pool CommitSafety.
From S2P Require Import Envelope.

Open Scope prog_scope.

(** * The sweep *)

Section Sweep.
Context {S : Type} `{LawfulStore S}.

(** What aborting [us] did: the failures [fl], the store and the registry after. *)
Record swept (us : list UploadId) (s : S) (r : Registry) (fl : list (UploadId * StorageError)) (s' : S)
    (r' : Registry) : Prop := {
  sw_visible : visible s' = visible s;
  sw_others : forall v, v ∈ issued s -> v ∉ us -> sessions s' !! v = sessions s !! v;
  sw_closed : forall v, v ∈ issued s -> sessions s !! v = None -> sessions s' !! v = None;
  sw_failures : forall u, u ∈ fl.*1 -> u ∈ us;
  sw_done : forall u, u ∈ us -> u ∉ fl.*1 -> sessions s' !! u = None /\ u ∉ map entry_upload r';
  sw_kept : forall e, e ∈ r -> entry_upload e ∉ us -> e ∈ r';
  sw_subset : forall e, e ∈ r' -> e ∈ r;
  sw_retried : NoDup us -> forall e, e ∈ r -> entry_upload e ∈ fl.*1 -> e ∈ r' }.

Lemma filter_sublist {A} (f : A -> bool) l : sublist (List.filter f l) l.
Proof. induction l as [|x l IH]; cbn; [constructor|]. destruct (f x); by constructor. Qed.

Lemma elem_of_release e u r : e ∈ release u r <-> e ∈ r /\ entry_upload e <> u.
Proof.
  unfold release. rewrite list_elem_of_In, filter_In, <- list_elem_of_In. by rewrite negb_true_iff, bool_decide_eq_false.
Qed.

Lemma abort_each_swept us s r : (forall u, u ∈ us -> u ∈ issued s) ->
  let '(fl, s', r') := run (abort_each us) s r in swept us s r fl s' r'.
Proof.
  revert s r. induction us as [|u us IH]; intros s r Hus.
  { cbn. split; try done; intros; set_solver. }
  assert (Hu : u ∈ issued s) by set_solver. cbn [abort_each run].
  pose proof (abort_law s u) as Hl. destruct (abort_multipart s u) as [[x|x] s1]; destruct Hl as ((Hsub & Hk) & Hv & Hn).
  - cbn [run]. assert (Hus1 : forall v, v ∈ us -> v ∈ issued s1) by set_solver.
    specialize (IH s1 (release u r) Hus1).
    destruct (run (abort_each us) s1 (release u r)) as [[fl s'] r']. destruct IH as [J1 J2 J3 J4 J5 J6 J7 J8].
    split; [congruence| | | | | | |].
    + intros v Hv1 [? ?]%not_elem_of_cons. rewrite J2 by set_solver. apply Hk; congruence.
    + intros v Hv1 Hs. apply J3; [set_solver|]. destruct (decide (v = u)) as [->|]; [done|]. rewrite Hk; congruence.
    + set_solver.
    + intros v Hv1 Hf. destruct (decide (v ∈ us)); [auto|]. assert (v = u) as -> by set_solver. split.
      * apply J3; [set_solver|done].
      * intros (e & Ee & He%J7)%list_elem_of_fmap. apply elem_of_release in He. naive_solver.
    + intros e He [? ?]%not_elem_of_cons. apply J6; [|done]. by apply elem_of_release.
    + intros e He%J7. by apply elem_of_release in He as [? _].
    + intros [Hnin Hnd]%NoDup_cons e He Hf. apply J8; [done| |done]. apply elem_of_release. split; [done|].
      intros Eu. rewrite Eu in Hf. by apply Hnin, J4.
  - rewrite run_bind. assert (Hus1 : forall v, v ∈ us -> v ∈ issued s1) by set_solver. specialize (IH s1 r Hus1).
    destruct (run (abort_each us) s1 r) as [[fl s'] r']. destruct IH as [J1 J2 J3 J4 J5 J6 J7 J8].
    cbn [run]. split; [congruence| | | | | |done|].
    + intros v Hv1 [? ?]%not_elem_of_cons. rewrite J2 by set_solver. apply Hk; congruence.
    + intros v Hv1 Hs. apply J3; [set_solver|]. destruct (decide (v = u)) as [->|]; [auto|]. rewrite Hk; congruence.
    + cbn. set_solver.
    + cbn. intros v Hv1 Hf. set_solver.
    + intros e He Hne. apply J6; [done|set_solver].
    + intros [Hnin Hnd]%NoDup_cons e He Hf. cbn in Hf. apply elem_of_cons in Hf as [Eu|Hf]; [|auto].
      apply J6; [done|]. by rewrite Eu.
Qed.

(** The sweep ends every abandoned upload it can and nothing else: the sessions
    it could abort are closed in the store and out of the registry, the others
    are reported and stay registered for the next sweep, and every other
    session, entry and object is as it was. *)
Theorem sweep_exact (s : S) r : (forall u, u ∈ abandoned_uploads r -> u ∈ issued s) ->
  NoDup (map entry_upload r) ->
  let '(fl, s', r') := run abort_abandoned s r in
  visible s' = visible s /\
  (forall u, u ∈ abandoned_uploads r -> u ∉ fl.*1 -> sessions s' !! u = None /\ u ∉ map entry_upload r') /\
  (forall u, u ∈ fl.*1 -> u ∈ abandoned_uploads r) /\
  (forall u, u ∈ issued s -> u ∉ abandoned_uploads r -> sessions s' !! u = sessions s !! u) /\
  (forall e, e ∈ r' <-> e ∈ r /\ (entry_upload e ∈ abandoned_uploads r -> entry_upload e ∈ fl.*1)).
Proof.
  intros Hi Hnd. cbn [abort_abandoned run].
  pose proof (abort_each_swept (abandoned_uploads r) s r Hi) as Hsw.
  destruct (run (abort_each (abandoned_uploads r)) s r) as [[fl s'] r'].
  destruct Hsw as [J1 J2 J3 J4 J5 J6 J7 J8]. split_and!; [done|done|done|done|].
  assert (Hnd' : NoDup (abandoned_uploads r)).
  { eapply sublist_NoDup; [exact Hnd|]. apply fmap_sublist, filter_sublist. }
  intros e. split.
  - intros He. split; [auto|]. intros Hab. destruct (decide (entry_upload e ∈ fl.*1)); [done|].
    destruct (J5 _ Hab) as [_ Hout]; [done|]. destruct Hout. by apply list_elem_of_fmap_2.
  - intros [He Hf]. destruct (decide (entry_upload e ∈ abandoned_uploads r)); auto.
Qed.
End Sweep.

(** * Uploads to a store that answers *)

Section Progress.
Context {S : Type} `{LawfulStore S}.

(** While [ok] holds, calls succeed, the part commitments name the parts they are
    for, and [ok] stays. *)
Record answering (ok : S -> Prop) : Prop := {
  an_write s k b : ok s -> exists x s', write_manifest s k b = (Done x, s') /\ ok s';
  an_create s k b : ok s -> exists x s', create_manifest_if_absent s k b = (Done x, s') /\ ok s';
  an_begin s key : ok s -> exists u s', begin_multipart s key = (Done u, s') /\ ok s';
  an_part s u n b x : ok s -> sessions s !! u = Some x ->
    exists c s', write_part s u n b = (Done c, s') /\ number c = n /\ ok s';
  an_commit s u cs key ps : ok s -> sessions s !! u = Some (key, ps) -> map number cs = ps.*1 ->
    exists x s', commit_multipart s u cs = (Done x, s') /\ ok s' }.

Context (ok : S -> Prop) (Hok : answering ok).

(** A program run to its end. *)
Definition runs {A} (p : prog A) (s : S) (r : Registry) (Q : A -> S -> Registry -> Prop) : Prop :=
  let '(a, s', r') := run p s r in Q a s' r'.

Lemma runs_bind {A B} (p : prog A) (k : A -> prog B) s r Q :
  runs p s r (fun a s' r' => runs (k a) s' r' Q) -> runs (pbind p k) s r Q.
Proof. unfold runs. rewrite run_bind. by destruct (run p s r) as [[a s'] r']. Qed.

Lemma runs_mono {A} (p : prog A) s r (Q Q' : A -> S -> Registry -> Prop) :
  (forall a s r, Q a s r -> Q' a s r) -> runs p s r Q -> runs p s r Q'.
Proof. unfold runs. intros HQ. destruct (run p s r) as [[a s'] r']. apply HQ. Qed.

(** The store has the session a task owns. *)
Definition has (s : S) (o : own) : Prop :=
  match o with Some (u, Holding key ps) => u ∈ issued s /\ sessions s !! u = Some (key, ps) | _ => False end.

Lemma upload_part_runs w key ps s r : ok s -> writer_at w ps -> zlen ps < PART_NUMBER_MAX ->
  has s (Some (upload w, Holding key ps)) ->
  runs (upload_part w (zlen (buffer w))) s r (fun rw s' r' =>
    rw.1 = Done tt /\ r' = r /\ ok s' /\ visible s' = visible s /\ exists n,
      writer_at rw.2 (ps ++ [(n, buffer w)]) /\ buffer rw.2 = [] /\ session rw.2 = session w /\
      upload rw.2 = upload w /\ has s' (Some (upload rw.2, Holding key (ps ++ [(n, buffer w)])))).
Proof.
  intros Hs Hat Hlt [Hu Hse]. pose proof (zlen_nonneg ps) as Hpos. unfold PART_NUMBER_MAX in Hlt.
  unfold upload_part, part_ordinal, PartNumber_new. rewrite (wa_next _ _ Hat).
  replace (1 + zlen ps <=? 65535) with true by lia. replace (1 + zlen ps =? 0) with false by lia.
  cbn [orb]. replace (PART_NUMBER_MAX <? 1 + zlen ps) with false by (unfold PART_NUMBER_MAX; lia).
  assert (Htake : take (Z.to_nat (zlen (buffer w))) (buffer w) = buffer w) by (apply take_ge; unfold zlen; lia).
  rewrite Htake. unfold runs. cbn [run].
  destruct (an_part ok Hok s (upload w) (1 + zlen ps) (buffer w) _ Hs Hse) as (c & s' & Ew & Hc & Hs').
  pose proof (write_part_law s (upload w) (1 + zlen ps) (buffer w) key ps Hse
    (numbers_below ps (wa_numbers _ _ Hat))) as Hl. rewrite Ew in Hl |- *. destruct Hl as ([Hsub _] & Hv & Hse').
  rewrite Hc, Z.eqb_refl. cbn [negb run]. split_and!; [done|done|done|done|].
  exists (1 + zlen ps). split_and!; [by apply sent_part|by apply drop_ge; unfold zlen; lia|done|done|].
  by split; [set_solver|].
Qed.

Lemma full_parts (ps : list (Z * list Z)) : Forall (fun p => zlen p.2 = PART_BYTES) ps ->
  zlen (concat ps.*2) = zlen ps * PART_BYTES.
Proof.
  induction 1 as [|p ps Hp _ IH]; [done|]. change (concat (p :: ps).*2) with (p.2 ++ concat ps.*2).
  rewrite zlen_app, IH, Hp, zlen_cons. lia.
Qed.

(** A step of the writer on an answering store: [data] is what it was given. *)
Definition advances (w : MultipartWriter) (key data : list Z) (s : S) (r : Registry)
    (rw : io WriterError unit * MultipartWriter) (s' : S) (r' : Registry) : Prop :=
  rw.1 = Done tt /\ r' = r /\ ok s' /\ visible s' = visible s /\ upload rw.2 = upload w /\
  exists o, writing rw.2 key data o /\ has s' o.

(** The portable bound: that many full parts. *)
Definition MAX_STORED : Z := PART_NUMBER_MAX * PART_BYTES.

Lemma write_loop_runs key fuel w data chunk o s r : ok s -> writing w key data o -> has s o ->
  (length chunk <= fuel)%nat -> zlen (data ++ chunk) <= MAX_STORED ->
  runs (write_loop fuel w chunk) s r (advances w key (data ++ chunk) s r).
Proof.
  revert w data chunk o s. induction fuel as [|fuel IH]; intros w data chunk o s Hs Hw Hh Hlen Hmax.
  { destruct chunk; [|cbn in Hlen; lia]. unfold runs, advances. cbn. rewrite app_nil_r. eauto 10. }
  destruct chunk as [|c chunk]; [unfold runs, advances; cbn; rewrite app_nil_r; eauto 10|].
  cbn [write_loop]. destruct Hw as (ps & Hat & Hfull & Hbuf & Hses & Hdata & ->).
  pose proof (loop_turn w (c :: chunk) data fuel Hbuf ltac:(done) Hlen) as (Hrest & Hdrop & Hb1 & Hpart).
  set (n := Z.to_nat _) in *. set (w1 := with_buffer w _) in *.
  assert (Hat1 : writer_at w1 ps) by (destruct Hat; split; done).
  rewrite Hrest in *. destruct (zlen (buffer w1) =? PART_BYTES) eqn:Efull.
  - apply Z.eqb_eq in Efull. apply runs_bind. rewrite <- Efull.
    assert (Hroom : zlen ps < PART_NUMBER_MAX).
    { rewrite zlen_app in Hmax. pose proof (zlen_nonneg (drop n (c :: chunk))).
      rewrite <- Hdata, <- !app_assoc, zlen_app, (full_parts ps Hfull) in Hmax.
      change (buffer w ++ take n (c :: chunk)) with (buffer w1) in Hmax. unfold MAX_STORED, PART_BYTES in *. lia. }
    eapply runs_mono; [|by apply (upload_part_runs w1 key ps s r Hs Hat1 Hroom)].
    intros [x w2] s2 r2 (-> & -> & Hs2 & Hv2 & num & Hat2 & Hb2 & Hses2 & Hu2 & Hh2). cbn [fst snd] in *.
    eapply runs_mono; [|eapply (IH w2 (data ++ take n (c :: chunk))); [done| |exact Hh2|done|done]].
    + intros rw s3 r3 (E1 & -> & Hs3 & Hv3 & Hu3 & Hw3). split_and!; [done|done|done|congruence| |done].
      by rewrite Hu3, Hu2.
    + eapply (loop_sent w1); [done|done|done|done|by rewrite Hses2| |reflexivity].
      cbn. by rewrite app_assoc, Hdata.
  - apply Z.eqb_neq in Efull. eapply (IH w1); [done| |exact Hh|done|done].
    exists ps. split_and!; try done; [lia|]. cbn. by rewrite app_assoc, Hdata.
Qed.

Lemma write_chunk_runs key w data chunk o s r : ok s -> writing w key data o -> has s o ->
  zlen (data ++ chunk) <= MAX_STORED ->
  runs (write_chunk w chunk) s r (advances w key (data ++ chunk) s r).
Proof.
  intros Hs Hw Hh Hmax. unfold write_chunk.
  assert (session w = SessionOpen) as -> by (by destruct Hw as (ps & ? & ? & ? & ? & _)).
  by eapply write_loop_runs.
Qed.

(** As many parts as the stream needs. *)
Definition parts_needed (data : list Z) : Z := (zlen data + (PART_BYTES - 1)) / PART_BYTES.

Lemma writer_finish_runs key w data o s r : ok s -> writing w key data o -> has s o ->
  zlen data <= MAX_STORED ->
  runs (writer_finish w) s r (fun rw s' r' =>
    rw.1 = Done tt /\ r' = r /\ ok s' /\ visible s' = visible s /\ upload rw.2 = upload w /\
    Z.of_nat (length (parts rw.2)) = parts_needed data /\ exists o, flushed rw.2 key data o /\ has s' o).
Proof.
  intros Hs (ps & Hat & Hfull & Hbuf & Hses & Hdata & ->) Hh Hmax. unfold writer_finish. rewrite Hses.
  assert (Hlen : zlen data = zlen ps * PART_BYTES + zlen (buffer w))
    by (rewrite <- Hdata, zlen_app; by rewrite full_parts).
  assert (Hparts : forall w ps, writer_at w ps -> Z.of_nat (length (parts w)) = zlen ps).
  { intros w' ps' [_ _ Hp _]. apply (f_equal length) in Hp. rewrite length_map, length_fmap in Hp. unfold zlen. lia. }
  pose proof (zlen_nonneg ps) as Hps. destruct (0 <? zlen (buffer w)) eqn:Eb.
  - apply Z.ltb_lt in Eb. apply runs_bind. eapply runs_mono; [|apply (upload_part_runs w key ps s r Hs Hat); [|done]].
    2:{ unfold MAX_STORED, PART_BYTES in *. lia. }
    intros [x w2] s2 r2 (-> & -> & Hs2 & Hv2 & num & Hat2 & Hb2 & Hses2 & Hu2 & Hh2). cbn [fst snd] in *.
    unfold runs. cbn [run]. split_and!; [done|done|done|done|done| |].
    + cbn [snd with_session parts]. rewrite (Hparts _ _ Hat2), zlen_app. unfold parts_needed. rewrite Hlen.
      replace (zlen [(num, buffer w)]) with 1 by done.
      apply Z.div_unique with (zlen (buffer w) - 1); unfold PART_BYTES in *; lia.
    + eexists. split; [|exact Hh2]. exists (ps ++ [(num, buffer w)]).
      split_and!; try done; [by destruct Hat2|by rewrite concat_snoc].
  - assert (Hnil : buffer w = []) by (apply nil_length_inv; unfold zlen in Eb; lia).
    unfold runs. cbn [run]. split_and!; [done|done|done|done|done| |].
    + cbn [snd with_session parts]. rewrite (Hparts _ _ Hat). unfold parts_needed. rewrite Hlen, Hnil.
      replace (zlen []) with 0 by done. apply Z.div_unique with (PART_BYTES - 1); unfold PART_BYTES in *; lia.
    + eexists. split; [|exact Hh]. exists ps. split_and!; try done; [by destruct Hat|].
      by rewrite <- Hdata, Hnil, app_nil_r.
Qed.

Lemma writer_commit_runs key w data o s r : ok s -> flushed w key data o -> has s o -> data <> [] ->
  runs (writer_commit w) s r (fun x s' r' => (exists out, x = Done out) /\ r' = release (upload w) r /\ ok s' /\
    (visible s' = <[key := data]> (visible s) \/ is_Some (visible s !! key) /\ visible s' = visible s)).
Proof.
  intros Hs (ps & Hat & Hses & Hbuf & Hdata & ->) [Hu Hse] Hne.
  unfold writer_commit. apply runs_bind. unfold commit_body. rewrite Hses, Hbuf. cbn [length Nat.eqb negb].
  destruct (length (parts w) =? 0)%nat eqn:Ep.
  { exfalso. apply Nat.eqb_eq, nil_length_inv in Ep. pose proof (wa_parts _ _ Hat) as Hp. rewrite Ep in Hp.
    destruct ps; [by apply Hne|done]. }
  destruct (an_commit ok Hok s _ _ _ _ Hs Hse (wa_parts _ _ Hat)) as (x & s' & Ec & Hs').
  pose proof (commit_law s _ _ _ _ Hse (wa_parts _ _ Hat)) as Hl. unfold runs. cbn [run].
  rewrite Ec in Hl |- *. destruct Hl as (_ & _ & Hv). cbn. rewrite <- Hdata. eauto 10.
Qed.

(** ** The blob *)

Context {E : Type} `{LawfulEncoder E}.

Lemma drain_encoded_runs x key seen out encoded o s r : ok s -> streamed (E:=E) x key seen out o -> has s o ->
  zlen (out ++ encoded) <= MAX_STORED ->
  runs (drain_encoded x encoded) s r (fun y s' r' => r' = r /\ ok s' /\ visible s' = visible s /\
    exists x' o', y = Done x' /\ streamed x' key seen (out ++ encoded) o' /\ has s' o' /\
      encoder x' = encoder x /\ upload (writer x') = upload (writer x)).
Proof.
  intros Hs Hx Hh Hmax. destruct encoded as [|c cs].
  { unfold runs. cbn. rewrite app_nil_r. eauto 10. }
  cbn [drain_encoded]. apply runs_bind. destruct Hx as [G1 G2 G3 G4 G5].
  eapply runs_mono; [|by eapply write_chunk_runs].
  intros [y w] s' r' (E1 & -> & Hs' & Hv & Hu & o' & Hw & Hh'). cbn [fst snd] in *. subst y.
  unfold runs. cbn [run]. split_and!; [done|done|done|]. eexists _, o'. split_and!; [done| |done|done|done].
  split; cbn [writer canonical_hasher canonical_bytes stored_hasher drained_bytes];
    [done|done|done|by apply absorbed_update|]. by rewrite G5, sat_add_len.
Qed.

Lemma zlen_app_le (a b : list Z) : zlen a <= zlen (a ++ b).
Proof. rewrite zlen_app. pose proof (zlen_nonneg b). lia. Qed.

Lemma stream_chunks_runs x key seen out rest more enc o s r : ok s -> streamed (E:=E) x key seen out o -> has s o ->
  encode_chunks (encoder x) rest = Done (more, enc) -> zlen (out ++ more) <= MAX_STORED ->
  runs (stream_chunks x rest) s r (fun y s' r' => r' = r /\ ok s' /\ visible s' = visible s /\
    exists x' o', y = Done x' /\ streamed x' key (seen ++ rest) (out ++ more) o' /\ has s' o' /\
      encoder x' = enc /\ upload (writer x') = upload (writer x)).
Proof.
  revert x seen out more o s. induction rest as [|c rest IH]; intros x seen out more o s Hs Hx Hh Henc Hmax.
  { cbn in Henc. injection Henc as <- <-. unfold runs. cbn. rewrite !app_nil_r. eauto 10. }
  cbn [stream_chunks encode_chunks] in *. destruct (encode_update (encoder x) c) as [[m1 enc1]|e]; [|done].
  destruct (encode_chunks enc1 rest) as [[m2 enc2]|e] eqn:Er; [|done]. injection Henc as <- <-.
  rewrite app_assoc in Hmax |- *. replace (seen ++ c :: rest) with ((seen ++ [c]) ++ rest) by (by rewrite <- app_assoc).
  apply runs_bind. eapply runs_mono; [|eapply drain_encoded_runs; [done|by apply streamed_snoc|done|]].
  2:{ etrans; [apply (zlen_app_le _ m2)|done]. }
  intros y s' r' (-> & Hs' & Hv & x' & o' & -> & Hx' & Hh' & He' & Hu'). cbn [encoder] in He'.
  eapply runs_mono; [|eapply (IH x'); [done|done|done|by rewrite He'|done]].
  intros y s2 r2 (-> & Hs2 & Hv2 & x2 & o2 & -> & Hx2 & Hh2 & He2 & Hu2).
  split_and!; [done|done|congruence|]. exists x2, o2. split_and!; [done|done|done|done|].
  by rewrite Hu2, Hu'.
Qed.

(** What a committed blob leaves in an answering store. *)
Definition blob_stored (key data : list Z) (s s' : S) : Prop :=
  visible s' = <[key := data]> (visible s) \/ is_Some (visible s !! key) /\ visible s' = visible s.

Lemma complete_blob_runs tenant expect x seen out o s r : let key := BlobObjectKey_new tenant ZstdV1 (content expect) in
  ok s -> streamed (E:=E) x key seen out o -> has s o -> out <> [] -> zlen out <= MAX_STORED ->
  digest (concat seen) = content expect -> Z.min U64_MAX (zlen (concat seen)) = expected_bytes expect ->
  runs (complete_blob key expect x) s r (fun y s' r' =>
    r' = release (upload (writer x)) r /\ ok s' /\ blob_stored key out s s' /\
    exists c, y = Done c /\ Z.of_nat (part_count c) = parts_needed out).
Proof.
  intros key Hs [Hw Hc Hb _ _] Hh Hne Hmax Hdig Hlen. unfold complete_blob. apply runs_bind.
  eapply runs_mono; [|by eapply writer_finish_runs].
  intros [y w] s1 r1 (E1 & -> & Hs1 & Hv1 & Hu1 & Hn & o1 & Hfl & Hh1). cbn [fst snd] in *. subst y.
  rewrite (finalize_absorbed _ _ Hc), <- digest_spec, Hdig, bool_decide_true by done.
  rewrite Hb, Hlen, Z.eqb_refl. cbn [negb]. apply runs_bind.
  eapply runs_mono; [|by eapply writer_commit_runs]. intros y s2 r2 ([out' ->] & -> & Hs2 & Hv2).
  unfold runs. cbn [run]. rewrite Hu1. split_and!; [done|done| |].
  - unfold blob_stored. rewrite <- Hv1. done.
  - by eexists.
Qed.

Lemma commit_blob_runs tenant expect enc canonical more tail enc' s r :
  let key := BlobObjectKey_new tenant ZstdV1 (content expect) in
  ok s -> encode_chunks enc canonical = Done (more, enc') -> encode_finish enc' = Done tail ->
  more ++ tail <> [] -> zlen (more ++ tail) <= MAX_STORED ->
  digest (concat canonical) = content expect -> Z.min U64_MAX (zlen (concat canonical)) = expected_bytes expect ->
  runs (commit_blob tenant expect enc canonical) s r (fun y s' r' =>
    (exists u, u ∉ issued s /\ r' = release u (register u r)) /\ ok s' /\ blob_stored key (more ++ tail) s s' /\
    exists c, y = Done c /\ Z.of_nat (part_count c) = parts_needed (more ++ tail)).
Proof.
  intros key Hs Henc Hfin Hne Hmax Hdig Hlen. unfold commit_blob. fold key. apply runs_bind.
  unfold runs, writer_begin. cbn [run]. destruct (an_begin ok Hok s key Hs) as (u & s1 & Eb & Hs1).
  pose proof (begin_law s key) as Hl. rewrite Eb in Hl |- *. destruct Hl as (_ & Hv1 & Hu & Hu' & Hse).
  cbn [run]. set (w := mkWriter u key [] 1 [] 0 SessionOpen false).
  assert (Hx0 : streamed (mkStreaming w enc new 0 new 0) key [] [] (Some (u, Holding key []))).
  { split; cbn; try apply absorbed_new; try done. exists []. by split_and!. }
  change (runs (try x <- stream_chunks (mkStreaming w enc new 0 new 0) canonical;
    match encode_finish (encoder x) with
    | Fail failure => abort_writer (writer x) failure
    | Done tail => try x <- drain_encoded x tail; complete_blob key expect x
    end) s1 (register u r) (fun y s' r' =>
    (exists u, u ∉ issued s /\ r' = release u (register u r)) /\ ok s' /\ blob_stored key (more ++ tail) s s' /\
    exists c, y = Done c /\ Z.of_nat (part_count c) = parts_needed (more ++ tail))).
  apply runs_bind. eapply runs_mono; [|eapply stream_chunks_runs; [done|exact Hx0|by split|exact Henc|]].
  2:{ etrans; [apply (zlen_app_le _ tail)|done]. }
  intros y s2 r2 (-> & Hs2 & Hv2 & x & o & -> & Hx & Hh & He & Hux). rewrite He, Hfin. cbn [app] in *.
  apply runs_bind. eapply runs_mono; [|by eapply drain_encoded_runs].
  intros y s3 r3 (-> & Hs3 & Hv3 & x3 & o3 & -> & Hx3 & Hh3 & _ & Hux3).
  eapply runs_mono; [|by eapply complete_blob_runs].
  intros y s4 r4 (-> & Hs4 & Hst & Hc). rewrite Hux3, Hux. split_and!; [by exists u|done| |done].
  unfold blob_stored in *. rewrite Hv3, Hv2, Hv1 in Hst. done.
Qed.

(** ** The manifests *)

(** Nothing else stands where [b] is to be written. *)
Definition vacant_for (k b : list Z) (s : S) : Prop := forall old, visible s !! k = Some old -> old = b.

Lemma commit_manifest_runs k b s r : ok s -> bounded_manifest_bytes b = Done tt -> vacant_for (manifest_text k) b s ->
  runs (commit_manifest k b) s r (fun x s' r' =>
    (exists out, x = Done out) /\ r' = r /\ ok s' /\ visible s' = <[manifest_text k := b]> (visible s)).
Proof.
  intros Hs Hb Hvac. unfold runs, commit_manifest. cbn [run].
  destruct (conditional_create (capabilities s)) eqn:Ecap.
  - unfold commit_by_conditional_create. rewrite Hb. cbn [run]. rewrite Ecap, bool_decide_true by done. cbn [negb run].
    destruct (an_create ok Hok s k b Hs) as (x & s' & Ec & Hs'). pose proof (create_law s k b) as Hl.
    rewrite Ec in Hl |- *. destruct x as [|ex]; [destruct Hl as (_ & _ & Hv); cbn [run]; by eauto|].
    destruct Hl as (_ & Hv & old & Hold & Hsz & Hdg). pose proof (Hvac old Hold). subst old.
    cbn [run]. rewrite Hv, insert_id by done. split_and!; [|done|done|done]. unfold classify_existing.
    destruct (stored_sha256 ex) as [dg|] eqn:Ed.
    + rewrite bool_decide_true by (by rewrite (Hdg dg)). by eexists.
    + destruct (size ex) as [n|] eqn:En; [|by eexists]. rewrite (Hsz n eq_refl), Z.eqb_refl. by eexists.
  - unfold commit_by_deterministic_overwrite, put_manifest. rewrite Hb. cbn [pbind run].
    destruct (an_write ok Hok s k b Hs) as (x & s' & Ew & Hs'). pose proof (write_manifest_law s k b) as Hl.
    rewrite Ew in Hl |- *. destruct Hl as [_ Hv]. cbn [run]. by eauto.
Qed.

Lemma commit_at_key_runs k b s r : ok s -> bounded_manifest_bytes b = Done tt -> vacant_for (manifest_text k) b s ->
  runs (commit_at_key k b) s r (fun x s' r' =>
    (exists m, x = Done m) /\ r' = r /\ ok s' /\ visible s' = <[manifest_text k := b]> (visible s)).
Proof.
  intros Hs Hb Hvac. unfold commit_at_key. apply runs_bind.
  eapply runs_mono; [|by eapply commit_manifest_runs]. intros x s' r' ([out ->] & -> & Hs' & Hv).
  unfold runs. cbn [run]. eauto.
Qed.

(** The keys of one submission are three. *)
Lemma keys_distinct e : typed_envelope e -> blob_key_of e <> occurrence_key_of e /\
  blob_key_of e <> attestation_key_of e /\ occurrence_key_of e <> attestation_key_of e.
Proof.
  intros Ht. pose proof (occurrence_key_segments e Ht). pose proof (attestation_key_segments e Ht).
  assert (length (split_slash (blob_key_of e)) = 9%nat) by (apply blob_key_segments; apply Ht).
  split_and!; intros Ek; rewrite Ek in *; congruence.
Qed.

Lemma release_register u r : u ∉ map entry_upload r -> release u (register u r) = r.
Proof.
  intros Hu. unfold release, register. rewrite List.filter_app. cbn. rewrite bool_decide_true by done. cbn.
  rewrite app_nil_r. induction r as [|e r IH]; [done|]. cbn in Hu |- *. apply not_elem_of_cons in Hu as [Hne Hu].
  rewrite bool_decide_false by congruence. cbn. by rewrite IH.
Qed.

(** A submission the envelope is true of. *)
Record submission_true (e : Envelope) (d : Delegation) (data : list Z) : Prop := {
  st_typed : typed_envelope e;
  st_digest : digest data = blob_digest e;
  st_size : Z.min U64_MAX (zlen data) = uncompressed_size e;
  st_occurrence : occurrence_id e = rederive_occurrence_id e;
  st_attestation : attestation_id e = rederive_attestation_id e;
  st_delegation : consistent d e = true;
  st_occurrence_fits : bounded_manifest_bytes (occurrence_bytes e) = Done tt;
  st_attestation_fits : bounded_manifest_bytes (attestation_bytes e d) = Done tt }.

Lemma commit_provenance_runs e d data s r : ok s -> submission_true e d data ->
  vacant_for (occurrence_key_of e) (occurrence_bytes e) s ->
  vacant_for (attestation_key_of e) (attestation_bytes e d) s ->
  runs (commit_provenance e d) s r (fun x s' r' => (exists p, x = Done p) /\ r' = r /\ ok s' /\
    visible s' = <[attestation_key_of e := attestation_bytes e d]>
                   (<[occurrence_key_of e := occurrence_bytes e]> (visible s))).
Proof.
  intros Hs [Ht Hdig Hlen Hid Hatt Hd Hbo Hba] Hvo Hva. destruct (keys_distinct e Ht) as (_ & _ & K3).
  unfold commit_provenance. apply runs_bind.
  unfold commit_occurrence_manifest, verified_occurrence_id. rewrite bool_decide_true by done.
  eapply runs_mono; [|by apply commit_at_key_runs].
  intros x s2 r2 ([m ->] & -> & Hs2 & Hv2). cbn [manifest_text] in Hv2. fold (occurrence_key_of e) in Hv2.
  apply runs_bind. unfold commit_attestation_manifest, verified_attestation_identity, verified_occurrence_id.
  rewrite !bool_decide_true by done. rewrite Hd. cbn [negb].
  eapply runs_mono; [|apply commit_at_key_runs; [done|done|]].
  2:{ intros old. cbn [manifest_text]. fold (attestation_key_of e). rewrite Hv2, lookup_insert_ne by done. apply Hva. }
  intros x s3 r3 ([m' ->] & -> & Hs3 & Hv3). cbn [manifest_text] in Hv3. fold (attestation_key_of e) in Hv3.
  unfold runs. cbn [run]. rewrite Hv3, Hv2. eauto.
Qed.

Lemma commit_sequence_runs e d (enc : E) canonical more tail enc' s r :
  ok s -> starts enc -> submission_true e d (concat canonical) ->
  encode_chunks enc canonical = Done (more, enc') -> encode_finish enc' = Done tail ->
  0 < zlen (encode (concat canonical)) <= MAX_STORED ->
  vacant_for (occurrence_key_of e) (occurrence_bytes e) s ->
  vacant_for (attestation_key_of e) (attestation_bytes e d) s ->
  (forall u, u ∈ map entry_upload r -> u ∈ issued s) ->
  exists c s', run (commit_sequence e d enc canonical) s r = (Done c, s', r) /\ ok s' /\
    Z.of_nat (part_count (blob_commit c)) = parts_needed (encode (concat canonical)) /\
    exists vis, (vis = visible s /\ is_Some (visible s !! blob_key_of e) \/
                 vis = <[blob_key_of e := encode (concat canonical)]> (visible s)) /\
      visible s' = <[attestation_key_of e := attestation_bytes e d]>
                     (<[occurrence_key_of e := occurrence_bytes e]> vis).
Proof.
  intros Hs Hst Hsub Henc Hfin Hsize Hvo Hva Hr. destruct (keys_distinct e (st_typed _ _ _ Hsub)) as (K1 & K2 & K3).
  assert (Hout : more ++ tail = encode (concat canonical)) by (by eapply encode_law).
  rewrite <- Hout in *. assert (Hne : more ++ tail <> []) by (intros En; rewrite En in Hsize; change (zlen (A:=Z) []) with 0 in Hsize; lia).
  enough (Hruns : runs (commit_sequence e d enc canonical) s r (fun x s' r' => exists c, x = Done c /\ r' = r /\ ok s' /\
    Z.of_nat (part_count (blob_commit c)) = parts_needed (more ++ tail) /\
    exists vis, (vis = visible s /\ is_Some (visible s !! blob_key_of e) \/
                 vis = <[blob_key_of e := more ++ tail]> (visible s)) /\
      visible s' = <[attestation_key_of e := attestation_bytes e d]>
                     (<[occurrence_key_of e := occurrence_bytes e]> vis))).
  { unfold runs in Hruns. destruct (run _ s r) as [[x s'] r']. destruct Hruns as (c & -> & -> & ?). eauto. }
  unfold commit_sequence. apply runs_bind.
  eapply runs_mono; [|apply (commit_blob_runs (tenant_id e) (mkExpectation (blob_digest e) (uncompressed_size e))
    enc canonical more tail enc' s r); done || apply Hsize || apply Hsub].
  intros x s1 r1 ((u & Hu & ->) & Hs1 & Hb & c & -> & Hc). cbn [content] in Hb. fold (blob_key_of e) in Hb.
  rewrite release_register by (by intros ?%Hr).
  assert (Hother : forall k, blob_key_of e <> k -> visible s1 !! k = visible s !! k).
  { intros k Hk. destruct Hb as [->|[_ ->]]; [by rewrite lookup_insert_ne|done]. }
  apply runs_bind. eapply runs_mono; [|eapply commit_provenance_runs; [done|done|..]].
  2:{ intros old. rewrite Hother by done. apply Hvo. }
  2:{ intros old. rewrite Hother by done. apply Hva. }
  intros x s2 r2 ([p ->] & -> & Hs2 & Hv2).
  unfold runs. cbn [run]. eexists. split_and!; [done|done|done|exact Hc|].
  exists (visible s1). split; [by destruct Hb as [->|[? ->]]; [right|left]|done].
Qed.

(** C10: Uploads succeed: on a store that answers, a submission whose envelope is
    true of its bytes, whose stored form is not empty and fits in the portable
    number of parts, and whose manifests are not contradicted by what stands at
    their keys, is committed; its blob has exactly the parts it needs, its three
    objects are visible, no other object changed, and no upload is left in the
    registry. *)
Theorem commit_sequence_completes e d (enc : E) canonical more tail enc' s r :
  ok s -> starts enc -> submission_true e d (concat canonical) ->
  encode_chunks enc canonical = Done (more, enc') -> encode_finish enc' = Done tail ->
  0 < zlen (encode (concat canonical)) <= MAX_STORED ->
  vacant_for (occurrence_key_of e) (occurrence_bytes e) s ->
  vacant_for (attestation_key_of e) (attestation_bytes e d) s ->
  (forall u, u ∈ map entry_upload r -> u ∈ issued s) ->
  exists c s', run (commit_sequence e d enc canonical) s r = (Done c, s', r) /\ ok s' /\
    Z.of_nat (part_count (blob_commit c)) = parts_needed (encode (concat canonical)) /\
    exists vis, (vis = visible s /\ is_Some (visible s !! blob_key_of e) \/
                 vis = <[blob_key_of e := encode (concat canonical)]> (visible s)) /\
      visible s' = <[attestation_key_of e := attestation_bytes e d]>
                     (<[occurrence_key_of e := occurrence_bytes e]> vis).
Proof. by eapply commit_sequence_runs. Qed.
End Progress.
