(* ===== verification/CommitWitness.v ===== *)
(** The theorems on the commit path at work: a store in memory, an encoder that
    stores bytes as they are and one upload; and two points where the code and its
    documentation disagree. *)

From stdpp Require Import gmap functions.
From S2P Require Import Prelude Text Json Sha256 Vocabulary ObjectKey Records Store Commit Pool.
From S2P Require Import CommitSafety CommitProgress Envelope.

Open Scope prog_scope.

(** * The parameters *)

Inductive plain := Plain.

#[export] Instance plain_encoder : BlobEncoder plain :=
  {| encode_update x chunk := Done (chunk, x); encode_finish _ := Done [] |}.

Lemma plain_chunks x chunks : encode_chunks (E:=plain) x chunks = Done (concat chunks, x).
Proof. induction chunks as [|c cs IH]; [done|]. cbn [encode_chunks encode_update plain_encoder]. by rewrite IH. Qed.

#[export] Instance plain_lawful : LawfulEncoder plain.
Proof.
  refine {| encode := fun data => data; starts := fun _ => True |}.
  intros x chunks out x' tail _. rewrite plain_chunks. intros Eo Ef. cbn in Ef. simplify_eq. apply app_nil_r.
Defined.

(** The store in memory answers while no fault is scheduled. *)
Lemma mem_answering : answering (fun m : MemStore => faults m = []).
Proof.
  assert (Hat : forall {A} (m : MemStore) effect (a : A), faults m = [] -> attempt m effect a = (Done a, effect m)).
  { intros A m effect a Hf. unfold attempt, next_fault. by rewrite Hf. }
  split; cbn [write_manifest create_manifest_if_absent begin_multipart write_part commit_multipart mem_store sessions mem_view].
  - intros m k b Hf. rewrite Hat by done. eauto.
  - intros m k b Hf. destruct (objects m !! manifest_text k); rewrite Hat by done; eauto.
  - intros m key Hf. rewrite Hat by done. eauto.
  - intros m u n b [key ps] Hf ->. rewrite Hat by done. eauto.
  - intros m u cs key ps Hf -> Hn. rewrite bool_decide_true, Hat by done. eauto.
Qed.

(** An empty store with conditional creation. *)
Definition sample_store (fs : list fault) : MemStore :=
  mkMem (mkCapabilities CreateSupported StoredSha256 VersioningDisabled EncryptionUnavailable) true ∅ ∅ 0 fs.

Lemma sample_absent fs k : visible (sample_store fs) !! k = None.
Proof. apply lookup_empty. Qed.

Lemma sample_empty fs : archive_ok (E:=plain) (visible (sample_store fs)).
Proof. intros k b Hk. by rewrite sample_absent in Hk. Qed.

Lemma sample_vacant fs k b : vacant_for k b (sample_store fs).
Proof. intros old Hk. by rewrite sample_absent in Hk. Qed.

Lemma no_entries (P : UploadId -> Prop) u : u ∈ map entry_upload [] -> P u.
Proof. intros Hu. by apply elem_of_nil in Hu. Qed.

(** * The upload *)

Definition sample_data : list Z := [1; 2; 3].

Definition sample_digest : list Z := Eval vm_compute in digest sample_data.

Definition sample_upload (occurrence attestation : list Z) : Envelope :=
  mkEnvelope uuid4 uuid4 uuid4 (lit "codex") (lit "session-1") Upstream FileSlice (lit "codex")
    (lit "1") (lit "a.jsonl") uuid7 ByteRange 0 3 sample_digest sample_digest ChecksumSha256
    ZstdV1 Identity 3 3 occurrence attestation uuid7 (lit "2026-01-02T03:04:05Z")
    (lit "2026-01-02T03:04:06Z") None None None None None [].

Definition sample_submission : Envelope := Eval vm_compute in
  let o := rederive_occurrence_id (sample_upload [] []) in
  sample_upload o (rederive_attestation_id (sample_upload o [])).

Lemma sample_typed : typed_envelope sample_submission.
Proof.
  split; [vm_compute; reflexivity..|]. split; [|vm_compute; reflexivity].
  unfold sample_submission. cbn [blob_digest]. repeat constructor; discriminate || lia.
Qed.

(** The hashes, once each. *)
Definition sample_session : list Z := Eval vm_compute in rederive_session_hash sample_submission.
Definition sample_artifact : list Z := Eval vm_compute in rederive_artifact_hash sample_submission.

Lemma sample_digest_ok : digest sample_data = blob_digest sample_submission.
Proof. vm_compute. reflexivity. Qed.

Lemma sample_session_ok : rederive_session_hash sample_submission = sample_session.
Proof. vm_compute. reflexivity. Qed.

Lemma sample_artifact_ok : rederive_artifact_hash sample_submission = sample_artifact.
Proof. unfold rederive_artifact_hash. rewrite sample_session_ok. vm_compute. reflexivity. Qed.

Lemma sample_occurrence_ok : occurrence_id sample_submission = rederive_occurrence_id sample_submission.
Proof. unfold rederive_occurrence_id. rewrite sample_session_ok, sample_artifact_ok. vm_compute. reflexivity. Qed.

Lemma sample_attestation_ok : attestation_id sample_submission = rederive_attestation_id sample_submission.
Proof. vm_compute. reflexivity. Qed.

(** The manifest of the sample, and of a capture of it that also saw when the
    source wrote it. *)
Definition with_source_time (e : Envelope) (t : option (list Z)) : Envelope :=
  mkEnvelope (tenant_id e) (origin_client_id e) (uploader_client_id e) (harness e) (upstream_session_id e)
    (id_source e) (artifact_kind e) (adapter_id e) (adapter_projection_version e) (adapter_artifact_id e)
    (generation e) (range_kind e) (range_start e) (range_end e) (blob_digest e) (incoming_checksum e)
    (incoming_checksum_algorithm e) (storage_profile e) (transport_encoding e) (compressed_size e)
    (uncompressed_size e) (occurrence_id e) (attestation_id e) (request_id e) (capture_time e)
    (envelope_creation_time e) t (parent_session_id e) (orchestrator_attempt_id e) (trace_id e)
    (inference_request_id e) (unknown_fields e).

Definition manifest_with (t : option (list Z)) : list Z :=
  Json.canonical_bytes (VObject (set_members
    (map (fun m => if bool_decide (m.1 = lit "artifact_hash") then (m.1, Some (VText (to_hex sample_artifact)))
                   else m)
      (occurrence_manifest_fields (with_source_time sample_submission t) (occurrence_id sample_submission) sample_session))
    [])).

(** The identities do not see it. *)
Lemma source_time_session e t : rederive_session_hash (with_source_time e t) = rederive_session_hash e.
Proof. unfold rederive_session_hash. by destruct e. Qed.

Lemma source_time_artifact e t : rederive_artifact_hash (with_source_time e t) = rederive_artifact_hash e.
Proof. unfold rederive_artifact_hash. rewrite source_time_session. by destruct e. Qed.

Lemma source_time_occurrence e t : rederive_occurrence_id (with_source_time e t) = rederive_occurrence_id e.
Proof. unfold rederive_occurrence_id. rewrite source_time_session, source_time_artifact. by destruct e. Qed.

Lemma source_time_typed e t : typed_envelope e -> typed_envelope (with_source_time e t).
Proof. destruct e. intros []. by split. Qed.

Lemma sample_manifest t : occurrence_bytes (with_source_time sample_submission t) = manifest_with t.
Proof.
  unfold occurrence_bytes, occurrence_manifest_value, manifest_with.
  rewrite source_time_session, source_time_occurrence, sample_session_ok, <- sample_occurrence_ok.
  unfold occurrence_manifest_fields. rewrite source_time_artifact, sample_artifact_ok. reflexivity.
Qed.

Lemma sample_occurrence_bytes : occurrence_bytes sample_submission = manifest_with None.
Proof. exact (sample_manifest None). Qed.

Lemma sample_attestation_bytes : attestation_bytes sample_submission Direct =
  Json.canonical_bytes (attestation_manifest_value sample_submission Direct
    (occurrence_id sample_submission) (attestation_id sample_submission)).
Proof. unfold attestation_bytes. by rewrite <- sample_occurrence_ok, <- sample_attestation_ok. Qed.

Lemma sample_true : submission_true sample_submission Direct sample_data.
Proof.
  split; [exact sample_typed|exact sample_digest_ok|reflexivity|exact sample_occurrence_ok|exact sample_attestation_ok
    |vm_compute; reflexivity|rewrite sample_occurrence_bytes|rewrite sample_attestation_bytes]; vm_compute; reflexivity.
Qed.

Lemma sample_fits : zlen sample_data <= MAX_STORED.
Proof. by vm_compute. Qed.

(** The upload succeeds on the empty store. *)
Lemma sample_commits : exists c s',
  run (commit_sequence sample_submission Direct Plain [[1; 2]; [3]]) (sample_store []) [] = (Done c, s', []) /\
  faults s' = [] /\ archived (E:=plain) (visible s') sample_submission Direct sample_data.
Proof.
  destruct (@commit_sequence_runs MemStore _ _ _ (fun m => faults m = []) mem_answering plain _ plain_lawful
    sample_submission Direct Plain [[1; 2]; [3]] [1; 2; 3] [] Plain (sample_store []) [] eq_refl I sample_true
    eq_refl eq_refl (conj eq_refl sample_fits)
    (sample_vacant _ _ _) (sample_vacant _ _ _) (no_entries _))
    as (c & s' & Hr & Hf & _ & vis & Hvis & Hv).
  exists c, s'. split; [exact Hr|]. split; [exact Hf|]. destruct (keys_distinct _ sample_typed) as (K1 & K2 & K3).
  destruct Hvis as [[_ [x Hx]]|Hvis]; [by rewrite sample_absent in Hx|]. unfold archived. rewrite Hv, Hvis. split_and!.
  - rewrite (lookup_insert_ne _ _ _ _ (not_eq_sym K2)), (lookup_insert_ne _ _ _ _ (not_eq_sym K1)). apply lookup_insert_eq.
  - rewrite (lookup_insert_ne _ _ _ _ (not_eq_sym K3)). apply lookup_insert_eq.
  - apply lookup_insert_eq.
Qed.

Definition sample_serve : prog outcome := serve sample_submission Direct Plain [[1; 2]; [3]].

Lemma serve_reachable admits (s : MemStore) x s' r' : admits sample_submission Direct sample_data ->
  run (commit_sequence sample_submission Direct Plain [[1; 2]; [3]]) s [] = (x, s', r') ->
  exists h g, pool_reachable (serving (E:=plain) admits) s
    (mkPool s' r' {[0%nat := mkTask h (Ret (Committed sample_submission sample_data x))]} g).
Proof.
  intros Ha Hr. pose proof (pool_runs (serving (E:=plain) admits) s s [] ∅ ∅ 0%nat None sample_serve) as Hp.
  unfold sample_serve, serve in Hp. rewrite run_bind, Hr in Hp. apply Hp.
  eapply pool_next; [apply pool_start|]. apply step_spawn; [done|]. by apply serving_upload.
Qed.

(** * Witnesses *)

Lemma commit_sequence_completes_witness : exists c s',
  run (commit_sequence sample_submission Direct Plain [[1; 2]; [3]]) (sample_store []) [] = (Done c, s', []) /\
  Z.of_nat (part_count (blob_commit c)) = 1.
Proof.
  destruct (@commit_sequence_completes MemStore _ _ _ (fun m => faults m = []) mem_answering plain _ plain_lawful
    sample_submission Direct Plain [[1; 2]; [3]] [1; 2; 3] [] Plain (sample_store []) [] eq_refl I sample_true
    eq_refl eq_refl (conj eq_refl sample_fits)
    (sample_vacant _ _ _) (sample_vacant _ _ _) (no_entries _))
    as (c & s' & Hr & _ & Hn & _).
  exists c, s'. split; [exact Hr|]. rewrite Hn. vm_compute. reflexivity.
Defined.

Lemma archive_integrity_witness : exists vis, archive_ok (E:=plain) vis /\
  archived (E:=plain) vis sample_submission Direct sample_data.
Proof.
  destruct sample_commits as (c & s' & Hr & _ & Ha).
  destruct (serve_reachable (fun e _ _ => typed_envelope e) _ _ _ _ sample_typed Hr) as (h & g & HP).
  exists (visible s'). split; [|exact Ha]. apply (archive_integrity (E:=plain) _ _ (sample_empty []) HP).
Defined.

Lemma sequence_results_true_witness : exists c (vis : gmap (list Z) (list Z)),
  sequence_truth (E:=plain) sample_submission sample_data (Done c) (fun k => is_Some (vis !! k)).
Proof.
  destruct sample_commits as (c & s' & Hr & _).
  destruct (serve_reachable (fun _ _ _ => True) _ _ _ _ I Hr) as (h & g & HP). exists c, (visible s').
  apply (sequence_results_true (E:=plain) _ _ 0 h sample_submission sample_data (Done c) HP). apply lookup_singleton_eq.
Defined.

(** The upload with its session registered, about to write its only part. *)
Lemma sample_registered : exists P u n b next,
  pool_reachable (serving (E:=plain) (fun _ _ _ => True)) (sample_store []) P /\
  handle 0 ∈ registered P /\ is_Some (sessions (store P) !! handle 0) /\
  tasks P !! 0%nat = Some (mkTask (Some (handle 0)) (WritePart u n b next)).
Proof.
  eexists _, _, _, _, _. split; [eapply pool_next; [eapply pool_next; [eapply pool_next; [apply pool_start|]|]|]|].
  - apply (step_spawn _ _ _ _ _ 0%nat sample_serve); [done|]. by apply serving_upload.
  - eapply step_await; [apply lookup_insert_eq|reflexivity].
  - eapply step_register. apply lookup_insert_eq.
  - cbn [registered store tasks]. split; [set_solver|]. split; [|rewrite lookup_insert_eq; reflexivity].
    cbn. eexists. apply lookup_insert_eq.
Qed.

Lemma sessions_tracked_witness : exists P,
  handle 0 ∈ registered (S:=MemStore) (A:=outcome) P /\ is_Some (sessions (store P) !! handle 0) /\
  handle 0 ∈ map entry_upload (registry P).
Proof.
  destruct sample_registered as (P & u & n & b & next & HP & Hu & Hs & Ht). exists P. split; [exact Hu|split; [exact Hs|]].
  apply (sessions_tracked (E:=plain) (sample_store []) P (handle 0) HP Hu Hs).
Defined.

Lemma parts_well_formed_witness : exists (P : pool MemStore outcome) u n b next key ps,
  tasks P !! 0%nat = Some (mkTask (Some (handle 0)) (WritePart u n b next)) /\
  sessions (store P) !! u = Some (key, ps) /\ next_part ps n b.
Proof.
  destruct sample_registered as (P & u & n & b & next & HP & _ & _ & Ht).
  destruct (proj1 (parts_well_formed (E:=plain) (sample_store []) P 0 (Some (handle 0)) HP) u n b next Ht)
    as (key & ps & _ & Hs & Hn).
  exists P, u, n, b, next, key, ps. split; [exact Ht|split; [exact Hs|exact Hn]].
Defined.

(** The same upload again, on the store the first one left. *)
Lemma replay_unchanged_witness : exists s x s' r',
  archived (E:=plain) (visible (S:=MemStore) s) sample_submission Direct sample_data /\
  run (commit_sequence sample_submission Direct Plain [[1; 2]; [3]]) s [] = (x, s', r') /\ visible s' = visible s.
Proof.
  destruct sample_commits as (_ & s & _ & _ & Ha).
  destruct (run (commit_sequence sample_submission Direct Plain [[1; 2]; [3]]) s []) as [[x s'] r'] eqn:Hr.
  exists s, x, s', r'. split; [exact Ha|]. split; [exact Hr|].
  destruct (serve_reachable (archived (visible s)) s x s' r' Ha Hr) as (h & g & HP).
  exact (replay_unchanged (E:=plain) s _ HP).
Defined.

Lemma conditional_create_honest_witness :
  let '(x, s', _) := run (commit_by_conditional_create (OccurrenceKey [97]) [1]) (sample_store []) [] in
  x = Done Created /\ visible s' !! [97] = Some [1].
Proof.
  pose proof (conditional_create_honest (sample_store []) [] (OccurrenceKey [97]) [1]) as Hc.
  destruct (run (commit_by_conditional_create (OccurrenceKey [97]) [1]) (sample_store []) []) as [[x s'] r'] eqn:Er.
  vm_compute in Er. injection Er as <- <- <-. split; [reflexivity|]. destruct Hc as (_ & _ & _ & Hv).
  rewrite Hv. apply lookup_insert_eq.
Defined.

Lemma sweep_exact_witness :
  let s := mint [97] (sample_store []) in let r := [mkEntry (handle 0) true; mkEntry (handle 7) false] in
  let '(fl, s', r') := run abort_abandoned s r in
  fl = [] /\ sessions s' !! handle 0 = None /\ r' = [mkEntry (handle 7) false].
Proof.
  intros s r. assert (Hi : forall u, u ∈ abandoned_uploads r -> u ∈ issued s).
  { intros u Hu. apply list_elem_of_singleton in Hu. subst u. apply (handle_issued s 0). cbn. lia. }
  assert (Hnd : NoDup (map entry_upload r)) by (apply (bool_decide_unpack _); vm_compute; exact I).
  pose proof (sweep_exact s r Hi Hnd) as Hsw.
  destruct (run abort_abandoned s r) as [[fl s'] r'] eqn:Er. vm_compute in Er. injection Er as <- <- <-.
  destruct Hsw as (_ & Hd & _). split; [reflexivity|]. split; [|reflexivity].
  apply Hd; [by apply list_elem_of_singleton|apply not_elem_of_nil].
Defined.

(** * Disagreements with the documentation *)

(** Two envelopes of one occurrence whose declared identities are the derived
    ones can have different manifests at one key: [source_time] is in the
    manifest and in no identity. *)
Theorem occurrence_manifest_conflict : exists e t,
  let e' := with_source_time e t in
  typed_envelope e /\ typed_envelope e' /\ occurrence_id e = rederive_occurrence_id e /\
  occurrence_id e' = rederive_occurrence_id e' /\ occurrence_key_of e' = occurrence_key_of e /\
  occurrence_bytes e' <> occurrence_bytes e.
Proof.
  exists sample_submission, (Some (lit "2026-01-02T03:04:04Z")). intros e'.
  assert (He : rederive_occurrence_id e' = rederive_occurrence_id sample_submission) by apply source_time_occurrence.
  split_and!.
  - exact sample_typed.
  - apply source_time_typed, sample_typed.
  - exact sample_occurrence_ok.
  - exact (eq_trans sample_occurrence_ok (eq_sym He)).
  - unfold occurrence_key_of. rewrite He. unfold e'. by rewrite source_time_session.
  - unfold e'. rewrite sample_manifest, sample_occurrence_bytes. apply (bool_decide_unpack _). vm_compute. exact I.
Qed.

(** A failure that reports nothing durable may have left the blob: the store's
    answer to the completion was lost after it took effect. *)
Theorem nothing_durable_understates :
  let '(x, s', _) := run (commit_sequence sample_submission Direct Plain [sample_data])
    (sample_store [NoFault; NoFault; FailAfter]) [] in
  (exists f, x = Fail f /\ durable f = NothingDurable) /\
  visible s' !! blob_key_of sample_submission = Some sample_data.
Proof. vm_compute. split; [eexists; split; reflexivity|reflexivity]. Qed.
