(* ===== verification/ControlRecord.v ===== *)
(** The control records over the authority chain
    ([crates/archivist-auth/src/revocation.rs], [delegation.rs], [link.rs]):
    revocations, linked-client pointers, client key rotations, delegations and
    link approvals, read and published.

    [ed25519::sign] and [ed25519::public_key_from_seed] are the class [Signer]. *)

From S2P Require Import Prelude Text Json JsonFacts Sha256 Vocabulary Derivation Records Authority.

(** * Signing *)

Class Signer := { sign : list Z -> list Z -> list Z; public_key_from_seed : list Z -> list Z }.

(** * Reading closed records *)

Section Readers.
Context {E : Type} (malformed : E).

(** [let Value::Object(object) = json::parse(..).map_err(..)? else { .. }]. *)
Definition record_object (envelope : list Z) : result E Object :=
  let! v := map_err (fun _ => malformed) (Json.parse envelope) in
  match v with VObject o => Ok o | _ => Err malformed end.

Definition verify_member_set (o : Object) (expected : list (list Z)) : result E unit :=
  if negb (length o =? length expected)%nat then Err malformed
  else if forallb (object_contains o) expected then Ok tt else Err malformed.

(** [T::parse(text_member(..).ok_or(MALFORMED)?).map_err(|_| MALFORMED)?]. *)
Definition field {A} (parse : list Z -> result GrammarError A) (o : Object) (name : string) : result E A :=
  typed (fun _ => malformed) parse o (lit name).

Definition epoch_member_named (o : Object) (name : string) : result E Z :=
  match object_get o (lit name) with
  | Some (VInt value) => if 1 <=? value then Ok value else Err malformed
  | _ => Err malformed
  end.

(** [if .. { return Err(e) }]. *)
Definition unless (bad : bool) (e : E) : result E unit := if bad then Err e else Ok tt.

(** [text_member(o, name) == Some(value)]. *)
Definition is_text (o : Object) (name : string) (value : list Z) : bool :=
  bool_decide (text_member o (lit name) = Some value).
End Readers.

(** * Revocations, pointers and rotations *)

Inductive RevocationError := RevMalformed | RevDisagreement | RevUntrusted | RevInconsistent.

(** [From<AuthorityChainError>]. *)
Definition revocation_error (e : AuthorityChainError) : RevocationError :=
  match e with RecordDisagreement => RevDisagreement | _ => RevUntrusted end.

Definition ROTATION_OVERLAP_SECONDS : Z := 24 * 60 * 60.

Definition REVOCATION_MEMBERS : list (list Z) :=
  map lit ["schema"; "record_type"; "record_kind"; "tenant_id"; "client_id"; "revoked_key_id";
    "authorization_epoch"; "signed_at"; "authority_key_id"; "authority_signature"]%string.

Definition LINKED_CLIENT_MEMBERS : list (list Z) :=
  map lit ["schema"; "record_type"; "record_kind"; "tenant_id"; "client_id"; "key_id"; "key_algorithm";
    "public_key"; "scopes"; "authorization_epoch"; "signed_at"; "authority_key_id"; "authority_signature"]%string.

Definition ROTATION_MEMBERS : list (list Z) :=
  map lit ["schema"; "record_type"; "record_kind"; "tenant_id"; "client_id"; "previous_epoch";
    "previous_public_key"; "previous_key_id"; "key_algorithm"; "public_key"; "key_id";
    "authorization_epoch"; "signed_at"; "authority_key_id"; "authority_signature"]%string.

Record RevocationRecord := mkRevocation
  { rev_tenant_id : list Z; rev_client_id : list Z; revoked_key_id : list Z; rev_epoch : Z; rev_signed_at : list Z }.

Record LinkedClientPointer := mkPointer { ptr_client_id : list Z; ptr_epoch : Z; ptr_key_id : list Z }.

Record RotationRecord := mkRotation
  { rot_tenant_id : list Z;
    rot_client_id : list Z;
    rot_previous_epoch : Z;
    rot_previous_public_key : list Z;
    rot_previous_key_id : list Z;
    rot_epoch : Z;
    rot_public_key : list Z;
    rot_key_id : list Z;
    rot_signed_at : list Z }.

(** [scopes_allowlist_object]. *)
Definition allowlist (scopes : Object) (name : string) : bool :=
  match object_get scopes (lit name) with
  | Some (VArray items) =>
      negb (length items =? 0)%nat && (length items <=? 64)%nat &&
      forallb (fun item => match item with VText t => negb (length t =? 0)%nat | _ => false end) items
  | _ => false
  end.

Definition scopes_allowlist_object (v : option Value) : bool :=
  match v with
  | Some (VObject scopes) =>
      (length scopes =? 2)%nat && object_contains scopes (lit "harnesses") &&
      object_contains scopes (lit "operations") && allowlist scopes "harnesses" && allowlist scopes "operations"
  | _ => false
  end.

Section Verify.
Context `{SignatureScheme} (root : PinnedAuthorityRoot) (envelope : list Z) (fetch : Store).

Definition RevocationRecord_verify (addressed_client : list Z) (addressed_epoch : Z)
    : result RevocationError RevocationRecord :=
  let! o := record_object RevMalformed envelope in
  let! _ := verify_member_set RevMalformed o REVOCATION_MEMBERS in
  let! _ := unless (negb (is_text o "record_type" (lit "revocation")) ||
                    negb (is_text o "record_kind" (lit "immutable")) ||
                    negb (is_text o "schema" CONTROL_NAMESPACE)) RevDisagreement in
  let! tenant := field RevMalformed TenantId_parse o "tenant_id" in
  let! _ := unless (negb (bool_decide (tenant = root_tenant_id root))) RevDisagreement in
  let! client := field RevMalformed ClientId_parse o "client_id" in
  let! _ := unless (negb (bool_decide (client = addressed_client))) RevDisagreement in
  let! revoked := field RevMalformed digest_parse o "revoked_key_id" in
  let! epoch := epoch_member_named RevMalformed o "authorization_epoch" in
  let! _ := unless (negb (epoch =? addressed_epoch)) RevDisagreement in
  let! at_ := field RevMalformed Timestamp_parse o "signed_at" in
  let! _ := unless (negb (calendar_valid at_)) RevMalformed in
  let! _ := map_err revocation_error (verify_control_record root envelope fetch) in
  Ok (mkRevocation tenant client revoked epoch at_).

Definition LinkedClientPointer_verify (addressed_client : list Z) : result RevocationError LinkedClientPointer :=
  let! o := record_object RevMalformed envelope in
  let! _ := verify_member_set RevMalformed o LINKED_CLIENT_MEMBERS in
  let! _ := unless (negb (is_text o "record_type" (lit "linked-client")) ||
                    negb (is_text o "record_kind" (lit "current-pointer")) ||
                    negb (is_text o "schema" CONTROL_NAMESPACE)) RevDisagreement in
  let! tenant := field RevMalformed TenantId_parse o "tenant_id" in
  let! _ := unless (negb (bool_decide (tenant = root_tenant_id root))) RevDisagreement in
  let! client := field RevMalformed ClientId_parse o "client_id" in
  let! _ := unless (negb (bool_decide (client = addressed_client))) RevDisagreement in
  let! public := field RevMalformed digest_parse o "public_key" in
  let! key_id := field RevMalformed digest_parse o "key_id" in
  let! _ := unless (negb (bool_decide (key_id = KeyId_from_public_key public))) RevDisagreement in
  let! _ := unless (negb (is_text o "key_algorithm" (lit "ed25519"))) RevDisagreement in
  let! _ := unless (negb (scopes_allowlist_object (object_get o (lit "scopes")))) RevMalformed in
  let! epoch := epoch_member_named RevMalformed o "authorization_epoch" in
  let! at_ := field RevMalformed Timestamp_parse o "signed_at" in
  let! _ := unless (negb (calendar_valid at_)) RevMalformed in
  let! _ := map_err revocation_error (verify_control_record root envelope fetch) in
  Ok (mkPointer client epoch key_id).

Definition RotationRecord_verify (addressed_client : list Z) (addressed_epoch : Z)
    : result RevocationError RotationRecord :=
  let! o := record_object RevMalformed envelope in
  let! _ := verify_member_set RevMalformed o ROTATION_MEMBERS in
  let! _ := unless (negb (is_text o "record_type" (lit "rotation")) ||
                    negb (is_text o "record_kind" (lit "immutable")) ||
                    negb (is_text o "schema" CONTROL_NAMESPACE)) RevDisagreement in
  let! tenant := field RevMalformed TenantId_parse o "tenant_id" in
  let! _ := unless (negb (bool_decide (tenant = root_tenant_id root))) RevDisagreement in
  let! client := field RevMalformed ClientId_parse o "client_id" in
  let! _ := unless (negb (bool_decide (client = addressed_client))) RevDisagreement in
  let! _ := unless (negb (is_text o "key_algorithm" (lit "ed25519"))) RevDisagreement in
  let! public := field RevMalformed digest_parse o "public_key" in
  let! key_id := field RevMalformed digest_parse o "key_id" in
  let! _ := unless (negb (bool_decide (key_id = KeyId_from_public_key public))) RevDisagreement in
  let! previous_public := field RevMalformed digest_parse o "previous_public_key" in
  let! previous_id := field RevMalformed digest_parse o "previous_key_id" in
  let! _ := unless (negb (bool_decide (previous_id = KeyId_from_public_key previous_public))) RevDisagreement in
  let! _ := unless (bool_decide (previous_id = key_id)) RevDisagreement in
  let! epoch := epoch_member_named RevMalformed o "authorization_epoch" in
  let! _ := unless (negb (epoch =? addressed_epoch)) RevDisagreement in
  let! previous_epoch := epoch_member_named RevMalformed o "previous_epoch" in
  let! _ := unless (negb (previous_epoch + 1 =? epoch)) RevDisagreement in
  let! at_ := field RevMalformed Timestamp_parse o "signed_at" in
  let! _ := unless (negb (calendar_valid at_)) RevMalformed in
  let! _ := map_err revocation_error (verify_control_record root envelope fetch) in
  Ok (mkRotation tenant client previous_epoch previous_public previous_id epoch public key_id at_).
End Verify.

(** * Scopes *)

Inductive ScopeOperation := Ingest.

#[export] Instance ScopeOperation_eq : EqDecision ScopeOperation.
Proof. solve_decision. Defined.

Definition operation_token (op : ScopeOperation) : list Z := match op with Ingest => lit "ingest" end.

(** [ScopeOperation::tokens]. *)
Definition OPERATION_TOKENS : list (list Z) := [lit "ingest"].

(** The order on strings, and the derived one on operations. *)
Definition op_leb (a b : ScopeOperation) : bool := true.

(** [sorted.windows(2).any(|w| w[0] == w[1])]. *)
Fixpoint has_duplicates {A} `{EqDecision A} (sorted : list A) : bool :=
  match sorted with
  | a :: (b :: _) as rest => bool_decide (a = b) || has_duplicates rest
  | _ => false
  end.

(** [DelegationScopes] and [LinkedClientScopes] have the same two lists. *)
Record Scopes := mkScopes { harnesses : list (list Z); operations : list ScopeOperation }.

(** [binary_search(harness).is_ok()]. *)
Definition contains_harness (s : Scopes) (harness : list Z) : bool :=
  match binary_search_by (fun h => lex_compare (as_bytes h) (as_bytes harness)) (harnesses s) with
  | inl _ => true
  | inr _ => false
  end.

Definition contains_operation (s : Scopes) (op : ScopeOperation) : bool := bool_decide (op ∈ operations s).

(** [LinkedClientScopes::new]. *)
Definition LinkedClientScopes_new (hs : list (list Z)) (ops : list ScopeOperation) : option Scopes :=
  if (length hs =? 0)%nat || (length ops =? 0)%nat then None
  else Some (mkScopes (sort_by text_leb hs) (sort_by op_leb ops)).

(** * Delegations *)

Inductive DelegationError := DelMalformed | DelDisagreement | DelUntrusted.

Definition delegation_error (e : AuthorityChainError) : DelegationError :=
  match e with RecordDisagreement => DelDisagreement | _ => DelUntrusted end.

Inductive DelegationState := Active | Withdrawn.

#[export] Instance DelegationState_eq : EqDecision DelegationState.
Proof. solve_decision. Defined.

Definition state_token (s : DelegationState) : list Z :=
  match s with Active => lit "active" | Withdrawn => lit "withdrawn" end.

Definition state_from_token (t : list Z) : option DelegationState :=
  if bool_decide (t = lit "active") then Some Active
  else if bool_decide (t = lit "withdrawn") then Some Withdrawn else None.

Definition SCOPES_BOUND : nat := 64.

(** [DelegationScopes::new]. *)
Definition DelegationScopes_new (hs : list (list Z)) (ops : list ScopeOperation) : result DelegationError Scopes :=
  let within n := (1 <=? n)%nat && (n <=? SCOPES_BOUND)%nat in
  if negb (within (length hs)) || negb (within (length ops)) then Err DelMalformed
  else
    let hs := sort_by text_leb hs in
    let ops := sort_by op_leb ops in
    if has_duplicates hs || has_duplicates ops then Err DelMalformed else Ok (mkScopes hs ops).

(** The [for item in items] loop of [parse_allowlist]. *)
Fixpoint parse_tokens {A} (token_of : list Z -> option A) (items : list Value) : result DelegationError (list A) :=
  match items with
  | [] => Ok []
  | VText t :: items =>
      match token_of t with
      | None => Err DelMalformed
      | Some a => let! parsed := parse_tokens token_of items in Ok (a :: parsed)
      end
  | _ :: _ => Err DelMalformed
  end.

Definition parse_allowlist {A} `{EqDecision A} (leb : A -> A -> bool) (v : option Value)
    (token_of : list Z -> option A) : result DelegationError (list A) :=
  match v with
  | Some (VArray items) =>
      if (length items =? 0)%nat || (SCOPES_BOUND <? length items)%nat then Err DelMalformed
      else
        let! parsed := parse_tokens token_of items in
        let parsed := sort_by leb parsed in
        if has_duplicates parsed then Err DelMalformed else Ok parsed
  | _ => Err DelMalformed
  end.

Definition harness_of (t : list Z) : option (list Z) :=
  match HarnessId_parse t with Ok h => Some h | _ => None end.

Definition operation_of (t : list Z) : option ScopeOperation :=
  if bool_decide (t = lit "ingest") then Some Ingest else None.

(** [DelegationScopes::parse]. *)
Definition DelegationScopes_parse (v : option Value) : result DelegationError Scopes :=
  match v with
  | Some (VObject scopes) =>
      if negb (length scopes =? 2)%nat || negb (object_contains scopes (lit "harnesses")) ||
         negb (object_contains scopes (lit "operations")) then Err DelMalformed
      else
        let! hs := parse_allowlist text_leb (object_get scopes (lit "harnesses")) harness_of in
        let! ops := parse_allowlist op_leb (object_get scopes (lit "operations")) operation_of in
        Ok (mkScopes hs ops)
  | _ => Err DelMalformed
  end.

(** [to_json]. *)
Definition scopes_object (s : Scopes) : Object :=
  object_set (object_set [] (lit "harnesses") (VArray (map VText (harnesses s))))
    (lit "operations") (VArray (map (fun op => VText (operation_token op)) (operations s))).

Definition DELEGATION_MEMBERS : list (list Z) :=
  map lit ["schema"; "record_type"; "record_kind"; "tenant_id"; "relay_client_id"; "origin_client_id";
    "delegation_state"; "scopes"; "authorization_epoch"; "signed_at"; "authority_key_id";
    "authority_signature"]%string.

Record DelegationRecord := mkDelegation
  { del_tenant_id : list Z;
    relay_client_id : list Z;
    origin_client_id : list Z;
    del_state : DelegationState;
    del_scopes : Scopes;
    del_epoch : Z;
    del_signed_at : list Z }.

Definition DelegationRecord_verify `{SignatureScheme} (root : PinnedAuthorityRoot) (envelope : list Z)
    (fetch : Store) (addressed_relay addressed_origin : list Z) : result DelegationError DelegationRecord :=
  let! o := record_object DelMalformed envelope in
  let! _ := verify_member_set DelMalformed o DELEGATION_MEMBERS in
  let! _ := unless (negb (is_text o "record_type" (lit "delegation")) ||
                    negb (is_text o "record_kind" (lit "current-pointer")) ||
                    negb (is_text o "schema" CONTROL_NAMESPACE)) DelDisagreement in
  let! tenant := field DelMalformed TenantId_parse o "tenant_id" in
  let! _ := unless (negb (bool_decide (tenant = root_tenant_id root))) DelDisagreement in
  let! relay := field DelMalformed ClientId_parse o "relay_client_id" in
  let! origin := field DelMalformed ClientId_parse o "origin_client_id" in
  let! _ := unless (negb (bool_decide (relay = addressed_relay)) ||
                    negb (bool_decide (origin = addressed_origin))) DelDisagreement in
  let! _ := unless (bool_decide (relay = origin)) DelDisagreement in
  let! t := ok_or (text_member o (lit "delegation_state")) DelMalformed in
  let! state := ok_or (state_from_token t) DelMalformed in
  let! scopes := DelegationScopes_parse (object_get o (lit "scopes")) in
  let! epoch := epoch_member_named DelMalformed o "authorization_epoch" in
  let! at_ := field DelMalformed Timestamp_parse o "signed_at" in
  let! _ := unless (negb (calendar_valid at_)) DelMalformed in
  let! _ := map_err delegation_error (verify_control_record root envelope fetch) in
  Ok (mkDelegation tenant relay origin state scopes epoch at_).

(** ** Authorization of a relay *)

Inductive DelegationRejection :=
| RelayCrossTenant | RelayMismatch | OriginMismatch | GrantWithdrawn | HarnessNotGranted | OperationNotGranted.

Record RelayAttempt := mkRelayAttempt
  { attempt_tenant : list Z;
    attempt_relay : list Z;
    attempt_origin : list Z;
    attempt_harness : list Z;
    attempt_operation : ScopeOperation }.

Definition authorize (d : DelegationRecord) (a : RelayAttempt) (relay_scopes : Scopes)
    : result DelegationRejection (list Z) :=
  if negb (bool_decide (attempt_tenant a = del_tenant_id d)) then Err RelayCrossTenant
  else if negb (bool_decide (attempt_relay a = relay_client_id d)) then Err RelayMismatch
  else if negb (bool_decide (attempt_origin a = origin_client_id d)) then Err OriginMismatch
  else if bool_decide (del_state d = Withdrawn) then Err GrantWithdrawn
  else if negb (contains_harness (del_scopes d) (attempt_harness a)) ||
          negb (contains_harness relay_scopes (attempt_harness a)) then Err HarnessNotGranted
  else if negb (contains_operation (del_scopes d) (attempt_operation a)) ||
          negb (contains_operation relay_scopes (attempt_operation a)) then Err OperationNotGranted
  else Ok (origin_client_id d).

(** * Publishing *)

(** A record and the key it is written at. *)
Record Publication := mkPublication { pub_envelope : list Z; pub_object_key : list Z }.

Section Publish.
Context `{Signer}.

Definition authority_key_id_of (seed : list Z) : list Z := KeyId_from_public_key (public_key_from_seed seed).

(** The members are set, the canonical bytes signed, the signature set. *)
Definition sealed_members (seed : list Z) (members : list (list Z * option Value)) : Object :=
  let unsigned := set_members members [] in
  object_set unsigned (lit "authority_signature")
    (VText (to_hex (sign seed (canonical_bytes (VObject unsigned))))).

Definition signed_envelope (seed : list Z) (members : list (list Z * option Value)) : list Z :=
  canonical_bytes (VObject (sealed_members seed members)).

(** [members.set(name, text(value))]. *)
Definition text_field (name : string) (t : list Z) : list Z * option Value := (lit name, Some (VText t)).
Definition int_field (name : string) (n : Z) : list Z * option Value := (lit name, Some (VInt n)).

Inductive PublicationError := PubMalformedInput | EpochUnreached | KeyIdMismatch.

Definition revocation_fields (tenant client revoked : list Z) (epoch : Z) (at_ authority : list Z)
    : list (list Z * option Value) :=
  [text_field "schema" CONTROL_NAMESPACE; text_field "record_type" (lit "revocation");
   text_field "record_kind" (lit "immutable"); text_field "tenant_id" tenant; text_field "client_id" client;
   text_field "revoked_key_id" (to_hex revoked); int_field "authorization_epoch" epoch;
   text_field "signed_at" at_; text_field "authority_key_id" (to_hex authority)].

Definition revocation_object_key (tenant client : list Z) (epoch : Z) : list Z :=
  lit "tenants/" ++ tenant ++ lit "/v1/control/revocations/" ++ client ++ lit "/" ++ i64_to_string epoch ++ lit ".json".

Definition publish_revocation (seed tenant client : list Z) (revoke_epoch : Z) (revoked : list Z)
    (pointer : LinkedClientPointer) (at_ : list Z) : result PublicationError Publication :=
  if (revoke_epoch =? 0) || negb (calendar_valid at_) then Err PubMalformedInput
  else if ptr_epoch pointer <? revoke_epoch then Err EpochUnreached
  else if (revoke_epoch =? ptr_epoch pointer) && negb (bool_decide (revoked = ptr_key_id pointer)) then Err KeyIdMismatch
  else if negb (fits_i64 revoke_epoch) then Err PubMalformedInput
  else
    Ok (mkPublication
      (signed_envelope seed (revocation_fields tenant client revoked revoke_epoch at_ (authority_key_id_of seed)))
      (revocation_object_key tenant client revoke_epoch)).

Definition rotation_fields (tenant client : list Z) (previous_epoch : Z) (previous_public public : list Z)
    (epoch : Z) (at_ authority : list Z) : list (list Z * option Value) :=
  [text_field "schema" CONTROL_NAMESPACE; text_field "record_type" (lit "rotation");
   text_field "record_kind" (lit "immutable"); text_field "tenant_id" tenant; text_field "client_id" client;
   int_field "previous_epoch" previous_epoch; text_field "previous_public_key" (to_hex previous_public);
   text_field "previous_key_id" (to_hex (KeyId_from_public_key previous_public));
   text_field "key_algorithm" (lit "ed25519"); text_field "public_key" (to_hex public);
   text_field "key_id" (to_hex (KeyId_from_public_key public)); int_field "authorization_epoch" epoch;
   text_field "signed_at" at_; text_field "authority_key_id" (to_hex authority)].

Definition rotation_object_key (tenant client : list Z) (epoch : Z) : list Z :=
  lit "tenants/" ++ tenant ++ lit "/v1/control/rotations/" ++ client ++ lit "/" ++ i64_to_string epoch ++ lit ".json".

Definition publish_rotation (seed tenant client previous_public public : list Z) (pointer : LinkedClientPointer)
    (at_ : list Z) : result PublicationError Publication :=
  if (ptr_epoch pointer <? 2) || negb (calendar_valid at_) then Err PubMalformedInput
  else if negb (bool_decide (ptr_client_id pointer = client)) || bool_decide (previous_public = public) ||
          negb (bool_decide (ptr_key_id pointer = KeyId_from_public_key public)) then Err KeyIdMismatch
  else
    let epoch := ptr_epoch pointer in
    let previous_epoch := epoch - 1 in
    if negb (fits_i64 epoch) then Err PubMalformedInput
    else if negb (fits_i64 previous_epoch) then Err PubMalformedInput
    else
      Ok (mkPublication
        (signed_envelope seed (rotation_fields tenant client previous_epoch previous_public public epoch at_
           (authority_key_id_of seed)))
        (rotation_object_key tenant client epoch)).

Definition client_pointer_object_key (tenant client : list Z) : list Z :=
  lit "tenants/" ++ tenant ++ lit "/v1/control/clients/" ++ client ++ lit ".json".

Inductive DelegationPublicationError := DelegationMalformedInput | SelfDelegation | StaleDelegationEpoch.

Definition delegation_fields (tenant relay origin : list Z) (state : DelegationState) (scopes : Value) (epoch : Z)
    (at_ authority : list Z) : list (list Z * option Value) :=
  [text_field "schema" CONTROL_NAMESPACE; text_field "record_type" (lit "delegation");
   text_field "record_kind" (lit "current-pointer"); text_field "tenant_id" tenant;
   text_field "relay_client_id" relay; text_field "origin_client_id" origin;
   text_field "delegation_state" (state_token state); (lit "scopes", Some scopes);
   int_field "authorization_epoch" epoch; text_field "signed_at" at_;
   text_field "authority_key_id" (to_hex authority)].

Definition delegation_object_key (tenant relay origin : list Z) : list Z :=
  lit "tenants/" ++ tenant ++ lit "/v1/control/delegations/" ++ relay ++ lit "/" ++ origin ++ lit ".json".

Definition publish_delegation (seed tenant relay origin : list Z) (state : DelegationState) (scopes : Scopes)
    (epoch : Z) (standing_epoch : option Z) (at_ : list Z) : result DelegationPublicationError Publication :=
  if (epoch =? 0) || negb (calendar_valid at_) then Err DelegationMalformedInput
  else if bool_decide (relay = origin) then Err SelfDelegation
  else if match standing_epoch with Some standing => epoch <=? standing | None => false end
  then Err StaleDelegationEpoch
  else if negb (fits_i64 epoch) then Err DelegationMalformedInput
  else
    Ok (mkPublication
      (signed_envelope seed (delegation_fields tenant relay origin state (VObject (scopes_object scopes)) epoch at_
         (authority_key_id_of seed)))
      (delegation_object_key tenant relay origin)).

(** * Linking *)

Definition LINK_REQUEST_SCHEMA : list Z := lit "archivist.link-request/v1".

Definition LINK_REQUEST_MEMBERS : list (list Z) :=
  map lit ["client_id"; "key_algorithm"; "key_id"; "public_key"; "requested_scopes"; "requested_tenant_id";
    "schema"]%string.

Definition SCOPE_BOUND : nat := 64.

Inductive ApprovalError :=
| MalformedRequest | UnknownScopeToken | ScopeOutOfBounds | ScopeNotSorted | TenantMismatch
| AuthorityUnreachable | SigningWindowClosed | InvalidSigningInstant.

Definition approval_error (e : AuthorityChainError) : ApprovalError :=
  match e with NotEstablished | Retired => SigningWindowClosed | _ => AuthorityUnreachable end.

Record ValidatedDraft := mkDraft
  { draft_client_id : list Z; draft_public_key : list Z; draft_key_id : list Z; draft_scopes : Object }.

Definition text_array (v : option Value) : option (list (list Z)) :=
  match v with
  | Some (VArray items) => mapM (fun item => match item with VText t => Some t | _ => None end) items
  | _ => None
  end.

(** [tokens.windows(2).all(|pair| pair[0] < pair[1])]. *)
Fixpoint strictly_ascending (tokens : list (list Z)) : bool :=
  match tokens with
  | a :: (b :: _) as rest => match lex_compare (as_bytes a) (as_bytes b) with Lt => true | _ => false end && strictly_ascending rest
  | _ => true
  end.

Definition validated_draft (root : PinnedAuthorityRoot) (draft : list Z) : result ApprovalError ValidatedDraft :=
  let! o := record_object MalformedRequest draft in
  let! _ := verify_member_set MalformedRequest o LINK_REQUEST_MEMBERS in
  let! _ := unless (negb (is_text o "schema" LINK_REQUEST_SCHEMA)) MalformedRequest in
  let! client := field MalformedRequest ClientId_parse o "client_id" in
  let! _ := unless (negb (is_text o "key_algorithm" (lit "ed25519"))) MalformedRequest in
  let! public := field MalformedRequest digest_parse o "public_key" in
  let! key_id := field MalformedRequest digest_parse o "key_id" in
  let! _ := unless (negb (bool_decide (key_id = KeyId_from_public_key public))) MalformedRequest in
  let! tenant := field MalformedRequest TenantId_parse o "requested_tenant_id" in
  let! _ := unless (negb (bool_decide (tenant = root_tenant_id root))) TenantMismatch in
  match object_get o (lit "requested_scopes") with
  | Some (VObject scopes) =>
      let! _ := unless (negb (length scopes =? 2)%nat || negb (object_contains scopes (lit "harnesses")) ||
                        negb (object_contains scopes (lit "operations"))) MalformedRequest in
      let! hs := ok_or (text_array (object_get scopes (lit "harnesses"))) MalformedRequest in
      let! ops := ok_or (text_array (object_get scopes (lit "operations"))) MalformedRequest in
      let! _ := unless ((length hs =? 0)%nat || (length ops =? 0)%nat ||
                        (SCOPE_BOUND <? length hs)%nat || (SCOPE_BOUND <? length ops)%nat) ScopeOutOfBounds in
      let! _ := unless (negb (forallb (fun t => bool_decide (t ∈ OPERATION_TOKENS)) ops)) UnknownScopeToken in
      let! _ := unless (negb (forallb (fun t => is_ok (HarnessId_parse t)) hs)) MalformedRequest in
      let! _ := unless (negb (strictly_ascending hs) || negb (strictly_ascending ops)) ScopeNotSorted in
      Ok (mkDraft client public key_id
        (object_set (object_set [] (lit "harnesses") (VArray (map VText hs)))
           (lit "operations") (VArray (map VText ops))))
  | _ => Err MalformedRequest
  end.

(** [RequestedScopes::new]: [tokens.sort(); tokens.dedup()] shortens a list with duplicates. *)
Fixpoint dedup {A} `{EqDecision A} (l : list A) : list A :=
  match l with
  | a :: (b :: _) as rest => if bool_decide (a = b) then dedup rest else a :: dedup rest
  | _ => l
  end.

Inductive IdentityError :=
| Entropy | ReferenceGrammar | ReferenceMissing | ReferenceUnsafe | ReferenceUnreadable
| ReferenceUnsupportedPlatform | IdentityCorrupt | IdentityExists.

Definition RequestedScopes_new (hs : list (list Z)) (ops : list ScopeOperation) : result IdentityError Scopes :=
  let harness_tokens := dedup (sort_by text_leb hs) in
  let operation_tokens := dedup (sort_by text_leb (map operation_token ops)) in
  let duplicated := negb (length harness_tokens =? length hs)%nat || negb (length operation_tokens =? length ops)%nat in
  if (length hs =? 0)%nat || (length ops =? 0)%nat || (64 <? length hs)%nat || (64 <? length ops)%nat || duplicated
  then Err IdentityCorrupt
  else Ok (mkScopes (sort_by text_leb hs) (sort_by op_leb ops)).

(** [let _ = members.insert(name, value)]. *)
Definition insert_member (o : Object) (name : list Z) (v : Value) : Object :=
  match object_insert o name v with Ok o' => o' | _ => o end.

Definition requested_scopes_object (s : Scopes) : Object :=
  insert_member (insert_member [] (lit "harnesses") (VArray (map VText (harnesses s))))
    (lit "operations") (VArray (map (fun op => VText (operation_token op)) (operations s))).

Record PublicIdentity := mkIdentity
  { id_client : list Z; id_algorithm : SignatureAlgorithm; id_public_key : list Z; id_key_id : list Z }.

Record LinkRequest := mkLinkRequest { link_identity : PublicIdentity; link_tenant : list Z; link_scopes : Scopes }.

(** [LinkRequest::canonical_bytes]. *)
Definition LinkRequest_canonical_bytes (l : LinkRequest) : list Z :=
  let i := link_identity l in
  let o := insert_member [] (lit "schema") (VText LINK_REQUEST_SCHEMA) in
  let o := insert_member o (lit "client_id") (VText (id_client i)) in
  let o := insert_member o (lit "key_algorithm") (VText (token (id_algorithm i))) in
  let o := insert_member o (lit "key_id") (VText (to_hex (id_key_id i))) in
  let o := insert_member o (lit "public_key") (VText (to_hex (id_public_key i))) in
  let o := insert_member o (lit "requested_tenant_id") (VText (link_tenant l)) in
  let o := insert_member o (lit "requested_scopes") (VObject (requested_scopes_object (link_scopes l))) in
  canonical_bytes (VObject o).

Definition linked_client_fields (tenant client key_id public : list Z) (scopes : Value) (epoch : Z)
    (at_ authority : list Z) : list (list Z * option Value) :=
  [text_field "schema" CONTROL_NAMESPACE; text_field "record_type" (lit "linked-client");
   text_field "record_kind" (lit "current-pointer"); text_field "tenant_id" tenant; text_field "client_id" client;
   text_field "key_id" (to_hex key_id); text_field "key_algorithm" (lit "ed25519");
   text_field "public_key" (to_hex public); (lit "scopes", Some scopes);
   int_field "authorization_epoch" epoch; text_field "signed_at" at_;
   text_field "authority_key_id" (to_hex authority)].

Definition approve_link_request `{SignatureScheme} (seed : list Z) (root : PinnedAuthorityRoot) (draft at_ : list Z)
    (fetch : Store) : result ApprovalError Publication :=
  let! d := validated_draft root draft in
  let! _ := unless (negb (calendar_valid at_)) InvalidSigningInstant in
  let public := public_key_from_seed seed in
  let authority := KeyId_from_public_key public in
  let! resolved := map_err approval_error (verify_signing_authority root authority at_ fetch) in
  let! _ := unless (negb (bool_decide (resolved_public_key resolved = public))) AuthorityUnreachable in
  Ok (mkPublication
    (signed_envelope seed (linked_client_fields (root_tenant_id root) (draft_client_id d) (draft_key_id d)
       (draft_public_key d) (VObject (draft_scopes d)) 1 at_ authority))
    (client_pointer_object_key (root_tenant_id root) (draft_client_id d))).
End Publish.
