(* ===== verification/ControlRecordFacts.v ===== *)
(** Facts on the control records: what each verification accepts, exactly, and that
    what the publishing operations write is what the verifications read back. *)

From S2P Require Import Prelude Text Json JsonFacts Sha256 Vocabulary Derivation Records Authority ControlRecord.

(** * Closed tables *)

Lemma closed_table names (ms : list (list Z * option Value)) o : wf_members o ->
  names_table names ms.*1 = true -> NoDup names -> length o = length names ->
  Forall (fun m => is_Some m.2 /\ object_get o m.1 = m.2) ms -> o = set_members ms [].
Proof.
  intros Hw Ht Hnd Hlen Hms. destruct (names_table_ok _ _ Ht) as (Hsc & Hndm & Hin).
  rewrite Forall_forall in Hms.
  assert (Hget : Forall (fun m => object_get o m.1 = m.2) ms) by (apply Forall_forall; intros m Hm; by apply Hms).
  destruct (proj1 (record_iff names ms Hsc Hndm Hin o (retained names o) Hw) (conj Hget eq_refl)) as (Hu & Hdis & Ho).
  assert (Hp : names ≡ₚ o.*1).
  { apply submseteq_length_Permutation; [|rewrite length_fmap; lia]. apply NoDup_submseteq; [done|].
    intros n (m & -> & Hm)%Hin%list_elem_of_fmap. destruct (Hms m Hm) as [[v Hv] Hg]. rewrite Hv in Hg.
    apply object_get_in in Hg; [|done|by rewrite Forall_forall in Hsc; apply (Hsc m)].
    apply list_elem_of_fmap. by exists (m.1, v). }
  assert (Hnil : retained names o = []).
  { destruct (retained names o) as [|[n v] u] eqn:Er; [done|]. exfalso.
    apply Forall_cons in Hdis as [Hn _]. cbn in Hn.
    assert (Hr : object_get (retained names o) n = Some v).
    { rewrite Er. apply object_get_in; [done| |by left]. eapply (wf_members_scalar _ n v Hu). by left. }
    rewrite object_get_retained in Hr; [|done|eapply (wf_members_scalar _ n v Hu); by left].
    rewrite bool_decide_false in Hr by done.
    apply object_get_in in Hr; [|done|eapply (wf_members_scalar _ n v Hu); by left].
    apply Hn. rewrite Hp. apply list_elem_of_fmap. by exists (n, v). }
  rewrite Ho, Hnil. done.
Qed.

(** The table read back. *)
Lemma closed_get names (ms : list (list Z * option Value)) name ov : names_table names ms.*1 = true ->
  (name, ov) ∈ ms -> object_get (set_members ms []) name = ov.
Proof.
  intros Ht Hin. destruct (names_table_ok _ _ Ht) as (Hsc & Hnd & Hn).
  exact (record_get_known names ms Hsc Hnd Hn [] name ov wf_members_nil (Forall_nil_2 _) Hin).
Qed.

Lemma closed_wf names (ms : list (list Z * option Value)) : names_table names ms.*1 = true ->
  wf_members (set_members ms []).
Proof. intros (Hsc & _)%names_table_ok. apply set_members_wf; [done|apply wf_members_nil]. Qed.

Lemma closed_length names (ms : list (list Z * option Value)) : names_table names ms.*1 = true -> NoDup names ->
  Forall (fun m => is_Some m.2) ms -> length (set_members ms []) = length names.
Proof.
  intros Ht Hnd Hsome. destruct (names_table_ok _ _ Ht) as (Hsc & Hndm & Hin).
  pose proof (closed_wf _ _ Ht) as Hw.
  assert (Hp : (set_members ms []).*1 ≡ₚ names).
  { apply NoDup_Permutation; [by apply wf_members_NoDup|done|]. intros n. rewrite Hin. split.
    - intros ([n' v] & -> & Hm)%list_elem_of_fmap. cbn. destruct (decide (n' ∈ ms.*1)) as [|Hni]; [done|].
      pose proof (wf_members_scalar _ _ _ Hw Hm) as Hs'. apply object_get_in in Hm; [|done|done].
      by rewrite object_get_set_members_other in Hm by (done || apply wf_members_nil).
    - intros ([n' ov] & -> & Hm)%list_elem_of_fmap. cbn. rewrite Forall_forall in Hsome.
      destruct (Hsome _ Hm) as [v Hv]. cbn in Hv. subst ov. apply list_elem_of_fmap. exists (n', v). split; [done|].
      apply object_get_in; [done|by rewrite Forall_forall in Hsc; apply (Hsc _ Hm)|]. by eapply closed_get. }
  apply Permutation_length in Hp. by rewrite length_fmap in Hp.
Qed.

(** * Readers *)

Lemma unless_Ok {E} bad (e : E) u : unless bad e = Ok u <-> bad = false.
Proof. unfold unless. destruct bad, u; naive_solver. Qed.

Lemma record_object_Ok {E} (e : E) envelope o :
  record_object e envelope = Ok o <-> Json.parse envelope = Ok (VObject o).
Proof. unfold record_object, map_err. destruct (Json.parse envelope) as [[]| |]; cbn [rbind]; naive_solver. Qed.

Lemma verify_member_set_Ok {E} (e : E) o names u : verify_member_set e o names = Ok u <->
  length o = length names /\ Forall (fun n => is_Some (object_get o n)) names.
Proof.
  unfold verify_member_set. destruct (Nat.eqb_spec (length o) (length names)) as [Hl|Hl]; cbn [negb]; [|naive_solver].
  destruct (forallb (object_contains o) names) eqn:Ef.
  - destruct u. split; [intros _|done]. split; [done|]. rewrite forallb_forall in Ef. apply Forall_forall.
    intros n Hn. apply list_elem_of_In, Ef in Hn. rewrite object_contains_get in Hn. by apply bool_decide_eq_true in Hn.
  - split; [done|]. intros [_ Hf]. apply not_true_iff_false in Ef. destruct Ef. apply forallb_forall.
    intros n Hn. rewrite object_contains_get. apply bool_decide_eq_true. rewrite Forall_forall in Hf.
    by apply Hf, list_elem_of_In.
Qed.

Lemma epoch_member_Ok {E} (e : E) o name n : wf_value (VObject o) -> Forall is_scalar (lit name) ->
  epoch_member_named e o name = Ok n <-> 1 <= n <= I64_MAX /\ object_get o (lit name) = Some (VInt n).
Proof.
  intros Hw Hs. unfold epoch_member_named. destruct (object_get o (lit name)) as [[| |m| | |]|] eqn:Eg; try naive_solver.
  assert (Hm : is_i64 m). { pose proof (object_get_wf _ _ _ Hw Hs Eg) as Hv. by inversion Hv. }
  unfold is_i64 in Hm. destruct (Z.leb_spec 1 m); [|naive_solver lia]. split; [intros [= <-]|intros [_ [= <-]]; done].
  split; [lia|done].
Qed.

Lemma is_text_true o name t : is_text o name t = true <-> object_get o (lit name) = Some (VText t).
Proof.
  unfold is_text, text_member. rewrite bool_decide_eq_true. destruct (object_get o (lit name)) as [[]|]; naive_solver.
Qed.

Lemma map_err_Ok {E F A} (f : E -> F) (r : result E A) a : map_err f r = Ok a <-> r = Ok a.
Proof. destruct r; cbn; naive_solver. Qed.

Lemma state_from_token_Some t st : state_from_token t = Some st <-> t = state_token st.
Proof.
  unfold state_from_token. split.
  - repeat case_bool_decide; intros [= <-]; done.
  - intros ->. by destruct st.
Qed.

Lemma ok_or_Ok {E A} (x : option A) (e : E) a : ok_or x e = Ok a <-> x = Some a.
Proof. destruct x; cbn; naive_solver. Qed.

Lemma text_member_Some o name t : text_member o name = Some t <-> object_get o name = Some (VText t).
Proof. unfold text_member. destruct (object_get o name) as [[]|]; naive_solver. Qed.

Lemma key_id_wire public : wire_ok digest_parse (KeyId_from_public_key public).
Proof. split; [apply digest_bytes|apply length_digest]. Qed.

(** Split a verification into what it read and checked. *)
Ltac split_record Ho :=
  repeat match goal with
  | H : rbind _ _ = Ok _ |- _ => apply rbind_Ok in H as (? & ? & H)
  | H : unless _ _ = Ok _ |- _ => apply unless_Ok in H
  | H : _ || _ = false |- _ => apply orb_false_iff in H as [? ?]
  | H : negb _ = false |- _ => apply negb_false_iff in H
  | H : bool_decide _ = true |- _ => apply bool_decide_eq_true in H
  | H : bool_decide _ = false |- _ => apply bool_decide_eq_false in H
  | H : (_ =? _) = true |- _ => apply Z.eqb_eq in H
  | H : is_text _ _ _ = true |- _ => apply is_text_true in H
  | H : field _ ?p ?o ?f = Ok ?a |- _ =>
      apply (typed_iff _ o Ho p (lit f) a ltac:(scalar_name)) in H as [? ?]
  | H : epoch_member_named _ ?o ?f = Ok ?n |- _ =>
      apply (epoch_member_Ok _ o f n Ho ltac:(scalar_name)) in H as [? ?]
  | H : verify_member_set _ _ _ = Ok _ |- _ => apply verify_member_set_Ok in H as [? _]
  | H : map_err _ _ = Ok _ |- _ => apply map_err_Ok in H
  | H : Ok _ = Ok _ |- _ => injection H as <-
  end.

(** Prove a closed table's lookups from the readers' facts. *)
Ltac closed_lookups :=
  repeat (apply Forall_cons; split;
    [split; [by eexists|cbn [fst snd text_field int_field];
      match goal with H : object_get ?o ?f = _ |- object_get ?o ?f = _ => exact H end]|]);
  apply Forall_nil; exact I.

(** A table and its signature. *)
Definition signed_fields (fields : list (list Z * option Value)) (signature : list Z) : list (list Z * option Value) :=
  fields ++ [text_field "authority_signature" (to_hex signature)].

(** Running a verification on a table whose members are known. *)
Ltac known_members H :=
  unfold signed_fields in H; cbn [app] in H;
  repeat (apply Forall_cons in H as [? H]);
  cbn [fst snd text_field int_field] in *; clear H.

Ltac passes :=
  repeat match goal with
  | |- _ || _ = false => apply orb_false_iff; split
  | |- negb _ = false => apply negb_false_iff
  | |- bool_decide _ = true => apply bool_decide_eq_true
  | |- bool_decide _ = false => apply bool_decide_eq_false
  | |- (_ =? _) = true => apply Z.eqb_eq
  | |- is_text _ _ _ = true => apply is_text_true
  end; first [assumption | reflexivity | idtac].

Ltac run_record Ho :=
  repeat (apply rbind_Ok; eexists; split;
    [lazymatch goal with
     | |- field _ ?p ?o ?f = Ok _ =>
         apply (typed_iff _ o Ho p (lit f) _ ltac:(scalar_name)); split; cycle 1;
         [match goal with H : object_get o (lit f) = _ |- _ => exact H end|assumption]
     | |- epoch_member_named _ ?o ?f = Ok _ =>
         apply (epoch_member_Ok _ o f _ Ho ltac:(scalar_name)); split; cycle 1;
         [match goal with H : object_get o (lit f) = _ |- _ => exact H end|first [assumption|lia]]
     | |- unless _ _ = Ok _ => apply (unless_Ok _ _ tt); passes
     | |- verify_member_set _ _ _ = Ok _ => match goal with H : forall E (e : E), _ |- _ => apply H end
     | |- map_err _ _ = Ok _ => apply map_err_Ok; eassumption
     | |- ok_or (text_member _ _) _ = Ok _ => apply ok_or_Ok, text_member_Some; eassumption
     | |- ok_or (state_from_token _) _ = Ok _ => apply ok_or_Ok, state_from_token_Some; reflexivity
     | |- DelegationScopes_parse (object_get ?o ?n) = Ok _ =>
         match goal with H : object_get o n = _ |- _ => rewrite H end; eassumption
     | |- record_object _ _ = Ok _ => apply record_object_Ok; eassumption
     end|]; cbv beta).

Section Exact.
Context `{SignatureScheme} (root : PinnedAuthorityRoot) (fetch : Store).

(** The two members every record shares: the chain's verification names the signer
    and its signature. *)
Lemma authority_members envelope o r : Json.parse envelope = Ok (VObject o) ->
  verify_control_record root envelope fetch = Ok r ->
  exists authority signature, wire_ok digest_parse authority /\ Forall is_byte signature /\ length signature = 64%nat /\
    object_get o (lit "authority_key_id") = Some (VText (to_hex authority)) /\
    object_get o (lit "authority_signature") = Some (VText (to_hex signature)).
Proof.
  intros Hp Hv. destruct (verify_control_record_sound _ _ _ _ Hv) as (o' & signer & signature & at_ & Ha).
  destruct Ha as [Hp' _ _ _ _ _ (t & Ht & Hs) (t' & Ht' & Hs') _ _ _ _]. rewrite Hp in Hp'. injection Hp' as <-.
  pose proof (parse_accepts _ _ _ _ Hp) as (Hw & _).
  assert (Hsc : forall name t, Forall is_scalar name -> text_member o name = Some t ->
    object_get o name = Some (VText t) /\ Forall is_scalar t).
  { intros name u Hn Hu. unfold text_member in Hu. destruct (object_get o name) as [[]|] eqn:Eg; try done.
    injection Hu as ->. split; [done|]. pose proof (object_get_wf _ _ _ Hw Hn Eg) as Hv'. by inversion Hv'. }
  apply Hsc in Ht as [Ht Hst]; [|scalar_name]. apply Hsc in Ht' as [Ht' Hst']; [|scalar_name].
  apply digest_parse_sound in Hs as (-> & ? & ?); [|done]. apply signature_parse_sound in Hs' as (-> & ? & ?); [|done].
  exists signer, signature. by split_and!.
Qed.

(** An envelope is exactly the signed table [fields], and the chain vouches for it. *)
Definition carries (envelope : list Z) (fields : list Z -> list (list Z * option Value)) : Prop :=
  exists authority signature r,
    Json.parse envelope = Ok (VObject (set_members (signed_fields (fields authority) signature) [])) /\
    verify_control_record root envelope fetch = Ok r.

(** Read what a closed table has. *)
Lemma closed_object names ms o : o = set_members ms [] -> names_table names ms.*1 = true ->
  bool_decide (NoDup names) = true -> Forall (fun m => is_Some m.2) ms ->
  length o = length names /\ Forall (fun m => object_get o m.1 = m.2) ms.
Proof.
  intros -> Ht Hnd Hs. apply bool_decide_eq_true in Hnd. split; [by apply closed_length|].
  apply Forall_forall. intros [n ov] Hin. by eapply closed_get.
Qed.

Lemma closed_members names ms o : o = set_members ms [] -> names_table names ms.*1 = true ->
  bool_decide (NoDup names) = true -> Forall (fun m => is_Some m.2) ms ->
  forall {E} (e : E), verify_member_set e o names = Ok tt.
Proof.
  intros Ho Ht Hnd Hs E e. destruct (closed_object _ _ _ Ho Ht Hnd Hs) as [Hl Hg].
  destruct (names_table_ok _ _ Ht) as (_ & _ & Hin). apply verify_member_set_Ok. split; [done|].
  apply Forall_forall. intros n (m & -> & Hm)%Hin%list_elem_of_fmap. rewrite Forall_forall in Hg.
  rewrite Forall_forall in Hs. rewrite (Hg m Hm). by apply Hs.
Qed.

(** A verification of a closed record is the table its members are read from. *)
Lemma carries_intro names envelope o r (fields : list Z -> list (list Z * option Value)) :
  Json.parse envelope = Ok (VObject o) -> verify_control_record root envelope fetch = Ok r ->
  length o = length names -> bool_decide (NoDup names) = true ->
  (forall a g, names_table names (signed_fields (fields a) g).*1 = true) ->
  (forall a g, object_get o (lit "authority_key_id") = Some (VText (to_hex a)) ->
     object_get o (lit "authority_signature") = Some (VText (to_hex g)) ->
     Forall (fun m => is_Some m.2 /\ object_get o m.1 = m.2) (signed_fields (fields a) g)) ->
  carries envelope fields.
Proof.
  intros Hp Hv Hl Hnd Ht Hf. destruct (authority_members _ _ _ Hp Hv) as (a & g & _ & _ & _ & Ha & Hg).
  exists a, g, r. split; [|done]. rewrite Hp. do 2 f_equal. apply bool_decide_eq_true in Hnd.
  pose proof (parse_accepts _ _ _ _ Hp) as (Hw & _).
  eapply (closed_table names); [by apply wf_object_iff|done..|by apply Hf].
Qed.

Lemma carries_elim names envelope (fields : list Z -> list (list Z * option Value)) :
  carries envelope fields -> bool_decide (NoDup names) = true ->
  (forall a g, names_table names (signed_fields (fields a) g).*1 = true) ->
  (forall a g, Forall (fun m => is_Some m.2) (signed_fields (fields a) g)) ->
  exists o a g r, Json.parse envelope = Ok (VObject o) /\ wf_value (VObject o) /\
    verify_control_record root envelope fetch = Ok r /\
    (forall E (e : E), verify_member_set e o names = Ok tt) /\
    Forall (fun m => object_get o m.1 = m.2) (signed_fields (fields a) g).
Proof.
  intros (a & g & r & Hp & Hv) Hnd Ht Hs. pose proof (parse_accepts _ _ _ _ Hp) as (Hw & _).
  do 4 eexists. split_and!; [done..| |].
  - intros E e. by eapply closed_members.
  - by eapply closed_object.
Qed.

Record revocation_ok (x : RevocationRecord) : Prop := {
  ro_tenant : wire_ok TenantId_parse (rev_tenant_id x);
  ro_client : wire_ok ClientId_parse (rev_client_id x);
  ro_revoked : wire_ok digest_parse (revoked_key_id x);
  ro_epoch : 1 <= rev_epoch x <= I64_MAX;
  ro_signed_at : wire_ok Timestamp_parse (rev_signed_at x);
  ro_calendar : calendar_valid (rev_signed_at x) = true }.

Lemma revocation_exact envelope client epoch x : RevocationRecord_verify root envelope fetch client epoch = Ok x <->
  revocation_ok x /\ rev_tenant_id x = root_tenant_id root /\ rev_client_id x = client /\ rev_epoch x = epoch /\
  carries envelope (revocation_fields (rev_tenant_id x) (rev_client_id x) (revoked_key_id x) (rev_epoch x) (rev_signed_at x)).
Proof.
  split.
  - unfold RevocationRecord_verify. intros (o & Hp%record_object_Ok & Hv)%rbind_Ok.
    pose proof (parse_accepts _ _ _ _ Hp) as (Hw & _). split_record Hw.
    cbn [rev_tenant_id rev_client_id revoked_key_id rev_epoch rev_signed_at]. subst.
    split; [by split|]. split_and!; [done..|].
    eapply (carries_intro REVOCATION_MEMBERS); [done..|reflexivity|reflexivity|].
    intros a g Ha Hg. unfold signed_fields, revocation_fields. cbn [app]. closed_lookups.
  - intros ([? ? ? ? ? ?] & Hroot & <- & <- & Hc). destruct x as [tenant c revoked e at_]. cbn in *. subst tenant.
    apply (carries_elim REVOCATION_MEMBERS) in Hc as (o & a & g & r & Hp & Hw & Hv & Hm & Hf);
      [|reflexivity|reflexivity|intros; repeat (constructor; [by eexists|]); constructor].
    unfold revocation_fields in Hf. known_members Hf. unfold RevocationRecord_verify. run_record Hw. done.
Qed.

Record rotation_ok (x : RotationRecord) : Prop := {
  rt_tenant : wire_ok TenantId_parse (rot_tenant_id x);
  rt_client : wire_ok ClientId_parse (rot_client_id x);
  rt_previous : wire_ok digest_parse (rot_previous_public_key x);
  rt_public : wire_ok digest_parse (rot_public_key x);
  rt_previous_id : rot_previous_key_id x = KeyId_from_public_key (rot_previous_public_key x);
  rt_id : rot_key_id x = KeyId_from_public_key (rot_public_key x);
  rt_distinct : rot_previous_key_id x <> rot_key_id x;
  rt_epochs : 1 <= rot_previous_epoch x /\ rot_epoch x = rot_previous_epoch x + 1 /\ rot_epoch x <= I64_MAX;
  rt_signed_at : wire_ok Timestamp_parse (rot_signed_at x);
  rt_calendar : calendar_valid (rot_signed_at x) = true }.

Lemma rotation_exact envelope client epoch x : RotationRecord_verify root envelope fetch client epoch = Ok x <->
  rotation_ok x /\ rot_tenant_id x = root_tenant_id root /\ rot_client_id x = client /\ rot_epoch x = epoch /\
  carries envelope (rotation_fields (rot_tenant_id x) (rot_client_id x) (rot_previous_epoch x)
    (rot_previous_public_key x) (rot_public_key x) (rot_epoch x) (rot_signed_at x)).
Proof.
  split.
  - unfold RotationRecord_verify. intros (o & Hp%record_object_Ok & Hv)%rbind_Ok.
    pose proof (parse_accepts _ _ _ _ Hp) as (Hw & _). split_record Hw.
    cbn [rot_tenant_id rot_client_id rot_previous_epoch rot_previous_public_key rot_previous_key_id rot_epoch
      rot_public_key rot_key_id rot_signed_at]. subst.
    split; [split; cbn; (done || lia)|]. split_and!; [done..|].
    eapply (carries_intro ROTATION_MEMBERS); [done..|reflexivity|reflexivity|].
    intros a g Ha Hg. unfold signed_fields, rotation_fields. cbn [app]. closed_lookups.
  - intros ([? ? ? ? Hi1 Hi2 ? (? & He & ?) ? ?] & Hroot & <- & <- & Hc).
    destruct x as [tenant c pe pp pi e pk ki at_]. cbn in *. subst tenant pi ki e.
    apply (carries_elim ROTATION_MEMBERS) in Hc as (o & a & g & r & Hp & Hw & Hv & Hm & Hf);
      [|reflexivity|reflexivity|intros; repeat (constructor; [by eexists|]); constructor].
    unfold rotation_fields in Hf. known_members Hf. unfold RotationRecord_verify.
    pose proof (key_id_wire pp). pose proof (key_id_wire pk). run_record Hw. done.
Qed.

(** A linked-client pointer names a client, an epoch and a key; its scopes are two
    bounded lists of non-empty texts. *)
Lemma pointer_exact envelope client x : LinkedClientPointer_verify root envelope fetch client = Ok x <->
  exists public scopes at_, wire_ok TenantId_parse (root_tenant_id root) /\ wire_ok ClientId_parse client /\
    wire_ok digest_parse public /\ 1 <= ptr_epoch x <= I64_MAX /\ wire_ok Timestamp_parse at_ /\
    calendar_valid at_ = true /\ scopes_allowlist_object (Some scopes) = true /\
    ptr_client_id x = client /\ ptr_key_id x = KeyId_from_public_key public /\
    carries envelope (linked_client_fields (root_tenant_id root) client (ptr_key_id x) public scopes (ptr_epoch x) at_).
Proof.
  split.
  - unfold LinkedClientPointer_verify. intros (o & Hp%record_object_Ok & Hv)%rbind_Ok.
    pose proof (parse_accepts _ _ _ _ Hp) as (Hw & _). split_record Hw. cbn [ptr_client_id ptr_epoch ptr_key_id]. subst.
    match goal with H : scopes_allowlist_object ?v = true |- _ => destruct v as [scopes|] eqn:Es; [|done] end.
    match goal with H : object_get o (lit "public_key") = Some (VText (wire_text _ ?p)),
      H' : object_get o (lit "signed_at") = Some (VText (wire_text _ ?a)) |- _ => exists p, scopes, a end.
    split_and!; [assumption || lia || reflexivity..|].
    eapply (carries_intro LINKED_CLIENT_MEMBERS); [done..|reflexivity|reflexivity|].
    intros a g Ha Hg. unfold signed_fields, linked_client_fields. cbn [app]. closed_lookups.
  - intros (public & scopes & at_ & ? & ? & ? & ? & ? & ? & Hsc & Hc1 & Hid & Hc).
    destruct x as [c e ki]. cbn in *. subst c ki.
    apply (carries_elim LINKED_CLIENT_MEMBERS) in Hc as (o & a & g & r & Hp & Hw & Hv & Hm & Hf);
      [|reflexivity|reflexivity|intros; repeat (constructor; [by eexists|]); constructor].
    unfold linked_client_fields in Hf. known_members Hf. unfold LinkedClientPointer_verify.
    pose proof (key_id_wire public). run_record Hw; [|done].
    match goal with H : object_get o (lit "scopes") = _ |- _ => by rewrite H end.
Qed.

Record delegation_ok (x : DelegationRecord) : Prop := {
  do_tenant : wire_ok TenantId_parse (del_tenant_id x);
  do_relay : wire_ok ClientId_parse (relay_client_id x);
  do_origin : wire_ok ClientId_parse (origin_client_id x);
  do_distinct : relay_client_id x <> origin_client_id x;
  do_epoch : 1 <= del_epoch x <= I64_MAX;
  do_signed_at : wire_ok Timestamp_parse (del_signed_at x);
  do_calendar : calendar_valid (del_signed_at x) = true }.

Lemma delegation_exact envelope relay origin x : DelegationRecord_verify root envelope fetch relay origin = Ok x <->
  delegation_ok x /\ del_tenant_id x = root_tenant_id root /\ relay_client_id x = relay /\ origin_client_id x = origin /\
  exists scopes, DelegationScopes_parse (Some scopes) = Ok (del_scopes x) /\
    carries envelope (delegation_fields (del_tenant_id x) (relay_client_id x) (origin_client_id x) (del_state x)
      scopes (del_epoch x) (del_signed_at x)).
Proof.
  split.
  - unfold DelegationRecord_verify. intros (o & Hp%record_object_Ok & Hv)%rbind_Ok.
    pose proof (parse_accepts _ _ _ _ Hp) as (Hw & _). split_record Hw.
    cbn [del_tenant_id relay_client_id origin_client_id del_state del_scopes del_epoch del_signed_at].
    repeat match goal with
    | H : ok_or (text_member _ _) _ = Ok _ |- _ => apply ok_or_Ok, text_member_Some in H
    | H : ok_or (state_from_token _) _ = Ok _ |- _ => apply ok_or_Ok, state_from_token_Some in H
    end. subst.
    match goal with H : DelegationScopes_parse ?v = _ |- _ => destruct v as [scopes|] eqn:Es; [|done] end.
    split; [split; cbn; (done || lia)|]. split_and!; [done..|]. exists scopes. split; [done|].
    eapply (carries_intro DELEGATION_MEMBERS); [done..|reflexivity|reflexivity|].
    intros a g Ha Hg. unfold signed_fields, delegation_fields. cbn [app]. closed_lookups.
  - intros ([? ? ? ? ? ? ?] & Hroot & <- & <- & scopes & Hsc & Hc).
    destruct x as [tenant rl og st sc e at_]. cbn in *. subst tenant.
    apply (carries_elim DELEGATION_MEMBERS) in Hc as (o & a & g & r & Hp & Hw & Hv & Hm & Hf);
      [|reflexivity|reflexivity|intros; repeat (constructor; [by eexists|]); constructor].
    unfold delegation_fields in Hf. known_members Hf. unfold DelegationRecord_verify. run_record Hw.
    done.
Qed.
End Exact.

(** * What is published verifies *)

(** Ed25519: a signature verifies under the seed's public half, and is 64 bytes. *)
Class LawfulSigner `{SignatureScheme} `{Signer} := {
  sign_verifies seed message : verify (public_key_from_seed seed) message (sign seed message) = true;
  signature_bytes seed message : Forall is_byte (sign seed message) /\ length (sign seed message) = 64%nat }.

Lemma object_remove_set o name v : wf_members o -> Forall is_scalar name -> object_get o name = None ->
  (object_remove (object_set o name v) name).2 = o.
Proof.
  intros Hw Hn Hg. destruct (object_ops_refine o name v Hw Hn) as (Hgm & _ & [Hws Hms] & _).
  destruct (object_ops_refine _ name v Hws Hn) as (_ & _ & _ & Hr & _).
  destruct (object_remove (object_set o name v) name) as [r o']. destruct Hr as (_ & Hw' & Hm').
  apply object_ext; [done..|]. intros n Hsn. cbn [snd]. rewrite !object_get_map, Hm', Hms by done.
  rewrite delete_insert_id; [done|]. by rewrite <- Hgm.
Qed.

Lemma signature_to_hex raw : Forall is_byte raw -> length raw = 64%nat -> Ed25519Signature_parse (to_hex raw) = Ok raw.
Proof.
  intros Hb Hl. unfold Ed25519Signature_parse, to_hex. rewrite as_bytes_ascii by auto using encode_hex_ascii.
  rewrite length_encode_hex, Hl, encode_hex_lower, decode_encode_hex by done. done.
Qed.

Lemma set_members_app ms ms' o : set_members (ms ++ ms') o = set_members ms' (set_members ms o).
Proof. apply fold_left_app. Qed.

Section Published.
Context `{LawfulSigner} (root : PinnedAuthorityRoot) (fetch : Store) (seed : list Z).

(** The members the authority chain reads. *)
Definition authority_table (kind type at_ : list Z) : list (list Z * option Value) :=
  [text_field "schema" CONTROL_NAMESPACE; text_field "record_type" type; text_field "record_kind" kind;
   text_field "tenant_id" (root_tenant_id root); text_field "signed_at" at_;
   text_field "authority_key_id" (to_hex (authority_key_id_of seed))].

Definition storable (ov : option Value) : Prop :=
  exists v, ov = Some v /\ wf_value v /\ (depth v < DEFAULT_MAX_DEPTH)%nat.

Lemma set_members_storable ms : Forall (fun m => Forall is_scalar m.1) ms -> Forall (fun m => storable m.2) ms ->
  forall o, wf_members o -> Forall (fun m => wf_value m.2 /\ depth m.2 < DEFAULT_MAX_DEPTH)%nat o ->
  Forall (fun m => wf_value m.2 /\ depth m.2 < DEFAULT_MAX_DEPTH)%nat (set_members ms o).
Proof.
  induction ms as [|[n ov] ms IH]; intros Hsc Hst o Hw Ho; [done|]. apply Forall_cons in Hsc as [Hn Hsc].
  apply Forall_cons in Hst as [(v & Hov & Hv) Hst]. cbn in Hov, Hn. subst ov. cbn. unfold set_member. cbn.
  apply IH; [done..|by apply object_set_wf|]. apply Forall_forall. intros [n' v'] Hin.
  pose proof (object_set_wf _ _ v Hw Hn) as Hws. pose proof (wf_members_scalar _ _ _ Hws Hin) as Hn'.
  apply object_get_in in Hin; [|done..]. rewrite object_get_set in Hin by done. case_bool_decide.
  - by injection Hin as <-.
  - apply object_get_in in Hin; [|done..]. rewrite Forall_forall in Ho. by apply (Ho _ Hin).
Qed.

Lemma closed_storable names ms : names_table names ms.*1 = true -> Forall (fun m => storable m.2) ms ->
  wf_value (VObject (set_members ms [])) /\ (depth (VObject (set_members ms [])) <= DEFAULT_MAX_DEPTH)%nat.
Proof.
  intros Ht Hst. destruct (names_table_ok _ _ Ht) as (Hsc & _).
  pose proof (set_members_storable ms Hsc Hst [] wf_members_nil (Forall_nil_2 _)) as Hf. split.
  - apply wf_object_iff. split; [by eapply closed_wf|]. eapply Forall_impl; [exact Hf|]. by intros m [? _].
  - apply object_depth. eapply Forall_impl; [exact Hf|]. by intros m [_ ?].
Qed.

Lemma published_carries names fields kind type at_ r :
  (forall g, names_table names (signed_fields (fields (authority_key_id_of seed)) g).*1 = true) ->
  Forall (fun m => storable m.2) (fields (authority_key_id_of seed)) ->
  Forall (fun m => m ∈ fields (authority_key_id_of seed)) (authority_table kind type at_) ->
  wire_ok TenantId_parse (root_tenant_id root) -> wire_ok Timestamp_parse at_ ->
  verify_signing_authority root (authority_key_id_of seed) at_ fetch = Ok r ->
  resolved_public_key r = public_key_from_seed seed ->
  zlen (signed_envelope seed (fields (authority_key_id_of seed))) <= DEFAULT_MAX_BYTES ->
  carries root fetch (signed_envelope seed (fields (authority_key_id_of seed))) fields.
Proof.
  intros Ht Hst Hau Hten Hat Hr Hpk Hlen.
  set (ms := fields (authority_key_id_of seed)) in *. set (unsigned := set_members ms []).
  set (g := sign seed (canonical_bytes (VObject unsigned))).
  destruct (signature_bytes seed (canonical_bytes (VObject unsigned))) as [Hgb Hgl]. fold g in Hgb, Hgl.
  assert (Hobj : sealed_members seed ms = set_members (signed_fields ms g) []).
  { unfold signed_fields. by rewrite set_members_app. }
  assert (Hsg : Forall is_scalar (to_hex g)).
  { unfold to_hex. eapply Forall_impl; [by apply encode_hex_ascii|]. intros c ?. unfold is_scalar. cbn in *. lia. }
  assert (Hsto : Forall (fun m => storable m.2) (signed_fields ms g)).
  { apply Forall_app. split; [done|]. apply Forall_singleton. eexists. split; [reflexivity|].
    split; [by constructor|]. unfold DEFAULT_MAX_DEPTH. cbn. lia. }
  destruct (closed_storable _ _ (Ht g) Hsto) as [Hwf Hdep].
  destruct (names_table_ok _ _ (Ht g)) as (Hsc & Hnd & _).
  assert (Hp : Json.parse (signed_envelope seed ms) = Ok (VObject (set_members (signed_fields ms g) []))).
  { unfold signed_envelope in *. rewrite Hobj in *. by apply parse_canonical. }
  exists (authority_key_id_of seed), g, r. split; [done|].
  assert (Hget : forall m, m ∈ signed_fields ms g -> object_get (set_members (signed_fields ms g) []) m.1 = m.2).
  { intros [n ov] Hin. by eapply closed_get. }
  rewrite Forall_forall in Hau.
  assert (Hgm : forall m, m ∈ authority_table kind type at_ ->
    object_get (set_members (signed_fields ms g) []) m.1 = m.2).
  { intros m Hm. apply Hget, elem_of_app. left. by apply Hau. }
  clear Hau Hget. apply verify_signing_authority_exact in Hr as [Hr Hmay]; [|apply Hat].
  assert (Htx : forall f t, text_field f t ∈ authority_table kind type at_ ->
    text_member (set_members (signed_fields ms g) []) (lit f) = Some t).
  { intros f t Hin. apply text_member_Some. exact (Hgm _ Hin). }
  eapply (verify_control_record_complete root _ fetch r _ (authority_key_id_of seed) g at_). constructor.
  - done.
  - apply Htx. left.
  - exists type. apply Htx. right. left.
  - exists kind. apply Htx. do 2 right. left.
  - apply Htx. do 3 right. left.
  - apply Hten.
  - exists (to_hex (authority_key_id_of seed)). split; [apply Htx; do 5 right; left|].
    apply digest_parse_to_hex; apply (key_id_wire _).
  - exists (to_hex g). split; [|by apply signature_to_hex]. apply text_member_Some.
    eapply (closed_get names _ _ _ (Ht g)). apply elem_of_app. right. left.
  - split; [apply Htx; do 4 right; left|apply Hat].
  - done.
  - done.
  - rewrite Hpk. unfold signed_fields. rewrite set_members_app. fold unsigned. unfold text_field. cbn [set_members fold_left set_member fst snd].
    unfold signed_fields in Hnd. rewrite fmap_app in Hnd. apply NoDup_app in Hnd as (_ & Hni & _).
    unfold signed_fields in Hsc. apply Forall_app in Hsc as [Hscm _].
    rewrite object_remove_set; [apply sign_verifies|by apply set_members_wf; [|apply wf_members_nil]|scalar_name|].
    unfold unsigned. rewrite object_get_set_members_other; [done|done|apply wf_members_nil|scalar_name|].
    intros Hin. apply (Hni _ Hin). left.
Qed.
End Published.

(** ** Scopes written and read back *)

Lemma op_sorted ops : StronglySorted op_leb ops.
Proof. induction ops; constructor; [done|]. by apply Forall_forall. Qed.

Lemma text_leb_total a b : text_leb a b = true \/ text_leb b a = true.
Proof. apply lex_leb_total. Qed.

Lemma text_leb_trans a b c : text_leb a b = true -> text_leb b c = true -> text_leb a c = true.
Proof. apply lex_leb_trans. Qed.

Lemma parse_tokens_map {A} (token_of : list Z -> option A) (write : A -> list Z) l :
  Forall (fun a => token_of (write a) = Some a) l -> parse_tokens token_of (map (fun a => VText (write a)) l) = Ok l.
Proof. induction 1 as [|a l Ha _ IH]; [done|]. cbn. by rewrite Ha, IH. Qed.

Lemma parse_allowlist_written {A} `{EqDecision A} (leb : A -> A -> bool) (token_of : list Z -> option A) write l :
  Forall (fun a => token_of (write a) = Some a) l -> StronglySorted leb l -> has_duplicates l = false ->
  (1 <= length l <= SCOPES_BOUND)%nat ->
  parse_allowlist leb (Some (VArray (map (fun a => VText (write a)) l))) token_of = Ok l.
Proof.
  intros Hf Hs Hd Hl. unfold parse_allowlist. rewrite length_map.
  rewrite (proj2 (Nat.eqb_neq _ _)), (proj2 (Nat.ltb_ge _ _)) by lia. cbn [orb].
  rewrite parse_tokens_map by done. cbn [rbind]. by rewrite sort_by_id, Hd.
Qed.

(** Two sorted lists without duplicates, within the bound. *)
Record scopes_ok (s : Scopes) : Prop := {
  so_harnesses : Forall (wire_ok HarnessId_parse) (harnesses s);
  so_sorted : StronglySorted text_leb (harnesses s);
  so_distinct : has_duplicates (harnesses s) = false /\ has_duplicates (operations s) = false;
  so_bounds : (1 <= length (harnesses s) <= SCOPES_BOUND)%nat /\ (1 <= length (operations s) <= SCOPES_BOUND)%nat }.

Lemma DelegationScopes_new_ok hs ops s : Forall (wire_ok HarnessId_parse) hs ->
  DelegationScopes_new hs ops = Ok s -> scopes_ok s.
Proof.
  intros Hw. unfold DelegationScopes_new. cbv zeta. destruct (_ || _) eqn:Eb; [done|].
  destruct (has_duplicates (sort_by text_leb hs) || _) eqn:Ed; [done|]. intros [= <-].
  apply orb_false_iff in Ed. apply orb_false_iff in Eb as [E1 E2].
  apply negb_false_iff, andb_true_iff in E1 as [?%Nat.leb_le ?%Nat.leb_le].
  apply negb_false_iff, andb_true_iff in E2 as [?%Nat.leb_le ?%Nat.leb_le]. split; cbn.
  - rewrite Forall_forall in Hw. apply Forall_forall. intros h ?%elem_of_sort_by. by apply Hw.
  - apply sort_by_sorted; [apply text_leb_total|apply text_leb_trans].
  - done.
  - rewrite !length_sort_by. lia.
Qed.

Lemma scopes_object_get s :
  object_get (scopes_object s) (lit "harnesses") = Some (VArray (map VText (harnesses s))) /\
  object_get (scopes_object s) (lit "operations") = Some (VArray (map (fun op => VText (operation_token op)) (operations s))) /\
  length (scopes_object s) = 2%nat.
Proof. by vm_compute. Qed.

Lemma scopes_roundtrip s : scopes_ok s -> DelegationScopes_parse (Some (VObject (scopes_object s))) = Ok s.
Proof.
  intros [Hw Hs [Hd1 Hd2] [Hb1 Hb2]]. destruct (scopes_object_get s) as (Hh & Ho & Hl).
  unfold DelegationScopes_parse, object_contains. rewrite Hh, Ho, Hl. cbn [negb orb Nat.eqb].
  change (map VText (harnesses s)) with (map (fun h => VText (id h)) (harnesses s)).
  rewrite (parse_allowlist_written text_leb harness_of id) by
    (done || (eapply Forall_impl; [exact Hw|]; intros h Hh'; unfold harness_of, id;
      by rewrite (proj2 (wire_law (parse := HarnessId_parse) h h (wire_scalar h Hh')) (conj Hh' eq_refl)))).
  cbn [rbind].
  rewrite (parse_allowlist_written op_leb operation_of operation_token) by
    (done || apply op_sorted || (apply Forall_forall; by intros [] _)).
  by destruct s.
Qed.

Lemma text_array_storable (ts : list (list Z)) : Forall (Forall is_scalar) ts ->
  wf_value (VArray (map VText ts)) /\ (depth (VArray (map VText ts)) <= 1)%nat.
Proof.
  intros Hs. split.
  - constructor. apply Forall_map. eapply Forall_impl; [exact Hs|]. intros t ?. by constructor.
  - cbn. induction Hs as [|t ts _ _ IH]; cbn in *; lia.
Qed.

Lemma scopes_storable hs ops : Forall (Forall is_scalar) hs -> Forall (Forall is_scalar) ops ->
  storable (Some (VObject (object_set (object_set [] (lit "harnesses") (VArray (map VText hs)))
    (lit "operations") (VArray (map VText ops))))).
Proof.
  intros Hh Ho. destruct (text_array_storable hs Hh) as [Hwh Hdh]. destruct (text_array_storable ops Ho) as [Hwo Hdo].
  eexists. split; [reflexivity|].
  generalize dependent (VArray (map VText ops)). generalize dependent (VArray (map VText hs)). intros a Hwa Hda b Hwb Hdb.
  assert (E : object_set (object_set [] (lit "harnesses") a) (lit "operations") b = [(lit "harnesses", a); (lit "operations", b)])
    by (vm_compute; reflexivity).
  rewrite E. split.
  - rewrite <- E. apply wf_object_iff. split; [repeat apply object_set_wf; (apply wf_members_nil || scalar_name)|].
    rewrite E. by repeat constructor.
  - unfold DEFAULT_MAX_DEPTH. cbn. lia.
Qed.

(** ** Publications *)

Lemma storable_text t : Forall is_scalar t -> storable (Some (VText t)).
Proof. intros Ht. eexists. split; [reflexivity|]. split; [by constructor|unfold DEFAULT_MAX_DEPTH; cbn; lia]. Qed.

Lemma storable_wire {A} (p : list Z -> result GrammarError A) `{!WireType p} a : wire_ok p a ->
  storable (Some (VText (wire_text p a))).
Proof. intros Ha. by apply storable_text, wire_scalar. Qed.

Lemma storable_int n : 1 <= n <= I64_MAX -> storable (Some (VInt n)).
Proof.
  intros Hn. eexists. split; [reflexivity|]. split; [constructor; unfold is_i64, I64_MIN; unfold I64_MAX in *; lia|].
  unfold DEFAULT_MAX_DEPTH; cbn; lia.
Qed.

(** Prove each member of a published table storable. *)
Ltac storable_members :=
  repeat (apply Forall_cons; split;
    [cbn [snd text_field int_field];
     lazymatch goal with
     | |- storable (Some (VText (to_hex (KeyId_from_public_key ?k)))) => exact (storable_wire digest_parse _ (key_id_wire k))
     | |- storable (Some (VText (to_hex (authority_key_id_of _)))) => exact (storable_wire digest_parse _ (key_id_wire _))
     | H : wire_ok ?p ?a |- storable (Some (VText (to_hex ?a))) => exact (storable_wire p a H)
     | H : wire_ok ?p ?a |- storable (Some (VText ?a)) => exact (storable_wire p a H)
     | |- storable (Some (VText (lit _))) => apply storable_text; scalar_name
     | |- storable (Some (VText CONTROL_NAMESPACE)) => apply storable_text; scalar_name
     | |- storable (Some (VInt _)) => apply storable_int; lia
     | |- _ => idtac
     end|]);
  first [apply Forall_nil; exact I | idtac].

(** The chain's members are the first four and the two from [n] on. *)
Ltac chain_members n :=
  apply Forall_cons; split; [apply (list_elem_of_lookup_2 _ 0); reflexivity|];
  apply Forall_cons; split; [apply (list_elem_of_lookup_2 _ 1); reflexivity|];
  apply Forall_cons; split; [apply (list_elem_of_lookup_2 _ 2); reflexivity|];
  apply Forall_cons; split; [apply (list_elem_of_lookup_2 _ 3); reflexivity|];
  apply Forall_cons; split; [apply (list_elem_of_lookup_2 _ n); reflexivity|];
  apply Forall_cons; split; [apply (list_elem_of_lookup_2 _ (S n)); reflexivity|];
  apply Forall_nil; exact I.

Section Publications.
Context `{LawfulSigner} (root : PinnedAuthorityRoot) (fetch : Store) (seed : list Z) (at_ : list Z).

(** The chain lets the seed's key sign at the instant. *)
Definition signer_stands : Prop := exists r,
  verify_signing_authority root (authority_key_id_of seed) at_ fetch = Ok r /\
  resolved_public_key r = public_key_from_seed seed.

Lemma revocation_published client epoch revoked pointer p :
  signer_stands -> wire_ok TenantId_parse (root_tenant_id root) -> wire_ok Timestamp_parse at_ ->
  wire_ok ClientId_parse client -> wire_ok digest_parse revoked -> 0 <= epoch ->
  publish_revocation seed (root_tenant_id root) client epoch revoked pointer at_ = Ok p ->
  zlen (pub_envelope p) <= DEFAULT_MAX_BYTES ->
  RevocationRecord_verify root (pub_envelope p) fetch client epoch =
    Ok (mkRevocation (root_tenant_id root) client revoked epoch at_).
Proof.
  intros (r & Hr & Hpk) Hten Hat Hcl Hrev He0 Hp Hlen. unfold publish_revocation in Hp.
  destruct (_ || _) eqn:E1; [done|]. destruct (ptr_epoch pointer <? epoch); [done|].
  destruct (_ && _); [done|]. destruct (negb (fits_i64 epoch)) eqn:E4; [done|]. injection Hp as <-.
  apply orb_false_iff in E1 as [E1%Z.eqb_neq E2%negb_false_iff]. apply negb_false_iff, Z.leb_le in E4.
  assert (1 <= epoch <= I64_MAX) by lia. apply revocation_exact. cbn [pub_envelope] in *.
  split; [by split|]. split_and!; [done..|]. cbn.
  eapply (published_carries root fetch seed REVOCATION_MEMBERS _ (lit "immutable") (lit "revocation") at_ r);
    [reflexivity|unfold revocation_fields; storable_members|unfold revocation_fields; chain_members 7%nat|assumption..].
Qed.

Lemma rotation_published client previous_public public pointer p :
  signer_stands -> wire_ok TenantId_parse (root_tenant_id root) -> wire_ok Timestamp_parse at_ ->
  wire_ok ClientId_parse client -> wire_ok digest_parse previous_public -> wire_ok digest_parse public ->
  KeyId_from_public_key previous_public <> KeyId_from_public_key public ->
  publish_rotation seed (root_tenant_id root) client previous_public public pointer at_ = Ok p ->
  zlen (pub_envelope p) <= DEFAULT_MAX_BYTES ->
  RotationRecord_verify root (pub_envelope p) fetch client (ptr_epoch pointer) =
    Ok (mkRotation (root_tenant_id root) client (ptr_epoch pointer - 1) previous_public
          (KeyId_from_public_key previous_public) (ptr_epoch pointer) public (KeyId_from_public_key public) at_).
Proof.
  intros (r & Hr & Hpk) Hten Hat Hcl Hpp Hpu Hne Hp Hlen. unfold publish_rotation in Hp. cbv zeta in Hp.
  destruct (_ || _) eqn:E1; [done|]. destruct (_ || _ || _); [done|].
  destruct (negb (fits_i64 (ptr_epoch pointer))) eqn:E4; [done|]. destruct (negb (fits_i64 (_ - 1))); [done|]. injection Hp as <-.
  apply orb_false_iff in E1 as [E1%Z.ltb_ge E2%negb_false_iff]. apply negb_false_iff, Z.leb_le in E4.
  assert (2 <= ptr_epoch pointer <= I64_MAX) by lia. apply rotation_exact. cbn [pub_envelope] in *.
  split; [split; cbn; (done || lia)|]. split_and!; [done..|].
  cbn [rot_tenant_id rot_client_id rot_previous_epoch rot_previous_public_key rot_public_key rot_epoch rot_signed_at].
  eapply (published_carries root fetch seed ROTATION_MEMBERS _ (lit "immutable") (lit "rotation") at_ r);
    [reflexivity|unfold rotation_fields; storable_members|unfold rotation_fields; chain_members 12%nat|assumption..].
Qed.

Lemma delegation_published relay origin state scopes epoch standing p :
  signer_stands -> wire_ok TenantId_parse (root_tenant_id root) -> wire_ok Timestamp_parse at_ ->
  wire_ok ClientId_parse relay -> wire_ok ClientId_parse origin -> scopes_ok scopes -> 0 <= epoch ->
  publish_delegation seed (root_tenant_id root) relay origin state scopes epoch standing at_ = Ok p ->
  zlen (pub_envelope p) <= DEFAULT_MAX_BYTES ->
  DelegationRecord_verify root (pub_envelope p) fetch relay origin =
    Ok (mkDelegation (root_tenant_id root) relay origin state scopes epoch at_).
Proof.
  intros (r & Hr & Hpk) Hten Hat Hrl Hog Hsc He0 Hp Hlen. unfold publish_delegation in Hp.
  destruct (_ || _) eqn:E1; [done|]. case_bool_decide as Hne; [done|].
  destruct (match standing with Some _ => _ | None => _ end); [done|].
  destruct (negb (fits_i64 epoch)) eqn:E4; [done|]. injection Hp as <-.
  apply orb_false_iff in E1 as [E1%Z.eqb_neq E2%negb_false_iff]. apply negb_false_iff, Z.leb_le in E4.
  assert (1 <= epoch <= I64_MAX) by lia. apply delegation_exact. cbn [pub_envelope] in *.
  split; [by split|]. split_and!; [done..|].
  cbn [del_tenant_id relay_client_id origin_client_id del_state del_scopes del_epoch del_signed_at].
  exists (VObject (scopes_object scopes)). split; [by apply scopes_roundtrip|].
  eapply (published_carries root fetch seed DELEGATION_MEMBERS _ (lit "current-pointer") (lit "delegation") at_ r);
    [reflexivity|unfold delegation_fields; storable_members|unfold delegation_fields; chain_members 9%nat|assumption..].
  - destruct state; apply storable_text; scalar_name.
  - unfold scopes_object. rewrite <- (map_map operation_token VText). apply scopes_storable.
    + eapply Forall_impl; [apply (so_harnesses _ Hsc)|]. intros h Hh. exact (wire_scalar (parse := HarnessId_parse) h Hh).
    + apply Forall_map, Forall_forall. intros [] _. scalar_name.
Qed.
End Publications.

(** ** Approvals *)

Lemma text_array_Some v ts : text_array v = Some ts <-> v = Some (VArray (map VText ts)).
Proof.
  unfold text_array. destruct v as [[]|]; try naive_solver. rewrite mapM_Some. split.
  - intros Hf. do 2 f_equal. induction Hf as [|[] t items ts Hi _ IH]; try done. cbn. injection Hi as ->. by rewrite IH.
  - intros [= ->]. induction ts; constructor; done.
Qed.

Lemma text_array_scalar o name ts : wf_value (VObject o) -> Forall is_scalar name ->
  object_get o name = Some (VArray (map VText ts)) -> Forall (Forall is_scalar) ts.
Proof.
  intros Hw Hn Hg. pose proof (object_get_wf _ _ _ Hw Hn Hg) as Hv. inversion Hv as [| | | |items Hi|]; subst.
  rewrite Forall_map in Hi. eapply Forall_impl; [exact Hi|]. intros t Ht. by inversion Ht.
Qed.

Record draft_ok (root : PinnedAuthorityRoot) (d : ValidatedDraft) : Prop := {
  dr_tenant : wire_ok TenantId_parse (root_tenant_id root);
  dr_client : wire_ok ClientId_parse (draft_client_id d);
  dr_public : wire_ok digest_parse (draft_public_key d);
  dr_key : draft_key_id d = KeyId_from_public_key (draft_public_key d);
  dr_storable : storable (Some (VObject (draft_scopes d)));
  dr_allowlist : scopes_allowlist_object (Some (VObject (draft_scopes d))) = true }.

Lemma draft_scopes_allowlist hs ops :
  (1 <= length hs <= SCOPE_BOUND)%nat -> (1 <= length ops <= SCOPE_BOUND)%nat ->
  Forall (fun t => t <> []) hs -> Forall (fun t => t <> []) ops ->
  scopes_allowlist_object (Some (VObject (object_set (object_set [] (lit "harnesses") (VArray (map VText hs)))
    (lit "operations") (VArray (map VText ops))))) = true.
Proof.
  intros Hh Ho Hnh Hno.
  assert (Ha : forall (ts : list (list Z)), (1 <= length ts <= SCOPE_BOUND)%nat -> Forall (fun t => t <> []) ts ->
    negb (length (map VText ts) =? 0)%nat && (length (map VText ts) <=? 64)%nat &&
    forallb (fun item => match item with VText t => negb (length t =? 0)%nat | _ => false end) (map VText ts) = true).
  { intros ts Hb Hf. rewrite length_map. unfold SCOPE_BOUND in Hb.
    rewrite (proj2 (Nat.eqb_neq _ _)), (proj2 (Nat.leb_le _ _)) by lia. cbn [negb andb].
    apply forallb_forall. intros v (t & <- & Ht%list_elem_of_In)%in_map_iff. rewrite Forall_forall in Hf.
    specialize (Hf t Ht). by destruct t. }
  pose proof (Ha hs Hh Hnh) as Eh. pose proof (Ha ops Ho Hno) as Eo. clear Ha.
  generalize dependent (map VText ops). generalize dependent (map VText hs). intros a Ea b Eb.
  unfold scopes_allowlist_object, allowlist.
  assert (E : object_set (object_set [] (lit "harnesses") (VArray a)) (lit "operations") (VArray b) =
    [(lit "harnesses", VArray a); (lit "operations", VArray b)]) by (vm_compute; reflexivity).
  rewrite E. change (object_get _ (lit "harnesses")) with (Some (VArray a)).
  change (object_get _ (lit "operations")) with (Some (VArray b)). cbv beta iota. by rewrite Ea, Eb.
Qed.

Lemma validated_draft_ok root draft d : validated_draft root draft = Ok d -> draft_ok root d.
Proof.
  unfold validated_draft. intros (o & Hp%record_object_Ok & Hv)%rbind_Ok.
  pose proof (parse_accepts _ _ _ _ Hp) as (Hw & _). split_record Hw.
  destruct (object_get o (lit "requested_scopes")) as [[| | | | |scopes]|] eqn:Es; try done.
  assert (Hws : wf_value (VObject scopes)) by (eapply (object_get_wf _ _ _ Hw); [|exact Es]; scalar_name).
  split_record Hw.
  repeat match goal with H : ok_or (text_array _) _ = Ok _ |- _ => apply ok_or_Ok, text_array_Some in H end.
  repeat match goal with H : (_ =? _)%nat = false |- _ => apply Nat.eqb_neq in H end.
  repeat match goal with H : (_ <? _)%nat = false |- _ => apply Nat.ltb_ge in H end.
  repeat match goal with H : forallb _ _ = true |- _ => rewrite forallb_forall in H end.
  match goal with Hh : object_get scopes (lit "harnesses") = Some (VArray (map VText ?hs)),
    Ho : object_get scopes (lit "operations") = Some (VArray (map VText ?ops)) |- _ =>
      assert (Hsh : Forall (Forall is_scalar) hs) by (eapply text_array_scalar; [exact Hws| |exact Hh]; scalar_name);
      assert (Hso : Forall (Forall is_scalar) ops) by (eapply text_array_scalar; [exact Hws| |exact Ho]; scalar_name)
  end.
  subst. split; cbn [draft_client_id draft_public_key draft_key_id draft_scopes]; [assumption..|reflexivity| |].
  - by apply scopes_storable.
  - apply draft_scopes_allowlist; [lia|lia| |]; apply Forall_forall; intros t Ht%list_elem_of_In ->.
    + match goal with H : forall x, In x _ -> is_ok _ = true |- _ => specialize (H _ Ht) end. done.
    + match goal with H : forall x, In x _ -> bool_decide (_ ∈ OPERATION_TOKENS) = true |- _ =>
        specialize (H _ Ht) end. done.
Qed.

(** An approval's record is the pointer it names, verified. *)
Lemma approval_published `{LawfulSigner} root fetch seed draft at_ p : wire_ok Timestamp_parse at_ ->
  approve_link_request seed root draft at_ fetch = Ok p -> zlen (pub_envelope p) <= DEFAULT_MAX_BYTES ->
  exists d, validated_draft root draft = Ok d /\
    LinkedClientPointer_verify root (pub_envelope p) fetch (draft_client_id d) =
      Ok (mkPointer (draft_client_id d) 1 (draft_key_id d)) /\
    pub_object_key p = client_pointer_object_key (root_tenant_id root) (draft_client_id d).
Proof.
  intros Hat Hap Hlen. unfold approve_link_request in Hap. apply rbind_Ok in Hap as (d & Hd & Hap).
  apply rbind_Ok in Hap as (u & Hc%unless_Ok%negb_false_iff & Hap). cbv zeta in Hap.
  apply rbind_Ok in Hap as (r & Hr%map_err_Ok & Hap).
  apply rbind_Ok in Hap as (u' & Hpk%unless_Ok%negb_false_iff%bool_decide_eq_true & Hap). injection Hap as <-.
  exists d. split; [done|]. split; [|done]. destruct (validated_draft_ok _ _ _ Hd) as [Hten Hcl Hpub Hkey Hst Hal].
  apply pointer_exact. cbn [ptr_client_id ptr_epoch ptr_key_id pub_envelope] in *.
  exists (draft_public_key d), (VObject (draft_scopes d)), at_. rewrite Hkey.
  split_and!; [assumption|assumption|assumption|unfold I64_MAX; lia|unfold I64_MAX; lia|assumption|assumption|assumption
    |reflexivity|reflexivity|].
  rewrite Hkey in Hlen. fold (authority_key_id_of seed) in Hlen |- *.
  assert (Hone : 1 <= 1 <= I64_MAX) by (unfold I64_MAX; lia).
  eapply (published_carries root fetch seed LINKED_CLIENT_MEMBERS _ (lit "current-pointer") (lit "linked-client") at_ r);
    [reflexivity|unfold linked_client_fields; storable_members|unfold linked_client_fields; chain_members 10%nat|assumption..].
  exact Hst.
Qed.

(** ** Link requests *)

Lemma dedup_length {A} `{EqDecision A} (l : list A) : (length (dedup l) <= length l)%nat /\
  (length (dedup l) = length l -> has_duplicates l = false).
Proof.
  induction l as [|a [|b l] IH]; cbn; [done..|]. destruct IH as [IH1 IH2]. case_bool_decide; cbn in *.
  - split; [lia|lia].
  - split; [lia|]. intros Hl. apply IH2. lia.
Qed.

Lemma text_lt a b : Forall is_scalar a -> Forall is_scalar b -> text_leb a b = true -> a <> b ->
  lex_compare (as_bytes a) (as_bytes b) = Lt.
Proof.
  intros Ha Hb Hle Hne. unfold text_leb, lex_leb in Hle. destruct (lex_compare _ _) eqn:E; [|done|done].
  destruct Hne. apply as_bytes_inj; [done..|]. by apply lex_compare_eq.
Qed.

Lemma sorted_strictly_ascending l : Forall (Forall is_scalar) l -> StronglySorted text_leb l ->
  has_duplicates l = false -> strictly_ascending l = true.
Proof.
  induction l as [|a [|b l] IH]; intros Hs Hso Hd; [done..|].
  apply Forall_cons in Hs as [Ha Hs]. apply StronglySorted_inv in Hso as [Hso Hf].
  apply Forall_cons in Hf as [Hab _]. cbn [has_duplicates] in Hd. apply orb_false_iff in Hd as [Hne Hd].
  apply bool_decide_eq_false in Hne. assert (Hb := Hs). apply Forall_cons in Hb as [Hb _].
  change (match lex_compare (as_bytes a) (as_bytes b) with Lt => true | _ => false end &&
          strictly_ascending (b :: l) = true).
  rewrite text_lt, IH by (done || by apply Is_true_eq_true). done.
Qed.

Lemma has_duplicates_map {A} {B} `{EqDecision A} `{EqDecision B} (f : A -> B) l :
  has_duplicates (map f l) = false -> has_duplicates l = false.
Proof.
  induction l as [|a [|b l] IH]; cbn; [done..|]. intros [Hn Hd]%orb_false_iff. apply bool_decide_eq_false in Hn.
  rewrite bool_decide_false by congruence. by apply IH.
Qed.

Lemma requested_scopes_ok hs ops s : Forall (wire_ok HarnessId_parse) hs -> RequestedScopes_new hs ops = Ok s ->
  scopes_ok s /\ has_duplicates (map operation_token (operations s)) = false.
Proof.
  intros Hw. unfold RequestedScopes_new. cbv zeta. destruct (_ || _) eqn:E; [done|]. intros [= <-].
  repeat match goal with
  | H : _ || _ = false |- _ => apply orb_false_iff in H as [? ?]
  | H : negb _ = false |- _ => apply negb_false_iff, Nat.eqb_eq in H
  | H : (_ =? _)%nat = false |- _ => apply Nat.eqb_neq in H
  | H : (_ <? _)%nat = false |- _ => apply Nat.ltb_ge in H
  end.
  assert (Hd1 : has_duplicates (sort_by text_leb hs) = false).
  { apply dedup_length. by rewrite length_sort_by. }
  assert (Hd2 : has_duplicates (map operation_token (sort_by op_leb ops)) = false).
  { replace (map operation_token (sort_by op_leb ops)) with (sort_by text_leb (map operation_token ops)).
    - apply dedup_length. rewrite length_sort_by, length_map. done.
    - rewrite (sort_by_id op_leb) by apply op_sorted. apply sort_by_id.
      clear. induction ops as [|[] ops IH]; constructor; [done|]. apply Forall_map, Forall_forall. by intros [] _. }
  split; [|done]. split; cbn.
  - rewrite Forall_forall in Hw. apply Forall_forall. intros h ?%elem_of_sort_by. by apply Hw.
  - apply sort_by_sorted; [apply text_leb_total|apply text_leb_trans].
  - split; [done|]. by apply has_duplicates_map in Hd2.
  - rewrite !length_sort_by. unfold SCOPES_BOUND. lia.
Qed.

Definition link_request_fields (l : LinkRequest) : list (list Z * option Value) :=
  [text_field "schema" LINK_REQUEST_SCHEMA; text_field "client_id" (id_client (link_identity l));
   text_field "key_algorithm" (lit "ed25519"); text_field "key_id" (to_hex (id_key_id (link_identity l)));
   text_field "public_key" (to_hex (id_public_key (link_identity l)));
   text_field "requested_tenant_id" (link_tenant l);
   (lit "requested_scopes", Some (VObject (scopes_object (link_scopes l))))].

(** The request's inserts never collide. *)
Lemma link_request_table l : LinkRequest_canonical_bytes l = canonical_bytes (VObject (set_members (link_request_fields l) [])).
Proof.
  destruct l as [[client [] public key] tenant [hs ops]].
  unfold LinkRequest_canonical_bytes, link_request_fields, requested_scopes_object, scopes_object, text_field.
  cbn [link_identity link_tenant link_scopes id_client id_algorithm id_public_key id_key_id harnesses operations].
  generalize (to_hex key) (to_hex public) (VArray (map VText hs))
    (VArray (map (fun op => VText (operation_token op)) ops)).
  intros k p a b. reflexivity.
Qed.

Lemma link_request_validates root hs ops l : RequestedScopes_new hs ops = Ok (link_scopes l) ->
  Forall (wire_ok HarnessId_parse) hs -> wire_ok ClientId_parse (id_client (link_identity l)) ->
  wire_ok digest_parse (id_public_key (link_identity l)) ->
  id_key_id (link_identity l) = KeyId_from_public_key (id_public_key (link_identity l)) ->
  wire_ok TenantId_parse (link_tenant l) -> link_tenant l = root_tenant_id root ->
  zlen (LinkRequest_canonical_bytes l) <= DEFAULT_MAX_BYTES ->
  validated_draft root (LinkRequest_canonical_bytes l) =
    Ok (mkDraft (id_client (link_identity l)) (id_public_key (link_identity l)) (id_key_id (link_identity l))
         (scopes_object (link_scopes l))).
Proof.
  intros Hsc Hhs Hcl Hpu Hkey Hte Hroot Hlen. rewrite link_request_table in *.
  destruct (requested_scopes_ok _ _ _ Hhs Hsc) as [Hok Hdo]. destruct Hok as [Hwh Hso [Hd1 Hd2] [Hb1 Hb2]].
  assert (Hss : Forall (Forall is_scalar) (harnesses (link_scopes l))).
  { eapply Forall_impl; [exact Hwh|]. intros h Hh. exact (wire_scalar (parse := HarnessId_parse) h Hh). }
  assert (Hsts : storable (Some (VObject (scopes_object (link_scopes l))))).
  { unfold scopes_object. rewrite <- (map_map operation_token VText). apply scopes_storable; [done|].
    apply Forall_map, Forall_forall. intros [] _. scalar_name. }
  assert (Hst : Forall (fun m => storable m.2) (link_request_fields l)).
  { unfold link_request_fields. rewrite Hkey. storable_members; [|exact Hsts].
    apply storable_text; scalar_name. }
  assert (Ht : names_table LINK_REQUEST_MEMBERS (link_request_fields l).*1 = true) by reflexivity.
  destruct (closed_storable _ _ Ht Hst) as [Hw Hd].
  assert (Hp : Json.parse (canonical_bytes (VObject (set_members (link_request_fields l) []))) =
    Ok (VObject (set_members (link_request_fields l) []))) by (by apply parse_canonical).
  assert (Hsome : Forall (fun m => is_Some m.2) (link_request_fields l)).
  { eapply Forall_impl; [exact Hst|]. intros m (v & -> & _). by eexists. }
  destruct (closed_object _ _ _ eq_refl Ht eq_refl Hsome) as [_ Hg].
  pose proof (fun E (e : E) => closed_members _ _ _ eq_refl Ht eq_refl Hsome e) as Hm.
  remember (set_members (link_request_fields l) []) as o eqn:Eo. clear Eo.
  unfold link_request_fields in Hg. known_members Hg. rewrite Hkey in *.
  unfold validated_draft. pose proof (key_id_wire (id_public_key (link_identity l))).
  run_record Hw.
  match goal with H : object_get o (lit "requested_scopes") = _ |- _ => rewrite H end. cbv beta iota.
  destruct (scopes_object_get (link_scopes l)) as (Hgh & Hgo & Hgl). unfold object_contains.
  rewrite Hgh, Hgo, Hgl. cbn [negb orb Nat.eqb unless rbind].
  rewrite <- (map_map operation_token VText).
  rewrite !(proj2 (text_array_Some _ _) eq_refl). cbn [ok_or rbind].
  rewrite (proj2 (unless_Ok _ _ tt)); cycle 1.
  { rewrite length_map. unfold SCOPE_BOUND, SCOPES_BOUND in *.
    rewrite !(proj2 (Nat.eqb_neq _ _)), !(proj2 (Nat.ltb_ge _ _)) by lia. done. }
  cbn [rbind]. rewrite (proj2 (unless_Ok _ _ tt)); cycle 1.
  { apply negb_false_iff, forallb_forall. by intros t ([] & <- & _)%in_map_iff. }
  cbn [rbind]. rewrite (proj2 (unless_Ok _ _ tt)); cycle 1.
  { apply negb_false_iff, forallb_forall. intros h Hh%list_elem_of_In. rewrite Forall_forall in Hwh.
    specialize (Hwh _ Hh). by rewrite (proj2 (wire_law (parse := HarnessId_parse) h h (wire_scalar h Hwh)) (conj Hwh eq_refl)). }
  cbn [rbind]. rewrite (proj2 (unless_Ok _ _ tt)); cycle 1.
  { apply orb_false_iff. rewrite !negb_false_iff. split; [by apply sorted_strictly_ascending|].
    apply sorted_strictly_ascending; [| |done].
    - apply Forall_map, Forall_forall. intros [] _. scalar_name.
    - clear. induction (operations (link_scopes l)) as [|[] ops IH]; constructor; [done|].
      apply Forall_map, Forall_forall. by intros [] _. }
  cbn [rbind]. unfold scopes_object. by rewrite (map_map operation_token VText).
Qed.

(** * Theorems *)


(** C19: What the authority publishes, its readers verify: the record read back from the
    published bytes is the record the authority meant. *)
Theorem publications_verify `{LawfulSigner} root fetch seed at_ p : signer_stands root fetch seed at_ ->
  wire_ok TenantId_parse (root_tenant_id root) -> wire_ok Timestamp_parse at_ ->
  zlen (pub_envelope p) <= DEFAULT_MAX_BYTES ->
  (forall client epoch revoked pointer, wire_ok ClientId_parse client -> wire_ok digest_parse revoked -> 0 <= epoch ->
    publish_revocation seed (root_tenant_id root) client epoch revoked pointer at_ = Ok p ->
    RevocationRecord_verify root (pub_envelope p) fetch client epoch =
      Ok (mkRevocation (root_tenant_id root) client revoked epoch at_)) /\
  (forall client previous public pointer, wire_ok ClientId_parse client -> wire_ok digest_parse previous ->
    wire_ok digest_parse public -> KeyId_from_public_key previous <> KeyId_from_public_key public ->
    publish_rotation seed (root_tenant_id root) client previous public pointer at_ = Ok p ->
    RotationRecord_verify root (pub_envelope p) fetch client (ptr_epoch pointer) =
      Ok (mkRotation (root_tenant_id root) client (ptr_epoch pointer - 1) previous (KeyId_from_public_key previous)
            (ptr_epoch pointer) public (KeyId_from_public_key public) at_)) /\
  (forall relay origin state hs ops scopes epoch standing, wire_ok ClientId_parse relay ->
    wire_ok ClientId_parse origin -> Forall (wire_ok HarnessId_parse) hs -> DelegationScopes_new hs ops = Ok scopes ->
    0 <= epoch ->
    publish_delegation seed (root_tenant_id root) relay origin state scopes epoch standing at_ = Ok p ->
    DelegationRecord_verify root (pub_envelope p) fetch relay origin =
      Ok (mkDelegation (root_tenant_id root) relay origin state scopes epoch at_)).
Proof.
  intros Hs Ht Ha Hl. split_and!; intros.
  - by eapply revocation_published.
  - by eapply rotation_published.
  - eapply delegation_published; try eassumption. by eapply DelegationScopes_new_ok.
Qed.

(** The link request an installation writes, once approved, is its linked-client
    pointer at epoch one: the authority's own readers verify the published record under
    the installation's identity. *)
Theorem link_request_linked `{LawfulSigner} root fetch seed hs ops l at_ p :
  RequestedScopes_new hs ops = Ok (link_scopes l) -> Forall (wire_ok HarnessId_parse) hs ->
  wire_ok ClientId_parse (id_client (link_identity l)) -> wire_ok digest_parse (id_public_key (link_identity l)) ->
  id_key_id (link_identity l) = KeyId_from_public_key (id_public_key (link_identity l)) ->
  wire_ok TenantId_parse (link_tenant l) -> link_tenant l = root_tenant_id root ->
  zlen (LinkRequest_canonical_bytes l) <= DEFAULT_MAX_BYTES -> wire_ok Timestamp_parse at_ ->
  approve_link_request seed root (LinkRequest_canonical_bytes l) at_ fetch = Ok p ->
  zlen (pub_envelope p) <= DEFAULT_MAX_BYTES ->
  LinkedClientPointer_verify root (pub_envelope p) fetch (id_client (link_identity l)) =
    Ok (mkPointer (id_client (link_identity l)) 1 (id_key_id (link_identity l))) /\
  pub_object_key p = client_pointer_object_key (root_tenant_id root) (id_client (link_identity l)).
Proof.
  intros Hsc Hhs Hcl Hpu Hk Ht Hr Hlen Hat Hap Hlp.
  pose proof (link_request_validates root _ _ l Hsc Hhs Hcl Hpu Hk Ht Hr Hlen) as Hd.
  destruct (approval_published root fetch seed _ at_ p Hat Hap Hlp) as (d & Hd' & Hv & Hkey).
  rewrite Hd in Hd'. injection Hd' as <-. cbn [draft_client_id draft_key_id] in Hv, Hkey.
  split; [exact Hv|exact Hkey].
Qed.
