(* ===== verification/TrustView.v ===== *)
(** A client's trust view ([ClientTrustView] of
    [crates/archivist-auth/src/revocation.rs]): the current pointer with the
    revocations and rotations folded into it, and the decision an attempt gets.

    A [BTreeMap] is a finite map, its iteration the sorted list of its entries. *)

From S2P Require Import Prelude Text Vocabulary Authority ControlRecord.

Section BTreeMap.
Context {A : Type}.

Definition key_leb (a b : Z * A) : bool := a.1 <=? b.1.

(** [map.iter()]. *)
Definition entries (m : gmap Z A) : list (Z * A) := sort_by key_leb (map_to_list m).

(** [map.range(..=bound).rev()]. *)
Definition range_to_rev (m : gmap Z A) (bound : Z) : list (Z * A) :=
  rev (List.filter (fun e => e.1 <=? bound) (entries m)).
End BTreeMap.

#[export] Instance RotationRecord_eq : EqDecision RotationRecord.
Proof. solve_decision. Defined.

(** [RotationRecord::window_covers]. *)
Definition instant_le (a b : Z * Z) : bool := negb (instant_lt b a).

Definition window_covers (r : RotationRecord) (at_ : list Z) : bool :=
  if negb (calendar_valid at_) then false
  else
    let '(anchor_seconds, anchor_nanoseconds) := utc_instant (rot_signed_at r) in
    let close := (anchor_seconds + ROTATION_OVERLAP_SECONDS, anchor_nanoseconds) in
    let at_instant := utc_instant at_ in
    instant_le (anchor_seconds, anchor_nanoseconds) at_instant && instant_le at_instant close.

Record ClientTrustView := mkView
  { pointer : LinkedClientPointer; revocations : gmap Z (list Z); rotations : gmap Z RotationRecord }.

Definition View_new (p : LinkedClientPointer) : ClientTrustView := mkView p ∅ ∅.

Definition record_revocation (v : ClientTrustView) (r : RevocationRecord)
    : ClientTrustView * result RevocationError unit :=
  if negb (bool_decide (rev_client_id r = ptr_client_id (pointer v))) then (v, Err RevDisagreement)
  else if ptr_epoch (pointer v) <? rev_epoch r then (v, Err RevInconsistent)
  else if (rev_epoch r =? ptr_epoch (pointer v)) && negb (bool_decide (revoked_key_id r = ptr_key_id (pointer v)))
  then (v, Err RevInconsistent)
  else
    match revocations v !! rev_epoch r with
    | Some existing =>
        if bool_decide (existing = revoked_key_id r) then (v, Ok tt) else (v, Err RevInconsistent)
    | None => (mkView (pointer v) (<[rev_epoch r := revoked_key_id r]> (revocations v)) (rotations v), Ok tt)
    end.

Definition record_rotation (v : ClientTrustView) (r : RotationRecord)
    : ClientTrustView * result RevocationError unit :=
  if negb (bool_decide (rot_client_id r = ptr_client_id (pointer v))) then (v, Err RevDisagreement)
  else if ptr_epoch (pointer v) <? rot_epoch r then (v, Err RevInconsistent)
  else if (rot_epoch r =? ptr_epoch (pointer v)) && negb (bool_decide (rot_key_id r = ptr_key_id (pointer v)))
  then (v, Err RevInconsistent)
  else
    match rotations v !! rot_epoch r with
    | Some existing => if bool_decide (existing = r) then (v, Ok tt) else (v, Err RevInconsistent)
    | None => (mkView (pointer v) (revocations v) (<[rot_epoch r := r]> (rotations v)), Ok tt)
    end.

Record AuthorizationAttempt := mkAttempt { att_client_id : list Z; att_epoch : Z; att_key_id : list Z }.

Definition AuthorizationAttempt_new (client : list Z) (epoch : Z) (key : list Z) : option AuthorizationAttempt :=
  if 1 <=? epoch then Some (mkAttempt client epoch key) else None.

Inductive AttemptRejection := ClientMismatch | EpochBeyondPointer | StaleEpoch | Revoked | KeyEpochMismatch.

(** The [for (epoch, revoked) in ..] loop of [standing]. *)
Fixpoint standing_loop (a : AuthorizationAttempt) (es : list (Z * list Z)) : result AttemptRejection unit :=
  match es with
  | [] => Ok tt
  | (epoch, revoked) :: es =>
      if bool_decide (revoked = att_key_id a) then Err Revoked
      else if epoch =? att_epoch a then Err KeyEpochMismatch
      else standing_loop a es
  end.

Definition standing (v : ClientTrustView) (a : AuthorizationAttempt) : result AttemptRejection unit :=
  if negb (bool_decide (att_client_id a = ptr_client_id (pointer v))) then Err ClientMismatch
  else if (att_epoch a =? 0) || (ptr_epoch (pointer v) <? att_epoch a) then Err EpochBeyondPointer
  else
    let! _ := standing_loop a (range_to_rev (revocations v) (att_epoch a)) in
    if att_epoch a <? ptr_epoch (pointer v) then Err StaleEpoch else Ok tt.

Definition evaluate (v : ClientTrustView) (a : AuthorizationAttempt) : result AttemptRejection unit :=
  let! _ := standing v a in
  if bool_decide (att_key_id a = ptr_key_id (pointer v)) then Ok tt else Err KeyEpochMismatch.

Definition evaluate_at (v : ClientTrustView) (a : AuthorizationAttempt) (at_ : list Z)
    : result AttemptRejection unit :=
  let! _ := standing v a in
  if bool_decide (att_key_id a = ptr_key_id (pointer v)) then Ok tt
  else
    match rotations v !! ptr_epoch (pointer v) with
    | Some rotation =>
        if window_covers rotation at_ && bool_decide (att_key_id a = rot_previous_key_id rotation)
        then Ok tt else Err KeyEpochMismatch
    | None => Err KeyEpochMismatch
    end.

(** * Iteration *)

Lemma StronglySorted_filter {A} (R : A -> A -> Prop) (f : A -> bool) l :
  StronglySorted R l -> StronglySorted R (List.filter f l).
Proof.
  induction 1 as [|a l _ IH Ha]; [constructor|]. cbn. destruct (f a); [|done]. constructor; [done|].
  rewrite Forall_forall in Ha. apply Forall_forall. intros x Hx%list_elem_of_In. apply filter_In in Hx as [Hx _].
  by apply Ha, list_elem_of_In.
Qed.

Lemma StronglySorted_rev {A} (R : A -> A -> Prop) l : StronglySorted R l -> StronglySorted (flip R) (rev l).
Proof.
  induction 1 as [|a l _ IH Ha]; [constructor|]. cbn. apply StronglySorted_app. split_and!; [|done|by repeat constructor].
  intros x y Hx%list_elem_of_In Hy%list_elem_of_singleton. subst. rewrite <- in_rev in Hx. rewrite Forall_forall in Ha.
  by apply Ha, list_elem_of_In.
Qed.

Section Iteration.
Context {A : Type} (m : gmap Z A) (bound : Z).

Lemma range_to_rev_in e a : (e, a) ∈ range_to_rev m bound <-> m !! e = Some a /\ e <= bound.
Proof.
  unfold range_to_rev, entries.
  rewrite list_elem_of_In, <- in_rev, filter_In, <- list_elem_of_In, elem_of_sort_by, elem_of_map_to_list.
  cbn. rewrite Z.leb_le. done.
Qed.

(** The entries come in descending order of their keys. *)
Lemma range_to_rev_sorted : StronglySorted (fun a b => b.1 <= a.1) (range_to_rev m bound).
Proof.
  unfold range_to_rev. apply (StronglySorted_rev (fun a b => a.1 <= b.1)), StronglySorted_filter.
  unfold entries. assert (Hs := sort_by_sorted (A := Z * A) key_leb). unfold key_leb in Hs at 1 2 3 4 5.
  specialize (Hs ltac:(intros; lia) ltac:(intros; lia) (map_to_list m)).
  induction Hs as [|x l _ IH Hx]; constructor; [done|]. eapply Forall_impl; [exact Hx|]. intros y Hy.
  apply Is_true_eq_true, Z.leb_le in Hy. done.
Qed.
End Iteration.

(** * The decision *)

Section Decision.
Variables (v : ClientTrustView) (a : AuthorizationAttempt).

(** No revocation speaks against the attempt. *)
Definition unrevoked : Prop :=
  revocations v !! att_epoch a = None /\
  forall e k, e <= att_epoch a -> revocations v !! e = Some k -> k <> att_key_id a.

Definition key_revoked : Prop :=
  revocations v !! att_epoch a = Some (att_key_id a) \/
  revocations v !! att_epoch a = None /\ exists e, e < att_epoch a /\ revocations v !! e = Some (att_key_id a).

Lemma standing_loop_below es : Forall (fun e => e.1 < att_epoch a) es ->
  standing_loop a es = if bool_decide (att_key_id a ∈ es.*2) then Err Revoked else Ok tt.
Proof.
  induction 1 as [|[e k] es He _ IH]; cbn in *; [done|]. rewrite IH, (proj2 (Z.eqb_neq _ _)) by lia.
  destruct (decide (k = att_key_id a)) as [->|Hk].
  - rewrite !bool_decide_true; [done|left|done].
  - rewrite (bool_decide_false (k = _)) by done. erewrite bool_decide_ext; [reflexivity|]. cbn. rewrite elem_of_cons. naive_solver.
Qed.

Lemma standing_loop_spec :
  match standing_loop a (range_to_rev (revocations v) (att_epoch a)) with
  | Ok _ => unrevoked
  | Err Revoked => key_revoked
  | Err KeyEpochMismatch => exists k, revocations v !! att_epoch a = Some k /\ k <> att_key_id a
  | _ => False
  end.
Proof.
  pose proof (fun e k => range_to_rev_in (revocations v) (att_epoch a) e k) as Hin.
  pose proof (range_to_rev_sorted (revocations v) (att_epoch a)) as Hs.
  destruct (range_to_rev _ _) as [|[e k] es] eqn:Er; [|destruct (decide (e = att_epoch a)) as [->|Hne]].
  - cbn. split.
    + destruct (revocations v !! att_epoch a) as [k|] eqn:E; [|done]. destruct (not_elem_of_nil _ (proj2 (Hin (att_epoch a) k) (conj E (Z.le_refl _)))).
    + intros e k He Hk ->. destruct (not_elem_of_nil _ (proj2 (Hin e _) (conj Hk He))).
  - cbn. destruct (proj1 (Hin (att_epoch a) k) ltac:(left)) as [Hk _]. rewrite Z.eqb_refl.
    case_bool_decide as Ek; [subst k; by left|by exists k].
  - apply StronglySorted_inv in Hs as [_ Hs]. destruct (proj1 (Hin e k) ltac:(left)) as [Hk Hle].
    assert (Hlt : Forall (fun x => x.1 < att_epoch a) ((e, k) :: es)).
    { constructor; [cbn; lia|]. eapply Forall_impl; [exact Hs|]. cbn. intros; lia. }
    assert (Hnone : revocations v !! att_epoch a = None).
    { destruct (revocations v !! att_epoch a) as [k'|] eqn:E; [|done].
      rewrite Forall_forall in Hlt.
      specialize (Hlt _ (proj2 (Hin (att_epoch a) k') (conj E (Z.le_refl _)))). cbn in Hlt. lia. }
    rewrite standing_loop_below by done. case_bool_decide as Ek.
    + right. split; [done|]. apply list_elem_of_fmap in Ek as ([e' k'] & -> & [Hk' ?]%Hin).
      exists e'. split; [|done].
      destruct (decide (e' = att_epoch a)) as [->|]; [congruence|lia].
    + split; [done|]. intros e' k' He' Hk' ->. apply Ek, list_elem_of_fmap. exists (e', att_key_id a).
      split; [done|]. by apply Hin.
Qed.
End Decision.

(** The decision table: what an attempt gets at an instant. *)
Inductive verdict (v : ClientTrustView) (a : AuthorizationAttempt) (at_ : list Z) : result AttemptRejection unit -> Prop :=
| verdict_client : att_client_id a <> ptr_client_id (pointer v) -> verdict v a at_ (Err ClientMismatch)
| verdict_beyond : att_client_id a = ptr_client_id (pointer v) ->
    att_epoch a = 0 \/ ptr_epoch (pointer v) < att_epoch a -> verdict v a at_ (Err EpochBeyondPointer)
| verdict_revoked : att_client_id a = ptr_client_id (pointer v) ->
    att_epoch a <> 0 -> att_epoch a <= ptr_epoch (pointer v) -> key_revoked v a -> verdict v a at_ (Err Revoked)
| verdict_forged k : att_client_id a = ptr_client_id (pointer v) ->
    att_epoch a <> 0 -> att_epoch a <= ptr_epoch (pointer v) ->
    revocations v !! att_epoch a = Some k -> k <> att_key_id a -> verdict v a at_ (Err KeyEpochMismatch)
| verdict_stale : att_client_id a = ptr_client_id (pointer v) ->
    att_epoch a <> 0 -> att_epoch a < ptr_epoch (pointer v) -> unrevoked v a -> verdict v a at_ (Err StaleEpoch)
| verdict_current : att_client_id a = ptr_client_id (pointer v) ->
    att_epoch a <> 0 -> att_epoch a = ptr_epoch (pointer v) -> unrevoked v a ->
    att_key_id a = ptr_key_id (pointer v) -> verdict v a at_ (Ok tt)
| verdict_overlap r : att_client_id a = ptr_client_id (pointer v) ->
    att_epoch a <> 0 -> att_epoch a = ptr_epoch (pointer v) -> unrevoked v a ->
    att_key_id a <> ptr_key_id (pointer v) -> rotations v !! ptr_epoch (pointer v) = Some r ->
    window_covers r at_ = true -> att_key_id a = rot_previous_key_id r -> verdict v a at_ (Ok tt)
| verdict_other : att_client_id a = ptr_client_id (pointer v) ->
    att_epoch a <> 0 -> att_epoch a = ptr_epoch (pointer v) -> unrevoked v a ->
    att_key_id a <> ptr_key_id (pointer v) ->
    (forall r, rotations v !! ptr_epoch (pointer v) = Some r -> window_covers r at_ = true ->
       att_key_id a <> rot_previous_key_id r) -> verdict v a at_ (Err KeyEpochMismatch).

Lemma evaluate_at_verdict v a at_ : verdict v a at_ (evaluate_at v a at_).
Proof.
  unfold evaluate_at, standing. case_bool_decide as Hc; cbn [negb]; [|by constructor].
  destruct (_ || _) eqn:Eb; [apply verdict_beyond; [done|lia]|].
  assert (att_epoch a <> 0 /\ att_epoch a <= ptr_epoch (pointer v)) as [H0 Hle] by lia. clear Eb.
  pose proof (standing_loop_spec v a) as Hl.
  destruct (standing_loop _ _) as [[]|[]|]; try done; cbn [rbind].
  - destruct (Z.ltb_spec (att_epoch a) (ptr_epoch (pointer v))); cbn [rbind]; [by constructor|].
    assert (att_epoch a = ptr_epoch (pointer v)) by lia.
    case_bool_decide as Hk; [by constructor|].
    destruct (rotations v !! _) as [r|] eqn:Er; [|apply verdict_other; (done || (intros ? ? ?; congruence))].
    destruct (window_covers r at_) eqn:Ew; cbn [andb]; [case_bool_decide|].
    + by eapply verdict_overlap.
    + apply verdict_other; (done || (intros ? ? ?; congruence)).
    + apply verdict_other; (done || (intros ? ? ?; congruence)).
  - by constructor.
  - destruct Hl as (k & ? & ?). by eapply verdict_forged.
Qed.

Lemma unrevoked_not_revoked v a : unrevoked v a -> key_revoked v a -> False.
Proof. intros [Hn Hu] [Hr|(_ & e & He & Hr)]; [congruence|]. by apply (Hu e (att_key_id a)); [lia|done|]. Qed.

Lemma verdict_functional v a at_ r r' : verdict v a at_ r -> verdict v a at_ r' -> r = r'.
Proof.
  pose proof (unrevoked_not_revoked v a) as Hu.
  intros H1 H2. destruct H1; destruct H2; try reflexivity; try congruence; try (exfalso; lia);
    try (exfalso; by apply Hu);
    repeat match goal with
    | H : key_revoked _ _ |- _ => destruct H as [?|(? & ? & ? & ?)]
    | H : unrevoked _ _ |- _ => destruct H as [? ?]
    end; exfalso; first [congruence | match goal with H : forall r, _ -> _ -> _ <> _ |- _ => by eapply H end].
Qed.

(** The window of a rotation, in nanoseconds: both ends are inside. *)
Lemma window_covers_nanos r at_ : timestamp_grammar (rot_signed_at r) = true -> timestamp_grammar at_ = true ->
  window_covers r at_ = true <-> calendar_valid at_ = true /\
    nanos (rot_signed_at r) <= nanos at_ <= nanos (rot_signed_at r) + 24 * 3600 * 10 ^ 9.
Proof.
  intros Hr Ha. unfold window_covers. destruct (calendar_valid at_); cbn [negb]; [|naive_solver].
  pose proof (instant_lt_nanos at_ (rot_signed_at r) 0 Ha Hr) as H1.
  pose proof (lt_instant_nanos at_ (rot_signed_at r) ROTATION_OVERLAP_SECONDS Ha Hr) as H2.
  rewrite (surjective_pairing (utc_instant (rot_signed_at r))). rewrite Z.add_0_r in H1. unfold instant_le.
  rewrite andb_true_iff, !negb_true_iff, <- !not_true_iff_false, H1, H2.
  unfold ROTATION_OVERLAP_SECONDS. split; intros; [split; [done|lia]|lia].
Qed.

(** * Folding records *)

(** A record delivered to the view. *)
Inductive ControlEvent := RevocationEvent (r : RevocationRecord) | RotationEvent (r : RotationRecord).

Definition deliver (v : ClientTrustView) (e : ControlEvent) : ClientTrustView * result RevocationError unit :=
  match e with RevocationEvent r => record_revocation v r | RotationEvent r => record_rotation v r end.

(** The deliveries in turn; a refused record stops them. *)
Fixpoint deliver_all (v : ClientTrustView) (es : list ControlEvent) : result RevocationError ClientTrustView :=
  match es with
  | [] => Ok v
  | e :: es => let '(v', r) := deliver v e in let! _ := r in deliver_all v' es
  end.

(** What the fold requires of a record, and what it makes of the two maps. *)
Definition admissible (p : LinkedClientPointer) (client : list Z) (epoch : Z) (key : list Z) : Prop :=
  client = ptr_client_id p /\ epoch <= ptr_epoch p /\ (epoch = ptr_epoch p -> key = ptr_key_id p).

Lemma record_revocation_Ok v r v' : record_revocation v r = (v', Ok tt) <->
  admissible (pointer v) (rev_client_id r) (rev_epoch r) (revoked_key_id r) /\
  (forall k, revocations v !! rev_epoch r = Some k -> k = revoked_key_id r) /\
  v' = mkView (pointer v) (<[rev_epoch r := revoked_key_id r]> (revocations v)) (rotations v).
Proof.
  unfold record_revocation, admissible. destruct v as [p revs rots]; cbn.
  case_bool_decide; cbn [negb]; [|naive_solver].
  destruct (Z.ltb_spec (ptr_epoch p) (rev_epoch r)); [naive_solver lia|].
  destruct (Z.eqb_spec (rev_epoch r) (ptr_epoch p)); cbn [andb];
    [case_bool_decide; cbn [negb]; [|naive_solver]|];
    (destruct (revs !! rev_epoch r) as [k|] eqn:Ek; [case_bool_decide; [|naive_solver]|]); split;
    [intros [= <-]|intros (_ & _ & ->)|intros [= <-]|intros (_ & _ & ->)
    |intros [= <-]|intros (_ & _ & ->)|intros [= <-]|intros (_ & _ & ->)]; subst;
    rewrite ?(insert_id revs (rev_epoch r)) by done; try done; split_and!; try done; try naive_solver lia.
Qed.

Lemma record_rotation_Ok v r v' : record_rotation v r = (v', Ok tt) <->
  admissible (pointer v) (rot_client_id r) (rot_epoch r) (rot_key_id r) /\
  (forall r', rotations v !! rot_epoch r = Some r' -> r' = r) /\
  v' = mkView (pointer v) (revocations v) (<[rot_epoch r := r]> (rotations v)).
Proof.
  unfold record_rotation, admissible. destruct v as [p revs rots]; cbn.
  case_bool_decide; cbn [negb]; [|naive_solver].
  destruct (Z.ltb_spec (ptr_epoch p) (rot_epoch r)); [naive_solver lia|].
  destruct (Z.eqb_spec (rot_epoch r) (ptr_epoch p)); cbn [andb];
    [case_bool_decide; cbn [negb]; [|naive_solver]|];
    (destruct (rots !! rot_epoch r) as [k|] eqn:Ek; [case_bool_decide; [|naive_solver]|]); split;
    [intros [= <-]|intros (_ & _ & ->)|intros [= <-]|intros (_ & _ & ->)
    |intros [= <-]|intros (_ & _ & ->)|intros [= <-]|intros (_ & _ & ->)]; subst;
    rewrite ?(insert_id rots (rot_epoch r)) by done; try done; split_and!; try done; try naive_solver lia.
Qed.

(** A refused record leaves the view alone. *)
Lemma deliver_refused v e v' err : deliver v e = (v', Err err) -> v' = v.
Proof.
  destruct e; cbn; unfold record_revocation, record_rotation; repeat case_match; intros; by simplify_eq.
Qed.

Lemma deliver_total v e : (deliver v e).2 <> OutOfFuel.
Proof. destruct e; cbn; unfold record_revocation, record_rotation; repeat case_match; done. Qed.

(** The view only grows. *)
Definition extends (v v' : ClientTrustView) : Prop :=
  pointer v' = pointer v /\ revocations v ⊆ revocations v' /\ rotations v ⊆ rotations v'.

#[export] Instance extends_preorder : PreOrder extends.
Proof.
  split; [intros v; by repeat split|]. intros v1 v2 v3 (Hp & Hr & Ht) (Hp' & Hr' & Ht').
  split_and!; [congruence|by etrans|by etrans].
Qed.

Lemma insert_agree_subseteq {A} (m : gmap Z A) k a : (forall a', m !! k = Some a' -> a' = a) -> m ⊆ <[k := a]> m.
Proof.
  intros Ha. apply map_subseteq_spec. intros i x Hx. destruct (decide (i = k)) as [->|].
  - rewrite lookup_insert_eq. by rewrite (Ha _ Hx).
  - by rewrite lookup_insert_ne.
Qed.

Lemma deliver_extends v e : extends v (deliver v e).1.
Proof.
  destruct (deliver v e) as [v' [[]|err|]] eqn:E.
  - destruct e; cbn in E; [apply record_revocation_Ok in E as (_ & Ha & ->)|apply record_rotation_Ok in E as (_ & Ha & ->)];
      split_and!; cbn; try done; by apply insert_agree_subseteq.
  - apply deliver_refused in E as ->. reflexivity.
  - by destruct (deliver_total v e); rewrite E.
Qed.

(** Later deliveries, accepted or not. *)
Inductive delivered : ClientTrustView -> ClientTrustView -> Prop :=
| delivered_here v : delivered v v
| delivered_next v e v' : delivered (deliver v e).1 v' -> delivered v v'.

Lemma delivered_extends v v' : delivered v v' -> extends v v'.
Proof. induction 1 as [|v e v' _ IH]; [reflexivity|]. etrans; [apply deliver_extends|exact IH]. Qed.

(** What a view assembled from records holds. *)
Record view_ok (v : ClientTrustView) : Prop := {
  vo_revocations e k : revocations v !! e = Some k -> e <= ptr_epoch (pointer v) /\
    (e = ptr_epoch (pointer v) -> k = ptr_key_id (pointer v));
  vo_rotations e r : rotations v !! e = Some r -> rot_epoch r = e /\
    admissible (pointer v) (rot_client_id r) e (rot_key_id r) }.

Lemma view_ok_new p : view_ok (View_new p).
Proof. split; cbn; intros ? ? H; by rewrite lookup_empty in H. Qed.

Lemma deliver_ok v e : view_ok v -> view_ok (deliver v e).1.
Proof.
  intros Hv. destruct (deliver v e) as [v' [[]|err|]] eqn:E; [|by apply deliver_refused in E as ->
    |by destruct (deliver_total v e); rewrite E].
  destruct e as [r|r]; cbn in E.
  - apply record_revocation_Ok in E as (Ha & _ & ->). destruct Ha as (_ & ? & ?), Hv as [H1 H2]. split; cbn; [|done].
    intros e k [[<- <-]|[_ Hk]]%lookup_insert_Some; [done|by apply H1].
  - apply record_rotation_Ok in E as (Ha & _ & ->). destruct Hv as [H1 H2]. split; cbn; [done|].
    intros e k [[<- <-]|[_ Hk]]%lookup_insert_Some; [done|by apply H2].
Qed.

Lemma delivered_ok v v' : delivered v v' -> view_ok v -> view_ok v'.
Proof. induction 1 as [|v e v' _ IH]; [done|]. intros Hv. by apply IH, deliver_ok. Qed.

(** An insertion that agrees with the map. *)
Definition agrees {A} (m : gmap Z A) (k : Z) (a : A) : Prop := forall a', m !! k = Some a' -> a' = a.

Lemma agrees_swap {A} (m : gmap Z A) k a k' a' : agrees m k a -> agrees (<[k := a]> m) k' a' ->
  agrees m k' a' /\ agrees (<[k' := a']> m) k a /\ <[k' := a']> (<[k := a]> m) = <[k := a]> (<[k' := a']> m).
Proof.
  unfold agrees. intros Ha Ha'. destruct (decide (k = k')) as [->|Hne].
  - rewrite lookup_insert_eq in Ha'. specialize (Ha' a eq_refl) as ->. split; [done|]. rewrite lookup_insert_eq. naive_solver.
  - rewrite lookup_insert_ne in Ha' by done. rewrite lookup_insert_ne by done. split_and!; [done..|].
    by apply insert_insert_ne.
Qed.

(** Two accepted deliveries commute. *)
Lemma deliver_swap v e e' v1 v2 : deliver v e = (v1, Ok tt) -> deliver v1 e' = (v2, Ok tt) ->
  exists v1', deliver v e' = (v1', Ok tt) /\ deliver v1' e = (v2, Ok tt).
Proof.
  destruct e as [r|r], e' as [r'|r']; cbn; rewrite ?record_revocation_Ok, ?record_rotation_Ok;
    intros (Ha & Hk & ->) (Ha' & Hk' & ->); cbn in *;
    try destruct (agrees_swap _ _ _ _ _ Hk Hk') as (Hs1 & Hs2 & ->);
    eexists; rewrite ?record_revocation_Ok, ?record_rotation_Ok; cbn;
    (split; [split_and!; [done| |reflexivity]|split_and!; [done| |reflexivity]]); done.
Qed.

Lemma deliver_all_cons v e es v' : deliver_all v (e :: es) = Ok v' <->
  exists v1, deliver v e = (v1, Ok tt) /\ deliver_all v1 es = Ok v'.
Proof.
  cbn. destruct (deliver v e) as [v1 [[]|err|]]; cbn [rbind]; naive_solver.
Qed.

Lemma deliver_all_permutation es es' : es ≡ₚ es' -> forall v v', deliver_all v es = Ok v' -> deliver_all v es' = Ok v'.
Proof.
  induction 1 as [|e es es' _ IH|e e' es|es1 es2 es3 _ IH1 _ IH2]; intros v v'; [done| | |eauto].
  - rewrite !deliver_all_cons. intros (v1 & ? & ?). eauto.
  - rewrite deliver_all_cons. intros (v1 & H1 & (v2 & H2 & H3)%deliver_all_cons).
    destruct (deliver_swap _ _ _ _ _ H1 H2) as (w & ? & ?). apply deliver_all_cons. exists w. split; [done|].
    apply deliver_all_cons. by exists v2.
Qed.

Lemma evaluate_at_unrevoked v a at_ : evaluate_at v a at_ = Ok tt -> unrevoked v a.
Proof. intros Hok. pose proof (evaluate_at_verdict v a at_) as Hv. rewrite Hok in Hv. by inversion Hv. Qed.

Lemma evaluate_at_exact v a at_ r : evaluate_at v a at_ = r <-> verdict v a at_ r.
Proof.
  split; [intros <-; apply evaluate_at_verdict|]. intros Hr.
  eapply verdict_functional; [apply evaluate_at_verdict|done].
Qed.

(** * Theorems *)


(** C21: A revocation that was accepted is permanent: after any later deliveries, the
    revoked key is refused at its epoch and at every later one, inside every window. *)
Theorem revocation_permanent v r v1 v2 a at_ : record_revocation v r = (v1, Ok tt) -> delivered v1 v2 ->
  att_key_id a = revoked_key_id r -> rev_epoch r <= att_epoch a -> evaluate_at v2 a at_ <> Ok tt.
Proof.
  intros (_ & _ & ->)%record_revocation_Ok (_ & Hsub & _)%delivered_extends Hkey He Hok.
  assert (Hr : revocations v2 !! rev_epoch r = Some (att_key_id a)).
  { rewrite Hkey. eapply lookup_weaken; [|exact Hsub]. cbn. by rewrite lookup_insert_eq. }
  apply evaluate_at_unrevoked in Hok as [_ Hu]. by eapply Hu.
Qed.

(** Delivering a record never admits a key, but for the previous half of the rotation
    that established the current epoch, inside its window. *)
Theorem deliveries_never_widen v v' a at_ : delivered v v' -> evaluate_at v' a at_ = Ok tt ->
  evaluate_at v a at_ = Ok tt \/
  (rotations v !! ptr_epoch (pointer v) = None /\
   exists r, rotations v' !! ptr_epoch (pointer v) = Some r /\ window_covers r at_ = true /\
     att_epoch a = ptr_epoch (pointer v) /\ att_key_id a = rot_previous_key_id r).
Proof.
  intros (Hp & Hr & Ht)%delivered_extends Hok.
  assert (Hun : unrevoked v' a -> unrevoked v a).
  { intros [Hn Hu]. split; [by eapply lookup_weaken_None|]. intros e k He Hk. by eapply Hu, lookup_weaken. }
  apply evaluate_at_exact in Hok. inversion Hok as [| | | | |Hc H0 He Hu Hk|r Hc H0 He Hu Hk Hrot Hw Hprev|];
    rewrite Hp in *.
  - left. apply evaluate_at_exact. apply verdict_current; auto.
  - destruct (rotations v !! ptr_epoch (pointer v)) as [r'|] eqn:Er; [|right; eauto 10].
    left. apply evaluate_at_exact. apply (verdict_overlap _ _ _ r'); auto; rewrite (lookup_weaken _ _ _ _ Er Ht) in Hrot; congruence.
Qed.

(** Once the current epoch is revoked, the client has no key left. *)
Theorem revoked_epoch_shut v v' a at_ k : revocations v !! ptr_epoch (pointer v) = Some k ->
  delivered v v' -> evaluate_at v' a at_ <> Ok tt.
Proof.
  intros Hk (Hp & Hr & _)%delivered_extends Hok%evaluate_at_exact.
  inversion Hok as [| | | | |Hc H0 He [Hn _] _|r Hc H0 He [Hn _] _ _ _ _|];
    rewrite He, Hp, (lookup_weaken _ _ _ _ Hk Hr) in Hn; done.
Qed.

(** The view does not depend on the order its records arrive in. *)
Theorem deliveries_commute v es es' v' : es ≡ₚ es' -> deliver_all v es = Ok v' -> deliver_all v es' = Ok v'.
Proof. intros Hp. by apply deliver_all_permutation. Qed.
