(* ===== verification/RequestVerification.v ===== *)
(** The decision on one ingest attempt
    ([crates/archivist-auth/src/request_verification.rs]): the signed attempt
    record, the freshness window, the linkage, the signature, the scopes and the
    origin's delegation. *)

From S2P Require Import Prelude Text Json JsonFacts Sha256 Vocabulary Derivation Records Authority ControlRecord ControlRecordFacts TrustView.

#[export] Instance SignatureAlgorithm_eq : EqDecision SignatureAlgorithm.
Proof. solve_decision. Defined.

Definition AUTHORIZATION_WINDOW_SECONDS : Z := 300.
Definition CLOCK_SKEW_ALLOWANCE_SECONDS : Z := 300.
Definition HTTP_METHOD : list Z := lit "POST".
Definition ROUTE : list Z := lit "/v1/ingest".

Definition ATTEMPT_MEMBERS : list (list Z) :=
  map lit ["http_method"; "route"; "content_type"; "request_content_digest"; "envelope_digest";
    "payload_canonical_digest"; "payload_transport_digest"; "uploader_key_id"; "authorization_epoch";
    "authorization_timestamp"; "signature_algorithm"; "signature"]%string.

Inductive RequestRejection :=
| MalformedAuthorization | AlteredRequest | ExpiredAuthorization | PrematureAuthorization | UnlinkedUploader
| CrossTenant | Trust (r : AttemptRejection) | InvalidSignature | ScopeNotGranted | DelegationMissing
| DelegationRefused (r : DelegationRejection).

Record AttemptAuthorization := mkAuthorization
  { auth_content_type : list Z;
    auth_request_content_digest : list Z;
    auth_envelope_digest : list Z;
    auth_payload_canonical_digest : list Z;
    auth_payload_transport_digest : list Z;
    auth_uploader_key_id : list Z;
    auth_epoch : Z;
    auth_timestamp : list Z;
    auth_signature : list Z }.

(** [AttemptAuthorization::parse]. *)
Definition AttemptAuthorization_parse (v : Value) : result RequestRejection AttemptAuthorization :=
  match v with
  | VObject o =>
      let! _ := verify_member_set MalformedAuthorization o ATTEMPT_MEMBERS in
      let! _ := unless (negb (is_text o "http_method" HTTP_METHOD) || negb (is_text o "route" ROUTE))
                  MalformedAuthorization in
      let algorithm := match text_member o (lit "signature_algorithm") with
                       | Some t => match enum_parse (E := SignatureAlgorithm) t with Ok a => Some a | _ => None end
                       | None => None
                       end in
      let! _ := unless (negb (bool_decide (algorithm = Some Ed25519))) MalformedAuthorization in
      let! content_type := field MalformedAuthorization ContentType_parse o "content_type" in
      let! request := field MalformedAuthorization digest_parse o "request_content_digest" in
      let! envelope := field MalformedAuthorization digest_parse o "envelope_digest" in
      let! canonical := field MalformedAuthorization digest_parse o "payload_canonical_digest" in
      let! transport := field MalformedAuthorization digest_parse o "payload_transport_digest" in
      let! key := field MalformedAuthorization digest_parse o "uploader_key_id" in
      let! epoch := epoch_member_named MalformedAuthorization o "authorization_epoch" in
      let! at_ := field MalformedAuthorization Timestamp_parse o "authorization_timestamp" in
      let! _ := unless (negb (calendar_valid at_)) MalformedAuthorization in
      let! signature := field MalformedAuthorization Ed25519Signature_parse o "signature" in
      Ok (mkAuthorization content_type request envelope canonical transport key epoch at_ signature)
  | _ => Err MalformedAuthorization
  end.

Definition signing_input (a : AttemptAuthorization) : list Z :=
  ingest_attempt_signing_input HTTP_METHOD ROUTE (auth_content_type a) (auth_request_content_digest a)
    (auth_envelope_digest a) (auth_payload_canonical_digest a) (auth_payload_transport_digest a)
    (auth_uploader_key_id a) (auth_epoch a) (auth_timestamp a).

Record PresentedRequest := mkPresented
  { pres_tenant_id : list Z;
    pres_uploader : list Z;
    pres_origin : list Z;
    pres_harness : list Z;
    pres_request_content_digest : list Z;
    pres_envelope_digest : list Z;
    pres_payload_canonical_digest : list Z;
    pres_payload_transport_digest : list Z }.

Record LinkedUploader := mkLinked
  { linked_tenant_id : list Z; linked_view : ClientTrustView; linked_public_key : list Z; linked_scopes : Scopes }.

Definition LinkedUploader_new (root : PinnedAuthorityRoot) (v : ClientTrustView) (public : list Z) (scopes : Scopes)
    : option LinkedUploader :=
  if negb (bool_decide (KeyId_from_public_key public = ptr_key_id (pointer v))) then None
  else Some (mkLinked (root_tenant_id root) v public scopes).

Record AuthorizedAttempt := mkAuthorized
  { az_uploader : list Z; az_anchor : list Z; az_key_id : list Z; az_epoch : Z }.

Definition days_from_civil (year month day : Z) : Z :=
  let year := year - (if month <=? 2 then 1 else 0) in
  let era := Z.quot (if 0 <=? year then year else year - 399) 400 in
  let year_of_era := year - era * 400 in
  let month_offset := if 2 <? month then -3 else 9 in
  let day_of_year := Z.quot (153 * (month + month_offset) + 2) 5 + day - 1 in
  let day_of_era := year_of_era * 365 + Z.quot year_of_era 4 - Z.quot year_of_era 100 + day_of_year in
  era * 146097 + day_of_era - 719468.

Definition epoch_seconds (stamp : list Z) : Z :=
  let bytes := as_bytes stamp in
  let year := decimal (slice bytes 0 4) in
  let month := decimal (slice bytes 5 7) in
  let day := decimal (slice bytes 8 10) in
  let hour := decimal (slice bytes 11 13) in
  let minute := decimal (slice bytes 14 16) in
  let second := decimal (slice bytes 17 19) in
  days_from_civil year month day * 86400 + hour * 3600 + minute * 60 + second.

(** [admitted_half]: [view.rotations().find(..)]. *)
Definition admitted_half (linked : LinkedUploader) (a : AttemptAuthorization) : option (list Z) :=
  let v := linked_view linked in
  if bool_decide (auth_uploader_key_id a = ptr_key_id (pointer v)) then Some (linked_public_key linked)
  else
    match List.find (fun e => (e.1 =? ptr_epoch (pointer v)) && window_covers e.2 (auth_timestamp a) &&
                       bool_decide (rot_previous_key_id e.2 = auth_uploader_key_id a)) (entries (rotations v)) with
    | Some (_, rotation) => Some (rot_previous_public_key rotation)
    | None => None
    end.

Definition verify_request `{SignatureScheme} (a : AttemptAuthorization) (p : PresentedRequest)
    (linked : option LinkedUploader) (delegation : option DelegationRecord) (now : list Z)
    : result RequestRejection AuthorizedAttempt :=
  if negb (bool_decide (auth_request_content_digest a = pres_request_content_digest p)) ||
     negb (bool_decide (auth_envelope_digest a = pres_envelope_digest p)) ||
     negb (bool_decide (auth_payload_canonical_digest a = pres_payload_canonical_digest p)) ||
     negb (bool_decide (auth_payload_transport_digest a = pres_payload_transport_digest p))
  then Err AlteredRequest
  else
    let age := epoch_seconds now - epoch_seconds (auth_timestamp a) in
    if AUTHORIZATION_WINDOW_SECONDS + CLOCK_SKEW_ALLOWANCE_SECONDS <? age then Err ExpiredAuthorization
    else if age <? - CLOCK_SKEW_ALLOWANCE_SECONDS then Err PrematureAuthorization
    else
      let! linked := ok_or linked UnlinkedUploader in
      if negb (bool_decide (linked_tenant_id linked = pres_tenant_id p)) then Err CrossTenant
      else
        let! attempt := ok_or (AuthorizationAttempt_new (pres_uploader p) (auth_epoch a) (auth_uploader_key_id a))
                          MalformedAuthorization in
        let! _ := map_err Trust (evaluate_at (linked_view linked) attempt (auth_timestamp a)) in
        match admitted_half linked a with
        | None => Err (Trust KeyEpochMismatch)
        | Some half =>
            if negb (verify half (signing_input a) (auth_signature a)) then Err InvalidSignature
            else if negb (contains_harness (linked_scopes linked) (pres_harness p)) ||
                    negb (contains_operation (linked_scopes linked) Ingest)
            then Err ScopeNotGranted
            else
              let! anchor :=
                (if bool_decide (pres_origin p = pres_uploader p) then Ok (pres_uploader p)
                 else
                   let! grant := ok_or delegation DelegationMissing in
                   map_err DelegationRefused
                     (authorize grant
                        (mkRelayAttempt (pres_tenant_id p) (pres_uploader p) (pres_origin p) (pres_harness p) Ingest)
                        (linked_scopes linked))) in
              Ok (mkAuthorized (pres_uploader p) anchor (auth_uploader_key_id a) (auth_epoch a))
        end.

(** * Scopes *)

Lemma StronglySorted_lookup {A} (R : A -> A -> Prop) l i j x y :
  StronglySorted R l -> l !! i = Some x -> l !! j = Some y -> (i < j)%nat -> R x y.
Proof.
  intros Hs. revert i j. induction Hs as [|a l _ IH Ha]; intros i j Hi Hj Hlt; [done|].
  destruct j as [|j]; [lia|]. destruct i as [|i]; cbn in Hi, Hj.
  - injection Hi as ->. rewrite Forall_forall in Ha. by eapply Ha, list_elem_of_lookup_2.
  - apply (IH i j); [done..|lia].
Qed.

Section Found.
Context {A : Type} (f : A -> comparison).

(** The probe is monotone along the list. *)
Definition monotone_probe (l : list A) : Prop :=
  StronglySorted (fun x y => (f x = Gt -> f y = Gt) /\ (f x = Eq -> f y <> Lt)) l.

Lemma monotone_threshold l : monotone_probe l ->
  exists m, (m <= length l)%nat /\ forall i x, l !! i = Some x -> (i < m)%nat <-> f x <> Gt.
Proof.
  induction 1 as [|a l _ (m & Hm & IH) Ha]; [by exists 0%nat|]. destruct (f a) eqn:Ea.
  1,2: exists (S m); split; [cbn; lia|]; intros [|i] x Hx; cbn in Hx;
       [injection Hx as ->; rewrite Ea; split; [done|lia]|rewrite <- (IH i x Hx); lia].
  exists 0%nat. split; [lia|]. intros i x Hx. split; [lia|]. intros Hg. destruct Hg.
  destruct i as [|i]; cbn in Hx; [by injection Hx as <-|]. rewrite Forall_forall in Ha.
  apply list_elem_of_lookup_2 in Hx. by apply (Ha _ Hx).
Qed.

Lemma binary_search_found l : monotone_probe l ->
  (exists i, binary_search_by f l = inl i) <-> exists x, x ∈ l /\ f x = Eq.
Proof.
  intros Hl. split.
  - intros [i Hi]. unfold binary_search_by in Hi. destruct l as [|y l]; [done|]. cbv zeta in Hi.
    destruct ((y :: l) !! _) as [x|] eqn:Ex; cbn in Hi; [|done]. destruct (f x) eqn:Ef; try done.
    exists x. split; [by eapply list_elem_of_lookup_2|done].
  - intros (x & (i & Hi)%list_elem_of_lookup & Hx). destruct (monotone_threshold l Hl) as (m & Hm & Ht).
    pose proof (proj2 (Ht i x Hi) ltac:(by rewrite Hx)) as Him. pose proof (lookup_lt_Some _ _ _ Hi) as Hil.
    destruct (binary_search_loop_spec f l m (length l) 0 (length l)) as (H1 & H2 & H3); [done|lia..|].
    assert (Hb : binary_search_loop f l (length l) 0 (length l) = (m - 1)%nat) by lia.
    destruct (lookup_lt_is_Some_2 l (m - 1)) as [y Hy]; [lia|].
    assert (Hfy : f y = Eq).
    { destruct (decide (i = m - 1)%nat) as [->|Hne]; [congruence|].
      pose proof (proj1 (Ht _ _ Hy) ltac:(lia)) as Hng.
      destruct (StronglySorted_lookup _ _ _ _ _ _ Hl Hi Hy ltac:(lia)) as [_ Hnl]. specialize (Hnl Hx).
      by destruct (f y). }
    exists (m - 1)%nat. unfold binary_search_by. destruct l as [|z l]; [done|]. cbv zeta. rewrite Hb, Hy. cbn. by rewrite Hfy.
Qed.
End Found.

Definition scopes_sorted (s : Scopes) : Prop :=
  StronglySorted text_leb (harnesses s) /\ Forall (Forall is_scalar) (harnesses s).

Lemma lex_lt_le_trans a b c : lex_compare a b = Lt -> lex_leb b c = true -> lex_compare a c = Lt.
Proof.
  unfold lex_leb. intros Hab. destruct (lex_compare b c) eqn:E; [|intros _|done].
  - apply lex_compare_eq in E as <-. done.
  - by eapply lex_compare_trans.
Qed.

(** A sorted list is probed monotonically. *)
Lemma harness_probe_monotone l h : StronglySorted text_leb l ->
  monotone_probe (fun x => lex_compare (as_bytes x) (as_bytes h)) l.
Proof.
  induction 1 as [|a l _ IH Ha]; constructor; [done|]. eapply Forall_impl; [exact Ha|]. intros b Hab%Is_true_eq_true.
  unfold text_leb in Hab. split; intros E.
  - rewrite lex_compare_antisym in E. rewrite lex_compare_antisym.
    destruct (lex_compare (as_bytes h) (as_bytes a)) eqn:E1; try done. by rewrite (lex_lt_le_trans _ _ _ E1 Hab).
  - apply lex_compare_eq in E. rewrite E in Hab. intros El. rewrite lex_compare_antisym in El.
    unfold lex_leb in Hab. by destruct (lex_compare (as_bytes h) (as_bytes b)).
Qed.

Lemma contains_harness_spec s h : scopes_sorted s -> Forall is_scalar h ->
  contains_harness s h = true <-> h ∈ harnesses s.
Proof.
  intros [Hs Hsc] Hh. pose proof (binary_search_found _ _ (harness_probe_monotone _ h Hs)) as Hb.
  unfold contains_harness. rewrite Forall_forall in Hsc. split.
  - destruct (binary_search_by _ _) as [i|i]; [|done]. intros _.
    destruct (proj1 Hb ltac:(by exists i)) as (x & Hx & E%lex_compare_eq).
    apply as_bytes_inj in E; [by subst|by apply Hsc|done].
  - intros Hin. destruct (proj2 Hb) as [i ->]; [|done]. exists h. by rewrite lex_compare_refl.
Qed.

Lemma contains_operation_spec s op : contains_operation s op = true <-> op ∈ operations s.
Proof. unfold contains_operation. by rewrite bool_decide_eq_true. Qed.

(** * The admitted half *)

Lemma find_entry {A} (m : gmap Z A) (k : Z) (P Q : A -> bool) :
  (snd <$> List.find (fun e => (e.1 =? k) && P e.2 && Q e.2) (entries m)) =
  match m !! k with Some a => if P a && Q a then Some a else None | None => None end.
Proof.
  assert (Hin : forall e a, In (e, a) (entries m) <-> m !! e = Some a).
  { intros e a. unfold entries. rewrite <- list_elem_of_In, elem_of_sort_by. apply elem_of_map_to_list. }
  destruct (List.find _ _) as [[e a]|] eqn:Ef.
  - apply find_some in Ef as [Hi%Hin [[He%Z.eqb_eq Hp]%andb_true_iff Hq]%andb_true_iff].
    cbn in *. subst e. by rewrite Hi, Hp, Hq.
  - cbn. destruct (m !! k) as [a|] eqn:Ek; [|done]. apply Hin in Ek.
    pose proof (find_none _ _ Ef _ Ek) as Hn. cbn in Hn. rewrite Z.eqb_refl in Hn. cbn in Hn. by rewrite Hn.
Qed.

(** Which half an attempt is checked against. *)
Inductive half_of (l : LinkedUploader) (a : AttemptAuthorization) : list Z -> Prop :=
| half_current : auth_uploader_key_id a = ptr_key_id (pointer (linked_view l)) -> half_of l a (linked_public_key l)
| half_previous r : auth_uploader_key_id a <> ptr_key_id (pointer (linked_view l)) ->
    rotations (linked_view l) !! ptr_epoch (pointer (linked_view l)) = Some r ->
    window_covers r (auth_timestamp a) = true -> auth_uploader_key_id a = rot_previous_key_id r ->
    half_of l a (rot_previous_public_key r).

Lemma admitted_half_iff l a half : admitted_half l a = Some half <-> half_of l a half.
Proof.
  unfold admitted_half. cbv zeta. case_bool_decide as Hk.
  - split; [intros [= <-]; by constructor|]. intros Hh. inversion Hh; [done|congruence].
  - pose proof (find_entry (rotations (linked_view l)) (ptr_epoch (pointer (linked_view l)))
      (fun r => window_covers r (auth_timestamp a))
      (fun r => bool_decide (rot_previous_key_id r = auth_uploader_key_id a))) as Hf.
    cbv beta in Hf. destruct (List.find _ _) as [[e r]|]; cbn in Hf;
      destruct (rotations _ !! _) as [r'|] eqn:Er; try done.
    + destruct (window_covers r' _) eqn:Ew; [|done]. case_bool_decide as Hp; [|done]. injection Hf as ->.
      split; [intros [= <-]; by eapply half_previous|]. intros Hh. inversion Hh; congruence.
    + split; [done|]. intros Hh. inversion Hh as [|r'' ? Hr Hw Hp]; [congruence|]. rewrite Er in Hr. injection Hr as <-.
      rewrite Hw, bool_decide_true in Hf by done. done.
    + split; [done|]. intros Hh. inversion Hh; congruence.
Qed.

(** The view's acceptance leaves a half to check. *)
Lemma accepted_half l a attempt : attempt = mkAttempt (att_client_id attempt) (auth_epoch a) (auth_uploader_key_id a) ->
  evaluate_at (linked_view l) attempt (auth_timestamp a) = Ok tt -> exists half, half_of l a half.
Proof.
  intros -> Hok%evaluate_at_exact. inversion Hok; cbn in *; [eexists; by constructor|].
  eexists. by eapply half_previous.
Qed.

(** * Delegation *)

Lemma authorize_exact d x s origin : authorize d x s = Ok origin <->
  origin = origin_client_id d /\ attempt_tenant x = del_tenant_id d /\ attempt_relay x = relay_client_id d /\
  attempt_origin x = origin_client_id d /\ del_state d = Active /\
  contains_harness (del_scopes d) (attempt_harness x) = true /\ contains_harness s (attempt_harness x) = true /\
  contains_operation (del_scopes d) (attempt_operation x) = true /\ contains_operation s (attempt_operation x) = true.
Proof.
  unfold authorize. repeat (case_bool_decide; cbn [negb]; [|naive_solver]).
  case_bool_decide as Hw; [split; [done|intros (_ & _ & _ & _ & Ha & _); congruence]|].
  assert (Ha : del_state d = Active) by (by destruct (del_state d)).
  destruct (contains_harness (del_scopes d) _), (contains_harness s _), (contains_operation (del_scopes d) _),
    (contains_operation s _); cbn; naive_solver.
Qed.

(** * The decision *)

Lemma epoch_seconds_instant stamp : epoch_seconds stamp = (utc_instant stamp).1.
Proof. reflexivity. Qed.

(** Whom the attempt is attributed to. *)
Inductive anchored (p : PresentedRequest) (l : LinkedUploader) (delegation : option DelegationRecord) : list Z -> Prop :=
| anchored_direct : pres_origin p = pres_uploader p -> anchored p l delegation (pres_uploader p)
| anchored_relay d : pres_origin p <> pres_uploader p -> delegation = Some d ->
    del_tenant_id d = pres_tenant_id p -> relay_client_id d = pres_uploader p -> origin_client_id d = pres_origin p ->
    del_state d = Active -> pres_harness p ∈ harnesses (del_scopes d) -> Ingest ∈ operations (del_scopes d) ->
    anchored p l delegation (pres_origin p).

Record request_admitted `{SignatureScheme} (a : AttemptAuthorization) (p : PresentedRequest) (l : LinkedUploader)
    (delegation : option DelegationRecord) (now anchor : list Z) : Prop := {
  ra_bytes : auth_request_content_digest a = pres_request_content_digest p /\
    auth_envelope_digest a = pres_envelope_digest p /\
    auth_payload_canonical_digest a = pres_payload_canonical_digest p /\
    auth_payload_transport_digest a = pres_payload_transport_digest p;
  ra_fresh : (utc_instant (auth_timestamp a)).1 - 300 <= (utc_instant now).1 <= (utc_instant (auth_timestamp a)).1 + 600;
  ra_tenant : linked_tenant_id l = pres_tenant_id p;
  ra_epoch : 1 <= auth_epoch a;
  ra_trusted : verdict (linked_view l) (mkAttempt (pres_uploader p) (auth_epoch a) (auth_uploader_key_id a))
                 (auth_timestamp a) (Ok tt);
  ra_signed : exists half, half_of l a half /\ verify half (signing_input a) (auth_signature a) = true;
  ra_scopes : pres_harness p ∈ harnesses (linked_scopes l) /\ Ingest ∈ operations (linked_scopes l);
  ra_anchor : anchored p l delegation anchor }.

Section Admission.
Context `{SignatureScheme} (a : AttemptAuthorization) (p : PresentedRequest) (delegation : option DelegationRecord).
Hypothesis harness_scalar : Forall is_scalar (pres_harness p).
Hypothesis delegation_sorted : forall d, delegation = Some d -> scopes_sorted (del_scopes d).

Lemma anchor_exact l anchor : scopes_sorted (linked_scopes l) ->
  pres_harness p ∈ harnesses (linked_scopes l) -> Ingest ∈ operations (linked_scopes l) ->
  (if bool_decide (pres_origin p = pres_uploader p) then Ok (pres_uploader p)
   else
     let! grant := ok_or delegation DelegationMissing in
     map_err DelegationRefused
       (authorize grant
          (mkRelayAttempt (pres_tenant_id p) (pres_uploader p) (pres_origin p) (pres_harness p) Ingest)
          (linked_scopes l))) = Ok anchor <-> anchored p l delegation anchor.
Proof.
  intros Hl Hh Ho. case_bool_decide as Hd.
  - split; [intros [= <-]; by constructor|]. intros Ha. inversion Ha; [done|congruence].
  - split.
    + intros (d & Ed%ok_or_Ok & Hz%map_err_Ok)%rbind_Ok. pose proof (delegation_sorted _ Ed) as Hs.
      apply authorize_exact in Hz as (-> & Ht & Hr & Hor & Hst & Hc & _ & Hop & _). cbn in *.
      apply contains_harness_spec in Hc; [|done..]. apply contains_operation_spec in Hop. rewrite <- Hor.
      by eapply anchored_relay.
    + intros Hz. inversion Hz as [|d _ Ed Ht Hr Hor Hst Hc Hop]; [done|]. subst anchor. rewrite Ed. cbn [ok_or rbind].
      pose proof (delegation_sorted _ Ed) as Hs. apply map_err_Ok, authorize_exact. cbn.
      rewrite !contains_harness_spec, !contains_operation_spec by done. naive_solver.
Qed.

Lemma verify_request_exact linked now z : (forall l, linked = Some l -> scopes_sorted (linked_scopes l)) ->
  verify_request a p linked delegation now = Ok z <->
  exists l anchor, linked = Some l /\ request_admitted a p l delegation now anchor /\
    z = mkAuthorized (pres_uploader p) anchor (auth_uploader_key_id a) (auth_epoch a).
Proof.
  intros Hls. unfold verify_request. cbv zeta. rewrite !epoch_seconds_instant.
  unfold AUTHORIZATION_WINDOW_SECONDS, CLOCK_SKEW_ALLOWANCE_SECONDS.
  destruct (_ || _) eqn:E1.
  { split; [done|]. intros (l & anchor & _ & [(D1 & D2 & D3 & D4) _ _ _ _ _ _ _] & _).
    by rewrite D1, D2, D3, D4, !bool_decide_true in E1. }
  repeat match goal with H : _ || _ = false |- _ => apply orb_false_iff in H as [? ?] end.
  repeat match goal with H : negb _ = false |- _ => apply negb_false_iff, bool_decide_eq_true in H end.
  destruct (Z.ltb_spec (300 + 300) ((utc_instant now).1 - (utc_instant (auth_timestamp a)).1)).
  { split; [done|]. intros (l & anchor & _ & [_ Hf _ _ _ _ _ _] & _). lia. }
  destruct (Z.ltb_spec ((utc_instant now).1 - (utc_instant (auth_timestamp a)).1) (Z.opp 300)).
  { split; [done|]. intros (l & anchor & _ & [_ Hf _ _ _ _ _ _] & _). lia. }
  destruct linked as [l|]; cbn [ok_or rbind]; [|split; [done|naive_solver]]. specialize (Hls l eq_refl).
  split.
  - case_bool_decide as Ht; cbn [negb]; [|done]. unfold AuthorizationAttempt_new.
    destruct (Z.leb_spec 1 (auth_epoch a)); cbn [ok_or rbind]; [|done].
    intros ([] & Hev%map_err_Ok & Hz)%rbind_Ok. destruct (admitted_half l a) as [half|] eqn:Eh; [|done].
    destruct (verify half _ _) eqn:Ev; cbn [negb] in Hz; [|done].
    destruct (contains_harness _ _) eqn:Ec; cbn in Hz; [|done].
    destruct (contains_operation _ _) eqn:Eo; cbn [negb orb] in Hz; [|done].
    apply contains_harness_spec in Ec; [|done..]. apply contains_operation_spec in Eo.
    apply rbind_Ok in Hz as (anchor & Ha%anchor_exact & Hz); [|done..]. injection Hz as <-.
    exists l, anchor. split; [done|]. split; [|done]. apply admitted_half_iff in Eh. apply evaluate_at_exact in Hev.
    constructor; [done|lia|done..|by exists half|done|done].
  - intros (l' & anchor & [= <-] & [_ _ Ht He Htr (half & Hh & Hv) [Hc Ho] Ha] & ->).
    rewrite bool_decide_true by done. cbn [negb]. unfold AuthorizationAttempt_new.
    rewrite (proj2 (Z.leb_le _ _)) by done. cbn [ok_or rbind].
    apply evaluate_at_exact in Htr. rewrite Htr. cbn [map_err rbind].
    apply admitted_half_iff in Hh. rewrite Hh, Hv. cbn [negb].
    apply (anchor_exact l anchor Hls Hc Ho) in Ha. rewrite Ha.
    apply contains_harness_spec in Hc; [|done..]. apply contains_operation_spec in Ho. by rewrite Hc, Ho.
Qed.
End Admission.

(** * The attempt record *)

#[export] Program Instance signature_wire : WireType Ed25519Signature_parse :=
  {| wire_text := to_hex; wire_ok raw := Forall is_byte raw /\ length raw = 64%nat |}.
Next Obligation.
  intros t s Ht. split; [intros (-> & ? & ?)%signature_parse_sound; done|]. intros [[? ?] ->]. by apply signature_to_hex.
Qed.
Next Obligation.
  intros raw [Hb _]. simpl. unfold to_hex. eapply Forall_impl; [by apply encode_hex_ascii|].
  intros c ?. unfold is_scalar. cbn in *. lia.
Qed.

#[export] Instance ContentType_wire : WireType ContentType_parse := text_wire _.

Definition attempt_fields (a : AttemptAuthorization) : list (list Z * option Value) :=
  [text_field "http_method" HTTP_METHOD; text_field "route" ROUTE; text_field "content_type" (auth_content_type a);
   text_field "request_content_digest" (to_hex (auth_request_content_digest a));
   text_field "envelope_digest" (to_hex (auth_envelope_digest a));
   text_field "payload_canonical_digest" (to_hex (auth_payload_canonical_digest a));
   text_field "payload_transport_digest" (to_hex (auth_payload_transport_digest a));
   text_field "uploader_key_id" (to_hex (auth_uploader_key_id a)); int_field "authorization_epoch" (auth_epoch a);
   text_field "authorization_timestamp" (auth_timestamp a); text_field "signature_algorithm" (lit "ed25519");
   text_field "signature" (to_hex (auth_signature a))].

Record attempt_ok (a : AttemptAuthorization) : Prop := {
  ao_content : wire_ok ContentType_parse (auth_content_type a);
  ao_request : wire_ok digest_parse (auth_request_content_digest a);
  ao_envelope : wire_ok digest_parse (auth_envelope_digest a);
  ao_canonical : wire_ok digest_parse (auth_payload_canonical_digest a);
  ao_transport : wire_ok digest_parse (auth_payload_transport_digest a);
  ao_key : wire_ok digest_parse (auth_uploader_key_id a);
  ao_epoch : 1 <= auth_epoch a <= I64_MAX;
  ao_timestamp : wire_ok Timestamp_parse (auth_timestamp a);
  ao_calendar : calendar_valid (auth_timestamp a) = true;
  ao_signature : wire_ok Ed25519Signature_parse (auth_signature a) }.

Lemma algorithm_member o :
  bool_decide (match text_member o (lit "signature_algorithm") with
    | Some t => match enum_parse (E := SignatureAlgorithm) t with Ok a => Some a | _ => None end
    | None => None end = Some Ed25519) = true <->
  object_get o (lit "signature_algorithm") = Some (VText (lit "ed25519")).
Proof.
  rewrite bool_decide_eq_true, <- text_member_Some. destruct (text_member _ _) as [t|]; [|done]. split.
  - destruct (enum_parse t) as [x| |] eqn:Ep; try done. apply enum_parse_iff in Ep. destruct x. by rewrite Ep.
  - intros [= ->]. done.
Qed.

Lemma attempt_exact v a : wf_value v -> AttemptAuthorization_parse v = Ok a <->
  attempt_ok a /\ v = VObject (set_members (attempt_fields a) []).
Proof.
  intros Hv. split.
  - unfold AttemptAuthorization_parse. destruct v as [| | | | |o]; try done. intros Hp. cbv zeta in Hp.
    repeat match goal with H : rbind _ _ = Ok _ |- _ => apply rbind_Ok in H as (? & ? & H) end.
    repeat match goal with H : unless (negb (bool_decide (match _ with Some _ => _ | None => _ end = _))) _ = Ok _ |- _ =>
      apply unless_Ok, negb_false_iff, algorithm_member in H end.
    split_record Hv. split; [by split|]. f_equal.
    eapply (closed_table ATTEMPT_MEMBERS); [by apply wf_object_iff|reflexivity
      |by apply (bool_decide_unpack _); vm_compute|done|]. unfold attempt_fields. cbn [auth_content_type
      auth_request_content_digest auth_envelope_digest auth_payload_canonical_digest auth_payload_transport_digest
      auth_uploader_key_id auth_epoch auth_timestamp auth_signature]. closed_lookups.
  - intros [[? ? ? ? ? ? ? ? ? ?] ->].
    assert (Ht : names_table ATTEMPT_MEMBERS (attempt_fields a).*1 = true) by reflexivity.
    assert (Hsome : Forall (fun m => is_Some m.2) (attempt_fields a)) by (repeat (constructor; [by eexists|]); constructor).
    destruct (closed_object _ _ _ eq_refl Ht eq_refl Hsome) as [_ Hg].
    pose proof (fun E (e : E) => closed_members _ _ _ eq_refl Ht eq_refl Hsome e) as Hm.
    remember (set_members (attempt_fields a) []) as o eqn:Eo. clear Eo. unfold attempt_fields in Hg.
    known_members Hg. unfold AttemptAuthorization_parse. cbv zeta.
    apply rbind_Ok; eexists; split; [apply Hm|cbv beta].
    apply rbind_Ok; exists tt; split; [apply (unless_Ok _ _ tt); passes|cbv beta].
    apply rbind_Ok; exists tt; split; [by apply (unless_Ok _ _ tt), negb_false_iff, algorithm_member|cbv beta].
    run_record Hv. by destruct a.
Qed.

(** * Evidence assembled from verified records *)

Definition verified_event `{SignatureScheme} (root : PinnedAuthorityRoot) (fetch : Store) (client : list Z)
    (e : ControlEvent) : Prop :=
  match e with
  | RevocationEvent r => exists envelope, RevocationRecord_verify root envelope fetch client (rev_epoch r) = Ok r
  | RotationEvent r => exists envelope, RotationRecord_verify root envelope fetch client (rot_epoch r) = Ok r
  end.

Lemma deliver_all_delivered es v v' : deliver_all v es = Ok v' -> delivered v v'.
Proof.
  revert v. induction es as [|e es IH]; intros v; [intros [= <-]; constructor|].
  intros (v1 & Hd & Hr)%deliver_all_cons. apply (delivered_next _ e). rewrite Hd. by apply IH.
Qed.

Lemma deliver_all_revocation es v v' r : deliver_all v es = Ok v' -> RevocationEvent r ∈ es ->
  revocations v' !! rev_epoch r = Some (revoked_key_id r).
Proof.
  revert v. induction es as [|e es IH]; intros v; [intros _ H; by apply elem_of_nil in H|].
  intros (v1 & Hd & Hr)%deliver_all_cons [<-|Hin]%elem_of_cons; [|by eapply IH].
  apply record_revocation_Ok in Hd as (_ & _ & ->). apply deliver_all_delivered, delivered_extends in Hr as (_ & Hsub & _).
  eapply lookup_weaken; [|exact Hsub]. cbn. by rewrite lookup_insert_eq.
Qed.

Lemma deliver_all_rotation es v v' e r : deliver_all v es = Ok v' -> rotations v' !! e = Some r ->
  rotations v !! e = Some r \/ RotationEvent r ∈ es.
Proof.
  revert v. induction es as [|x es IH]; intros v; [intros [= <-]; by left|].
  intros (v1 & Hd & Hr)%deliver_all_cons Hl. destruct (IH _ Hr Hl) as [Hv1|Hin]; [|right; by right].
  destruct x as [y|y]; cbn in Hd.
  - apply record_revocation_Ok in Hd as (_ & _ & ->). by left.
  - apply record_rotation_Ok in Hd as (_ & _ & ->). cbn in Hv1.
    apply lookup_insert_Some in Hv1 as [[<- <-]|[_ ?]]; [right; left|by left].
Qed.

(** * Theorems *)

(** C22: An attempt is admitted exactly when the bytes received are the ones it signed, it is
    fresh within the window and the skew, its key stands in the uploader's history, the
    signature holds under that key's half, and the scopes and the delegation grant it;
    the attempt is then attributed to the origin. *)
Theorem request_admission_exact `{SignatureScheme} a p linked delegation now z :
  Forall is_scalar (pres_harness p) -> (forall d, delegation = Some d -> scopes_sorted (del_scopes d)) ->
  (forall l, linked = Some l -> scopes_sorted (linked_scopes l)) ->
  verify_request a p linked delegation now = Ok z <->
  exists l anchor, linked = Some l /\ request_admitted a p l delegation now anchor /\
    z = mkAuthorized (pres_uploader p) anchor (auth_uploader_key_id a) (auth_epoch a).
Proof. intros Hh Hd Hl. by apply verify_request_exact. Qed.

(** The attempt record is a closed table: a value parses to an attempt exactly when it
    is that attempt's twelve members, and two attempts never share a wire value. *)
Theorem attempt_record_exact v a : wf_value v -> AttemptAuthorization_parse v = Ok a <->
  attempt_ok a /\ v = VObject (set_members (attempt_fields a) []).
Proof. apply attempt_exact. Qed.

(** C23: An admitted attempt is accountable to the control plane: its signature holds under a
    public half whose key ID the attempt names, at the linked pointer's current epoch, in
    the authority's tenant, and no verified revocation delivered to the view names it. *)
Theorem admitted_request_accountable `{SignatureScheme} root fetch envelope client ptr es v public scopes l
    a p delegation now z :
  LinkedClientPointer_verify root envelope fetch client = Ok ptr ->
  Forall (verified_event root fetch client) es -> deliver_all (View_new ptr) es = Ok v ->
  LinkedUploader_new root v public scopes = Some l ->
  Forall is_scalar (pres_harness p) -> (forall d, delegation = Some d -> scopes_sorted (del_scopes d)) ->
  scopes_sorted scopes -> verify_request a p (Some l) delegation now = Ok z ->
  pres_tenant_id p = root_tenant_id root /\ az_uploader z = client /\ az_epoch z = ptr_epoch ptr /\
  (exists half, KeyId_from_public_key half = az_key_id z /\ verify half (signing_input a) (auth_signature a) = true) /\
  (forall r, RevocationEvent r ∈ es -> revoked_key_id r <> az_key_id z /\ rev_epoch r <> az_epoch z).
Proof.
  intros Hptr Hes Hdel Hnew Hh Hds Hss Hv. unfold LinkedUploader_new in Hnew.
  case_bool_decide as Hkey; cbn [negb] in Hnew; [|done]. injection Hnew as <-.
  pose proof (delivered_extends _ _ (deliver_all_delivered _ _ _ Hdel)) as (Hp & _). cbn in Hp.
  apply pointer_exact in Hptr as (pk & sc & at_ & _ & _ & _ & _ & _ & _ & _ & Hpc & _).
  apply verify_request_exact in Hv as (l & anchor & [= <-] & Had & ->); [|done|done|by intros l [= <-]].
  destruct Had as [_ _ Hten _ Htr (half & Hhalf & Hsig) _ _]. cbn in *.
  assert (Hun : unrevoked v (mkAttempt (pres_uploader p) (auth_epoch a) (auth_uploader_key_id a)))
    by (by inversion Htr).
  assert (He : auth_epoch a = ptr_epoch ptr) by (rewrite <- Hp; by inversion Htr).
  assert (Hc : pres_uploader p = client) by (rewrite <- Hpc, <- Hp; by inversion Htr).
  split_and!; [done..| |].
  - exists half. split; [|done]. inversion Hhalf as [Hk|r Hk Hr Hw Hprev]; cbn in *; [congruence|].
    destruct (deliver_all_rotation _ _ _ _ _ Hdel Hr) as [Hr'|Hin]; [by cbn in Hr'; rewrite lookup_empty in Hr'|].
    rewrite Forall_forall in Hes. destruct (Hes _ Hin) as (env & Hrot). apply rotation_exact in Hrot as [Hok _].
    rewrite (rt_previous_id _ Hok) in Hprev. done.
  - intros r Hin. pose proof (deliver_all_revocation _ _ _ _ Hdel Hin) as Hl. destruct Hun as [Hn Hu]. cbn in *.
    assert (Hle : rev_epoch r <= ptr_epoch ptr).
    { destruct (vo_revocations _ (delivered_ok _ _ (deliver_all_delivered _ _ _ Hdel) (view_ok_new ptr)) _ _ Hl) as [Hle _].
      by rewrite Hp in Hle. }
    split; [by eapply (Hu (rev_epoch r)); [lia|]|]. intros Heq. congruence.
Qed.
