(* ===== verification/AuthWitness.v ===== *)
(** Concrete instances of the theorems on control records, trust views and request
    verification: a signer that satisfies its laws, a tenant, a client and its history. *)

From S2P Require Import Prelude Text Json JsonFacts Sha256 Vocabulary Derivation Records Authority ControlRecord ControlRecordFacts TrustView RequestVerification.

(** * A lawful signer *)

Definition sample_signature (seed message : list Z) : list Z :=
  take 64 (map (fun b => Z.land b 255) (seed ++ message) ++ replicate 64 0).

#[export] Instance sample_signer : Signer :=
  {| sign := sample_signature; public_key_from_seed seed := seed |}.

#[export] Instance sample_scheme : SignatureScheme :=
  fun public message signature => bool_decide (signature = sample_signature public message).

#[export] Instance sample_lawful : LawfulSigner.
Proof.
  split.
  - intros seed message. by apply bool_decide_eq_true.
  - intros seed message. cbn. unfold sample_signature. split.
    + apply Forall_take, Forall_app. split; [|by apply Forall_replicate; unfold is_byte; lia].
      apply Forall_map, Forall_forall. intros b _. unfold is_byte.
      change 255 with (Z.ones 8). rewrite Z.land_ones by lia. pose proof (Z.mod_pos_bound b (2 ^ 8)). lia.
    + rewrite length_take, length_app, length_replicate. lia.
Defined.

(** * A tenant and a client *)

Definition sample_seed : list Z := replicate 32 7.
Definition sample_tenant : list Z := lit "3e5a1c90-8d24-4f67-a1b9-2c7d6e5f4a30".
Definition sample_client : list Z := lit "c7d8e9f0-1a2b-4c3d-9e4f-5a6b7c8d9e0f".
Definition sample_origin : list Z := lit "d1e2f3a4-5b6c-4d7e-8f9a-0b1c2d3e4f5a".
Definition sample_at : list Z := lit "2026-09-13T00:00:00Z".
Definition tenant_root : PinnedAuthorityRoot := Root_new sample_tenant sample_seed.
Definition client_key : list Z := replicate 32 11.
Definition old_key_id : list Z := replicate 32 1.
Definition new_key_id : list Z := replicate 32 2.

Ltac concrete := vm_compute; repeat split; discriminate.

Lemma sample_wires : wire_ok TenantId_parse sample_tenant /\ wire_ok ClientId_parse sample_client /\
  wire_ok Timestamp_parse sample_at /\ wire_ok digest_parse old_key_id /\ wire_ok digest_parse client_key.
Proof.
  split_and!; split; try reflexivity; try scalar_name; unfold old_key_id, client_key;
    apply Forall_replicate; unfold is_byte; lia.
Qed.

(** * The trust view *)

Definition sample_pointer : LinkedClientPointer := mkPointer sample_client 2 new_key_id.
Definition sample_revocation : RevocationRecord := mkRevocation sample_tenant sample_client old_key_id 1 sample_at.
Definition sample_rotation : RotationRecord :=
  mkRotation sample_tenant sample_client 1 old_key_id old_key_id 2 new_key_id new_key_id sample_at.
Definition revoked_view : ClientTrustView := mkView sample_pointer {[ 1 := old_key_id ]} ∅.
Definition rotated_view : ClientTrustView := mkView sample_pointer ∅ {[ 2 := sample_rotation ]}.

(** The old key, revoked at epoch one, is refused at epoch two inside the window of the
    rotation that replaced it. *)
Lemma revocation_permanent_witness :
  record_revocation (View_new sample_pointer) sample_revocation = (revoked_view, Ok tt) /\
  evaluate_at (deliver revoked_view (RotationEvent sample_rotation)).1 (mkAttempt sample_client 2 old_key_id) sample_at
    <> Ok tt.
Proof.
  assert (H : record_revocation (View_new sample_pointer) sample_revocation = (revoked_view, Ok tt)) by reflexivity.
  split; [exact H|]. eapply (revocation_permanent _ _ _ _ _ _ H); [|reflexivity|cbn; lia].
  eapply delivered_next. constructor.
Defined.

(** Without the revocation, the rotation admits the old key for a day, and only so. *)
Lemma deliveries_never_widen_witness :
  evaluate_at rotated_view (mkAttempt sample_client 2 old_key_id) sample_at = Ok tt /\
  evaluate_at (View_new sample_pointer) (mkAttempt sample_client 2 old_key_id) sample_at = Err KeyEpochMismatch /\
  (evaluate_at (View_new sample_pointer) (mkAttempt sample_client 2 old_key_id) sample_at = Ok tt \/
   (rotations (View_new sample_pointer) !! 2 = None /\
    exists r, rotations rotated_view !! 2 = Some r /\ window_covers r sample_at = true /\
      2 = 2 /\ old_key_id = rot_previous_key_id r)).
Proof.
  split; [reflexivity|]. split; [reflexivity|].
  apply (deliveries_never_widen (View_new sample_pointer) rotated_view (mkAttempt sample_client 2 old_key_id) sample_at);
    [|reflexivity]. apply (delivered_next _ (RotationEvent sample_rotation)). constructor.
Defined.

Lemma deliveries_commute_witness :
  deliver_all (View_new sample_pointer) [RotationEvent sample_rotation; RevocationEvent sample_revocation] =
    Ok (mkView sample_pointer {[ 1 := old_key_id ]} {[ 2 := sample_rotation ]}).
Proof.
  apply (deliveries_commute _ [RevocationEvent sample_revocation; RotationEvent sample_rotation]); [|reflexivity].
  constructor.
Defined.

(** * One attempt *)

Definition sample_scopes : Scopes := mkScopes [lit "claude-code"] [Ingest].
Definition client_view : ClientTrustView := View_new (mkPointer sample_client 2 new_key_id).
Definition sample_linked : LinkedUploader := mkLinked sample_tenant client_view client_key sample_scopes.

Definition unsigned_attempt (key signature : list Z) (epoch : Z) : AttemptAuthorization :=
  mkAuthorization (lit "multipart/related; boundary=archivist-conformance-01") (replicate 32 0xa1) (replicate 32 0xb2)
    (replicate 32 0xc3) (replicate 32 0xd4) key epoch (lit "2026-09-13T12:00:00Z") signature.

Definition sample_attempt (key : list Z) (epoch : Z) : AttemptAuthorization :=
  unsigned_attempt key (sample_signature client_key (signing_input (unsigned_attempt key [] epoch))) epoch.

Definition sample_presented : PresentedRequest :=
  mkPresented sample_tenant sample_client sample_origin (lit "claude-code") (replicate 32 0xa1) (replicate 32 0xb2)
    (replicate 32 0xc3) (replicate 32 0xd4).

Definition sample_grant : DelegationRecord :=
  mkDelegation sample_tenant sample_client sample_origin Active sample_scopes 1 sample_at.

Lemma sample_scopes_sorted : scopes_sorted sample_scopes.
Proof. split; repeat constructor; lia. Qed.

Definition sample_now : list Z := lit "2026-09-13T12:10:00Z".
Definition sample_authorized : AuthorizedAttempt := mkAuthorized sample_client sample_origin new_key_id 2.

(** A relay's attempt at the very edge of the window is admitted for its origin. *)
Lemma request_admission_exact_witness :
  verify_request (sample_attempt new_key_id 2) sample_presented (Some sample_linked) (Some sample_grant) sample_now =
    Ok sample_authorized /\
  exists l anchor, Some sample_linked = Some l /\
    request_admitted (sample_attempt new_key_id 2) sample_presented l (Some sample_grant) sample_now anchor /\
    sample_authorized = mkAuthorized sample_client anchor new_key_id 2.
Proof.
  assert (H : verify_request (sample_attempt new_key_id 2) sample_presented (Some sample_linked) (Some sample_grant)
    sample_now = Ok sample_authorized) by (vm_compute; reflexivity).
  split; [exact H|]. apply (request_admission_exact _ sample_presented _ _ sample_now) in H; [exact H|scalar_name|..].
  - intros d [= <-]. apply sample_scopes_sorted.
  - intros l [= <-]. apply sample_scopes_sorted.
Defined.

Lemma sample_attempt_wf key epoch : attempt_ok (sample_attempt key epoch) ->
  wf_value (VObject (set_members (attempt_fields (sample_attempt key epoch)) [])).
Proof.
  generalize (sample_attempt key epoch). intros a [? ? ? ? ? ? ? ? ? ?].
  apply (closed_storable ATTEMPT_MEMBERS); [reflexivity|]. unfold attempt_fields. storable_members.
  1,2: apply storable_text; scalar_name.
Qed.

Lemma attempt_record_exact_witness :
  AttemptAuthorization_parse (VObject (set_members (attempt_fields (sample_attempt new_key_id 2)) [])) =
    Ok (sample_attempt new_key_id 2).
Proof.
  assert (Hok : attempt_ok (sample_attempt new_key_id 2)).
  { assert (Hb : forall c, 0 <= c < 256 -> wire_ok digest_parse (replicate 32 c)).
    { intros c Hc. split; [|reflexivity]. by apply Forall_replicate. }
    split; try (apply Hb; lia); try (split; [reflexivity|scalar_name]); try reflexivity.
    - cbn. unfold I64_MAX. lia.
    - exact (signature_bytes client_key (signing_input (unsigned_attempt new_key_id [] 2))). }
  apply (attempt_record_exact (VObject (set_members (attempt_fields (sample_attempt new_key_id 2)) [])));
    [by apply sample_attempt_wf|by split].
Defined.

(** * Published records *)

Definition authority_id : list Z := Eval vm_compute in KeyId_from_public_key sample_seed.
Definition client_key_id : list Z := Eval vm_compute in KeyId_from_public_key client_key.

Lemma authority_id_eq : KeyId_from_public_key sample_seed = authority_id.
Proof. vm_compute. reflexivity. Qed.

Lemma client_key_id_eq : KeyId_from_public_key client_key = client_key_id.
Proof. vm_compute. reflexivity. Qed.

Definition published_root : PinnedAuthorityRoot := mkRoot sample_tenant sample_seed authority_id.

Lemma sample_stands : signer_stands published_root ∅ sample_seed sample_at.
Proof.
  unfold signer_stands. unfold authority_key_id_of. cbn [public_key_from_seed sample_signer].
  rewrite authority_id_eq. eexists. split; [vm_compute; reflexivity|reflexivity].
Qed.

(** The revocation of the client's first key, as the authority publishes it. *)
Definition revocation_publication : Publication :=
  mkPublication
    (signed_envelope sample_seed (revocation_fields sample_tenant sample_client old_key_id 1 sample_at authority_id))
    (revocation_object_key sample_tenant sample_client 1).

Lemma revocation_publication_eq :
  publish_revocation sample_seed sample_tenant sample_client 1 old_key_id sample_pointer sample_at =
    Ok revocation_publication.
Proof.
  unfold revocation_publication. rewrite <- authority_id_eq. reflexivity.
Qed.

Lemma publications_verify_witness :
  RevocationRecord_verify published_root (pub_envelope revocation_publication) ∅ sample_client 1 =
    Ok (mkRevocation sample_tenant sample_client old_key_id 1 sample_at).
Proof.
  destruct sample_wires as (Ht & Hc & Ha & Ho & _).
  apply (publications_verify published_root ∅ sample_seed sample_at revocation_publication sample_stands Ht Ha
    ltac:(vm_compute; discriminate)) with (pointer := sample_pointer); [exact Hc|exact Ho|lia|exact revocation_publication_eq].
Defined.

(** * A link request, approved *)

Definition sample_request : LinkRequest :=
  mkLinkRequest (mkIdentity sample_client Ed25519 client_key client_key_id) sample_tenant sample_scopes.

Definition sample_draft : ValidatedDraft :=
  mkDraft sample_client client_key client_key_id (scopes_object sample_scopes).

Lemma sample_validated : validated_draft published_root (LinkRequest_canonical_bytes sample_request) = Ok sample_draft.
Proof. vm_compute. reflexivity. Qed.

Definition link_publication : Publication :=
  mkPublication
    (signed_envelope sample_seed (linked_client_fields sample_tenant sample_client client_key_id client_key
       (VObject (scopes_object sample_scopes)) 1 sample_at authority_id))
    (client_pointer_object_key sample_tenant sample_client).

Lemma sample_approved :
  approve_link_request sample_seed published_root (LinkRequest_canonical_bytes sample_request) sample_at ∅ =
    Ok link_publication.
Proof.
  unfold approve_link_request. rewrite sample_validated. cbn [rbind]. cbv zeta.
  cbn [public_key_from_seed sample_signer]. rewrite authority_id_eq. vm_compute. reflexivity.
Qed.

Lemma link_request_linked_witness :
  LinkedClientPointer_verify published_root (pub_envelope link_publication) ∅ sample_client =
    Ok (mkPointer sample_client 1 client_key_id) /\
  pub_object_key link_publication = client_pointer_object_key sample_tenant sample_client.
Proof.
  destruct sample_wires as (Ht & Hc & Ha & _ & Hk).
  apply (link_request_linked published_root ∅ sample_seed [lit "claude-code"] [Ingest] sample_request sample_at
    link_publication).
  - reflexivity.
  - constructor; [split; [reflexivity|scalar_name]|constructor].
  - exact Hc.
  - exact Hk.
  - symmetry. exact client_key_id_eq.
  - exact Ht.
  - reflexivity.
  - vm_compute. discriminate.
  - exact Ha.
  - exact sample_approved.
  - vm_compute. discriminate.
Defined.

(** * From control records to an admitted attempt *)

Lemma sample_pointer_verified :
  LinkedClientPointer_verify published_root (pub_envelope link_publication) ∅ sample_client =
    Ok (mkPointer sample_client 1 client_key_id).
Proof. vm_compute. reflexivity. Qed.

Definition direct_presented : PresentedRequest :=
  mkPresented sample_tenant sample_client sample_client (lit "claude-code") (replicate 32 0xa1) (replicate 32 0xb2)
    (replicate 32 0xc3) (replicate 32 0xd4).

Definition direct_linked : LinkedUploader :=
  mkLinked sample_tenant (View_new (mkPointer sample_client 1 client_key_id)) client_key sample_scopes.

Lemma admitted_request_accountable_witness :
  sample_tenant = root_tenant_id published_root /\ sample_client = sample_client /\ 1 = 1 /\
  (exists half, KeyId_from_public_key half = client_key_id /\
     verify half (signing_input (sample_attempt client_key_id 1)) (auth_signature (sample_attempt client_key_id 1)) = true) /\
  (forall r, RevocationEvent r ∈ [] -> revoked_key_id r <> client_key_id /\ rev_epoch r <> 1).
Proof.
  apply (admitted_request_accountable published_root ∅ (pub_envelope link_publication) sample_client
    (mkPointer sample_client 1 client_key_id) [] (View_new (mkPointer sample_client 1 client_key_id)) client_key
    sample_scopes direct_linked (sample_attempt client_key_id 1) direct_presented None sample_now
    (mkAuthorized sample_client sample_client client_key_id 1)).
  - exact sample_pointer_verified.
  - constructor.
  - reflexivity.
  - unfold LinkedUploader_new. rewrite client_key_id_eq. reflexivity.
  - scalar_name.
  - discriminate.
  - exact sample_scopes_sorted.
  - vm_compute. reflexivity.
Defined.
