(* ===== verification/FrozenInventory.v ===== *)
(** The frozen inventory ([crates/archivist-storage/src/audit_restore.rs], with the
    observations of [metadata.rs]): the pages of an enumeration, folded into one
    canonical, digested list of the stored objects. *)

From stdpp Require Import gmap.
From S2P Require Import Prelude Text Sha256 Vocabulary Derivation ObjectKey Store.

Open Scope Z_scope.

(** * Observations *)

Definition printable (text : list Z) : bool := forallb (fun b => in_range 0x21 b 0x7e) (as_bytes text).

Definition bounded_token (bound : nat) (text : list Z) : bool :=
  negb (length (as_bytes text) =? 0)%nat && (length (as_bytes text) <=? bound)%nat && printable text.

Definition ObjectTag_parse := text_parse (bounded_token 128).
Definition StorageVersionId_parse := text_parse (bounded_token 1024).
Definition ContinuationToken_parse := text_parse (bounded_token 1024).

(** [text.contains("//")]. *)
Fixpoint double_slash (text : list Z) : bool :=
  match text with
  | a :: (b :: _) as rest => ((a =? SLASH) && (b =? SLASH)) || double_slash rest
  | _ => false
  end.

Definition InventoryKey_parse (text : list Z) : result GrammarError (list Z) :=
  if (length (as_bytes text) =? 0)%nat || (1024 <? length (as_bytes text))%nat then Err NotCanonical
  else if negb (printable text) then Err NotCanonical
  else if starts_with text [SLASH] || ends_with text [SLASH] || double_slash text then Err NotCanonical
  else if existsb (fun s => bool_decide (s = lit ".") || bool_decide (s = lit "..")) (split_slash text)
  then Err NotCanonical
  else Ok text.

Record Observation := mkObservation
  { etag : option (list Z); storage_version : option (list Z); observed_at : list Z }.

Record InventoryEntry := mkInventoryEntry { entry_key : list Z; entry_size : Z; entry_observation : Observation }.

Record ObjectMetadata := mkMetadata { meta_size : Z; meta_observation : Observation }.

Record InventoryPage := mkPage { page_entries : list InventoryEntry; next : option (list Z) }.

(** * Scopes *)

Inductive InventoryScope :=
| TenantRaw (tenant : list Z) | TenantControl (tenant : list Z) | TenantCatalog (tenant : list Z)
| TenantDerived (tenant : list Z).

Definition prefix (scope : InventoryScope) : list Z :=
  match scope with
  | TenantRaw tenant => lit "tenants/" ++ tenant ++ lit "/v1/raw/"
  | TenantControl tenant => lit "tenants/" ++ tenant ++ lit "/v1/control/"
  | TenantCatalog tenant => lit "tenants/" ++ tenant ++ lit "/v1/catalog/"
  | TenantDerived tenant => lit "tenants/" ++ tenant ++ lit "/v1/derived/"
  end.

(** * Freezing *)

Record FrozenInventory := mkFrozen
  { scope : InventoryScope; entries : list InventoryEntry; inventory_digest : list Z }.

Definition MAX_FREEZE_PAGES : Z := 1048576.

(** [StorageError::of_kind(StorageErrorKind::InventoryFault)]. *)
Definition inventory_fault : StorageError := mkStorageError InventoryFault (lit "inventory freeze contract violated").

(** The [for entry in page.entries] loop. *)
Fixpoint freeze_entries (prefix : list Z) (page : list InventoryEntry) (seen_keys : gset (list Z))
    (acc : list InventoryEntry) : stored (gset (list Z) * list InventoryEntry) :=
  match page with
  | [] => Done (seen_keys, acc)
  | entry :: page =>
      if negb (starts_with (entry_key entry) prefix) then Fail inventory_fault
      else if bool_decide (entry_key entry ∈ seen_keys) then Fail inventory_fault
      else freeze_entries prefix page ({[ entry_key entry ]} ∪ seen_keys) (acc ++ [entry])
  end.

(** The [for page in pages] loop: the entries, and whether the pages ended. *)
Fixpoint freeze_pages (prefix : list Z) (pages : list (stored InventoryPage)) (seen_tokens : list (list Z))
    (seen_keys : gset (list Z)) (acc : list InventoryEntry) (exhausted : bool) : stored (list InventoryEntry * bool) :=
  match pages with
  | [] => Done (acc, exhausted)
  | page :: pages =>
      if exhausted then Fail inventory_fault
      else
        match page with
        | Fail _ => Fail inventory_fault
        | Done page =>
            let continue seen_tokens exhausted :=
              match freeze_entries prefix (page_entries page) seen_keys acc with
              | Fail e => Fail e
              | Done (seen_keys, acc) => freeze_pages prefix pages seen_tokens seen_keys acc exhausted
              end in
            match next page with
            | Some token =>
                if bool_decide (token ∈ seen_tokens) then Fail inventory_fault
                else continue (seen_tokens ++ [token]) exhausted
            | None => continue seen_tokens true
            end
        end
  end.

(** [a.key().as_str().as_bytes().cmp(..)]. *)
Definition entry_leb (a b : InventoryEntry) : bool := text_leb (entry_key a) (entry_key b).

Definition push_entry (frame : FrameBuilder) (entry : InventoryEntry) : FrameBuilder :=
  let frame := FrameBuilder_push_text frame (entry_key entry) in
  let frame := FrameBuilder_push_u63 frame (entry_size entry) in
  let frame := FrameBuilder_push_text frame (default [] (etag (entry_observation entry))) in
  let frame := FrameBuilder_push_text frame (default [] (storage_version (entry_observation entry))) in
  FrameBuilder_push_text frame (observed_at (entry_observation entry)).

Definition compute_digest (scope : InventoryScope) (es : list InventoryEntry) : list Z :=
  let frame := FrameBuilder_new (lit "inventory-v1") in
  let frame := FrameBuilder_push_text frame (prefix scope) in
  let frame := FrameBuilder_push_u63 frame (zlen es) in
  FrameBuilder_finish (fold_left push_entry es frame).

Definition from_pages (scope : InventoryScope) (pages : list (stored InventoryPage)) : stored FrozenInventory :=
  if MAX_FREEZE_PAGES <? zlen pages then Fail inventory_fault
  else
    match freeze_pages (prefix scope) pages [] ∅ [] false with
    | Fail e => Fail e
    | Done (_, false) => Fail inventory_fault
    | Done (es, true) =>
        let es := sort_by entry_leb es in
        Done (mkFrozen scope es (compute_digest scope es))
    end.

(** * What a freeze accepts *)

Lemma freeze_entries_Done p page seen acc seen' acc' : freeze_entries p page seen acc = Done (seen', acc') <->
  Forall (fun e => starts_with (entry_key e) p = true) page /\ NoDup (map entry_key page) /\
  (forall k, k ∈ map entry_key page -> k ∉ seen) /\
  seen' = list_to_set (map entry_key page) ∪ seen /\ acc' = acc ++ page.
Proof.
  revert seen acc. induction page as [|e page IH]; intros seen acc; cbn [freeze_entries map].
  - rewrite app_nil_r. split.
    + intros [= <- <-]. split_and!; [constructor|constructor|set_solver|set_solver|done].
    + intros (_ & _ & _ & -> & ->). do 2 f_equal. set_solver.
  - rewrite Forall_cons, NoDup_cons. destruct (starts_with (entry_key e) p) eqn:Ep; cbn [negb]; [|naive_solver].
    case_bool_decide as Hin.
    + split; [done|]. intros (_ & _ & Hd & _). destruct (Hd (entry_key e)); [left|done].
    + rewrite IH, <- (app_assoc acc [e] page). split.
      * intros (Hf & Hnd & Hd & -> & ->). split_and!; [done|done| |done| |set_solver|done].
        -- intros Hk. destruct (Hd _ Hk). set_solver.
        -- intros k [->|Hk]%elem_of_cons; [done|]. specialize (Hd k Hk). set_solver.
      * intros ([_ Hf] & [Hni Hnd] & Hd & -> & ->). split_and!; [done|done| |set_solver|done].
        intros k Hk Hs. apply elem_of_union in Hs as [->%elem_of_singleton|Hs]; [done|].
        apply (Hd k); [by right|done].
Qed.

(** A sequence of pages that reaches exhaustion: distinct continuation tokens, then none. *)
Definition exhausts (pages : list InventoryPage) (tokens : list (list Z)) : Prop :=
  exists init last, pages = init ++ [last] /\ map next init = map Some tokens /\ next last = None /\ NoDup tokens.

Definition all_entries (pages : list InventoryPage) : list InventoryEntry := flat_map page_entries pages.

Lemma exhausts_cons page pages tokens : exhausts (page :: pages) tokens <->
  (next page = None /\ pages = [] /\ tokens = []) \/
  (exists token tokens', next page = Some token /\ tokens = token :: tokens' /\ token ∉ tokens' /\ exhausts pages tokens').
Proof.
  unfold exhausts. split.
  - intros (init & last & Hp & Hn & Hl & Hnd). destruct init as [|i init]; cbn in Hp; injection Hp as -> ->.
    + left. by destruct tokens.
    + right. destruct tokens as [|t tokens]; [done|]. cbn in Hn. injection Hn as Hn1 Hn2. apply NoDup_cons in Hnd as [? ?].
      exists t, tokens. split_and!; [done..|]. by exists init, last.
  - intros [(Hn & -> & ->)|(t & ts & Hn & -> & Hni & init & last & -> & Hm & Hl & Hnd)].
    + exists [], page. split_and!; [done..|constructor].
    + exists (page :: init), last. cbn. rewrite Hn, Hm. split_and!; [done..|by constructor].
Qed.

Lemma freeze_pages_exhausted p raw toks seen acc es : freeze_pages p raw toks seen acc true = Done (es, true) <->
  raw = [] /\ es = acc.
Proof. destruct raw; cbn; naive_solver. Qed.

Lemma freeze_pages_Done p raw toks seen acc es : freeze_pages p raw toks seen acc false = Done (es, true) <->
  exists pages tokens, raw = map Done pages /\ exhausts pages tokens /\ (forall t, t ∈ tokens -> t ∉ toks) /\
    Forall (fun e => starts_with (entry_key e) p = true) (all_entries pages) /\
    NoDup (map entry_key (all_entries pages)) /\
    (forall k, k ∈ map entry_key (all_entries pages) -> k ∉ seen) /\ es = acc ++ all_entries pages.
Proof.
  revert toks seen acc. induction raw as [|x raw IH]; intros toks seen acc.
  { split; [done|]. intros (pages & tokens & Hr & (init & last & -> & _) & _). by destruct init. }
  cbn [freeze_pages]. destruct x as [page|e]; [|split; [done|]; intros (pages & ? & Hr & _); by destruct pages].
  cbv zeta. split.
  - intros Hr. destruct (next page) as [t|] eqn:Hn; [case_bool_decide as Ht; [done|]|];
      (destruct (freeze_entries p (page_entries page) seen acc) as [[seen' acc']|] eqn:Ef; [|done]);
      apply freeze_entries_Done in Ef as (Hf & Hnd & Hd & -> & ->).
    + apply IH in Hr as (pages & tokens & -> & Hex & Htk & Hf' & Hnd' & Hd' & ->).
      exists (page :: pages), (t :: tokens). unfold all_entries in *. cbn [flat_map map].
      rewrite map_app, Forall_app, <- app_assoc. split_and!; [done| | |done|done| | |done].
      * apply exhausts_cons. right. exists t, tokens. split_and!; [done|done| |done].
        intros Hin. apply (Htk t Hin). apply elem_of_app. right. left.
      * intros t' [->|Hin]%elem_of_cons; [done|]. specialize (Htk _ Hin). rewrite elem_of_app in Htk. naive_solver.
      * apply NoDup_app. split_and!; [done| |done]. intros k Hk Hk'. apply (Hd' k Hk'). set_solver.
      * intros k [Hk|Hk]%elem_of_app; [by apply Hd|]. specialize (Hd' k Hk). set_solver.
    + apply freeze_pages_exhausted in Hr as [-> ->]. exists [page], []. unfold all_entries. cbn [flat_map].
      rewrite app_nil_r. split_and!; try done; [|by intros ? ?%elem_of_nil].
      apply exhausts_cons. by left.
  - intros (pages & tokens & Hm & Hex & Htk & Hf & Hnd & Hd & ->).
    destruct pages as [|pg pages]; [done|]. cbn in Hm. injection Hm as <- ->.
    unfold all_entries in *. cbn [flat_map map] in *. rewrite map_app in *.
    apply Forall_app in Hf as [Hf1 Hf2]. apply NoDup_app in Hnd as (Hnd1 & Hx & Hnd2).
    assert (Hfe : freeze_entries p (page_entries page) seen acc =
      Done (list_to_set (map entry_key (page_entries page)) ∪ seen, acc ++ page_entries page)).
    { apply freeze_entries_Done. split_and!; [done..| |done|done]. intros k Hk. apply Hd, elem_of_app. by left. }
    apply exhausts_cons in Hex as [(Hn & -> & ->)|(t & ts & Hn & -> & Hni & Hex)]; rewrite Hn.
    + rewrite Hfe. cbn. by rewrite app_nil_r.
    + rewrite bool_decide_false by (apply Htk; left). rewrite Hfe. apply IH. exists pages, ts.
      split_and!; [done|done| |done|done| |by rewrite <- app_assoc].
      * intros t' Ht'. rewrite elem_of_app. intros [Hin| ->%list_elem_of_singleton]; [|done].
        by apply (Htk t'); [right|].
      * intros k Hk Hs. apply elem_of_union in Hs as [Hs|Hs].
        -- apply elem_of_list_to_set in Hs. by apply (Hx k).
        -- apply (Hd k); [|done]. apply elem_of_app. by right.
Qed.

Lemma from_pages_Done sc raw inv : from_pages sc raw = Done inv <->
  exists pages tokens, raw = map Done pages /\ zlen raw <= MAX_FREEZE_PAGES /\ exhausts pages tokens /\
    Forall (fun e => starts_with (entry_key e) (prefix sc) = true) (all_entries pages) /\
    NoDup (map entry_key (all_entries pages)) /\
    inv = mkFrozen sc (sort_by entry_leb (all_entries pages))
            (compute_digest sc (sort_by entry_leb (all_entries pages))).
Proof.
  unfold from_pages. destruct (Z.ltb_spec MAX_FREEZE_PAGES (zlen raw)).
  { split; [done|]. intros (? & ? & _ & ? & _). lia. }
  split.
  - destruct (freeze_pages _ _ _ _ _ _) as [[es []]|] eqn:Ef; [|done|done]. intros [= <-].
    apply freeze_pages_Done in Ef as (pages & tokens & -> & Hex & _ & Hf & Hnd & _ & ->).
    exists pages, tokens. split_and!; [done..|]. by rewrite app_nil_l.
  - intros (pages & tokens & -> & Hl & Hex & Hf & Hnd & ->).
    rewrite (proj2 (freeze_pages_Done (prefix sc) (map Done pages) [] ∅ [] (all_entries pages))); [done|].
    exists pages, tokens. split_and!; [done..| |done|done|set_solver|done]. intros t _. apply not_elem_of_nil.
Qed.

(** A sorted list of entries with distinct keys is determined by its members. *)
Lemma sorted_entries_unique es es' : Forall (fun e => Forall is_scalar (entry_key e)) es ->
  NoDup (map entry_key es) -> es ≡ₚ es' -> sort_by entry_leb es = sort_by entry_leb es'.
Proof.
  intros Hs Hnd Hp. apply sort_by_unique; [| | |done].
  - intros x y. apply lex_leb_total.
  - intros x y z. apply lex_leb_trans.
  - intros x y Hx Hy Hxy Hyx. rewrite Forall_forall in Hs.
    pose proof (lex_leb_antisym _ _ Hxy Hyx) as Hk. apply as_bytes_inj in Hk; [|by apply Hs..].
    apply list_elem_of_lookup in Hx as [i Hi]. apply list_elem_of_lookup in Hy as [j Hj].
    assert (i = j); [|congruence]. apply (NoDup_lookup (map entry_key es) _ _ (entry_key x) Hnd).
    + by rewrite (list_lookup_fmap entry_key), Hi.
    + rewrite (list_lookup_fmap entry_key), Hj. cbn. by rewrite Hk.
Qed.

(** * Digests *)

Definition entry_fields (e : InventoryEntry) : list Field :=
  [FText (entry_key e); FU63 (entry_size e); FText (default [] (etag (entry_observation e)));
   FText (default [] (storage_version (entry_observation e))); FText (observed_at (entry_observation e))].

Definition inventory_frame (sc : InventoryScope) (es : list InventoryEntry) : list Field :=
  [FText (prefix sc); FU63 (zlen es)] ++ flat_map entry_fields es.

Lemma fold_left_cons {A B} (f : A -> B -> A) x l a : fold_left f (x :: l) a = fold_left f l (f a x).
Proof. reflexivity. Qed.

Lemma push_entry_fields e (b : FrameBuilder) : fold_left push (entry_fields e) b = push_entry b e.
Proof.
  lazy delta [entry_fields push_entry]. lazy beta zeta.
  lazy [fold_left push push_text push_digest32 push_u63 FrameBuilder_framing]. reflexivity.
Qed.

Lemma pushes_entries es (b : FrameBuilder) :
  fold_left push (flat_map entry_fields es) b = fold_left push_entry es b.
Proof.
  revert b. induction es as [|e es IH]; intros b; [done|]. cbn [flat_map]. rewrite fold_left_app, IH, push_entry_fields.
  by rewrite fold_left_cons.
Qed.

Lemma compute_digest_frame sc es : Forall wf_field (inventory_frame sc es) ->
  compute_digest sc es = sha256_spec (frame_bytes (lit "inventory-v1") (inventory_frame sc es)).
Proof.
  intros Hf. etrans; [|exact (FrameBuilder_finish_frame _ _ Hf)].
  unfold inventory_frame, compute_digest. rewrite fold_left_app, pushes_entries.
  lazy [fold_left push push_text push_digest32 push_u63 FrameBuilder_framing]. reflexivity.
Qed.

(** What the types of an entry guarantee. *)
Definition wf_entry (e : InventoryEntry) : Prop :=
  Forall wf_field (entry_fields e) /\ etag (entry_observation e) <> Some [] /\
  storage_version (entry_observation e) <> Some [].

Lemma default_inj (a b : option (list Z)) : a <> Some [] -> b <> Some [] -> default [] a = default [] b -> a = b.
Proof. destruct a, b; cbn; naive_solver. Qed.

Lemma entry_fields_inj e e' : wf_entry e -> wf_entry e' ->
  map content (entry_fields e) = map content (entry_fields e') -> e = e'.
Proof.
  destruct e as [k n [t v o]], e' as [k' n' [t' v' o']]. unfold wf_entry, entry_fields. cbn [entry_key entry_size
    entry_observation etag storage_version observed_at]. rewrite !Forall_cons.
  intros ((W1 & W2 & W3 & W4 & W5 & _) & Ht & Hv) ((W1' & W2' & W3' & W4' & W5' & _) & Ht' & Hv').
  cbn [map]. intros (E1 & (E2 & (E3 & (E4 & (E5 & _)%cons_eq)%cons_eq)%cons_eq)%cons_eq)%cons_eq.
  apply text_content_inj in E1; [|done..]. apply u63_content_inj in E2; [|done..].
  apply text_content_inj in E3; [|done..]. apply text_content_inj in E4; [|done..].
  apply text_content_inj in E5; [|done..]. apply default_inj in E3; [|done..]. apply default_inj in E4; [|done..].
  by subst.
Qed.

Lemma inventory_frame_inj sc sc' es es' : Forall wf_entry es -> Forall wf_entry es' ->
  Forall wf_field (inventory_frame sc es) -> Forall wf_field (inventory_frame sc' es') ->
  map content (inventory_frame sc es) = map content (inventory_frame sc' es') -> prefix sc = prefix sc' /\ es = es'.
Proof.
  intros We We' Wf Wf'. unfold inventory_frame. cbn [app map]. intros (E1 & (_ & E2)%cons_eq)%cons_eq.
  apply Forall_cons in Wf as [W _]. apply Forall_cons in Wf' as [W' _].
  split; [by apply text_content_inj|]. clear W W' E1. revert es' We' E2.
  induction We as [|e es He _ IH]; intros [|e' es'] We'; [done|done|done|].
  apply Forall_cons in We' as [He' We']. cbn [flat_map]. rewrite !map_app. intros E.
  apply app_inj_1 in E as [E1 E2]; [|done]. f_equal; [by apply entry_fields_inj|by apply IH].
Qed.

(** * Theorems *)

(** An inventory is frozen exactly when the pages all arrived and reach exhaustion,
    every key is in scope and no key is listed twice; the inventory is then all the
    entries in the order of their keys' bytes, with their digest. *)
Theorem inventory_freeze_exact sc raw inv : from_pages sc raw = Done inv <->
  exists pages tokens, raw = map Done pages /\ zlen raw <= MAX_FREEZE_PAGES /\ exhausts pages tokens /\
    Forall (fun e => starts_with (entry_key e) (prefix sc) = true) (all_entries pages) /\
    NoDup (map entry_key (all_entries pages)) /\
    inv = mkFrozen sc (sort_by entry_leb (all_entries pages))
            (compute_digest sc (sort_by entry_leb (all_entries pages))).
Proof. apply from_pages_Done. Qed.

(** The frozen inventory is canonical and its digest binds it: two enumerations of the
    same entries, however paged and ordered, freeze to one inventory, and two inventories
    whose digests cover the same bytes have the same entries. *)
Theorem inventory_canonical sc raw raw' inv inv' :
  from_pages sc raw = Done inv -> from_pages sc raw' = Done inv' ->
  Forall wf_entry (entries inv) -> Forall wf_entry (entries inv') ->
  Forall wf_field (inventory_frame sc (entries inv)) -> Forall wf_field (inventory_frame sc (entries inv')) ->
  (inv = inv' <-> entries inv ≡ₚ entries inv') /\
  inventory_digest inv = sha256_spec (frame_bytes (lit "inventory-v1") (inventory_frame sc (entries inv))) /\
  (frame_bytes (lit "inventory-v1") (inventory_frame sc (entries inv)) =
   frame_bytes (lit "inventory-v1") (inventory_frame sc (entries inv')) -> inv = inv').
Proof.
  intros (pages & tokens & _ & _ & _ & _ & Hnd & ->)%from_pages_Done (pages' & tokens' & _ & _ & _ & _ & Hnd' & ->)%from_pages_Done.
  cbn [entries inventory_digest]. intros We We' Wf Wf'. split_and!.
  - split.
    { intros E. apply (f_equal entries) in E. cbn [entries] in E. by rewrite E. }
    intros Hp. pose proof (sort_by_perm entry_leb (all_entries pages)) as P1.
    pose proof (sort_by_perm entry_leb (all_entries pages')) as P2.
    rewrite (sorted_entries_unique (all_entries pages) (all_entries pages')); [reflexivity| |done|].
    + apply Forall_forall. intros e He. apply (elem_of_sort_by entry_leb) in He. rewrite Forall_forall in We.
      destruct (We _ He) as [W _]. apply Forall_cons in W as [[W _] _]. done.
    + by rewrite <- P1, <- P2.
  - by apply compute_digest_frame.
  - intros E. apply frame_injective in E as [_ E]; [|vm_compute; repeat constructor; discriminate..|done|done].
    apply inventory_frame_inj in E as [_ E]; [|done..]. by rewrite E.
Qed.
