(* ===== verification/Collection.v ===== *)
(** Reference-safe blob collection ([crates/archivist-storage/src/collection.rs]):
    two reference scans, the retention view folded over them into a plan, and the
    execution of the plan with its audit journal.

    The deletion identity and the journal are called through [cprog], whose awaited
    calls may answer anything; a [BTreeMap] is a finite map and its iteration the
    sorted list of its entries. *)

From stdpp Require Import gmap.
From S2P Require Import Prelude Text Json Sha256 Vocabulary Derivation ObjectKey Records Authority Store FrozenInventory.

Open Scope Z_scope.

Definition DELETION_GRACE_SECONDS : Z := 30 * 24 * 60 * 60.
Definition MIN_SCAN_SEPARATION_SECONDS : Z := 24 * 60 * 60.
Definition EVIDENCE_SCHEMA : list Z := lit "archivist.collection-evidence/v1".

(** * Decisions, outcomes, errors *)

Inductive DecisionReason :=
| MissingFromFirstScan | MissingFromSecondScan | RetainedReferenceFirstScan | RetainedReferenceSecondScan
| RetainedReferenceOutsideScans | ChangedBetweenScans | UnstableObservation.

Definition reason_token (r : DecisionReason) : list Z :=
  match r with
  | MissingFromFirstScan => lit "missing-from-first-scan"
  | MissingFromSecondScan => lit "missing-from-second-scan"
  | RetainedReferenceFirstScan => lit "retained-reference-first-scan"
  | RetainedReferenceSecondScan => lit "retained-reference-second-scan"
  | RetainedReferenceOutsideScans => lit "retained-reference-outside-scans"
  | ChangedBetweenScans => lit "changed-between-scans"
  | UnstableObservation => lit "unstable-observation"
  end.

Inductive ActionOutcome :=
| WouldDelete | Disabled | DeletePending | ChangedBeforeDelete | UnreadableBeforeDelete | DeleteFailed | Deleted.

#[export] Instance ActionOutcome_eq : EqDecision ActionOutcome.
Proof. solve_decision. Defined.

Definition outcome_token (o : ActionOutcome) : list Z :=
  match o with
  | WouldDelete => lit "would-delete"
  | Disabled => lit "disabled"
  | DeletePending => lit "delete-pending"
  | ChangedBeforeDelete => lit "changed-before-delete"
  | UnreadableBeforeDelete => lit "unreadable-before-delete"
  | DeleteFailed => lit "delete-failed"
  | Deleted => lit "deleted"
  end.

Inductive CollectionErrorKind := InvalidInput | ScanSeparation | TenantMismatch.

Record CollectionError := mkCollectionError { error_kind : CollectionErrorKind; error_detail : list Z }.

Definition invalid_input : CollectionError :=
  mkCollectionError InvalidInput (lit "collection input is malformed or incomplete").
Definition tenant_mismatch : CollectionError :=
  mkCollectionError TenantMismatch (lit "collection scans do not address one tenant").
Definition scan_order : CollectionError :=
  mkCollectionError ScanSeparation (lit "reference scans are not ordered 24 hours apart").
Definition unknown_raw_key : CollectionError :=
  mkCollectionError InvalidInput (lit "reference scan inventory contains an unknown raw key").
Definition reference_absent : CollectionError :=
  mkCollectionError InvalidInput (lit "occurrence reference is absent from its frozen inventory").
Definition duplicate_occurrence : CollectionError :=
  mkCollectionError InvalidInput (lit "reference scan contains a duplicate occurrence").
Definition retention_conflict : CollectionError :=
  mkCollectionError InvalidInput (lit "retention view contains conflicting occurrence references").

(** * Instants *)

Definition checked (lo hi x : Z) : option Z := if (lo <=? x) && (x <=? hi) then Some x else None.
Definition checked_i64 : Z -> option Z := checked I64_MIN I64_MAX.
Definition checked_u32 : Z -> option Z := checked 0 (2 ^ 32 - 1).

Definition days_from_civil (year month day : Z) : Z :=
  let year := year - (if month <=? 2 then 1 else 0) in
  let era := Z.quot (if 0 <=? year then year else year - 399) 400 in
  let year_of_era := year - era * 400 in
  let month_offset := if 2 <? month then -3 else 9 in
  let day_of_year := Z.quot (153 * (month + month_offset) + 2) 5 + day - 1 in
  let day_of_era := year_of_era * 365 + Z.quot year_of_era 4 - Z.quot year_of_era 100 + day_of_year in
  era * 146097 + day_of_era - 719468.

(** [for digit in digits { .. }]. *)
Fixpoint digits_u32 (digits : list Z) (nanoseconds : Z) : option Z :=
  match digits with
  | [] => Some nanoseconds
  | digit :: digits =>
      x ← checked_u32 (nanoseconds * 10); y ← checked_u32 (x + (digit - 48)); digits_u32 digits y
  end.

(** [for _ in digits.len()..9 { .. }]. *)
Fixpoint scale_u32 (n : nat) (nanoseconds : Z) : option Z :=
  match n with
  | O => Some nanoseconds
  | S n => x ← checked_u32 (nanoseconds * 10); scale_u32 n x
  end.

Definition instant (stamp : list Z) : option (Z * Z) :=
  if negb (calendar_valid stamp) then None
  else
    let bytes := as_bytes stamp in
    let year := decimal (slice bytes 0 4) in
    let month := decimal (slice bytes 5 7) in
    let day := decimal (slice bytes 8 10) in
    let hour := decimal (slice bytes 11 13) in
    let minute := decimal (slice bytes 14 16) in
    let second := decimal (slice bytes 17 19) in
    days ← checked_i64 (days_from_civil year month day * 86400);
    hours ← checked_i64 (hour * 3600);
    s1 ← checked_i64 (days + hours);
    minutes ← checked_i64 (minute * 60);
    s2 ← checked_i64 (s1 + minutes);
    seconds ← checked_i64 (s2 + second);
    nanoseconds ←
      (if (20 <? length bytes)%nat then
         let digits := slice bytes 20 (length bytes - 1) in
         n ← digits_u32 digits 0; scale_u32 (9 - length digits) n
       else Some 0);
    Some (seconds, nanoseconds).

(** [a <= b] on [(i64, u32)]. *)
Definition instant_le (a b : Z * Z) : bool := negb (instant_lt b a).

Definition grace_elapsed (anchor at_ : list Z) : bool :=
  match instant anchor with
  | None => false
  | Some (seconds, nanos) =>
      match checked_i64 (seconds + DELETION_GRACE_SECONDS) with
      | None => false
      | Some close => match instant at_ with Some at_ => instant_le (close, nanos) at_ | None => false end
      end
  end.

(** * Retention *)

Record RetentionDecision := mkRetention { tombstone_at : option (list Z); legal_hold : bool }.

#[export] Instance RetentionDecision_eq : EqDecision RetentionDecision.
Proof. solve_decision. Defined.

Definition indefinite : RetentionDecision := mkRetention None false.

Definition RetentionDecision_new (tombstone : option (list Z)) (hold : bool) : result CollectionError RetentionDecision :=
  match tombstone with
  | Some stamp => if negb (calendar_valid stamp) then Err invalid_input else Ok (mkRetention tombstone hold)
  | None => Ok (mkRetention tombstone hold)
  end.

Definition eligible_at (d : RetentionDecision) (at_ : list Z) : bool :=
  match tombstone_at d with
  | None => false
  | Some tombstone => if legal_hold d || negb (calendar_valid at_) then false else grace_elapsed tombstone at_
  end.

Definition is_retained_at (d : RetentionDecision) (at_ : list Z) : bool := negb (eligible_at d at_).

Record OccurrenceReference := mkReference { ref_occurrence : list Z; ref_blob : list Z }.

Record OccurrenceRetention := mkOccurrenceRetention
  { ret_occurrence : list Z; ret_blob : list Z; ret_decision : RetentionDecision }.

#[export] Instance OccurrenceRetention_eq : EqDecision OccurrenceRetention.
Proof. solve_decision. Defined.

(** * Scans *)

(** [map.iter()] of a map keyed by texts. *)
Definition sorted_entries {A} (m : gmap (list Z) A) : list (list Z * A) :=
  sort_by (fun a b => text_leb a.1 b.1) (map_to_list m).

Record ReferenceScan := mkScan
  { tenant : list Z;
    completed_at : list Z;
    scan_digest : list Z;
    blobs : gmap (list Z) InventoryEntry;
    references : gmap (list Z) OccurrenceReference }.

Definition blob_prefix (tenant : list Z) : list Z := lit "tenants/" ++ tenant ++ lit "/v1/raw/blobs/".

(** [for entry in inventory.entries()]. *)
Fixpoint scan_blobs (prefix : list Z) (es : list InventoryEntry) (acc : gmap (list Z) InventoryEntry)
    : result CollectionError (gmap (list Z) InventoryEntry) :=
  match es with
  | [] => Ok acc
  | entry :: es =>
      let key := entry_key entry in
      let known := is_ok (BlobObjectKey_parse key) || is_ok (OccurrenceObjectKey_parse key) ||
                   is_ok (AttestationObjectKey_parse key) in
      if negb known then Err unknown_raw_key
      else
        match BlobObjectKey_parse key with
        | Ok blob =>
            if negb (starts_with blob prefix) then Err tenant_mismatch
            else scan_blobs prefix es (<[blob := entry]> acc)
        | _ => scan_blobs prefix es acc
        end
  end.

(** [for reference in references]. *)
Fixpoint scan_references (prefix : list Z) (blobs : gmap (list Z) InventoryEntry) (rs : list OccurrenceReference)
    (acc : gmap (list Z) OccurrenceReference) : result CollectionError (gmap (list Z) OccurrenceReference) :=
  match rs with
  | [] => Ok acc
  | r :: rs =>
      if negb (starts_with (ref_blob r) prefix) then Err tenant_mismatch
      else if bool_decide (blobs !! ref_blob r = None) then Err reference_absent
      else
        match acc !! ref_occurrence r with
        | Some _ => Err duplicate_occurrence
        | None => scan_references prefix blobs rs (<[ref_occurrence r := r]> acc)
        end
  end.

(** [ReferenceScan::new]. *)
Definition ReferenceScan_new (inventory : FrozenInventory) (completed : list Z) (rs : list OccurrenceReference)
    : result CollectionError ReferenceScan :=
  if negb (calendar_valid completed) then Err invalid_input
  else
    match scope inventory with
    | TenantRaw t =>
        let! bs := scan_blobs (blob_prefix t) (entries inventory) ∅ in
        let! refs := scan_references (blob_prefix t) bs rs ∅ in
        Ok (mkScan t completed (inventory_digest inventory) bs refs)
    | _ => Err invalid_input
    end.

(** [scan.references()]. *)
Definition scan_refs (s : ReferenceScan) : list OccurrenceReference := map snd (sorted_entries (references s)).

(** * The plan *)

Record BlobDecision := mkDecision { decision_key : list Z; reasons : list DecisionReason }.

Definition eligible (d : BlobDecision) : bool := (length (reasons d) =? 0)%nat.

Record CollectionPlan := mkPlan
  { plan_tenant : list Z;
    evaluated_at : list Z;
    first_scan : ReferenceScan;
    second_scan : ReferenceScan;
    decisions : list BlobDecision;
    expected : gmap (list Z) InventoryEntry }.

Definition has_commitment (e : InventoryEntry) : bool :=
  is_some (etag (entry_observation e)) || is_some (storage_version (entry_observation e)).

Definition stable_metadata_equal (l r : InventoryEntry) : bool :=
  (entry_size l =? entry_size r) && bool_decide (etag (entry_observation l) = etag (entry_observation r)) &&
  bool_decide (storage_version (entry_observation l) = storage_version (entry_observation r)).

Definition metadata_matches (e o : ObjectMetadata) : bool :=
  (meta_size e =? meta_size o) && bool_decide (etag (meta_observation e) = etag (meta_observation o)) &&
  bool_decide (storage_version (meta_observation e) = storage_version (meta_observation o)) &&
  (is_some (etag (meta_observation e)) || is_some (storage_version (meta_observation e))).

(** [for item in retention]. *)
Fixpoint fold_retention (prefix : list Z) (items : list OccurrenceRetention) (acc : gmap (list Z) OccurrenceRetention)
    : result CollectionError (gmap (list Z) OccurrenceRetention) :=
  match items with
  | [] => Ok acc
  | item :: items =>
      if negb (starts_with (ret_blob item) prefix) then Err tenant_mismatch
      else
        match acc !! ret_occurrence item with
        | Some existing =>
            if negb (bool_decide (existing = item)) then Err retention_conflict else fold_retention prefix items acc
        | None => fold_retention prefix items (<[ret_occurrence item := item]> acc)
        end
  end.

Section Build.
Variables (retention : gmap (list Z) OccurrenceRetention) (at_ : list Z).

(** [retention.get(occurrence).is_none_or(|item| item.decision().is_retained_at(..))]. *)
Definition retained_occurrence (occurrence : list Z) : bool :=
  match retention !! occurrence with Some item => is_retained_at (ret_decision item) at_ | None => true end.

(** The two loops over the scans' references, and the one over the retention view. *)
Definition retained_blobs (first second : ReferenceScan) : gset (list Z) :=
  let insert_references s (acc : gset (list Z)) :=
    fold_left (fun acc r => if retained_occurrence (ref_occurrence r) then {[ ref_blob r ]} ∪ acc else acc)
      (scan_refs s) acc in
  fold_left (fun acc item => if is_retained_at (ret_decision item) at_ then {[ ret_blob item ]} ∪ acc else acc)
    (map snd (sorted_entries retention)) (insert_references second (insert_references first ∅)).

Definition references_retained (s : ReferenceScan) (key : list Z) : bool :=
  existsb (fun r => bool_decide (ref_blob r = key) && retained_occurrence (ref_occurrence r)) (scan_refs s).

(** The body of [for key in all_blobs]. *)
Definition decide_blob (first second : ReferenceScan) (retained : gset (list Z)) (key : list Z) : BlobDecision :=
  let first_entry := blobs first !! key in
  let second_entry := blobs second !! key in
  let first_reference := references_retained first key in
  let second_reference := references_retained second key in
  mkDecision key
    ((if bool_decide (first_entry = None) then [MissingFromFirstScan] else []) ++
     (if bool_decide (second_entry = None) then [MissingFromSecondScan] else []) ++
     (if first_reference then [RetainedReferenceFirstScan] else []) ++
     (if second_reference then [RetainedReferenceSecondScan] else []) ++
     (if bool_decide (key ∈ retained) && negb first_reference && negb second_reference
      then [RetainedReferenceOutsideScans] else []) ++
     match first_entry, second_entry with
     | Some l, Some r =>
         if negb (stable_metadata_equal l r) then [ChangedBetweenScans]
         else if negb (has_commitment l) || negb (has_commitment r) then [UnstableObservation] else []
     | _, _ => []
     end).
End Build.

(** [CollectionPlan::build]. *)
Definition build (first second : ReferenceScan) (items : list OccurrenceRetention) (at_ : list Z)
    : result CollectionError CollectionPlan :=
  if negb (bool_decide (tenant first = tenant second)) then Err tenant_mismatch
  else if negb (calendar_valid at_) then Err invalid_input
  else
    let! i1 := ok_or (instant (completed_at first)) invalid_input in
    let! i2 := ok_or (instant (completed_at second)) invalid_input in
    if instant_le i2 i1 || (i2.1 - i1.1 <? MIN_SCAN_SEPARATION_SECONDS) then Err scan_order
    else
      let! retention := fold_retention (blob_prefix (tenant first)) items ∅ in
      let retained := retained_blobs retention at_ first second in
      let all_blobs := sort_by text_leb (elements (dom (blobs first) ∪ dom (blobs second))) in
      Ok (mkPlan (tenant first) at_ first second
            (map (decide_blob retention at_ first second retained) all_blobs)
            (blobs first ∪ blobs second)).

Definition expected_metadata (p : CollectionPlan) (key : list Z) : option ObjectMetadata :=
  (fun e => mkMetadata (entry_size e) (entry_observation e)) <$> expected p !! key.

Definition eligible_blobs (p : CollectionPlan) : list (list Z) :=
  map decision_key (List.filter eligible (decisions p)).

(** * Evidence *)

Definition push_decision (frame : FrameBuilder) (d : BlobDecision) : FrameBuilder :=
  let frame := FrameBuilder_push_text frame (decision_key d) in
  let frame := FrameBuilder_push_u63 frame (zlen (reasons d)) in
  fold_left (fun frame r => FrameBuilder_push_text frame (reason_token r)) (reasons d) frame.

Definition plan_digest (p : CollectionPlan) : list Z :=
  let frame := FrameBuilder_new (lit "collection-plan-v1") in
  let frame := FrameBuilder_push_text frame (plan_tenant p) in
  let frame := FrameBuilder_push_text frame (evaluated_at p) in
  let frame := FrameBuilder_push_text frame (completed_at (first_scan p)) in
  let frame := FrameBuilder_push_digest32 frame (scan_digest (first_scan p)) in
  let frame := FrameBuilder_push_text frame (completed_at (second_scan p)) in
  let frame := FrameBuilder_push_digest32 frame (scan_digest (second_scan p)) in
  let frame := FrameBuilder_push_u63 frame (zlen (decisions p)) in
  FrameBuilder_finish (fold_left push_decision (decisions p) frame).

(** [i64::try_from(value).unwrap_or(i64::MAX)]. *)
Definition count_value (n : Z) : Value := VInt (if n <=? I64_MAX then n else I64_MAX).

Definition text_member_of (name : string) (t : list Z) : list Z * option Value := (lit name, Some (VText t)).

Definition scan_value (s : ReferenceScan) : Value :=
  VObject (set_members
    [text_member_of "completed_at" (completed_at s); text_member_of "inventory_digest" (to_hex (scan_digest s));
     (lit "blob_count", Some (count_value (Z.of_nat (base.size (blobs s)))));
     (lit "reference_count", Some (count_value (Z.of_nat (base.size (references s)))))] []).

Definition decision_value (d : BlobDecision) : Value :=
  VObject (set_members
    [text_member_of "blob_key" (decision_key d); (lit "eligible", Some (VBool (eligible d)));
     (lit "reasons", Some (VArray (map (fun r => VText (reason_token r)) (reasons d))))] []).

Definition action_value (a : list Z * ActionOutcome) : Value :=
  VObject (set_members [text_member_of "blob_key" a.1; text_member_of "outcome" (outcome_token a.2)] []).

Record CollectionEvidence := mkEvidence
  { evidence_bytes : list Z; evidence_digest : list Z; evidence_plan : list Z; evidence_mode : list Z }.

Definition render_evidence (p : CollectionPlan) (mode : list Z) (enabled : bool)
    (actions : list (list Z * ActionOutcome)) : CollectionEvidence :=
  let root := set_members
    [text_member_of "schema" EVIDENCE_SCHEMA; text_member_of "mode" mode; (lit "enabled", Some (VBool enabled));
     text_member_of "plan_digest" (to_hex (plan_digest p)); text_member_of "tenant_id" (plan_tenant p);
     text_member_of "evaluated_at" (evaluated_at p); (lit "first_scan", Some (scan_value (first_scan p)));
     (lit "second_scan", Some (scan_value (second_scan p)));
     (lit "decisions", Some (VArray (map decision_value (decisions p))));
     (lit "actions", Some (VArray (map action_value actions)))] [] in
  let bytes := canonical_bytes (VObject root) in
  mkEvidence bytes (digest bytes) (plan_digest p) mode.

Record CollectionReport := mkReport { evidence : CollectionEvidence; deleted : list (list Z) }.

(** [BlobCollector::report]. *)
Definition report (enabled : bool) (p : CollectionPlan) (mode : list Z) (actions : list (list Z * ActionOutcome))
    : CollectionReport :=
  mkReport (render_evidence p mode enabled actions)
    (map fst (List.filter (fun a => bool_decide (a.2 = Deleted)) actions)).

Definition simulate (enabled : bool) (p : CollectionPlan) : CollectionReport :=
  report enabled p (lit "simulation")
    (map (fun d => (decision_key d, WouldDelete)) (List.filter eligible (decisions p))).

(** * The journal *)

Record CollectionAuditEvent := mkEvent
  { event_plan : list Z;
    sequence : Z;
    previous_digest : option (list Z);
    event_key : list Z;
    event_outcome : ActionOutcome }.

Definition event_canonical_bytes (e : CollectionAuditEvent) : list Z :=
  canonical_bytes (VObject (set_members
    [text_member_of "schema" (lit "archivist.collection-audit/v1");
     text_member_of "plan_digest" (to_hex (event_plan e)); (lit "sequence", Some (count_value (sequence e)));
     (lit "previous_digest", Some (match previous_digest e with Some d => VText (to_hex d) | None => VNull end));
     text_member_of "blob_key" (event_key e); text_member_of "outcome" (outcome_token (event_outcome e))] [])).

Definition event_digest (e : CollectionAuditEvent) : list Z := digest (event_canonical_bytes e).

Definition audit_fault (text : string) : StorageError := mkStorageError InventoryFault (lit text).

(** [matches!(event.outcome(), DeletePending | Deleted | ..)]. *)
Definition attempted (o : ActionOutcome) : bool :=
  match o with
  | DeletePending | Deleted | ChangedBeforeDelete | UnreadableBeforeDelete | DeleteFailed => true
  | WouldDelete | Disabled => false
  end.

(** [validate_audit_chain], from the [index]-th event on. *)
Fixpoint validate_from (p : CollectionPlan) (pd : list Z) (index : Z) (previous : option (list Z))
    (events : list CollectionAuditEvent) : stored unit :=
  match events with
  | [] => Done tt
  | e :: events =>
      if negb (bool_decide (event_plan e = pd)) then Fail (audit_fault "collection audit event belongs to another plan")
      else if negb (sequence e =? index) then Fail (audit_fault "collection audit event sequence is not contiguous")
      else if negb (bool_decide (previous_digest e = previous))
      then Fail (audit_fault "collection audit event chain is not immutable")
      else
        match List.find (fun d => bool_decide (decision_key d = event_key e)) (decisions p) with
        | None => Fail (audit_fault "collection audit event names an unknown candidate")
        | Some d =>
            if negb (eligible d) && attempted (event_outcome e)
            then Fail (audit_fault "collection audit event names an unknown candidate")
            else validate_from p pd (index + 1) (Some (event_digest e)) events
        end
  end.

Definition validate_audit_chain (p : CollectionPlan) (pd : list Z) (events : list CollectionAuditEvent) : stored unit :=
  validate_from p pd 0 None events.

(** * Execution *)

(** Code that awaits the deletion identity and the journal. *)
Inductive cprog (A : Type) :=
| CRet (a : A)
| InspectBlob (key : list Z) (next : stored ObjectMetadata -> cprog A)
| DeleteBlob (key : list Z) (observed : ObjectMetadata) (next : stored unit -> cprog A)
| LoadEvents (plan : list Z) (next : stored (list CollectionAuditEvent) -> cprog A)
| AppendEvent (event : CollectionAuditEvent) (next : stored unit -> cprog A).
Arguments CRet {A} _.
Arguments InspectBlob {A} _ _.
Arguments DeleteBlob {A} _ _ _.
Arguments LoadEvents {A} _ _.
Arguments AppendEvent {A} _ _.

(** [match store.delete_blob(..).await]. *)
Definition delete_outcome (r : stored unit) : ActionOutcome :=
  match r with
  | Done _ => Deleted
  | Fail e => match kind e with IntegrityConflict => ChangedBeforeDelete | _ => DeleteFailed end
  end.

Section Execute.
Variables (enabled : bool) (p : CollectionPlan).

(** The loop of [execute] over the eligible decisions. *)
Fixpoint execute_loop (ds : list BlobDecision) (outcomes : list (list Z * ActionOutcome)) (removed : list (list Z))
    : cprog (list (list Z * ActionOutcome) * list (list Z)) :=
  match ds with
  | [] => CRet (outcomes, removed)
  | d :: ds =>
      let key := decision_key d in
      let record outcome := execute_loop ds (outcomes ++ [(key, outcome)]) removed in
      if negb enabled then record Disabled
      else
        match expected_metadata p key with
        | None => record UnreadableBeforeDelete
        | Some wanted =>
            InspectBlob key (fun r =>
              match r with
              | Fail _ => record UnreadableBeforeDelete
              | Done observed =>
                  if negb (metadata_matches wanted observed) then record ChangedBeforeDelete
                  else
                    DeleteBlob key observed (fun r =>
                      execute_loop ds (outcomes ++ [(key, delete_outcome r)])
                        (match r with Done _ => removed ++ [key] | Fail _ => removed end))
              end)
        end
  end.

Fixpoint cbind {A B} (m : cprog A) (k : A -> cprog B) : cprog B :=
  match m with
  | CRet a => k a
  | InspectBlob key next => InspectBlob key (fun r => cbind (next r) k)
  | DeleteBlob key o next => DeleteBlob key o (fun r => cbind (next r) k)
  | LoadEvents pd next => LoadEvents pd (fun r => cbind (next r) k)
  | AppendEvent e next => AppendEvent e (fun r => cbind (next r) k)
  end.

Definition execution_report (outcomes : list (list Z * ActionOutcome)) (removed : list (list Z)) : CollectionReport :=
  mkReport (evidence (report enabled p (lit "execution") outcomes)) removed.

(** [BlobCollector::execute]. *)
Definition execute : cprog CollectionReport :=
  cbind (execute_loop (List.filter eligible (decisions p)) [] []) (fun '(outcomes, removed) =>
    CRet (execution_report outcomes removed)).

(** The journal's end, as [append_audit_event] keeps it. *)
Record Journal := mkJournal { next_sequence : Z; last_digest : option (list Z) }.

(** [append_audit_event]. *)
Definition append_audit_event {A} (pd : list Z) (j : Journal) (key : list Z) (outcome : ActionOutcome)
    (continue : Journal -> cprog (stored A)) : cprog (stored A) :=
  let event := mkEvent pd (next_sequence j) (last_digest j) key outcome in
  AppendEvent event (fun r =>
    match r with
    | Fail e => CRet (Fail e)
    | Done _ => continue (mkJournal (Z.min (next_sequence j + 1) (u64_modulus - 1)) (Some (event_digest event)))
    end).

(** The loop of [execute_resumable]. *)
Fixpoint resumable_loop (pd : list Z) (completed : gset (list Z)) (ds : list BlobDecision) (j : Journal)
    (outcomes : list (list Z * ActionOutcome)) (removed : list (list Z))
    : cprog (stored (list (list Z * ActionOutcome) * list (list Z))) :=
  match ds with
  | [] => CRet (Done (outcomes, removed))
  | d :: ds =>
      let key := decision_key d in
      if bool_decide (key ∈ completed) then resumable_loop pd completed ds j (outcomes ++ [(key, Deleted)]) removed
      else
        let record j outcome :=
          append_audit_event pd j key outcome (fun j =>
            resumable_loop pd completed ds j (outcomes ++ [(key, outcome)]) removed) in
        if negb enabled then record j Disabled
        else
          match expected_metadata p key with
          | None => record j UnreadableBeforeDelete
          | Some wanted =>
              InspectBlob key (fun r =>
                match r with
                | Fail _ => record j UnreadableBeforeDelete
                | Done observed =>
                    if negb (metadata_matches wanted observed) then record j ChangedBeforeDelete
                    else
                      append_audit_event pd j key DeletePending (fun j =>
                        DeleteBlob key observed (fun r =>
                          append_audit_event pd j key (delete_outcome r) (fun j =>
                            resumable_loop pd completed ds j (outcomes ++ [(key, delete_outcome r)])
                              (match r with Done _ => removed ++ [key] | Fail _ => removed end))))
                end)
          end
  end.

(** [BlobCollector::execute_resumable]. *)
Definition execute_resumable : cprog (stored CollectionReport) :=
  let pd := plan_digest p in
  LoadEvents pd (fun r =>
    match r with
    | Fail e => CRet (Fail e)
    | Done events =>
        match validate_audit_chain p pd events with
        | Fail e => CRet (Fail e)
        | Done _ =>
            let j := mkJournal (zlen events) (event_digest <$> last events) in
            let completed : gset (list Z) :=
              list_to_set (map event_key (List.filter (fun e => bool_decide (event_outcome e = Deleted)) events)) in
            cbind (resumable_loop pd completed (List.filter eligible (decisions p)) j []
                     (sort_by text_leb (elements completed))) (fun r =>
              match r with
              | Fail e => CRet (Fail e)
              | Done (outcomes, removed) => CRet (Done (execution_report outcomes removed))
              end)
        end
    end).
End Execute.
