(* ===== verification/CollectionSafety.v ===== *)
(** What collection promises: the plan selects exactly the blobs nothing retains, and
    whatever the deletion identity, the journal and other writers do, only such blobs
    are removed, each recorded before it is. *)

From stdpp Require Import gmap.
From S2P Require Import Prelude Text Json Sha256 Vocabulary Derivation ObjectKey Records Authority Store FrozenInventory Collection.

Open Scope Z_scope.

(** * Instants *)

Section Stamps.
Variable stamp : list Z.
Hypothesis Hgrammar : timestamp_grammar stamp = true.

Lemma timestamp_digits :
  Forall (fun ij => forallb is_digit (slice (as_bytes stamp) ij.1 ij.2) = true)
    [(0, 4); (5, 7); (8, 10); (11, 13); (14, 16); (17, 19)]%nat /\
  ((20 < length (as_bytes stamp))%nat ->
    forallb is_digit (slice (as_bytes stamp) 20 (length (as_bytes stamp) - 1)) = true /\
    (length (slice (as_bytes stamp) 20 (length (as_bytes stamp) - 1)) <= 9)%nat).
Proof.
  unfold timestamp_grammar in Hgrammar. set (raw := as_bytes stamp) in *.
  destruct (35 <? length raw)%nat eqn:E35; [done|]. destruct (length raw <? 20)%nat eqn:E20; [done|].
  destruct (negb _) eqn:E1 in Hgrammar; [done|]. destruct (negb _) eqn:E2 in Hgrammar; [done|].
  destruct (negb _) eqn:E3 in Hgrammar; [done|]. destruct (negb _) eqn:E4 in Hgrammar; [done|].
  apply negb_false_iff, andb_true_iff in E2 as [[D1 D2]%andb_true_iff D3].
  apply negb_false_iff, andb_true_iff in E3 as [[D4 D5]%andb_true_iff D6].
  split; [by repeat constructor|]. intros Hlen. rewrite length_drop in Hgrammar.
  destruct (length raw - 19 =? 1)%nat eqn:E5; [apply Nat.eqb_eq in E5; lia|].
  destruct (_ && _) eqn:E6 in Hgrammar; [|done].
  apply andb_true_iff in Hgrammar as [[Hd _]%andb_true_iff Hle%Nat.leb_le].
  assert (Hs : slice (drop 19 raw) 1 (length raw - 19 - 1) = slice raw 20 (length raw - 1)).
  { unfold slice. rewrite drop_drop. f_equal. lia. }
  rewrite Hs in Hd. split; [done|]. unfold slice. rewrite length_take, length_drop. lia.
Qed.

Lemma decimal_field i j : (i, j) ∈ [(0, 4); (5, 7); (8, 10); (11, 13); (14, 16); (17, 19)]%nat ->
  0 <= decimal (slice (as_bytes stamp) i j) < 10000.
Proof.
  intros Hin. destruct timestamp_digits as [Hd _]. rewrite Forall_forall in Hd. specialize (Hd _ Hin). cbn [fst snd] in Hd.
  pose proof (decimal_bound_from 0 _ Hd ltac:(lia)) as B. unfold decimal.
  assert (Hl : 10 ^ zlen (slice (as_bytes stamp) i j) <= 10 ^ 4).
  { apply Z.pow_le_mono_r; [lia|]. unfold zlen, slice. rewrite length_take.
    repeat (apply elem_of_cons in Hin as [[= -> ->]|Hin]; [lia|]). by apply elem_of_nil in Hin. }
  change (10 ^ 4) with 10000 in Hl. set (x := 10 ^ zlen _) in *. clearbody x. lia.
Qed.

Lemma days_bound y m d : 0 <= y < 10000 -> 0 <= m < 10000 -> 0 <= d < 10000 ->
  -10000000 <= Collection.days_from_civil y m d <= 10000000.
Proof.
  intros Hy Hm Hd. unfold Collection.days_from_civil. cbv zeta.
  destruct (m <=? 2), (2 <? m); destruct (Z.leb_spec 0 (y - 1)); destruct (Z.leb_spec 0 (y - 0));
    Z.to_euclidean_division_equations; lia.
Qed.

Lemma checked_i64_id x : I64_MIN <= x <= I64_MAX -> checked_i64 x = Some x.
Proof. intros Hx. unfold checked_i64, checked. rewrite (proj2 (Z.leb_le _ _)), (proj2 (Z.leb_le _ _)) by lia. done. Qed.

Lemma checked_u32_id x : 0 <= x < 2 ^ 32 -> checked_u32 x = Some x.
Proof. intros Hx. unfold checked_u32, checked. rewrite (proj2 (Z.leb_le _ _)), (proj2 (Z.leb_le _ _)) by lia. done. Qed.

Lemma digits_u32_decimal ds acc : forallb is_digit ds = true -> 0 <= acc -> (acc + 1) * 10 ^ zlen ds <= 10 ^ 9 ->
  digits_u32 ds acc = Some (fold_left (fun acc c => acc * 10 + (c - 48)) ds acc).
Proof.
  revert acc. induction ds as [|c ds IH]; intros acc Hd Ha Hb; [done|]. cbn [forallb] in Hd.
  apply andb_true_iff in Hd as [Hc Hd]. unfold is_digit, in_range in Hc.
  rewrite zlen_cons, Z.pow_add_r in Hb by (try apply zlen_nonneg; lia).
  pose proof (Z.pow_pos_nonneg 10 (zlen ds) ltac:(lia) (zlen_nonneg ds)).
  cbn [digits_u32 fold_left]. rewrite checked_u32_id by nia. cbn [mbind option_bind].
  rewrite checked_u32_id by nia. cbn [mbind option_bind]. apply IH; [done|lia|nia].
Qed.

Lemma scale_u32_pow n x : 0 <= x -> x * 10 ^ Z.of_nat n < 2 ^ 32 -> scale_u32 n x = Some (times_ten n x).
Proof.
  revert x. induction n as [|n IH]; intros x Hx Hb; [done|]. cbn [scale_u32 times_ten].
  rewrite Nat2Z.inj_succ, Z.pow_succ_r in Hb by lia.
  pose proof (Z.pow_pos_nonneg 10 (Z.of_nat n) ltac:(lia) ltac:(lia)).
  rewrite checked_u32_id by nia. cbn [mbind option_bind]. apply IH; [lia|nia].
Qed.

(** Nothing overflows: a calendar-valid stamp has the instant of the authority chain. *)
Lemma instant_utc : calendar_valid stamp = true -> instant stamp = Some (utc_instant stamp).
Proof.
  intros Hc. unfold instant. rewrite Hc. cbn [negb]. cbv zeta.
  pose proof (decimal_field 0 4 ltac:(set_solver)) as B1. pose proof (decimal_field 5 7 ltac:(set_solver)) as B2.
  pose proof (decimal_field 8 10 ltac:(set_solver)) as B3. pose proof (decimal_field 11 13 ltac:(set_solver)) as B4.
  pose proof (decimal_field 14 16 ltac:(set_solver)) as B5. pose proof (decimal_field 17 19 ltac:(set_solver)) as B6.
  pose proof (days_bound _ _ _ B1 B2 B3) as Bd. unfold utc_instant. cbv zeta.
  change Authority.days_from_civil with Collection.days_from_civil.
  set (d := Collection.days_from_civil _ _ _) in *. clearbody d.
  do 6 (rewrite checked_i64_id by (unfold I64_MIN, I64_MAX; lia); cbn [mbind option_bind]).
  destruct timestamp_digits as [_ Hn].
  destruct (Nat.ltb_spec 20 (length (as_bytes stamp))) as [Hl|Hl]; [|done].
  destruct (Hn Hl) as [Hd Hl9]. set (ds := slice _ 20 _) in *. clearbody ds.
  assert (Hp : 1 * 10 ^ zlen ds <= 10 ^ 9).
  { rewrite Z.mul_1_l. apply Z.pow_le_mono_r; [lia|]. unfold zlen. lia. }
  rewrite digits_u32_decimal by (done || lia). cbn [mbind option_bind].
  pose proof (decimal_bound_from 0 ds Hd ltac:(lia)) as B. unfold decimal.
  set (v := fold_left _ ds 0) in *. clearbody v.
  rewrite scale_u32_pow; [done|lia|].
  assert (E : 10 ^ zlen ds * 10 ^ Z.of_nat (9 - length ds) = 10 ^ 9).
  { rewrite <- Z.pow_add_r by (unfold zlen; lia). f_equal. unfold zlen. lia. }
  pose proof (Z.pow_pos_nonneg 10 (Z.of_nat (9 - length ds)) ltac:(lia) ltac:(lia)). nia.
Qed.
End Stamps.

Lemma instant_some stamp : timestamp_grammar stamp = true ->
  instant stamp = if calendar_valid stamp then Some (utc_instant stamp) else None.
Proof.
  intros Hg. destruct (calendar_valid stamp) eqn:Hc; [by apply instant_utc|]. unfold instant. by rewrite Hc.
Qed.

Lemma utc_seconds_bound stamp : timestamp_grammar stamp = true -> - 10 ^ 15 <= (utc_instant stamp).1 <= 10 ^ 15.
Proof.
  intros Hg.
  pose proof (decimal_field _ Hg 0 4 ltac:(set_solver)) as B1. pose proof (decimal_field _ Hg 5 7 ltac:(set_solver)) as B2.
  pose proof (decimal_field _ Hg 8 10 ltac:(set_solver)) as B3. pose proof (decimal_field _ Hg 11 13 ltac:(set_solver)) as B4.
  pose proof (decimal_field _ Hg 14 16 ltac:(set_solver)) as B5. pose proof (decimal_field _ Hg 17 19 ltac:(set_solver)) as B6.
  pose proof (days_bound _ _ _ B1 B2 B3) as Bd. unfold utc_instant. cbn [fst].
  change Authority.days_from_civil with Collection.days_from_civil. set (d := Collection.days_from_civil _ _ _) in *.
  change (10 ^ 15) with 1000000000000000. lia.
Qed.

Lemma instant_le_nanos a b k : timestamp_grammar a = true -> timestamp_grammar b = true ->
  instant_le ((utc_instant a).1 + k, (utc_instant a).2) (utc_instant b) = true <-> nanos a + k * 10 ^ 9 <= nanos b.
Proof.
  intros Ha Hb. unfold instant_le. rewrite negb_true_iff, <- not_true_iff_false, instant_lt_nanos by done. lia.
Qed.

(** Thirty days past the tombstone, to the nanosecond, with no hold. *)
Definition released (d : RetentionDecision) (at_ : list Z) : Prop :=
  exists t, tombstone_at d = Some t /\ legal_hold d = false /\ calendar_valid t = true /\ calendar_valid at_ = true /\
    nanos t + 30 * 24 * 3600 * 10 ^ 9 <= nanos at_.

Definition wf_decision (d : RetentionDecision) : Prop := forall t, tombstone_at d = Some t -> timestamp_grammar t = true.

Lemma eligible_at_released d at_ : wf_decision d -> timestamp_grammar at_ = true ->
  eligible_at d at_ = true <-> released d at_.
Proof.
  intros Hd Ha. unfold eligible_at, released. destruct (tombstone_at d) as [t|] eqn:Et; [|naive_solver].
  specialize (Hd t Et). unfold grace_elapsed. rewrite !instant_some by done.
  destruct (legal_hold d); cbn [orb]; [naive_solver|]. destruct (calendar_valid at_); cbn [negb]; [|naive_solver].
  destruct (calendar_valid t) eqn:Ect; [|naive_solver]. rewrite (surjective_pairing (utc_instant t)).
  pose proof (utc_seconds_bound t Hd) as B. rewrite checked_i64_id
    by (unfold I64_MIN, I64_MAX, DELETION_GRACE_SECONDS; change (10 ^ 15) with 1000000000000000 in B; lia).
  rewrite instant_le_nanos by done. unfold DELETION_GRACE_SECONDS. split.
  - intros H. exists t. split_and!; [done..|]. lia.
  - intros (t' & [= <-] & _ & _ & _ & H). lia.
Qed.

(** * The plan *)

Lemma sorted_entries_in {A} (m : gmap (list Z) A) k a : In (k, a) (sorted_entries m) <-> m !! k = Some a.
Proof. unfold sorted_entries. rewrite <- list_elem_of_In, elem_of_sort_by. apply elem_of_map_to_list. Qed.

Lemma scan_refs_in s r : In r (scan_refs s) <-> exists o, references s !! o = Some r.
Proof.
  unfold scan_refs. rewrite in_map_iff. split.
  - intros ([o r'] & <- & Hin%sorted_entries_in). by exists o.
  - intros (o & Ho). exists (o, r). split; [done|]. by apply sorted_entries_in.
Qed.

Section Plan.
Variables (retention : gmap (list Z) OccurrenceRetention) (at_ : list Z) (first second : ReferenceScan).

(** A retained occurrence names the blob. *)
Definition names_retained (s : ReferenceScan) (key : list Z) : Prop :=
  exists o r, references s !! o = Some r /\ ref_blob r = key /\ retained_occurrence retention at_ (ref_occurrence r) = true.

Lemma references_retained_iff s key : references_retained retention at_ s key = true <-> names_retained s key.
Proof.
  unfold references_retained, names_retained. rewrite existsb_exists. split.
  - intros (r & (o & Ho)%scan_refs_in & [Hk%bool_decide_eq_true Hr]%andb_true_iff). by exists o, r.
  - intros (o & r & Ho & Hk & Hr). exists r. split; [apply scan_refs_in; by exists o|].
    by rewrite bool_decide_true, Hr.
Qed.

Lemma fold_insert_elem {A} (f : A -> bool) (g : A -> list Z) (l : list A) (acc : gset (list Z)) key :
  key ∈ fold_left (fun acc x => if f x then {[ g x ]} ∪ acc else acc) l acc <->
  key ∈ acc \/ exists x, In x l /\ f x = true /\ g x = key.
Proof.
  revert acc. induction l as [|x l IH]; intros acc; cbn [fold_left In].
  { split; [by left|]. by intros [?|(? & [] & _)]. }
  rewrite IH. split.
  - intros [Hk|(y & Hy & Hf & Hg)]; [|right; exists y; split_and!; [by right|done..]].
    destruct (f x) eqn:Ef; [|by left]. apply elem_of_union in Hk as [Hk%elem_of_singleton|Hk]; [|by left].
    right. exists x. split_and!; [by left|done..].
  - intros [Hk|(y & [<-|Hy] & Hf & Hg)]; [left|left|right; by exists y].
    + destruct (f x); [|done]. apply elem_of_union. by right.
    + rewrite Hf. apply elem_of_union. left. by apply elem_of_singleton.
Qed.

Lemma retained_blobs_iff key : key ∈ retained_blobs retention at_ first second <->
  names_retained first key \/ names_retained second key \/
  exists o item, retention !! o = Some item /\ ret_blob item = key /\ is_retained_at (ret_decision item) at_ = true.
Proof.
  unfold retained_blobs. cbv zeta. rewrite !fold_insert_elem. rewrite elem_of_empty.
  assert (Hs : forall s, (exists x, In x (scan_refs s) /\ retained_occurrence retention at_ (ref_occurrence x) = true /\
    ref_blob x = key) <-> names_retained s key).
  { intros s. unfold names_retained. split.
    - intros (r & (o & Ho)%scan_refs_in & Hr & Hk). by exists o, r.
    - intros (o & r & Ho & Hk & Hr). exists r. split; [apply scan_refs_in; by exists o|done]. }
  rewrite !Hs. split.
  - intros [[[[]|H]|H]|(item & Hin & Hr & Hk)]; [by left|by right; left|]. right. right.
    apply in_map_iff in Hin as ([o i] & <- & Ho%sorted_entries_in). by exists o, i.
  - intros [H|[H|(o & item & Ho & Hk & Hr)]]; [by left; left; right|by left; right|]. right.
    exists item. split; [|done]. apply in_map_iff. exists (o, item). split; [done|by apply sorted_entries_in].
Qed.

(** The same committed object in both scans. *)
Definition same_object (l r : InventoryEntry) : Prop :=
  entry_size l = entry_size r /\ etag (entry_observation l) = etag (entry_observation r) /\
  storage_version (entry_observation l) = storage_version (entry_observation r) /\
  (is_Some (etag (entry_observation l)) \/ is_Some (storage_version (entry_observation l))).

Lemma is_some_iff {A} (x : option A) : is_some x = true <-> is_Some x.
Proof. destruct x; cbn; split; try done; intros H; by inversion H. Qed.

Lemma same_object_iff l r : stable_metadata_equal l r = true /\ has_commitment l = true /\ has_commitment r = true <->
  same_object l r.
Proof.
  unfold stable_metadata_equal, has_commitment, same_object.
  rewrite !andb_true_iff, !orb_true_iff, !bool_decide_eq_true, Z.eqb_eq, !is_some_iff. split.
  - naive_solver.
  - intros (-> & E1 & E2 & Hc). rewrite <- E1, <- E2. naive_solver.
Qed.

Lemma decide_blob_eligible key :
  eligible (decide_blob retention at_ first second (retained_blobs retention at_ first second) key) = true <->
  (exists l r, blobs first !! key = Some l /\ blobs second !! key = Some r /\ same_object l r) /\
  ~ names_retained first key /\ ~ names_retained second key /\
  (forall o item, retention !! o = Some item -> ret_blob item = key -> eligible_at (ret_decision item) at_ = true).
Proof.
  unfold eligible, decide_blob. cbn [reasons]. rewrite Nat.eqb_eq, !length_app.
  pose proof (references_retained_iff first key) as H1. pose proof (references_retained_iff second key) as H2.
  pose proof (retained_blobs_iff key) as H3.
  set (f1 := references_retained retention at_ first key) in *. set (f2 := references_retained retention at_ second key) in *.
  set (rb := retained_blobs retention at_ first second) in *. clearbody f1 f2 rb.
  assert (Hout : (forall o item, retention !! o = Some item -> ret_blob item = key ->
      eligible_at (ret_decision item) at_ = true) <->
    ~ exists o item, retention !! o = Some item /\ ret_blob item = key /\ is_retained_at (ret_decision item) at_ = true).
  { unfold is_retained_at. split.
    - intros Hall (o & item & Ho & Hk & Hr). by rewrite (Hall o item Ho Hk) in Hr.
    - intros Hn o item Ho Hk. destruct (eligible_at _ _) eqn:E; [done|]. destruct Hn. exists o, item. by rewrite E. }
  rewrite Hout. clear Hout. set (Q := exists o item, _) in *. clearbody Q.
  set (N1 := names_retained first key) in *. set (N2 := names_retained second key) in *. clearbody N1 N2.
  destruct (blobs first !! key) as [l|];
    [|rewrite (bool_decide_true (None = None)) by done; cbn; split; [lia|by intros [(? & ? & ? & _) _]]].
  destruct (blobs second !! key) as [r|];
    [|rewrite (bool_decide_false (Some l = None)), (bool_decide_true (None = None)) by done; cbn; split;
      [lia|by intros [(? & ? & _ & ? & _) _]]].
  rewrite !bool_decide_false by done. cbn [length Nat.add].
  assert (Hex : (exists l' r', Some l = Some l' /\ Some r = Some r' /\ same_object l' r') <-> same_object l r).
  { split; [by intros (? & ? & [= <-] & [= <-] & ?)|]. intros. by exists l, r. }
  rewrite Hex, <- same_object_iff. clear Hex.
  destruct f1; cbn [length Nat.add]; [split; [lia|tauto]|].
  destruct f2; cbn [length Nat.add]; [split; [lia|tauto]|].
  assert (Hn1 : ~ N1) by (intros ?%H1; done). assert (Hn2 : ~ N2) by (intros ?%H2; done).
  cbn [negb]. rewrite !andb_true_r. case_bool_decide as Hrb; cbn [length Nat.add]; [split; [lia|tauto]|].
  assert (~ Q) by tauto.
  destruct (stable_metadata_equal l r), (has_commitment l), (has_commitment r); cbn; (split; [|]); try done; by intros [(? & ? & ?) _].
Qed.
End Plan.

(** One decision per occurrence. *)
Definition consistent (items : list OccurrenceRetention) : Prop :=
  forall i j, i ∈ items -> j ∈ items -> ret_occurrence i = ret_occurrence j -> i = j.

(** The view holds the items it was given, each at its occurrence. *)
Definition holds (view : gmap (list Z) OccurrenceRetention) (items : list OccurrenceRetention) : Prop :=
  forall o i, view !! o = Some i <-> i ∈ items /\ ret_occurrence i = o.

Lemma holds_insert view items i : holds view items -> view !! ret_occurrence i = None ->
  holds (<[ret_occurrence i := i]> view) (items ++ [i]).
Proof.
  intros Hv El o x. rewrite lookup_insert_Some, (Hv o x), elem_of_app, list_elem_of_singleton. split.
  - intros [[<- <-]|(? & ? & ?)]; [by split; [right|]|by split; [left|]].
  - intros [[Hx| ->] Ho]; [right|by left]. split_and!; [|done..]. intros E. subst o.
    assert (view !! ret_occurrence i = Some x) by (apply Hv; by split). congruence.
Qed.

Lemma fold_retention_Ok prefix items past acc m : holds acc past -> consistent past ->
  fold_retention prefix items acc = Ok m ->
  Forall (fun i => starts_with (ret_blob i) prefix = true) items /\ consistent (past ++ items) /\ holds m (past ++ items).
Proof.
  revert past acc. induction items as [|i items IH]; intros past acc Ha Hc; cbn [fold_retention].
  { intros [= <-]. by rewrite app_nil_r. }
  destruct (starts_with (ret_blob i) prefix) eqn:Ep; cbn [negb]; [|done].
  assert (Hsnoc : forall q, (forall x, x ∈ past ++ [i] <-> x ∈ q) -> Forall (fun i => starts_with (ret_blob i) prefix = true) items /\
      consistent (q ++ items) /\ holds m (q ++ items) ->
    Forall (fun i => starts_with (ret_blob i) prefix = true) (i :: items) /\ consistent (past ++ i :: items) /\
      holds m (past ++ i :: items)).
  { intros q Hq (H1 & H2 & H3).
    assert (Hx : forall x, x ∈ past ++ i :: items <-> x ∈ q ++ items).
    { intros x. rewrite (elem_of_app q), <- Hq. set_solver. }
    split_and!; [by constructor| |].
    - intros a b Hy Hz. apply Hx in Hy, Hz. by apply H2.
    - intros o x. rewrite Hx. apply H3. }
  destruct (acc !! ret_occurrence i) as [e|] eqn:El.
  - case_bool_decide as He; cbn [negb]; [|done]. subst e. intros Hf. apply (Hsnoc past); [|by apply (IH past acc)].
    apply Ha in El as [Hin _]. set_solver.
  - intros Hf. apply (Hsnoc (past ++ [i])); [done|]. apply (IH (past ++ [i])) in Hf; [done| |].
    + by apply holds_insert.
    + intros a b Hy Hz E. apply elem_of_app in Hy, Hz. rewrite list_elem_of_singleton in Hy, Hz.
      destruct Hy as [Hy| ->], Hz as [Hz| ->]; [by apply Hc| | |done].
      * assert (acc !! ret_occurrence i = Some a) by (apply Ha; by split). congruence.
      * assert (acc !! ret_occurrence i = Some b) by (apply Ha; by split). congruence.
Qed.

Lemma fold_retention_total prefix items past acc : holds acc past ->
  Forall (fun i => starts_with (ret_blob i) prefix = true) items -> consistent (past ++ items) ->
  exists m, fold_retention prefix items acc = Ok m.
Proof.
  revert past acc. induction items as [|i items IH]; intros past acc Ha Hp Hc; cbn [fold_retention]; [by eexists|].
  apply Forall_cons in Hp as [Ep Hp]. rewrite Ep. cbn [negb].
  destruct (acc !! ret_occurrence i) as [e|] eqn:El.
  - apply Ha in El as [Hin E]. rewrite bool_decide_true by (apply Hc; [set_solver..|done]). cbn [negb].
    apply (IH past); [done..|]. intros a b Hy Hz. apply Hc; set_solver.
  - apply (IH (past ++ [i])); [by apply holds_insert|done|by rewrite <- app_assoc].
Qed.

(** What [build] accepts: one tenant, whole seconds a day apart, one in-tenant decision
    per occurrence. *)
Definition plannable (first second : ReferenceScan) (items : list OccurrenceRetention) (at_ : list Z) : Prop :=
  tenant first = tenant second /\ calendar_valid at_ = true /\ calendar_valid (completed_at first) = true /\
  calendar_valid (completed_at second) = true /\
  (utc_instant (completed_at first)).1 + 24 * 3600 <= (utc_instant (completed_at second)).1 /\
  Forall (fun i => starts_with (ret_blob i) (blob_prefix (tenant first)) = true) items /\ consistent items.

Lemma scan_separation_iff a b : instant_le b a || (b.1 - a.1 <? MIN_SCAN_SEPARATION_SECONDS) = false <->
  a.1 + 24 * 3600 <= b.1.
Proof.
  rewrite orb_false_iff. unfold instant_le, instant_lt, MIN_SCAN_SEPARATION_SECONDS.
  rewrite negb_false_iff, orb_true_iff, Z.ltb_lt, Z.ltb_ge. lia.
Qed.

Lemma build_Ok first second items at_ p : timestamp_grammar (completed_at first) = true ->
  timestamp_grammar (completed_at second) = true -> build first second items at_ = Ok p ->
  plannable first second items at_ /\ exists view, holds view items /\
    p = mkPlan (tenant first) at_ first second
          (map (decide_blob view at_ first second (retained_blobs view at_ first second))
             (sort_by text_leb (elements (dom (blobs first) ∪ dom (blobs second))))) (blobs first ∪ blobs second).
Proof.
  intros G1 G2. unfold build. case_bool_decide as Et; cbn [negb]; [|done].
  destruct (calendar_valid at_) eqn:Ea; cbn [negb]; [|done]. rewrite !instant_some by done.
  destruct (calendar_valid (completed_at first)) eqn:E1; cbn [ok_or rbind]; [|done].
  destruct (calendar_valid (completed_at second)) eqn:E2; cbn [ok_or rbind]; [|done].
  destruct (_ || _) eqn:Es; [done|]. apply scan_separation_iff in Es.
  destruct (fold_retention _ _ _) as [view| |] eqn:Ef; cbn [rbind]; [|done..]. intros [= <-].
  apply (fold_retention_Ok _ _ []) in Ef as (Hp & Hc & Hh); [|intros o i; rewrite lookup_empty; set_solver|intros ?; set_solver].
  split; [by split_and!|]. by exists view.
Qed.

Lemma build_total first second items at_ : timestamp_grammar (completed_at first) = true ->
  timestamp_grammar (completed_at second) = true -> plannable first second items at_ ->
  exists p, build first second items at_ = Ok p.
Proof.
  intros G1 G2 (Et & Ea & E1 & E2 & Es & Hp & Hc). unfold build. rewrite bool_decide_true by done. cbn [negb].
  rewrite Ea, !instant_some, E1, E2 by done. cbn [negb ok_or rbind]. rewrite (proj2 (scan_separation_iff _ _)) by done.
  destruct (fold_retention_total (blob_prefix (tenant first)) items [] ∅) as [m Hm]; [|done..|].
  { intros o i. rewrite lookup_empty. set_solver. }
  rewrite Hm. cbn [rbind]. by eexists.
Qed.

Lemma build_eligible view at_ first second p key :
  decisions p = map (decide_blob view at_ first second (retained_blobs view at_ first second))
             (sort_by text_leb (elements (dom (blobs first) ∪ dom (blobs second)))) ->
  In key (eligible_blobs p) <->
  eligible (decide_blob view at_ first second (retained_blobs view at_ first second) key) = true.
Proof.
  intros Hd. unfold eligible_blobs. rewrite Hd, in_map_iff. split.
  - intros (d & <- & [Hin He]%filter_In). apply in_map_iff in Hin as (k & <- & _). done.
  - intros He. eexists. split; [|apply filter_In; split; [by apply in_map, (list_elem_of_In _ key), elem_of_sort_by,
      elem_of_elements, elem_of_union; left; apply decide_blob_eligible in He as ((l & r & Hl & _) & _);
      apply elem_of_dom_2 in Hl|exact He]]. done.
Qed.

(** The decision on an occurrence, and on everything that names a blob. *)
Definition occurrence_released (items : list OccurrenceRetention) (at_ : list Z) (o : list Z) : Prop :=
  exists i, i ∈ items /\ ret_occurrence i = o /\ released (ret_decision i) at_.

Definition references_released (items : list OccurrenceRetention) (at_ : list Z) (s : ReferenceScan) (key : list Z) : Prop :=
  forall o r, references s !! o = Some r -> ref_blob r = key -> occurrence_released items at_ (ref_occurrence r).

Section Released.
Context (items : list OccurrenceRetention) (at_ : list Z) (view : gmap (list Z) OccurrenceRetention).
Hypothesis Hitems : Forall (fun i => wf_decision (ret_decision i)) items.
Hypothesis Hat : timestamp_grammar at_ = true.
Hypothesis Hview : holds view items.

Lemma retained_occurrence_false o : retained_occurrence view at_ o = false <-> occurrence_released items at_ o.
Proof.
  rewrite Forall_forall in Hitems. unfold retained_occurrence, occurrence_released, is_retained_at. split.
  - destruct (view !! o) as [i|] eqn:Ev; [|done]. apply Hview in Ev as [Hin Ho]. intros He%negb_false_iff.
    exists i. split_and!; [done..|]. apply eligible_at_released; auto.
  - intros (i & Hin & Ho & Hr). rewrite (proj2 (Hview o i)) by done. apply negb_false_iff.
    apply eligible_at_released; auto.
Qed.

Lemma names_retained_released s key : ~ names_retained view at_ s key <-> references_released items at_ s key.
Proof.
  unfold names_retained, references_released. split.
  - intros Hn o r Ho Hk. apply retained_occurrence_false, not_true_iff_false. intros Hr. apply Hn. by exists o, r.
  - intros Hr (o & r & Ho & Hk & Hret). specialize (Hr o r Ho Hk). apply retained_occurrence_false in Hr. congruence.
Qed.

Lemma view_released key :
  (forall o i, view !! o = Some i -> ret_blob i = key -> eligible_at (ret_decision i) at_ = true) <->
  (forall i, i ∈ items -> ret_blob i = key -> released (ret_decision i) at_).
Proof.
  rewrite Forall_forall in Hitems. split.
  - intros H i Hin Hk. apply eligible_at_released; [auto..|]. apply (H (ret_occurrence i)); [|done]. by apply Hview.
  - intros H o i Hi Hk. apply Hview in Hi as [Hin _]. apply eligible_at_released; auto.
Qed.
End Released.

(** C13: A plan is built exactly when the scans are of one tenant, complete a day apart in
    whole seconds, and the retention view has one in-tenant decision per occurrence; a
    blob is then eligible exactly when both scans list the same committed object, every
    reference of either scan to it is to a released occurrence, and so is every retention
    item that names it: released means tombstoned 30 days ago to the nanosecond, no hold. *)
Theorem collection_plan_exact first second items at_ :
  timestamp_grammar (completed_at first) = true -> timestamp_grammar (completed_at second) = true ->
  timestamp_grammar at_ = true -> Forall (fun i => wf_decision (ret_decision i)) items ->
  ((exists p, build first second items at_ = Ok p) <-> plannable first second items at_) /\
  (forall p, build first second items at_ = Ok p -> forall key, In key (eligible_blobs p) <->
    (exists l r, blobs first !! key = Some l /\ blobs second !! key = Some r /\ same_object l r) /\
    references_released items at_ first key /\ references_released items at_ second key /\
    (forall i, i ∈ items -> ret_blob i = key -> released (ret_decision i) at_)).
Proof.
  intros G1 G2 Ga Hi. split.
  - split; [|by apply build_total]. by intros (p & [? _]%build_Ok).
  - intros p (_ & view & Hv & ->)%build_Ok key; [|done..]. rewrite (build_eligible view at_ first second _ key) by done.
    by rewrite decide_blob_eligible, !(names_retained_released items at_ view), (view_released items at_ view).
Qed.

(** Scans a fraction of a second short of 24 hours apart are accepted, for only whole
    seconds are compared; less than a second is all that can be missing. *)
Theorem scan_separation_truncates :
  (exists first second p, build first second [] (lit "2026-03-01T00:00:00Z") = Ok p /\
     nanos (completed_at second) - nanos (completed_at first) < 24 * 3600 * 10 ^ 9) /\
  (forall first second items at_ p, timestamp_grammar (completed_at first) = true ->
     timestamp_grammar (completed_at second) = true -> build first second items at_ = Ok p ->
     nanos (completed_at second) - nanos (completed_at first) > (24 * 3600 - 1) * 10 ^ 9).
Proof.
  split.
  - exists (mkScan (lit "acme") (lit "2026-01-01T00:00:00.9Z") [] ∅ ∅), (mkScan (lit "acme") (lit "2026-01-02T00:00:00.1Z") [] ∅ ∅).
    eexists. split; [vm_compute; reflexivity|]. vm_compute. reflexivity.
  - intros first second items at_ p G1 G2 ((_ & _ & _ & _ & Hs & _) & _)%build_Ok; [|done..].
    pose proof (utc_nanoseconds_bound _ G1). pose proof (utc_nanoseconds_bound _ G2). unfold nanos.
    change (10 ^ 9) with 1000000000 in *. lia.
Qed.
