(* ===== verification/CollectionRun.v ===== *)
(** Collectors at work: any number of workers execute a plan against the deletion
    identity and the audit journal while other writers change objects as they like.

    A call may fail, with or without its effect, and a worker may stop anywhere.  The
    laws are those the traits document: a deletion is conditional on the observed
    metadata, an occupied journal sequence is never replaced, and a load may miss the
    newest events.  [sound] is the judgement on programs that these laws carry to every
    reachable world. *)

From stdpp Require Import gmap.
From S2P Require Import Prelude Text Json Sha256 Vocabulary Derivation ObjectKey Records Authority Store FrozenInventory Collection CollectionSafety.

Open Scope Z_scope.

(** * The world *)

Record World (A : Type) := mkWorld
  { objects : gmap (list Z) ObjectMetadata;
    journal : list CollectionAuditEvent;
    removals : list (list Z * ObjectMetadata);
    workers : gmap nat (cprog A) }.
Arguments mkWorld {A} _ _ _ _.
Arguments objects {A} _.
Arguments journal {A} _.
Arguments removals {A} _.
Arguments workers {A} _.

Definition U64_MAX : Z := u64_modulus - 1.

Section World.
Context {A : Type}.
(** The programs workers run. *)
Variable starts : cprog A -> Prop.

Inductive world_step : World A -> World A -> Prop :=
| step_other os os' j rs ws : world_step (mkWorld os j rs ws) (mkWorld os' j rs ws)
| step_start os j rs ws i m : ws !! i = None -> starts m ->
    world_step (mkWorld os j rs ws) (mkWorld os j rs (<[i := m]> ws))
| step_stop os j rs ws i : world_step (mkWorld os j rs ws) (mkWorld os j rs (delete i ws))
| step_inspect os j rs ws i key next m : ws !! i = Some (InspectBlob key next) -> os !! key = Some m ->
    world_step (mkWorld os j rs ws) (mkWorld os j rs (<[i := next (Done m)]> ws))
| step_inspect_fails os j rs ws i key next e : ws !! i = Some (InspectBlob key next) ->
    world_step (mkWorld os j rs ws) (mkWorld os j rs (<[i := next (Fail e)]> ws))
| step_delete os j rs ws i key o next m r : ws !! i = Some (DeleteBlob key o next) -> os !! key = Some m ->
    metadata_matches o m = true ->
    world_step (mkWorld os j rs ws) (mkWorld (delete key os) j (rs ++ [(key, m)]) (<[i := next r]> ws))
| step_delete_fails os j rs ws i key o next e : ws !! i = Some (DeleteBlob key o next) ->
    world_step (mkWorld os j rs ws) (mkWorld os j rs (<[i := next (Fail e)]> ws))
| step_load os j rs ws i pd next n : ws !! i = Some (LoadEvents pd next) ->
    world_step (mkWorld os j rs ws) (mkWorld os j rs (<[i := next (Done (take n j))]> ws))
| step_load_fails os j rs ws i pd next e : ws !! i = Some (LoadEvents pd next) ->
    world_step (mkWorld os j rs ws) (mkWorld os j rs (<[i := next (Fail e)]> ws))
| step_append os j rs ws i e next r : ws !! i = Some (AppendEvent e next) -> sequence e = zlen j -> zlen j < U64_MAX ->
    world_step (mkWorld os j rs ws) (mkWorld os (j ++ [e]) rs (<[i := next r]> ws))
| step_append_replay os j rs ws i e next : ws !! i = Some (AppendEvent e next) -> 0 <= sequence e ->
    j !! Z.to_nat (sequence e) = Some e ->
    world_step (mkWorld os j rs ws) (mkWorld os j rs (<[i := next (Done tt)]> ws))
| step_append_fails os j rs ws i e next er : ws !! i = Some (AppendEvent e next) ->
    world_step (mkWorld os j rs ws) (mkWorld os j rs (<[i := next (Fail er)]> ws)).

Inductive world_reachable (w0 : World A) : World A -> Prop :=
| world_here : world_reachable w0 w0
| world_next w w' : world_reachable w0 w -> world_step w w' -> world_reachable w0 w'.
End World.

(** * The journal *)

Section Journal.
Variables (p : CollectionPlan) (pd : list Z).

(** An event that may follow [n] events ending in [previous]. *)
Definition event_follows (n : Z) (previous : option (list Z)) (e : CollectionAuditEvent) : Prop :=
  event_plan e = pd /\ sequence e = n /\ previous_digest e = previous /\
  exists d, List.find (fun d => bool_decide (decision_key d = event_key e)) (decisions p) = Some d /\
    (attempted (event_outcome e) = true -> eligible d = true).

Lemma validate_from_cons n prev e l : validate_from p pd n prev (e :: l) = Done tt <->
  event_follows n prev e /\ validate_from p pd (n + 1) (Some (event_digest e)) l = Done tt.
Proof.
  cbn [validate_from]. unfold event_follows. case_bool_decide as E1; cbn [negb]; [|naive_solver].
  destruct (Z.eqb_spec (sequence e) n) as [E2|E2]; cbn [negb]; [|naive_solver].
  case_bool_decide as E3; cbn [negb]; [|naive_solver].
  destruct (List.find _ _) as [d|]; [|naive_solver].
  destruct (eligible d) eqn:Ee, (attempted (event_outcome e)) eqn:Ea; cbn [negb andb]; split; try done;
    try (intros [_ ?]; done); try (intros ?; split; [|done]; split_and!; [done..|]; exists d; split; [done|]; intros; done).
  intros [(_ & _ & _ & d' & [= <-] & Hd) _]. rewrite Hd in Ee by done. done.
Qed.

Lemma validate_from_app n prev l l' : validate_from p pd n prev (l ++ l') = Done tt <->
  validate_from p pd n prev l = Done tt /\
  validate_from p pd (n + zlen l) (match last l with Some e => Some (event_digest e) | None => prev end) l' = Done tt.
Proof.
  revert n prev. induction l as [|e l IH]; intros n prev.
  - cbn [app validate_from last zlen length]. unfold zlen. cbn [length]. rewrite Z.add_0_r. tauto.
  - rewrite <- app_comm_cons, !validate_from_cons, IH, zlen_cons.
    replace (n + 1 + zlen l) with (n + (1 + zlen l)) by lia. rewrite last_cons. destruct (last l); tauto.
Qed.

Definition chained (l : list CollectionAuditEvent) : Prop := validate_audit_chain p pd l = Done tt.

Lemma chained_prefix l l' : chained (l ++ l') -> chained l.
Proof. unfold chained, validate_audit_chain. by intros [? _]%validate_from_app. Qed.

Lemma chained_snoc l e : chained (l ++ [e]) <-> chained l /\ event_follows (zlen l) (event_digest <$> last l) e.
Proof.
  unfold chained, validate_audit_chain. rewrite validate_from_app, validate_from_cons, Z.add_0_l.
  replace (match last l with Some e => Some (event_digest e) | None => None end) with (event_digest <$> last l)
    by (by destruct (last l)). cbn [validate_from]. tauto.
Qed.
End Journal.

(** * The judgement *)

Section Judgement.
Variables (p : CollectionPlan) (enabled journaled : bool).
Let pd := plan_digest p.

(** The journal says the deletion is about to happen. *)
Definition pending (j : list CollectionAuditEvent) (key : list Z) : Prop :=
  exists e, e ∈ j /\ event_plan e = pd /\ event_key e = key /\ event_outcome e = DeletePending.

Definition deletable (base : list CollectionAuditEvent) (key : list Z) (o : ObjectMetadata) : Prop :=
  enabled = true /\ In key (eligible_blobs p) /\
  (exists w, expected_metadata p key = Some w /\ metadata_matches w o = true) /\
  (journaled = true -> pending base key).

(** [base] is the part of the journal the worker knows. *)
Fixpoint sound {A} (base : list CollectionAuditEvent) (m : cprog A) : Prop :=
  match m with
  | CRet _ => True
  | InspectBlob _ next => forall r, sound base (next r)
  | DeleteBlob key o next => deletable base key o /\ forall r, sound base (next r)
  | LoadEvents d next => d = pd /\ (forall e, sound base (next (Fail e))) /\
      forall l, chained p pd l -> zlen l <= U64_MAX -> sound l (next (Done l))
  | AppendEvent e next => sequence e = zlen base /\
      (zlen base < U64_MAX -> event_follows p pd (zlen base) (event_digest <$> last base) e /\
         sound (base ++ [e]) (next (Done tt))) /\
      forall er, sound base (next (Fail er))
  end.

Lemma metadata_matches_iff a b : metadata_matches a b = true <->
  meta_size a = meta_size b /\ etag (meta_observation a) = etag (meta_observation b) /\
  storage_version (meta_observation a) = storage_version (meta_observation b) /\
  (is_Some (etag (meta_observation a)) \/ is_Some (storage_version (meta_observation a))).
Proof.
  unfold metadata_matches. rewrite !andb_true_iff, orb_true_iff, !bool_decide_eq_true, Z.eqb_eq, !is_some_iff. tauto.
Qed.

Lemma metadata_matches_trans a b c : metadata_matches a b = true -> metadata_matches b c = true -> metadata_matches a c = true.
Proof.
  rewrite !metadata_matches_iff. intros (E1 & E2 & E3 & Hs) (F1 & F2 & F3 & _).
  split_and!; [congruence..|done].
Qed.

(** * Soundness *)

Definition removal_ok (j : list CollectionAuditEvent) (k : list Z) (m : ObjectMetadata) : Prop :=
  deletable j k m.

Definition world_ok {A} (w : World A) : Prop :=
  chained p pd (journal w) /\ zlen (journal w) <= U64_MAX /\
  Forall (fun km => removal_ok (journal w) km.1 km.2) (removals w) /\
  map_Forall (fun _ m => exists base, base `prefix_of` journal w /\ sound base m) (workers w).

Lemma deletable_mono base j k m : base `prefix_of` j -> deletable base k m -> deletable j k m.
Proof.
  intros [l ->] (H1 & H2 & H3 & H4). split_and!; [done..|]. intros Hj. destruct (H4 Hj) as (e & He & Hr).
  exists e. split; [|done]. apply elem_of_app. by left.
Qed.

Section Steps.
Context {A : Type} (j : list CollectionAuditEvent) (ws : gmap nat (cprog A)).
Hypothesis Hws : map_Forall (fun _ m => exists base, base `prefix_of` j /\ sound base m) ws.

Lemma worker_advances i base m : base `prefix_of` j -> sound base m ->
  map_Forall (fun _ m => exists base, base `prefix_of` j /\ sound base m) (<[i := m]> ws).
Proof. intros Hb Hm. apply map_Forall_insert_2; [by exists base|done]. Qed.

Lemma workers_extend e : map_Forall (fun _ m => exists base, base `prefix_of` j ++ [e] /\ sound base m) ws.
Proof.
  intros i m Hi. destruct (Hws i m Hi) as (base & Hb & Hm). exists base. split; [by apply prefix_app_r|done].
Qed.
End Steps.

Lemma prefix_full (base j : list CollectionAuditEvent) : base `prefix_of` j -> zlen base = zlen j -> base = j.
Proof.
  intros [l ->]. unfold zlen. rewrite length_app. intros E. destruct l; [by rewrite app_nil_r|cbn in E; lia].
Qed.

Lemma prefix_next (base j : list CollectionAuditEvent) e : base `prefix_of` j -> sequence e = zlen base ->
  j !! Z.to_nat (sequence e) = Some e -> base ++ [e] `prefix_of` j.
Proof.
  intros [l ->] ->. unfold zlen. rewrite Nat2Z.id, lookup_app_r by lia. rewrite Nat.sub_diag.
  destruct l as [|x l]; [done|]. cbn. intros [= ->]. exists l. by rewrite <- app_assoc.
Qed.

Lemma world_step_ok {A} (starts : cprog A -> Prop) w w' : (forall m, starts m -> sound [] m) ->
  world_step starts w w' -> world_ok w -> world_ok w'.
Proof.
  intros Hstarts Hstep (Hc & Hl & Hr & Hw).
  destruct Hstep as [os os' j rs ws|os j rs ws i m Hi Hm|os j rs ws i|os j rs ws i key next m Hi Ho
    |os j rs ws i key next e Hi|os j rs ws i key o next m r Hi Ho Hmm|os j rs ws i key o next e Hi
    |os j rs ws i d next n Hi|os j rs ws i d next e Hi|os j rs ws i e next r Hi Hs Hlt
    |os j rs ws i e next Hi Hs He|os j rs ws i e next er Hi];
    cbn [journal removals workers objects] in *; unfold world_ok; cbn [journal removals workers];
    try (destruct (Hw i _ Hi) as (base & Hb & Hm); cbn [sound] in Hm).
  - done.
  - split_and!; [done..|]. apply (worker_advances j ws Hw i []); [apply prefix_nil|auto].
  - split_and!; [done..|]. by apply map_Forall_delete.
  - split_and!; [done..|]. by apply (worker_advances j ws Hw i base).
  - split_and!; [done..|]. by apply (worker_advances j ws Hw i base).
  - destruct Hm as [Hd Hm]. split_and!; [done..| |by apply (worker_advances j ws Hw i base)].
    apply Forall_app. split; [done|]. constructor; [|constructor]. cbn [fst snd].
    apply (deletable_mono base); [done|]. destruct Hd as (H1 & H2 & (x & Hx & Hxo) & H4).
    split_and!; [done..| |done]. exists x. split; [done|]. by apply (metadata_matches_trans x o m).
  - destruct Hm as [_ Hm]. split_and!; [done..|]. by apply (worker_advances j ws Hw i base).
  - destruct Hm as (_ & _ & Hm). split_and!; [done..|].
    apply (worker_advances j ws Hw i (take n j)); [by apply prefix_take|]. apply Hm.
    + apply (chained_prefix p pd _ (drop n j)). by rewrite take_drop.
    + unfold zlen in *. rewrite length_take. lia.
  - destruct Hm as (_ & Hm & _). split_and!; [done..|]. by apply (worker_advances j ws Hw i base).
  - destruct Hm as (E & Hm & Hf). assert (base = j) as -> by (apply prefix_full; [done|congruence]).
    destruct (Hm Hlt) as [Hfo Hn]. split_and!.
    + apply chained_snoc. by split.
    + rewrite zlen_app. unfold zlen at 2. cbn [length]. lia.
    + eapply Forall_impl; [exact Hr|]. intros [k m]. apply deletable_mono. by apply prefix_app_r.
    + destruct r as [[]|er].
      * by apply (worker_advances (j ++ [e]) ws (workers_extend j ws Hw e) i (j ++ [e])).
      * apply (worker_advances (j ++ [e]) ws (workers_extend j ws Hw e) i j); [by apply prefix_app_r|auto].
  - destruct Hm as (E & Hm & _). split_and!; [done..|].
    pose proof (prefix_next base j e Hb E He) as Hp.
    apply (worker_advances j ws Hw i (base ++ [e])); [done|]. apply Hm.
    destruct Hp as [l ->]. unfold zlen in *. rewrite !length_app in Hl. cbn [length] in Hl. lia.
  - destruct Hm as (_ & _ & Hm). split_and!; [done..|]. by apply (worker_advances j ws Hw i base).
Qed.

Lemma world_ok_reachable {A} (starts : cprog A -> Prop) w0 w : (forall m, starts m -> sound [] m) ->
  world_ok w0 -> world_reachable starts w0 w -> world_ok w.
Proof. intros Hs H0 Hr. induction Hr; [done|]. by eapply world_step_ok. Qed.
End Judgement.

(** * The programs *)

Section Programs.
Variables (p : CollectionPlan) (enabled : bool).
Hypothesis Hkeys : NoDup (map decision_key (decisions p)).
Let pd := plan_digest p.

Lemma sound_cbind {A B} jd base (m : cprog A) (k : A -> cprog B) : (forall a, exists b, k a = CRet b) ->
  sound p enabled jd base m -> sound p enabled jd base (cbind m k).
Proof.
  intros Hk. revert base. induction m as [a|key next IH|key o next IH|d next IH|e next IH]; intros base; cbn [sound cbind].
  - intros _. destruct (Hk a) as [b ->]. done.
  - auto.
  - intros [? ?]. auto.
  - intros (? & ? & ?). split_and!; auto.
  - intros (? & Hd & ?). split_and!; [done| |auto]. intros Hlt. destruct (Hd Hlt). auto.
Qed.

Lemma find_decision (ds : list BlobDecision) d : NoDup (map decision_key ds) -> In d ds ->
  List.find (fun d' => bool_decide (decision_key d' = decision_key d)) ds = Some d.
Proof.
  induction ds as [|x ds IH]; [done|]. cbn [map List.find]. intros [Hx Hnd]%NoDup_cons [->|Hin].
  - by rewrite bool_decide_true.
  - case_bool_decide as E; [|auto]. destruct Hx. rewrite E. apply list_elem_of_In. by apply in_map.
Qed.

Definition eligible_decision (d : BlobDecision) : Prop := In d (decisions p) /\ eligible d = true.

Lemma eligible_decision_key d : eligible_decision d -> In (decision_key d) (eligible_blobs p).
Proof. intros [Hin He]. unfold eligible_blobs. apply in_map, filter_In. by split. Qed.

Definition in_step (j : Journal) (base : list CollectionAuditEvent) : Prop :=
  next_sequence j = zlen base /\ last_digest j = event_digest <$> last base.

Lemma append_sound {A} jd d j base o (k : Journal -> cprog (stored A)) : eligible_decision d -> in_step j base ->
  (forall e j', event_plan e = pd -> event_key e = decision_key d -> event_outcome e = o -> in_step j' (base ++ [e]) ->
     sound p enabled jd (base ++ [e]) (k j')) ->
  sound p enabled jd base (append_audit_event pd j (decision_key d) o k).
Proof.
  intros [Hin He] [Hn Hd] Hk. unfold append_audit_event. cbv zeta. cbn [sound sequence]. split_and!; [done| |done].
  intros Hlt. split.
  - split_and!; [done|by rewrite Hn|by rewrite Hd|]. exists d. cbn [event_key]. split; [by apply find_decision|done].
  - apply Hk; [done..|]. unfold in_step. cbn [next_sequence last_digest]. rewrite last_snoc. split; [|done].
    rewrite zlen_app, zlen_cons, Hn. unfold U64_MAX in Hlt. change (zlen []) with 0. lia.
Qed.

Lemma resumable_loop_sound jd completed ds j base outcomes removed : Forall eligible_decision ds -> in_step j base ->
  sound p enabled jd base (resumable_loop enabled p pd completed ds j outcomes removed).
Proof.
  intros Hds. revert j base outcomes removed. induction Hds as [|d ds Hd _ IH]; intros j base outcomes removed Hj;
    cbn [resumable_loop]; [done|].
  case_bool_decide; [by apply IH|]. cbv zeta.
  destruct (negb enabled) eqn:Een; [apply append_sound; [done..|]; intros; by apply IH|]. apply negb_false_iff in Een.
  destruct (expected_metadata p (decision_key d)) as [w|] eqn:Ew; [|apply append_sound; [done..|]; intros; by apply IH].
  cbn [sound]. intros [o|er]; [|apply append_sound; [done..|]; intros; by apply IH].
  destruct (metadata_matches w o) eqn:Em; cbn [negb]; [|apply append_sound; [done..|]; intros; by apply IH].
  apply append_sound; [done..|]. intros e j' E1 E2 E3 Hj'. cbn [sound]. split.
  - split_and!; [done|by apply eligible_decision_key|by exists w|]. intros _. exists e.
    split_and!; [|done..]. apply elem_of_app. right. by apply list_elem_of_singleton.
  - intros r. apply append_sound; [done..|]. intros. by apply IH.
Qed.

Lemma eligible_decisions : Forall eligible_decision (List.filter eligible (decisions p)).
Proof. apply Forall_forall. intros d Hd%list_elem_of_In. by apply filter_In in Hd. Qed.

Lemma execute_resumable_sound jd : sound p enabled jd [] (execute_resumable enabled p).
Proof.
  unfold execute_resumable. cbv zeta. cbn [sound]. split_and!; [done|done|]. intros l Hl Hlen.
  unfold chained in Hl. rewrite Hl. apply sound_cbind.
  - intros [[outcomes removed]|e]; by eexists.
  - apply resumable_loop_sound; [apply eligible_decisions|done].
Qed.

Lemma execute_loop_sound base ds outcomes removed : Forall eligible_decision ds ->
  sound p enabled false base (execute_loop enabled p ds outcomes removed).
Proof.
  intros Hds. revert outcomes removed. induction Hds as [|d ds Hd _ IH]; intros outcomes removed; cbn [execute_loop]; [done|].
  cbv zeta. destruct (negb enabled) eqn:Een; [apply IH|]. apply negb_false_iff in Een.
  destruct (expected_metadata p (decision_key d)) as [w|] eqn:Ew; [|apply IH].
  cbn [sound]. intros [o|er]; [|apply IH]. destruct (metadata_matches w o) eqn:Em; cbn [negb]; [|apply IH].
  cbn [sound]. split; [|intros; apply IH]. split_and!; [done|by apply eligible_decision_key|by exists w|done].
Qed.

Lemma execute_sound : sound p enabled false [] (execute enabled p).
Proof.
  unfold execute. apply sound_cbind; [intros [outcomes removed]; by eexists|]. apply execute_loop_sound, eligible_decisions.
Qed.
End Programs.

(** A disabled worker never deletes, so it is sound for any configuration. *)
Lemma sound_disabled {A} p jd en base (m : cprog A) : sound p false jd base m -> sound p en jd base m.
Proof.
  revert base. induction m as [a|key next IH|key o next IH|d next IH|e next IH]; intros base; cbn [sound]; [done|auto|..].
  - intros [[H _] _]. done.
  - intros (? & ? & ?). split_and!; auto.
  - intros (? & Hd & ?). split_and!; [done| |auto]. intros Hlt. destruct (Hd Hlt). auto.
Qed.

Lemma build_keys first second items at_ p : timestamp_grammar (completed_at first) = true ->
  timestamp_grammar (completed_at second) = true -> build first second items at_ = Ok p ->
  NoDup (map decision_key (decisions p)) /\
  (forall key, In key (eligible_blobs p) -> exists l, blobs first !! key = Some l /\
     expected_metadata p key = Some (mkMetadata (entry_size l) (entry_observation l))).
Proof.
  intros G1 G2 (_ & view & _ & ->)%build_Ok; [|done..]. cbn [decisions]. split.
  - rewrite map_map. cbn [decide_blob decision_key]. rewrite map_id.
    rewrite (sort_by_perm text_leb). apply NoDup_elements.
  - intros key Hk. rewrite (build_eligible view at_ first second) in Hk by done.
    apply decide_blob_eligible in Hk as ((l & r & Hl & _) & _). exists l. split; [done|].
    unfold expected_metadata. cbn [expected]. by rewrite (lookup_union_Some_l _ _ _ _ Hl).
Qed.

(** * Answered programs *)

Inductive call :=
| Inspected (key : list Z) (r : stored ObjectMetadata)
| Deletion (key : list Z) (observed : ObjectMetadata) (r : stored unit)
| Loaded (r : stored (list CollectionAuditEvent))
| Appended (e : CollectionAuditEvent) (r : stored unit).

(** The program made these calls, was answered so, and returned. *)
Inductive answered {A} : cprog A -> list call -> A -> Prop :=
| answered_ret a : answered (CRet a) [] a
| answered_inspect key next r tr a : answered (next r) tr a -> answered (InspectBlob key next) (Inspected key r :: tr) a
| answered_delete key o next r tr a : answered (next r) tr a -> answered (DeleteBlob key o next) (Deletion key o r :: tr) a
| answered_load d next r tr a : answered (next r) tr a -> answered (LoadEvents d next) (Loaded r :: tr) a
| answered_append e next r tr a : answered (next r) tr a -> answered (AppendEvent e next) (Appended e r :: tr) a.

(** The blobs whose deletion was confirmed. *)
Fixpoint deletions (tr : list call) : list (list Z) :=
  match tr with
  | [] => []
  | Deletion key _ (Done _) :: tr => key :: deletions tr
  | _ :: tr => deletions tr
  end.

(** The blobs whose deletion was asked for. *)
Fixpoint requested (tr : list call) : list (list Z) :=
  match tr with
  | [] => []
  | Deletion key _ _ :: tr => key :: requested tr
  | _ :: tr => requested tr
  end.

Lemma answered_cbind {A B} (m : cprog A) (k : A -> cprog B) tr b : answered (cbind m k) tr b ->
  exists tr1 tr2 a, tr = tr1 ++ tr2 /\ answered m tr1 a /\ answered (k a) tr2 b.
Proof.
  revert tr. induction m as [a|key next IH|key o next IH|d next IH|e next IH]; intros tr; cbn [cbind];
    [intros Hk; exists [], tr, a; (split_and!; [done|constructor|done])|..];
    inversion 1; subst;
    match goal with Hn : answered (cbind _ _) _ _ |- _ => apply IH in Hn as (tr1 & tr2 & a' & -> & H1 & H2) end;
    eexists (_ :: tr1), tr2, a'; (split_and!; [done|by constructor|done]).
Qed.

Lemma answered_ret_inv {A} (a b : A) tr : answered (CRet a) tr b -> tr = [] /\ a = b.
Proof. by inversion 1. Qed.

Section Inversion.
Context {A : Type} (tr : list call) (a : A).

Lemma answered_inspect_inv key next : answered (InspectBlob key next) tr a ->
  exists r tr', tr = Inspected key r :: tr' /\ answered (next r) tr' a.
Proof. inversion 1; subst; eauto. Qed.

Lemma answered_delete_inv key o next : answered (DeleteBlob key o next) tr a ->
  exists r tr', tr = Deletion key o r :: tr' /\ answered (next r) tr' a.
Proof. inversion 1; subst; eauto. Qed.

Lemma answered_load_inv d next : answered (LoadEvents d next) tr a ->
  exists r tr', tr = Loaded r :: tr' /\ answered (next r) tr' a.
Proof. inversion 1; subst; eauto. Qed.

Lemma answered_append_inv e next : answered (AppendEvent e next) tr a ->
  exists r tr', tr = Appended e r :: tr' /\ answered (next r) tr' a.
Proof. inversion 1; subst; eauto. Qed.
End Inversion.

Definition confirmed (outcomes : list (list Z * ActionOutcome)) : list (list Z) :=
  map fst (List.filter (fun a => bool_decide (a.2 = Deleted)) outcomes).

Lemma confirmed_cons key o outcomes :
  confirmed ((key, o) :: outcomes) = (if bool_decide (o = Deleted) then [key] else []) ++ confirmed outcomes.
Proof. unfold confirmed. cbn [List.filter snd]. by case_bool_decide. Qed.

Lemma delete_outcome_Deleted r : delete_outcome r = Deleted <-> r = Done tt.
Proof. destruct r as [[]|e]; cbn; [done|]. by destruct (kind e). Qed.

Section Reports.
Variables (enabled : bool) (p : CollectionPlan).

Lemma execute_loop_answered ds outs rem tr res : answered (execute_loop enabled p ds outs rem) tr res ->
  exists o, res.1 = outs ++ o /\ map fst o = map decision_key ds /\ res.2 = rem ++ deletions tr /\
    deletions tr = confirmed o /\ (enabled = false -> tr = [] /\ Forall (fun a => a.2 = Disabled) o).
Proof.
  revert outs rem tr. induction ds as [|d ds IH]; intros outs rem tr; cbn [execute_loop].
  { intros [-> <-]%answered_ret_inv. exists []. cbn. rewrite !app_nil_r. split_and!; try done. }
  cbv zeta. set (key := decision_key d).
  assert (Hrec : forall out tr', out <> Deleted -> (enabled = false -> out = Disabled) ->
    answered (execute_loop enabled p ds (outs ++ [(key, out)]) rem) tr' res ->
    exists o, res.1 = outs ++ o /\ map fst o = map decision_key (d :: ds) /\ res.2 = rem ++ deletions tr' /\
      deletions tr' = confirmed o /\ (enabled = false -> tr' = [] /\ Forall (fun a => a.2 = Disabled) o)).
  { intros out tr' Hne Hdis (o & E1 & E2 & E3 & E4 & E5)%IH. exists ((key, out) :: o). rewrite confirmed_cons, bool_decide_false by done.
    rewrite <- app_assoc in E1. cbn [map fst]. split_and!; [done|by rewrite E2|done|done|].
    intros Hen. destruct (E5 Hen). split; [done|]. constructor; [by apply Hdis|done]. }
  destruct (negb enabled) eqn:Een; [by apply Hrec|]. apply negb_false_iff in Een.
  destruct (expected_metadata p key) as [w|]; [|apply Hrec; [done|by rewrite Een]].
  intros (r & tr1 & -> & H1)%answered_inspect_inv. cbn [deletions].
  assert (Hen : enabled <> false) by (by rewrite Een).
  destruct r as [o|e]; [|by apply Hrec in H1 as (o & ? & ? & ? & ? & _); [|done..]; exists o].
  destruct (metadata_matches w o); cbn [negb] in H1;
    [|by apply Hrec in H1 as (o' & ? & ? & ? & ? & _); [|done..]; exists o'].
  apply answered_delete_inv in H1 as (r & tr2 & -> & (o' & E1 & E2 & E3 & E4 & E5)%IH).
  exists ((key, delete_outcome r) :: o'). rewrite confirmed_cons, <- app_assoc in *. cbn [map fst deletions].
  split_and!; [done|by rewrite E2| | |done].
  - destruct r; [by rewrite E3, <- app_assoc|done].
  - destruct r as [[]|e]; [by rewrite E4|]. rewrite bool_decide_false; [done|]. by intros ?%delete_outcome_Deleted.
Qed.

Lemma append_answered {A} pd j key out (k : Journal -> cprog (stored A)) tr res :
  answered (append_audit_event pd j key out k) tr res ->
  exists e r tr', tr = Appended e r :: tr' /\
    match r with Done _ => exists j', answered (k j') tr' res | Fail er => tr' = [] /\ res = Fail er end.
Proof.
  unfold append_audit_event. cbv zeta. intros (r & tr' & -> & H)%answered_append_inv. eexists _, r, tr'. split; [done|].
  destruct r; [eauto|]. by apply answered_ret_inv in H as [-> <-].
Qed.

(** What one run of the loop over [ds] did. *)
Definition resumed (completed : gset (list Z)) (ds : list BlobDecision) (outs : list (list Z * ActionOutcome))
    (rem : list (list Z)) (tr : list call) (res : stored (list (list Z * ActionOutcome) * list (list Z))) : Prop :=
  (forall k, In k (requested tr) -> enabled = true /\ k ∉ completed /\ In k (map decision_key ds)) /\
  match res with
  | Fail _ => True
  | Done (outs', rem') => exists o, outs' = outs ++ o /\ map fst o = map decision_key ds /\ rem' = rem ++ deletions tr /\
      (forall k, In k (confirmed o) <-> (In k (map decision_key ds) /\ k ∈ completed) \/ In k (deletions tr))
  end.

Lemma resumed_step completed d ds outs rem out rem1 c tr res :
  (d.(decision_key) ∈ completed -> c = [] /\ out = Deleted /\ rem1 = rem) ->
  (d.(decision_key) ∉ completed -> (out = Deleted <-> deletions c = [decision_key d]) /\
     rem1 = rem ++ deletions c /\ (deletions c = [] \/ deletions c = [decision_key d]) /\
     (requested c = [] \/ enabled = true /\ requested c = [decision_key d])) ->
  (forall tr, deletions (c ++ tr) = deletions c ++ deletions tr /\ requested (c ++ tr) = requested c ++ requested tr) ->
  resumed completed ds (outs ++ [(decision_key d, out)]) rem1 tr res ->
  resumed completed (d :: ds) outs rem (c ++ tr) res.
Proof.
  intros Hin Hout Happ [Hq Hres]. destruct (Happ tr) as [Ed Eq]. unfold resumed. rewrite Ed, Eq. split.
  - intros k [Hk|Hk]%in_app_or.
    + destruct (decide (decision_key d ∈ completed)) as [Hc|Hc]; [destruct (Hin Hc) as (-> & _); done|].
      destruct (Hout Hc) as (_ & _ & _ & [E|[Een E]]); rewrite E in Hk; [done|]. destruct Hk as [<-|[]].
      split_and!; [done..|by left].
    + destruct (Hq k Hk) as (? & ? & ?). split_and!; [done..|by right].
  - destruct res as [[outs' rem']|]; [|done]. destruct Hres as (o & -> & Em & -> & Hc).
    exists ((decision_key d, out) :: o). rewrite confirmed_cons, <- app_assoc. cbn [map fst].
    split_and!; [done|by rewrite Em| |].
    + destruct (decide (decision_key d ∈ completed)) as [Hd|Hd].
      * destruct (Hin Hd) as (-> & _ & ->). done.
      * destruct (Hout Hd) as (_ & -> & _). by rewrite app_assoc.
    + intros k. rewrite !in_app_iff, Hc. cbn [In].
      destruct (decide (decision_key d ∈ completed)) as [Hd|Hd].
      * destruct (Hin Hd) as (-> & -> & _). rewrite bool_decide_true by done. cbn. split.
        -- intros [[<-|[]]|[[? ?]|?]]; [left; by split; [left|]|left; by split; [right|]|by right; right].
        -- intros [[[<-|?] ?]|[[]|?]]; [left; by left|right; by left|right; by right].
      * destruct (Hout Hd) as (Hiff & _ & Hor & _). case_bool_decide as Eo.
        -- apply Hiff in Eo. rewrite Eo. cbn. split.
           ++ intros [[<-|[]]|[[? ?]|?]]; [right; left; by left|left; by split; [right|]|by right; right].
           ++ intros [[[<-|?] ?]|[[<-|[]]|?]]; [done|right; by left|left; by left|right; by right].
        -- destruct Hor as [E|E]; [|by apply Hiff in E]. rewrite E. cbn. split.
           ++ intros [[]|[[? ?]|?]]; [left; by split; [right|]|by right; right].
           ++ intros [[[<-|?] ?]|[[]|?]]; [done|right; by left|right; by right].
Qed.

Lemma resumable_loop_answered pd completed ds j outs rem tr res :
  answered (resumable_loop enabled p pd completed ds j outs rem) tr res -> resumed completed ds outs rem tr res.
Proof.
  revert j outs rem tr. induction ds as [|d ds IH]; intros j outs rem tr; cbn [resumable_loop].
  { intros [-> <-]%answered_ret_inv. split; [done|]. exists []. cbn. rewrite !app_nil_r. split_and!; try done.
    intros k. split; [done|]. by intros [[[] _]|[]]. }
  set (key := decision_key d). case_bool_decide as Hc.
  { intros H%IH. by apply (resumed_step completed d ds outs rem Deleted rem [] tr res). }
  assert (Hplain : forall c j out tr', (forall tr, deletions (c ++ tr) = deletions tr /\ requested (c ++ tr) = requested tr) ->
    out <> Deleted ->
    answered (append_audit_event pd j key out (fun j => resumable_loop enabled p pd completed ds j (outs ++ [(key, out)]) rem))
      tr' res -> resumed completed (d :: ds) outs rem (c ++ tr') res).
  { intros c j1 out tr' Hcs Hne (e & r & tr2 & -> & Hr)%append_answered. destruct r as [x|er].
    - destruct Hr as [j2 Hr%IH]. rewrite (cons_middle _ c tr2).
      assert (Hs : forall tr, deletions ((c ++ [Appended e (Done x)]) ++ tr) = deletions tr /\
        requested ((c ++ [Appended e (Done x)]) ++ tr) = requested tr).
      { intros t. rewrite <- app_assoc. destruct (Hcs ([Appended e (Done x)] ++ t)) as [-> ->]. done. }
      destruct (Hs []) as [E1 E2]. rewrite app_nil_r in E1, E2. rewrite (app_assoc c).
      apply (resumed_step completed d ds outs rem out rem); [done| | |done].
      + intros _. rewrite E1, E2. cbn. rewrite app_nil_r. split_and!; [split; done|done|by left|by left].
      + intros t. rewrite E1, E2. apply Hs.
    - destruct Hr as [-> ->]. split; [|done]. destruct (Hcs [Appended e (Fail er)]) as [_ ->]. done. }
  cbv zeta. destruct (negb enabled) eqn:Een; [by apply (Hplain [])|]. apply negb_false_iff in Een.
  destruct (expected_metadata p key) as [w|]; [|by apply (Hplain [])].
  intros (r & tr1 & -> & H)%answered_inspect_inv.
  destruct r as [o|e]; [|by apply (Hplain [Inspected key (Fail e)]) in H].
  destruct (metadata_matches w o); cbn [negb] in H; [|by apply (Hplain [Inspected key (Done o)]) in H].
  apply append_answered in H as (e1 & r1 & tr2 & -> & H). destruct r1 as [x1|]; [|by destruct H as [-> ->]].
  destruct H as [j1 (r2 & tr3 & -> & H)%answered_delete_inv].
  apply append_answered in H as (e2 & r3 & tr4 & -> & H).
  set (c := [Inspected key (Done o); Appended e1 (Done x1); Deletion key o r2; Appended e2 r3]).
  change (resumed completed (d :: ds) outs rem (c ++ tr4) res).
  destruct r3 as [x3|er].
  - destruct H as [j2 H%IH].
    apply (resumed_step completed d ds outs rem (delete_outcome r2) (match r2 with Done _ => rem ++ [key] | Fail _ => rem end));
      [done| | |done].
    + intros _. rewrite delete_outcome_Deleted. subst c. destruct r2 as [[]|e']; cbn; rewrite ?app_nil_r;
        (split_and!; [split; done|done|by (left + right)|by right]).
    + intros t. subst c. by destruct r2.
  - destruct H as [-> ->]. split; [|done]. subst c. cbn. intros k [<-|[]]. split_and!; [done..|by left].
Qed.
End Reports.

(** * Theorems *)

(** The workers of one plan, some of them perhaps enabled. *)
Definition resumable_worker (p : CollectionPlan) (enabled : bool) (m : cprog (stored CollectionReport)) : Prop :=
  exists en, (en = true -> enabled = true) /\ m = execute_resumable en p.

Definition plain_worker (p : CollectionPlan) (enabled : bool) (m : cprog CollectionReport) : Prop :=
  exists en, (en = true -> enabled = true) /\ m = execute en p.

(** The object the first scan froze under this key. *)
Definition frozen_object (s : ReferenceScan) (key : list Z) (m : ObjectMetadata) : Prop :=
  exists l, blobs s !! key = Some l /\ entry_size l = meta_size m /\
    etag (entry_observation l) = etag (meta_observation m) /\
    storage_version (entry_observation l) = storage_version (meta_observation m) /\
    (is_Some (etag (entry_observation l)) \/ is_Some (storage_version (entry_observation l))).

Section Safety.
Context (first second : ReferenceScan) (items : list OccurrenceRetention) (at_ : list Z) (p : CollectionPlan).
Hypothesis Hfirst : timestamp_grammar (completed_at first) = true.
Hypothesis Hsecond : timestamp_grammar (completed_at second) = true.
Hypothesis Hbuild : build first second items at_ = Ok p.

Lemma deletable_frozen enabled jd j key m : deletable p enabled jd j key m ->
  enabled = true /\ In key (eligible_blobs p) /\ frozen_object first key m /\ (jd = true -> pending p j key).
Proof.
  destruct (build_keys _ _ _ _ _ Hfirst Hsecond Hbuild) as [_ Hexp]. intros (Hen & Hk & (w & Hw & Hm) & Hp).
  destruct (Hexp key Hk) as (l & Hl & He). split_and!; [done..| |done]. exists l. split; [done|].
  rewrite He in Hw. injection Hw as <-. by apply metadata_matches_iff in Hm.
Qed.

Lemma workers_safe {A} jd enabled (starts : cprog A -> Prop) os j w : (forall m, starts m -> sound p enabled jd [] m) ->
  chained p (plan_digest p) j -> zlen j <= U64_MAX -> world_reachable starts (mkWorld os j [] ∅) w ->
  chained p (plan_digest p) (journal w) /\
  forall key m, (key, m) ∈ removals w ->
    enabled = true /\ In key (eligible_blobs p) /\ frozen_object first key m /\ (jd = true -> pending p (journal w) key).
Proof.
  intros Hs Hj Hl Hr.
  apply (world_ok_reachable p enabled jd starts) in Hr as (Hc & _ & Hrem & _); [|done|].
  - split; [done|]. intros key m Hin. rewrite Forall_forall in Hrem. by apply deletable_frozen, (Hrem _ Hin).
  - split_and!; [done..| |apply map_Forall_empty]. constructor.
Qed.
End Safety.

(** C12: Whatever answers the store and the journal give, whatever other writers do, wherever
    workers stop: the journal stays a valid chain of the plan, and each object that
    collectors removed was eligible, was still the object the scans froze, was removed
    by an enabled collector, and its removal was announced in the journal. *)
Theorem collection_safe first second items at_ p enabled os j w :
  timestamp_grammar (completed_at first) = true -> timestamp_grammar (completed_at second) = true ->
  build first second items at_ = Ok p -> chained p (plan_digest p) j -> zlen j <= U64_MAX ->
  world_reachable (resumable_worker p enabled) (mkWorld os j [] ∅) w ->
  chained p (plan_digest p) (journal w) /\
  forall key m, (key, m) ∈ removals w ->
    enabled = true /\ In key (eligible_blobs p) /\ frozen_object first key m /\ pending p (journal w) key.
Proof.
  intros G1 G2 Hb Hj Hl Hr. destruct (build_keys _ _ _ _ _ G1 G2 Hb) as [Hk _].
  destruct (workers_safe first second items at_ p G1 G2 Hb true enabled (resumable_worker p enabled) os j w) as [Hc Hrem]; [|done..|].
  - intros m ([] & Hen & ->); [rewrite (Hen eq_refl)|apply sound_disabled]; by apply execute_resumable_sound.
  - split; [done|]. intros key m Hin. destruct (Hrem key m Hin) as (? & ? & ? & Hp). split_and!; auto.
Qed.

(** The same for [execute], which keeps no journal and so announces nothing. *)
Theorem plain_collection_safe first second items at_ p enabled os w :
  timestamp_grammar (completed_at first) = true -> timestamp_grammar (completed_at second) = true ->
  build first second items at_ = Ok p ->
  world_reachable (plain_worker p enabled) (mkWorld os [] [] ∅) w ->
  forall key m, (key, m) ∈ removals w -> enabled = true /\ In key (eligible_blobs p) /\ frozen_object first key m.
Proof.
  intros G1 G2 Hb Hr key m Hin.
  destruct (workers_safe first second items at_ p G1 G2 Hb false enabled (plain_worker p enabled) os [] w) as [_ Hrem]; [|done..|].
  - intros x ([] & Hen & ->); [rewrite (Hen eq_refl)|apply sound_disabled]; apply execute_sound.
  - destruct (Hrem key m Hin) as (? & ? & ? & _). by split_and!.
Qed.

(** The keys of the events that say a blob was deleted. *)
Definition already_deleted (events : list CollectionAuditEvent) : gset (list Z) :=
  list_to_set (map event_key (List.filter (fun e => bool_decide (event_outcome e = Deleted)) events)).

(** The reports tell what happened.  An execution's evidence has one outcome per eligible
    blob in plan order and its deleted list is the deletions the store confirmed; a
    disabled one calls nothing.  A resumed execution loads the journal first, asks for no
    deletion the journal already completed, and its report adds the confirmed deletions
    to those.  A simulation deletes nothing. *)
Theorem collection_reports_exact enabled p :
  (forall tr rep, answered (execute enabled p) tr rep -> exists outcomes,
     evidence rep = render_evidence p (lit "execution") enabled outcomes /\ map fst outcomes = eligible_blobs p /\
     deleted rep = deletions tr /\ deleted rep = confirmed outcomes /\
     (enabled = false -> tr = [] /\ Forall (fun a => a.2 = Disabled) outcomes)) /\
  (forall tr res, answered (execute_resumable enabled p) tr res -> exists loaded tr', tr = Loaded loaded :: tr' /\
     match loaded with
     | Fail e => tr' = [] /\ res = Fail e
     | Done events =>
         (validate_audit_chain p (plan_digest p) events <> Done tt -> tr' = [] /\ exists e, res = Fail e) /\
         (forall key, In key (requested tr') -> enabled = true /\ key ∉ already_deleted events /\ In key (eligible_blobs p)) /\
         (forall rep, res = Done rep -> exists outcomes,
            evidence rep = render_evidence p (lit "execution") enabled outcomes /\ map fst outcomes = eligible_blobs p /\
            deleted rep = sort_by text_leb (elements (already_deleted events)) ++ deletions tr' /\
            (forall key, In key (confirmed outcomes) <->
               (In key (eligible_blobs p) /\ key ∈ already_deleted events) \/ In key (deletions tr')))
     end) /\
  deleted (simulate enabled p) = [].
Proof.
  split_and!.
  - intros tr rep (tr1 & tr2 & [outcomes removed] & -> & H1 & H2)%answered_cbind.
    apply answered_ret_inv in H2 as [-> <-]. apply execute_loop_answered in H1 as (o & E1 & E2 & E3 & E4 & E5).
    cbn [fst snd app] in E1, E3. subst. exists o. rewrite app_nil_r. by split_and!.
  - intros tr res (r & tr' & -> & H)%answered_load_inv. exists r, tr'. split; [done|].
    destruct r as [events|e]; [|by apply answered_ret_inv in H as [-> <-]].
    destruct (validate_audit_chain p (plan_digest p) events) as [[]|e] eqn:Ev.
    + apply answered_cbind in H as (tr1 & tr2 & r & -> & [Hq H1]%resumable_loop_answered & H2).
      assert (tr2 = []) as -> by (destruct r as [[]|]; by apply answered_ret_inv in H2 as [-> _]).
      rewrite app_nil_r. split_and!; [done| |].
      * intros key Hk. destruct (Hq key Hk) as (? & ? & ?). by split_and!.
      * intros rep ->. destruct r as [[outs removed]|]; [|by inversion H2].
        apply answered_ret_inv in H2 as [_ [= <-]]. destruct H1 as (o & -> & E2 & -> & E3). by exists o.
    + apply answered_ret_inv in H as [-> <-]. split_and!; [intros _; split; [done|]; by exists e|done|done].
  - unfold simulate, report. cbn [deleted]. induction (List.filter eligible (decisions p)) as [|d ds IH]; [done|].
    cbn [map List.filter snd]. by rewrite bool_decide_false.
Qed.
