(* ===== verification/CollectionWitness.v ===== *)
(** The theorems on collection at work: a tenant with two blobs, one of them released;
    a worker that deletes it and a report that says so. *)

From stdpp Require Import gmap.
From S2P Require Import Prelude Text Json Sha256 Vocabulary Derivation ObjectKey Records Authority Store FrozenInventory Collection CollectionSafety CollectionRun.

Open Scope Z_scope.

(** * Two enumerations of one tenant *)

Definition acme : list Z := lit "3f1c2a9e-7b54-4d21-9a6e-0c8f1b2d3e4f".
Definition released_key : list Z :=
  lit "tenants/3f1c2a9e-7b54-4d21-9a6e-0c8f1b2d3e4f/v1/raw/blobs/zstd-v1/sha256/00/0000000000000000000000000000000000000000000000000000000000000000.zst".
Definition kept_key : list Z :=
  lit "tenants/3f1c2a9e-7b54-4d21-9a6e-0c8f1b2d3e4f/v1/raw/blobs/zstd-v1/sha256/11/1111111111111111111111111111111111111111111111111111111111111111.zst".

Definition seen_at (t : list Z) (etag : list Z) : Observation := mkObservation (Some etag) None t.
Definition day1 : list Z := lit "2026-01-01T00:00:00Z".
Definition day2 : list Z := lit "2026-01-02T00:00:00.5Z".

Definition entry_of (key t : list Z) : InventoryEntry := mkInventoryEntry key 7 (seen_at t (lit "e1")).
Definition one_page (t : list Z) : list (stored InventoryPage) :=
  [Done (mkPage [entry_of kept_key t; entry_of released_key t] None)].
Definition two_pages (t : list Z) : list (stored InventoryPage) :=
  [Done (mkPage [entry_of released_key t] (Some (lit "t1"))); Done (mkPage [entry_of kept_key t] None)].

Definition frozen (t : list Z) : FrozenInventory :=
  let es := [entry_of released_key t; entry_of kept_key t] in
  mkFrozen (TenantRaw acme) es (compute_digest (TenantRaw acme) es).

Lemma one_page_frozen : from_pages (TenantRaw acme) (one_page day1) = Done (frozen day1).
Proof.
  apply from_pages_Done. exists [mkPage [entry_of kept_key day1; entry_of released_key day1] None], [].
  split_and!; [done|done| |repeat constructor|by apply (bool_decide_unpack _); vm_compute|].
  - exists [], (mkPage [entry_of kept_key day1; entry_of released_key day1] None). split_and!; [done..|constructor].
  - assert (E : sort_by entry_leb (all_entries [mkPage [entry_of kept_key day1; entry_of released_key day1] None]) =
      [entry_of released_key day1; entry_of kept_key day1]) by (vm_compute; reflexivity).
    rewrite E. reflexivity.
Qed.

Lemma two_pages_frozen : from_pages (TenantRaw acme) (two_pages day1) = Done (frozen day1).
Proof.
  apply from_pages_Done.
  exists [mkPage [entry_of released_key day1] (Some (lit "t1")); mkPage [entry_of kept_key day1] None], [lit "t1"].
  split_and!; [done|done| |repeat constructor|by apply (bool_decide_unpack _); vm_compute|].
  - exists [mkPage [entry_of released_key day1] (Some (lit "t1"))], (mkPage [entry_of kept_key day1] None).
    split_and!; [done..|]. apply NoDup_singleton.
  - assert (E : sort_by entry_leb (all_entries [mkPage [entry_of released_key day1] (Some (lit "t1"));
        mkPage [entry_of kept_key day1] None]) = [entry_of released_key day1; entry_of kept_key day1]) by (vm_compute; reflexivity).
    rewrite E. reflexivity.
Qed.

Lemma ascii_field t : forallb (fun c => in_range 0 c 0x7F) t && (zlen (as_bytes t) <? u64_modulus) = true ->
  wf_field (FText t).
Proof. intros [Ha Hl%Z.ltb_lt]%andb_true_iff. split; [by apply ascii_scalar|done]. Qed.

Lemma frozen_entries_wf : Forall wf_entry (entries (frozen day1)) /\
  Forall wf_field (inventory_frame (TenantRaw acme) (entries (frozen day1))).
Proof.
  assert (Hf : Forall wf_field (inventory_frame (TenantRaw acme) (entries (frozen day1)))).
  { repeat constructor; try (apply ascii_field; vm_compute; reflexivity); vm_compute; try done; by intros. }
  split; [|done]. unfold inventory_frame in Hf. cbn [entries frozen flat_map app] in Hf.
  apply Forall_cons in Hf as [_ Hf]. apply Forall_cons in Hf as [_ Hf].
  apply Forall_app in Hf as [H1 Hf]. apply Forall_app in Hf as [H2 _].
  repeat constructor; done.
Qed.

(** Two enumerations, paged and ordered differently, freeze to one inventory. *)
Lemma inventory_canonical_witness : exists inv inv',
  from_pages (TenantRaw acme) (one_page day1) = Done inv /\ from_pages (TenantRaw acme) (two_pages day1) = Done inv' /\
  inv = inv'.
Proof.
  exists (frozen day1), (frozen day1). split; [exact one_page_frozen|]. split; [exact two_pages_frozen|].
  destruct frozen_entries_wf as [We Wf].
  destruct (inventory_canonical (TenantRaw acme) (one_page day1) (two_pages day1) (frozen day1) (frozen day1)
    one_page_frozen two_pages_frozen We We Wf Wf) as (_ & _ & H).
  apply H. reflexivity.
Defined.

(** * A plan *)

Definition scan_of (t dg : list Z) : ReferenceScan :=
  mkScan acme t dg
    (<[kept_key := entry_of kept_key t]> (<[released_key := entry_of released_key t]> ∅))
    (<[lit "o2" := mkReference (lit "o2") kept_key]> (<[lit "o1" := mkReference (lit "o1") released_key]> ∅)).

(** The scan the code builds of the frozen inventory. *)
Lemma scan_of_new dg :
  match ReferenceScan_new (mkFrozen (TenantRaw acme) [entry_of released_key day1; entry_of kept_key day1] dg) day1
    [mkReference (lit "o1") released_key; mkReference (lit "o2") kept_key] with
  | Ok s => Some (tenant s, completed_at s, map_to_list (blobs s), map_to_list (references s))
  | _ => None
  end = let s := scan_of day1 dg in Some (tenant s, completed_at s, map_to_list (blobs s), map_to_list (references s)).
Proof. vm_compute. reflexivity. Qed.

(** The first occurrence was tombstoned in November; nothing is said of the second. *)
Definition view : list OccurrenceRetention :=
  [mkOccurrenceRetention (lit "o1") released_key (mkRetention (Some (lit "2025-11-01T00:00:00Z")) false)].
Definition now : list Z := lit "2026-01-03T00:00:00Z".

(** Two scans of [one_page], with their digests. *)
Definition first_of (dg : list Z) : ReferenceScan := scan_of day1 dg.
Definition second_of (dg : list Z) : ReferenceScan := scan_of day2 dg.

Definition plan (d1 d2 : list Z) : CollectionPlan :=
  mkPlan (tenant (first_of d1)) now (first_of d1) (second_of d2)
    [mkDecision released_key []; mkDecision kept_key [RetainedReferenceFirstScan; RetainedReferenceSecondScan]]
    (blobs (first_of d1) ∪ blobs (second_of d2)).

Lemma build_with first second items at_ m i1 i2 ds : tenant first = tenant second -> calendar_valid at_ = true ->
  instant (completed_at first) = Some i1 -> instant (completed_at second) = Some i2 ->
  instant_le i2 i1 || (i2.1 - i1.1 <? MIN_SCAN_SEPARATION_SECONDS) = false ->
  fold_retention (blob_prefix (tenant first)) items ∅ = Ok m ->
  map (decide_blob m at_ first second (retained_blobs m at_ first second))
    (sort_by text_leb (elements (dom (blobs first) ∪ dom (blobs second)))) = ds ->
  build first second items at_ = Ok (mkPlan (tenant first) at_ first second ds (blobs first ∪ blobs second)).
Proof.
  intros Et Ea E1 E2 Es Ef <-. unfold build. rewrite bool_decide_true, Ea, E1, E2 by done. cbn [negb ok_or rbind].
  rewrite Es, Ef. reflexivity.
Qed.

Lemma view_wf : Forall (fun i => wf_decision (ret_decision i)) view.
Proof. repeat constructor. intros t [= <-]. vm_compute. reflexivity. Qed.

Lemma plan_built d1 d2 : build (first_of d1) (second_of d2) view now = Ok (plan d1 d2).
Proof.
  unfold plan. apply (build_with (first_of d1) (second_of d2) view now (<[lit "o1" := mkOccurrenceRetention (lit "o1") released_key (mkRetention (Some (lit "2025-11-01T00:00:00Z")) false)]> ∅) (utc_instant day1) (utc_instant day2));
    vm_compute; reflexivity.
Qed.

Lemma day1_grammar d : timestamp_grammar (completed_at (first_of d)) = true.
Proof. vm_compute. reflexivity. Qed.

Lemma day2_grammar d : timestamp_grammar (completed_at (second_of d)) = true.
Proof. vm_compute. reflexivity. Qed.

Lemma now_grammar : timestamp_grammar now = true.
Proof. vm_compute. reflexivity. Qed.

(** The released blob is eligible, the other is not. *)
Lemma collection_plan_exact_witness : In released_key (eligible_blobs (plan [] [])) /\
  references_released view now (first_of []) released_key /\ ~ In kept_key (eligible_blobs (plan [] [])).
Proof.
  destruct (collection_plan_exact (first_of []) (second_of []) view now (day1_grammar []) (day2_grammar []) now_grammar view_wf)
    as [_ H].
  assert (Hin : In released_key (eligible_blobs (plan [] []))) by (left; reflexivity). split_and!; [exact Hin| |].
  - apply (H (plan [] []) (plan_built [] []) released_key), Hin.
  - intros [Hk|[]]. discriminate Hk.
Defined.

(** * A run *)

(** An enabled worker removes the first eligible blob when nothing has changed. *)
Lemma worker_removes p d ds w os : List.filter eligible (decisions p) = d :: ds ->
  expected_metadata p (decision_key d) = Some w -> metadata_matches w w = true -> os !! decision_key d = Some w ->
  exists w', world_reachable (resumable_worker p true) (mkWorld os [] [] ∅) w' /\ (decision_key d, w) ∈ removals w'.
Proof.
  intros Hds Hw Hm Ho.
  assert (H1 : world_reachable (resumable_worker p true) (mkWorld os [] [] ∅)
    (mkWorld os [] [] (<[0%nat := execute_resumable true p]> ∅))).
  { eapply world_next; [constructor|]. apply step_start; [done|]. by exists true. }
  unfold execute_resumable in H1. cbv zeta in H1. set (pd := plan_digest p) in H1. clearbody pd.
  eapply world_next in H1; [|eapply (step_load _ _ _ _ _ 0%nat _ _ 0); apply lookup_insert_eq].
  cbn [take validate_audit_chain validate_from] in H1. rewrite Hds in H1. cbn [resumable_loop map List.filter] in H1.
  rewrite bool_decide_false in H1 by set_solver. cbn [negb] in H1. rewrite Hw in H1. cbn [cbind] in H1.
  eapply world_next in H1; [|eapply (step_inspect _ _ _ _ _ 0%nat); [apply lookup_insert_eq|exact Ho]].
  cbv beta iota in H1. rewrite Hm in H1. cbn [negb] in H1. unfold append_audit_event at 1 in H1. cbv zeta in H1. cbn [cbind] in H1.
  eapply world_next in H1; [|eapply (step_append _ _ _ _ _ 0%nat _ _ (Done tt)); [apply lookup_insert_eq|done|done]].
  cbn [cbind] in H1.
  eapply world_next in H1; [|eapply (step_delete _ _ _ _ _ 0%nat _ _ _ w (Done tt)); [apply lookup_insert_eq|exact Ho|exact Hm]].
  eexists. split; [exact H1|]. cbn [removals app]. by left.
Qed.

Lemma collection_safe_witness : exists w m,
  world_reachable (resumable_worker (plan [] []) true)
    (mkWorld (<[released_key := m]> (<[kept_key := m]> ∅)) [] [] ∅) w /\
  (released_key, m) ∈ removals w /\ frozen_object (first_of []) released_key m /\ pending (plan [] []) (journal w) released_key.
Proof.
  set (m := mkMetadata 7 (seen_at day1 (lit "e1"))).
  destruct (worker_removes (plan [] []) (mkDecision released_key []) [] m (<[released_key := m]> (<[kept_key := m]> ∅)))
    as (w & Hw & Hin); [reflexivity|vm_compute; reflexivity|vm_compute; reflexivity|apply lookup_insert_eq|].
  exists w, m.
  destruct (collection_safe (first_of []) (second_of []) view now (plan [] []) true _ [] w (day1_grammar []) (day2_grammar [])
    (plan_built [] []) eq_refl ltac:(discriminate) Hw) as [_ H].
  destruct (H released_key m Hin) as (_ & _ & Hf & Hp). split; [exact Hw|]. split; [exact Hin|]. split; [exact Hf|exact Hp].
Defined.
