(* ===== verification/Receipt.v ===== *)
(** Receipts ([crates/archivist-auth/src/receipt.rs]): receipt keys certified by the
    tenant authority, their rotation schedule, and receipts signed and verified
    offline.

    The bytes a protected reference resolves to are an input; a private half is its
    seed, used through [ControlRecord.Signer]. *)

From stdpp Require Import gmap.
From S2P Require Import Prelude Text Json JsonFacts Sha256 Vocabulary Derivation Records Authority ControlRecord.

Open Scope Z_scope.

Definition RECEIPT_KEY_ROTATION_DAYS : Z := 30.
Definition RECEIPT_KEY_SIGNING_OVERLAP_DAYS : Z := 7.
Definition RECEIPT_KEY_VALIDITY_DAYS : Z := RECEIPT_KEY_ROTATION_DAYS + RECEIPT_KEY_SIGNING_OVERLAP_DAYS.
Definition CERTIFICATE_VERSION : Z := 1.
Definition RECEIPT_VERSION : Z := 1.
Definition CONTROL_RECORD_TYPE : list Z := lit "receipt-key".
Definition CONTROL_RECORD_KIND : list Z := lit "immutable".
Definition ALGORITHM : list Z := lit "ed25519".

Definition CERTIFICATE_MEMBERS : list (list Z) :=
  map lit ["authority_key_id"; "authority_signature"; "certificate_version"; "key_algorithm"; "key_id";
    "public_key"; "tenant_id"; "valid_from"; "valid_until"]%string.

Definition CONTROL_MEMBERS : list (list Z) :=
  map lit ["authority_key_id"; "authority_signature"; "key_algorithm"; "key_id"; "public_key"; "record_kind";
    "record_type"; "schema"; "signed_at"; "tenant_id"; "valid_from"; "valid_until"]%string.

Definition RECEIPT_PROTECTED_MEMBERS : list (list Z) :=
  map lit ["certificate"; "receipt_key_id"; "receipt_version"; "signature"; "signature_algorithm"]%string.

Inductive ReceiptKeyError :=
| RkMalformed | RkTenantMismatch | RkKeyDerivation | RkInvalidWindow | RkProtectedField | RkOutsideSigningWindow
| RkSignature | RkConflictingRecord | RkRotationCadence
| RkSecretReference (e : IdentityError)
| RkAuthority (e : AuthorityChainError).

Abbreviation receipt := (result ReceiptKeyError).

(** * Instants *)

(** [instant(left).cmp(&instant(right))]; [instant] is the authority chain's. *)
Definition instant_cmp (a b : Z * Z) : comparison :=
  match a.1 ?= b.1 with Eq => a.2 ?= b.2 | c => c end.
Definition timestamp_cmp (left right : list Z) : comparison := instant_cmp (utc_instant left) (utc_instant right).

Definition is_gt (c : comparison) : bool := match c with Gt => true | _ => false end.
Definition is_lt (c : comparison) : bool := match c with Lt => true | _ => false end.
Definition is_eq (c : comparison) : bool := match c with Eq => true | _ => false end.

Definition civil_from_days (days : Z) : Z * Z * Z :=
  let z := days + 719468 in
  let era := Z.quot (if 0 <=? z then z else z - 146096) 146097 in
  let day_of_era := z - era * 146097 in
  let year_of_era :=
    Z.quot (day_of_era - Z.quot day_of_era 1460 + Z.quot day_of_era 36524 - Z.quot day_of_era 146096) 365 in
  let year := year_of_era + era * 400 in
  let day_of_year := day_of_era - (365 * year_of_era + Z.quot year_of_era 4 - Z.quot year_of_era 100) in
  let month_part := Z.quot (5 * day_of_year + 2) 153 in
  let day := day_of_year - Z.quot (153 * month_part + 2) 5 + 1 in
  let month := month_part + (if month_part <? 10 then 3 else -9) in
  let year := year + (if month <=? 2 then 1 else 0) in
  (year, month, day).

(** [{n:0w$}]. *)
Definition padded (w : nat) (n : Z) : list Z := repeat 48 (w - length (i64_to_string n)) ++ i64_to_string n.

Definition checked_i64 (x : Z) : option Z := if (I64_MIN <=? x) && (x <=? I64_MAX) then Some x else None.

(** [format!("{year:04}-{month:02}-..")]. *)
Definition render_instant (day day_seconds nanoseconds : Z) : list Z :=
  let '(year, month, date) := civil_from_days day in
  let hour := Z.quot day_seconds 3600 in
  let minute := Z.quot (Z.rem day_seconds 3600) 60 in
  let second := Z.rem day_seconds 60 in
  let head := padded 4 year ++ lit "-" ++ padded 2 month ++ lit "-" ++ padded 2 date ++ lit "T" ++
              padded 2 hour ++ lit ":" ++ padded 2 minute ++ lit ":" ++ padded 2 second in
  if nanoseconds =? 0 then head ++ lit "Z" else head ++ lit "." ++ padded 9 nanoseconds ++ lit "Z".

Definition add_days (timestamp : list Z) (days : Z) : receipt (list Z) :=
  let '(seconds, nanoseconds) := utc_instant timestamp in
  let! span := ok_or (checked_i64 (days * 86400)) RkInvalidWindow in
  let! seconds := ok_or (checked_i64 (seconds + span)) RkInvalidWindow in
  let day := seconds / 86400 in
  let day_seconds := seconds mod 86400 in
  let '(year, _, _) := civil_from_days day in
  if negb (in_range 0 year 9999) then Err RkInvalidWindow
  else map_err (fun _ => RkInvalidWindow) (Timestamp_parse (render_instant day day_seconds nanoseconds)).

Definition validate_window (valid_from valid_until : list Z) : receipt unit :=
  if is_gt (timestamp_cmp valid_from valid_until) then Err RkInvalidWindow
  else
    let! close := add_days valid_from RECEIPT_KEY_VALIDITY_DAYS in
    if negb (is_eq (timestamp_cmp close valid_until)) then Err RkInvalidWindow else Ok tt.

(** * Readers *)

Definition int_member (o : Object) (name : string) : option Z :=
  match object_get o (lit name) with Some (VInt n) => Some n | _ => None end.

Definition parse_timestamp (o : Object) (name : string) : receipt (list Z) :=
  let! t := field RkMalformed Timestamp_parse o name in
  if calendar_valid t then Ok t else Err RkMalformed.

(** * Certificates and records *)

Record ReceiptKeyCertificate := mkCertificate
  { cert_tenant : list Z;
    cert_key_id : list Z;
    cert_public_key : list Z;
    valid_from : list Z;
    valid_until : list Z;
    cert_authority : list Z;
    cert_signature : list Z }.

Record ReceiptKeyRecord := mkKeyRecord
  { krec_tenant : list Z;
    krec_key_id : list Z;
    krec_public_key : list Z;
    krec_valid_from : list Z;
    krec_valid_until : list Z;
    krec_signed_at : list Z;
    krec_authority : list Z;
    krec_signature : list Z }.

Definition certificate_fields (c : ReceiptKeyCertificate) : list (list Z * option Value) :=
  [int_field "certificate_version" CERTIFICATE_VERSION; text_field "tenant_id" (cert_tenant c);
   text_field "key_id" (to_hex (cert_key_id c)); text_field "key_algorithm" ALGORITHM;
   text_field "public_key" (to_hex (cert_public_key c)); text_field "valid_from" (valid_from c);
   text_field "valid_until" (valid_until c); text_field "authority_key_id" (to_hex (cert_authority c))].

Definition certificate_object (c : ReceiptKeyCertificate) (include_signature : bool) : Object :=
  let o := set_members (certificate_fields c) [] in
  if include_signature then object_set o (lit "authority_signature") (VText (to_hex (cert_signature c))) else o.

Definition cert_unsigned_bytes (c : ReceiptKeyCertificate) : list Z :=
  canonical_bytes (VObject (certificate_object c false)).

Definition record_fields (r : ReceiptKeyRecord) : list (list Z * option Value) :=
  [text_field "schema" CONTROL_NAMESPACE; text_field "record_type" CONTROL_RECORD_TYPE;
   text_field "record_kind" CONTROL_RECORD_KIND; text_field "tenant_id" (krec_tenant r);
   text_field "key_id" (to_hex (krec_key_id r)); text_field "key_algorithm" ALGORITHM;
   text_field "public_key" (to_hex (krec_public_key r)); text_field "valid_from" (krec_valid_from r);
   text_field "valid_until" (krec_valid_until r); text_field "signed_at" (krec_signed_at r);
   text_field "authority_key_id" (to_hex (krec_authority r))].

Definition key_record_object (r : ReceiptKeyRecord) (include_signature : bool) : Object :=
  let o := set_members (record_fields r) [] in
  if include_signature then object_set o (lit "authority_signature") (VText (to_hex (krec_signature r))) else o.

Definition krec_unsigned_bytes (r : ReceiptKeyRecord) : list Z :=
  canonical_bytes (VObject (key_record_object r false)).
Definition krec_canonical_bytes (r : ReceiptKeyRecord) : list Z :=
  canonical_bytes (VObject (key_record_object r true)).

Definition krec_object_key (r : ReceiptKeyRecord) : list Z :=
  lit "tenants/" ++ krec_tenant r ++ lit "/v1/control/receipt-keys/" ++ to_hex (krec_key_id r) ++ lit ".json".

Definition Certificate_parse (v : Value) : receipt ReceiptKeyCertificate :=
  match v with
  | VObject o =>
      let! _ := verify_member_set RkMalformed o CERTIFICATE_MEMBERS in
      let! _ := unless (negb (bool_decide (int_member o "certificate_version" = Some CERTIFICATE_VERSION)) ||
                        negb (is_text o "key_algorithm" ALGORITHM)) RkMalformed in
      let! tenant := field RkMalformed TenantId_parse o "tenant_id" in
      let! public := field RkMalformed digest_parse o "public_key" in
      let! key := field RkMalformed digest_parse o "key_id" in
      let! _ := unless (negb (bool_decide (key = KeyId_from_public_key public))) RkKeyDerivation in
      let! from := parse_timestamp o "valid_from" in
      let! until := parse_timestamp o "valid_until" in
      let! _ := validate_window from until in
      let! authority := field RkMalformed digest_parse o "authority_key_id" in
      let! signature := field RkMalformed Ed25519Signature_parse o "authority_signature" in
      Ok (mkCertificate tenant key public from until authority signature)
  | _ => Err RkMalformed
  end.

Definition KeyRecord_parse (bytes : list Z) : receipt ReceiptKeyRecord :=
  let! o := record_object RkMalformed bytes in
  let! _ := verify_member_set RkMalformed o CONTROL_MEMBERS in
  let! _ := unless (negb (is_text o "schema" CONTROL_NAMESPACE) || negb (is_text o "record_type" CONTROL_RECORD_TYPE) ||
                    negb (is_text o "record_kind" CONTROL_RECORD_KIND) || negb (is_text o "key_algorithm" ALGORITHM))
              RkMalformed in
  let! tenant := field RkMalformed TenantId_parse o "tenant_id" in
  let! public := field RkMalformed digest_parse o "public_key" in
  let! key := field RkMalformed digest_parse o "key_id" in
  let! _ := unless (negb (bool_decide (key = KeyId_from_public_key public))) RkKeyDerivation in
  let! from := parse_timestamp o "valid_from" in
  let! until := parse_timestamp o "valid_until" in
  let! at_ := parse_timestamp o "signed_at" in
  let! _ := validate_window from until in
  let! _ := unless (is_gt (timestamp_cmp at_ from)) RkInvalidWindow in
  let! authority := field RkMalformed digest_parse o "authority_key_id" in
  let! signature := field RkMalformed Ed25519Signature_parse o "authority_signature" in
  Ok (mkKeyRecord tenant key public from until at_ authority signature).

Section Verify.
Context `{SignatureScheme} (root : PinnedAuthorityRoot) (fetch : Store).

Definition Certificate_verify (c : ReceiptKeyCertificate) : receipt ResolvedAuthority :=
  let! _ := unless (negb (bool_decide (cert_tenant c = root_tenant_id root))) RkTenantMismatch in
  let! resolved := map_err RkAuthority (verify_signing_authority root (cert_authority c) (valid_from c) fetch) in
  let! _ := unless (negb (verify (resolved_public_key resolved) (cert_unsigned_bytes c) (cert_signature c))) RkSignature in
  Ok resolved.

Definition KeyRecord_verify (r : ReceiptKeyRecord) : receipt ResolvedAuthority :=
  let! _ := unless (negb (bool_decide (krec_tenant r = root_tenant_id root))) RkTenantMismatch in
  let! resolved := map_err RkAuthority (verify_signing_authority root (krec_authority r) (krec_signed_at r) fetch) in
  let! _ := unless (negb (verify (resolved_public_key resolved) (krec_unsigned_bytes r) (krec_signature r))) RkSignature in
  Ok resolved.

Record VerifiedReceipt := mkVerified
  { ver_tenant : list Z; ver_key_id : list Z; ver_commit_time : list Z; ver_certificate : ReceiptKeyCertificate }.

(** [Receipt::verify], on the object of a receipt. *)
Definition Receipt_verify (v : Value) : receipt VerifiedReceipt :=
  match v with
  | VObject o =>
      let! _ := unless (negb (bool_decide (int_member o "receipt_version" = Some RECEIPT_VERSION)) ||
                        negb (is_text o "signature_algorithm" ALGORITHM)) RkMalformed in
      let! tenant := field RkMalformed TenantId_parse o "tenant_id" in
      let! commit := parse_timestamp o "commit_time" in
      let! key := field RkMalformed digest_parse o "receipt_key_id" in
      let! cv := ok_or (object_get o (lit "certificate")) RkMalformed in
      let! c := Certificate_parse cv in
      let! _ := unless (negb (bool_decide (cert_tenant c = tenant)) || negb (bool_decide (cert_key_id c = key)))
                  RkTenantMismatch in
      let! _ := unless (is_lt (timestamp_cmp commit (valid_from c)) || is_gt (timestamp_cmp commit (valid_until c)))
                  RkOutsideSigningWindow in
      let! _ := Certificate_verify c in
      let! signature := field RkMalformed Ed25519Signature_parse o "signature" in
      let unsigned := (object_remove o (lit "signature")).2 in
      let! _ := unless (negb (verify (cert_public_key c) (canonical_bytes (VObject unsigned)) signature)) RkSignature in
      Ok (mkVerified tenant key commit c)
  | _ => Err RkMalformed
  end.
End Verify.

Definition Receipt_parse (bytes : list Z) : receipt Value :=
  let! o := record_object RkMalformed bytes in Ok (VObject o).

(** * Seeds *)

Definition hex_digit (byte : Z) : option Z :=
  if in_range 48 byte 57 then Some (byte - 48)
  else if in_range 97 byte 102 then Some (byte - 97 + 10)
  else if in_range 65 byte 70 then Some (byte - 65 + 10)
  else None.

Fixpoint decode_hex_pairs (bytes : list Z) : option (list Z) :=
  match bytes with
  | a :: b :: rest =>
      h ← hex_digit a; l ← hex_digit b; t ← decode_hex_pairs rest; Some (Z.lor (Z.shiftl h 4) l :: t)
  | _ => Some []
  end.

Definition decode_seed (bytes : list Z) : option (list Z) :=
  if (length bytes =? 32)%nat then Some bytes
  else if negb (length bytes =? 64)%nat || negb (forallb (fun b => is_some (hex_digit b)) bytes) then None
  else decode_hex_pairs bytes.

Definition seed_digit (n : Z) : Z := nth (Z.to_nat n) (lit "0123456789abcdef") 0.
Definition encode_seed (seed : list Z) : list Z :=
  flat_map (fun b => [seed_digit (Z.shiftr b 4); seed_digit (Z.land b 15)]) seed.

Record SigningKey := mkSigningKey { sk_tenant : list Z; sk_seed : list Z }.

(** [ReceiptSigningKey] and [AuthoritySigner] [::from_secret_reference], on the resolved bytes. *)
Definition from_secret (tenant : list Z) (resolved : result IdentityError (list Z)) : receipt SigningKey :=
  let! bytes := map_err RkSecretReference resolved in
  let! seed := ok_or (decode_seed bytes) (RkSecretReference IdentityCorrupt) in
  Ok (mkSigningKey tenant seed).

(** * Certified keys *)

Record CertifiedReceiptKey := mkCertified
  { signing_key : SigningKey; certificate : ReceiptKeyCertificate; key_record : ReceiptKeyRecord }.

Section Signing.
Context `{Signer}.

Definition sk_public_key (k : SigningKey) : list Z := public_key_from_seed (sk_seed k).
Definition sk_key_id (k : SigningKey) : list Z := KeyId_from_public_key (sk_public_key k).

Definition certify (k authority : SigningKey) (at_ from : list Z) : receipt CertifiedReceiptKey :=
  if negb (bool_decide (sk_tenant k = sk_tenant authority)) then Err RkTenantMismatch
  else
    let! until := add_days from RECEIPT_KEY_VALIDITY_DAYS in
    if negb (calendar_valid at_) || negb (calendar_valid from) || is_gt (timestamp_cmp at_ from)
    then Err RkInvalidWindow
    else
      let c0 := mkCertificate (sk_tenant k) (sk_key_id k) (sk_public_key k) from until (sk_key_id authority)
                  (repeat 0 64) in
      let c := mkCertificate (sk_tenant k) (sk_key_id k) (sk_public_key k) from until (sk_key_id authority)
                 (sign (sk_seed authority) (cert_unsigned_bytes c0)) in
      let r0 := mkKeyRecord (sk_tenant k) (sk_key_id k) (sk_public_key k) from until at_ (sk_key_id authority)
                  (repeat 0 64) in
      let r := mkKeyRecord (sk_tenant k) (sk_key_id k) (sk_public_key k) from until at_ (sk_key_id authority)
                 (sign (sk_seed authority) (krec_unsigned_bytes r0)) in
      Ok (mkCertified k c r).

Definition from_public_material `{SignatureScheme} (c : ReceiptKeyCertificate) (r : ReceiptKeyRecord)
    (resolved : result IdentityError (list Z)) (root : PinnedAuthorityRoot) (fetch : Store) : receipt CertifiedReceiptKey :=
  if negb (bool_decide (cert_tenant c = krec_tenant r)) || negb (bool_decide (krec_tenant r = root_tenant_id root))
  then Err RkTenantMismatch
  else if negb (bool_decide (cert_key_id c = krec_key_id r)) || negb (bool_decide (cert_public_key c = krec_public_key r)) ||
          negb (bool_decide (valid_from c = krec_valid_from r)) || negb (bool_decide (valid_until c = krec_valid_until r)) ||
          negb (bool_decide (cert_authority c = krec_authority r))
  then Err RkConflictingRecord
  else
    let! _ := KeyRecord_verify root fetch r in
    let! _ := Certificate_verify root fetch c in
    let! k := from_secret (krec_tenant r) resolved in
    if negb (bool_decide (sk_key_id k = krec_key_id r)) || negb (bool_decide (sk_public_key k = krec_public_key r))
    then Err RkConflictingRecord
    else Ok (mkCertified k c r).

(** [Receipt::sign]. *)
Definition Receipt_sign (o : Object) (key : CertifiedReceiptKey) : receipt Value :=
  if existsb (object_contains o) RECEIPT_PROTECTED_MEMBERS then Err RkProtectedField
  else
    let! tenant := field RkMalformed TenantId_parse o "tenant_id" in
    if negb (bool_decide (tenant = sk_tenant (signing_key key))) then Err RkTenantMismatch
    else
      let! commit := parse_timestamp o "commit_time" in
      if is_lt (timestamp_cmp commit (valid_from (certificate key))) ||
         is_gt (timestamp_cmp commit (valid_until (certificate key)))
      then Err RkOutsideSigningWindow
      else
        let o := set_members
          [int_field "receipt_version" RECEIPT_VERSION;
           text_field "receipt_key_id" (to_hex (sk_key_id (signing_key key)));
           (lit "certificate", Some (VObject (certificate_object (certificate key) true)));
           text_field "signature_algorithm" ALGORITHM] o in
        let signature := sign (sk_seed (signing_key key)) (canonical_bytes (VObject o)) in
        Ok (VObject (object_set o (lit "signature") (VText (to_hex signature)))).

(** * The schedule *)

Record ReceiptKeySchedule := mkSchedule
  { sched_tenant : list Z; keys : gmap (list Z) CertifiedReceiptKey }.

(** [self.keys.values()]: in the order of the key ids' bytes. *)
Definition key_values (s : ReceiptKeySchedule) : list CertifiedReceiptKey :=
  map snd (sort_by (fun a b => lex_leb a.1 b.1) (map_to_list (keys s))).

(** [Iterator::max_by]: the last of the greatest. *)
Definition max_by {A} (cmp : A -> A -> comparison) (l : list A) : option A :=
  fold_left (fun best x =>
    match best with None => Some x | Some b => if is_gt (cmp b x) then Some b else Some x end) l None.

Definition start_cmp (l r : CertifiedReceiptKey) : comparison :=
  timestamp_cmp (valid_from (certificate l)) (valid_from (certificate r)).

Definition schedule_new (initial : CertifiedReceiptKey) : ReceiptKeySchedule :=
  mkSchedule (sk_tenant (signing_key initial)) {[ sk_key_id (signing_key initial) := initial ]}.

Definition rotate (s : ReceiptKeySchedule) (next : CertifiedReceiptKey) : ReceiptKeySchedule * receipt unit :=
  if negb (bool_decide (sk_tenant (signing_key next) = sched_tenant s)) then (s, Err RkTenantMismatch)
  else if bool_decide (is_Some (keys s !! sk_key_id (signing_key next))) then (s, Err RkConflictingRecord)
  else
    match max_by start_cmp (key_values s) with
    | None => (s, Err RkRotationCadence)
    | Some latest =>
        match add_days (valid_from (certificate latest)) RECEIPT_KEY_ROTATION_DAYS with
        | Ok expected =>
            if negb (is_eq (timestamp_cmp (valid_from (certificate next)) expected)) then (s, Err RkRotationCadence)
            else (mkSchedule (sched_tenant s) (<[sk_key_id (signing_key next) := next]> (keys s)), Ok tt)
        | Err e => (s, Err e)
        | OutOfFuel => (s, OutOfFuel)
        end
    end.

Definition valid_at (at_ : list Z) (k : CertifiedReceiptKey) : bool :=
  negb (is_gt (timestamp_cmp (valid_from (certificate k)) at_)) &&
  negb (is_gt (timestamp_cmp at_ (valid_until (certificate k)))).

Definition signing_key_at (s : ReceiptKeySchedule) (at_ : list Z) : option CertifiedReceiptKey :=
  max_by start_cmp (List.filter (valid_at at_) (key_values s)).

Definition sign_receipt (s : ReceiptKeySchedule) (o : Object) : receipt Value :=
  let! commit := parse_timestamp o "commit_time" in
  let! key := ok_or (signing_key_at s commit) RkOutsideSigningWindow in
  Receipt_sign o key.

Definition retained_public_records (s : ReceiptKeySchedule) : list ReceiptKeyRecord :=
  sort_by (fun a b => negb (is_gt (timestamp_cmp (krec_valid_from a) (krec_valid_from b)))) (map key_record (key_values s)).
End Signing.
