(* ===== verification/ReceiptFacts.v ===== *)
(** The instants and the schedule of receipt keys: day arithmetic on stamps is exact,
    windows have the certified length, and a rotated schedule has a signer at every
    instant it covers. *)

From stdpp Require Import gmap.
From S2P Require Import Prelude Text Json JsonFacts Sha256 Vocabulary Derivation Records Inventory Authority ControlRecord ControlRecordFacts TrustView RequestVerification Receipt.

Open Scope Z_scope.

(** * The civil calendar *)

Lemma floor_era z n : 0 < n -> Z.quot (if 0 <=? z then z else z - (n - 1)) n = z / n.
Proof.
  intros Hn. destruct (Z.leb_spec 0 z); [apply Z.quot_div_nonneg; lia|].
  Z.to_euclidean_division_equations; nia.
Qed.

(** A day of the 400-year era, counted from 1 March of its year. *)
Lemma year_of_era_spec doe : 0 <= doe <= 146096 ->
  let yoe := (doe - doe / 1460 + doe / 36524 - doe / 146096) / 365 in
  let doy := doe - (365 * yoe + yoe / 4 - yoe / 100) in
  0 <= yoe <= 399 /\ 0 <= doy <= 365 /\
  (doy = 365 -> (yoe + 1) mod 4 = 0 /\ ((yoe + 1) mod 100 <> 0 \/ (yoe + 1) mod 400 = 0)).
Proof.
  intros Hd yoe doy. subst yoe doy.
  Z.to_euclidean_division_equations. lia.
Qed.

Lemma month_part_spec doy : 0 <= doy <= 365 ->
  let mp := (5 * doy + 2) / 153 in
  0 <= mp <= 11 /\ 1 <= doy - (153 * mp + 2) / 5 + 1 /\
  doy - (153 * mp + 2) / 5 + 1 <= (if (mp =? 1) || (mp =? 3) || (mp =? 6) || (mp =? 8) then 30 else if mp =? 11 then 29 else 31) /\
  (doy - (153 * mp + 2) / 5 + 1 = 29 -> mp = 11 -> doy = 365).
Proof.
  intros Hd mp. subst mp.
  assert (Hm : 0 <= (5 * doy + 2) / 153 <= 11) by (Z.to_euclidean_division_equations; lia).
  set (mp := (5 * doy + 2) / 153) in *.
  assert (Hdef : 153 * mp <= 5 * doy + 2 < 153 * mp + 153) by (subst mp; Z.to_euclidean_division_equations; lia).
  clearbody mp.
  assert (mp = 0 \/ mp = 1 \/ mp = 2 \/ mp = 3 \/ mp = 4 \/ mp = 5 \/ mp = 6 \/ mp = 7 \/ mp = 8 \/ mp = 9 \/ mp = 10 \/ mp = 11)
    as Hc by lia.
  split; [lia|].
  repeat destruct Hc as [->|Hc]; [..|rename Hc into E; subst mp]; cbn [Z.eqb orb Pos.eqb]; 
    Z.to_euclidean_division_equations; lia.
Qed.

Lemma civil_from_days_floor days :
  civil_from_days days =
  let z := days + 719468 in
  let doe := z mod 146097 in
  let yoe := (doe - doe / 1460 + doe / 36524 - doe / 146096) / 365 in
  let doy := doe - (365 * yoe + yoe / 4 - yoe / 100) in
  let mp := (5 * doy + 2) / 153 in
  let m := mp + (if mp <? 10 then 3 else -9) in
  (yoe + z / 146097 * 400 + (if m <=? 2 then 1 else 0), m, doy - (153 * mp + 2) / 5 + 1).
Proof.
  unfold civil_from_days. cbv zeta. set (z := days + 719468).
  change (z - 146096) with (z - (146097 - 1)). rewrite floor_era by lia.
  assert (Edoe : z - z / 146097 * 146097 = z mod 146097) by (rewrite Z.mod_eq by lia; lia). rewrite Edoe.
  pose proof (Z.mod_pos_bound z 146097 ltac:(lia)) as Hb. set (doe := z mod 146097) in *. clearbody doe.
  destruct (year_of_era_spec doe ltac:(lia)) as (Hy & Hd & _).
  rewrite !(Z.quot_div_nonneg doe) by lia.
  set (v := doe - doe / 1460 + doe / 36524 - doe / 146096) in *.
  assert (0 <= v) by (unfold v; Z.to_euclidean_division_equations; lia).
  rewrite (Z.quot_div_nonneg v) by lia. set (yoe := v / 365) in *. clearbody yoe.
  rewrite !(Z.quot_div_nonneg yoe) by lia. set (doy := doe - (365 * yoe + yoe / 4 - yoe / 100)) in *.
  rewrite (Z.quot_div_nonneg (5 * doy + 2)) by lia. destruct (month_part_spec doy Hd) as (Hm & _).
  set (mp := (5 * doy + 2) / 153) in *. rewrite (Z.quot_div_nonneg (153 * mp + 2)) by lia. done.
Qed.

Lemma civil_from_days_spec days y m d : civil_from_days days = (y, m, d) ->
  1 <= m <= 12 /\ (exists n, days_in_month y m = Some n /\ 1 <= d <= n) /\
  (0 <= y -> Authority.days_from_civil y m d = days).
Proof.
  rewrite civil_from_days_floor. cbv zeta. set (z := days + 719468).
  pose proof (Z.mod_pos_bound z 146097 ltac:(lia)) as Hb. pose proof (Z.div_mod z 146097 ltac:(lia)) as Hz.
  set (doe := z mod 146097) in *. set (era := z / 146097) in *. clearbody doe era.
  destruct (year_of_era_spec doe ltac:(lia)) as (Hy & Hd & Hleap).
  set (yoe := (doe - doe / 1460 + doe / 36524 - doe / 146096) / 365) in *. clearbody yoe.
  set (doy := doe - (365 * yoe + yoe / 4 - yoe / 100)) in *.
  assert (Hdoy : doe = doy + (365 * yoe + yoe / 4 - yoe / 100)) by (unfold doy; lia). clearbody doy.
  destruct (month_part_spec doy Hd) as (Hm & Hlo & Hhi & H29).
  set (mp := (5 * doy + 2) / 153) in *. clearbody mp. set (dd := (153 * mp + 2) / 5) in *.
  intros [= <- <- <-]. split; [destruct (Z.ltb_spec mp 10); lia|split].
  - assert (mp = 0 \/ mp = 1 \/ mp = 2 \/ mp = 3 \/ mp = 4 \/ mp = 5 \/ mp = 6 \/ mp = 7 \/ mp = 8 \/ mp = 9 \/ mp = 10 \/ mp = 11)
      as Hc by lia.
    repeat destruct Hc as [->|Hc]; [..|rename Hc into E; subst mp]; cbn -[Z.modulo Z.div dd] in *; try (eexists; split; [reflexivity|]; lia).
    change (days_in_month _ _) with (let yr := yoe + era * 400 + 1 in
      Some (if (yr mod 4 =? 0) && (negb (yr mod 100 =? 0) || (yr mod 400 =? 0)) then 29 else 28)). cbv zeta.
    destruct (_ && _) eqn:El; (eexists; split; [reflexivity|]); [lia|].
    assert (doy - dd + 1 <> 29); [|lia]. intros E. destruct (Hleap (H29 E eq_refl)) as [H4 H100].
    apply not_true_iff_false in El. apply El. clear - H4 H100.
    set (yr := yoe + era * 400 + 1) in *.
    assert (Y4 : yr mod 4 = 0) by (subst yr; Z.to_euclidean_division_equations; lia).
    assert (Y100 : yr mod 100 <> 0 \/ yr mod 400 = 0) by (subst yr; Z.to_euclidean_division_equations; lia).
    clearbody yr. rewrite Y4. destruct (Z.eqb_spec (yr mod 100) 0), (Z.eqb_spec (yr mod 400) 0); try done. tauto.
  - intros Hy0. rewrite days_from_civil_inventory, days_from_civil_march; [|done|destruct (Z.ltb_spec mp 10); lia].
    unfold march_days.
    assert (Ek : (if 2 <? mp + (if mp <? 10 then 3 else -9) then mp + (if mp <? 10 then 3 else -9) - 3
      else mp + (if mp <? 10 then 3 else -9) + 9) = mp).
    { destruct (Z.ltb_spec mp 10); destruct (Z.ltb_spec 2 (mp + 3)); destruct (Z.ltb_spec 2 (mp + -9)); lia. }
    rewrite Ek.
    assert (Es : (if mp + (if mp <? 10 then 3 else -9) <=? 2
      then yoe + era * 400 + (if mp + (if mp <? 10 then 3 else -9) <=? 2 then 1 else 0) - 1
      else yoe + era * 400 + (if mp + (if mp <? 10 then 3 else -9) <=? 2 then 1 else 0)) = yoe + era * 400)
      by (destruct (mp + _ <=? 2); lia).
    rewrite Es. fold dd. clearbody dd. clear Ek Es Hhi Hlo H29 Hleap.
    assert (Edays : days = z - 719468) by (unfold z; lia). clearbody z. clear Hy0.
    Z.to_euclidean_division_equations; lia.
Qed.

(** * Rendered instants *)

Lemma decimal_dec_value l a : fold_left (fun acc c => acc * 10 + (c - 48)) l a = dec_value a l.
Proof. revert a. induction l as [|c l IH]; intros a; [done|]. cbn. apply IH. Qed.

Lemma dec_value_zeros n l : dec_value 0 (repeat 48 n ++ l) = dec_value 0 l.
Proof. induction n as [|n IH]; [done|]. exact IH. Qed.

Lemma padded_spec w n : (1 <= w <= 18)%nat -> 0 <= n < 10 ^ Z.of_nat w ->
  length (padded w n) = w /\ Forall (fun c => is_digit c = true) (padded w n) /\ decimal (padded w n) = n.
Proof.
  intros Hw Hn. unfold padded.
  assert (10 ^ Z.of_nat w <= 10 ^ 18) by (apply Z.pow_le_mono_r; lia).
  destruct (i64_to_string_spec n) as (ds & [Hds Hh] & Hv & ->).
  { unfold is_i64, I64_MIN, I64_MAX. change (10 ^ 18) with 1000000000000000000 in *. lia. }
  rewrite (proj2 (Z.ltb_ge n 0)) by lia. rewrite Z.abs_eq in Hv by lia.
  assert (Hlen : (length ds <= w)%nat).
  { destruct ds as [|d ds]; [done|]. apply Forall_cons in Hds as [Hd Ht]. destruct (decide (d = 48)) as [->|Hne].
    - rewrite Hh by done. cbn. lia.
    - cbn [dec_value] in Hv. pose proof (dec_value_bound ds (0 * 10 + (d - 48)) Ht) as B. unfold is_digit, in_range in Hd.
      assert (Hp : 10 ^ zlen ds < 10 ^ Z.of_nat w).
      { pose proof (Z.pow_pos_nonneg 10 (zlen ds) ltac:(lia) (zlen_nonneg ds)). nia. }
      apply Z.pow_lt_mono_r_iff in Hp; [|lia..]. unfold zlen in Hp. cbn. lia. }
  split_and!.
  - rewrite length_app, repeat_length. lia.
  - apply Forall_app. split; [|done]. apply Forall_forall. intros c Hc%list_elem_of_In%repeat_spec. by subst.
  - unfold decimal. by rewrite decimal_dec_value, dec_value_zeros.
Qed.

(** A rendered stamp, from the digits of its fields. *)
Definition stamp (Y M D h m s f : list Z) : list Z :=
  Y ++ [45] ++ M ++ [45] ++ D ++ [84] ++ h ++ [58] ++ m ++ [58] ++ s ++ (match f with [] => [] | _ => 46 :: f end) ++ [90].

Definition digits (n : nat) (l : list Z) : Prop := length l = n /\ Forall (fun c => is_digit c = true) l.

Lemma digits_inv n c l : digits (S n) (c :: l) -> is_digit c = true /\ digits n l.
Proof. intros [Hl Hd]. apply Forall_cons in Hd as [? ?]. split; [done|]. split; [by injection Hl|done]. Qed.

(** Take a list of digits apart. *)
Ltac spell := repeat match goal with
  | H : digits 0 ?l |- _ => let E := fresh in destruct H as [E _]; apply length_zero_iff_nil in E; subst l
  | H : digits (S ?n) ?l |- _ => destruct l as [|? l]; [by destruct H as [[=] _]|apply digits_inv in H as [? H]]
  end.

Definition stamp_ok (Y M D h m s f : list Z) : Prop :=
  digits 4 Y /\ digits 2 M /\ digits 2 D /\ digits 2 h /\ digits 2 m /\ digits 2 s /\ (f = [] \/ digits 9 f).

Lemma stamp_ascii Y M D h m s f : stamp_ok Y M D h m s f -> Forall (fun c => 0 <= c <= 0x7F) (stamp Y M D h m s f).
Proof.
  intros (HY & HM & HD & Hh & Hm & Hs & Hf).
  apply Forall_forall. intros c.
  assert (Hdig : forall n l, digits n l -> c ∈ l -> 0 <= c <= 0x7F).
  { intros n l [_ Hl] Hc. rewrite Forall_forall in Hl. specialize (Hl c Hc). unfold is_digit, in_range in Hl. lia. }
  assert (Hff : c ∈ f -> 0 <= c <= 0x7F) by (destruct Hf as [->|Hf9]; [by intros ?%elem_of_nil|by apply (Hdig 9%nat)]).
  unfold stamp. rewrite !elem_of_app, !list_elem_of_singleton.
  intros [?|[->|[?|[->|[?|[->|[?|[->|[?|[->|[?|[Hc| ->]]]]]]]]]]]]; try lia; eauto 3.
  destruct f; [by apply elem_of_nil in Hc|]. apply elem_of_cons in Hc as [->|Hc]; [lia|auto].
Qed.

Lemma stamp_bytes Y M D h m s f : stamp_ok Y M D h m s f -> as_bytes (stamp Y M D h m s f) = stamp Y M D h m s f.
Proof. intros Hok. by apply as_bytes_ascii, stamp_ascii. Qed.

Lemma stamp_fields Y M D h m s f : stamp_ok Y M D h m s f -> let raw := stamp Y M D h m s f in
  slice raw 0 4 = Y /\ slice raw 5 7 = M /\ slice raw 8 10 = D /\ slice raw 11 13 = h /\ slice raw 14 16 = m /\
  slice raw 17 19 = s /\ length raw = (if decide (f = []) then 20 else 30)%nat /\
  (f <> [] -> slice raw 20 (length raw - 1) = f) /\ timestamp_grammar raw = true.
Proof.
  intros Hok. cbv zeta. unfold timestamp_grammar. rewrite stamp_bytes by done.
  destruct Hok as (HY & HM & HD & Hh & Hm & Hs & Hf). destruct Hf as [->|Hf9]; unfold stamp; spell; cbn -[is_digit];
    repeat match goal with H : is_digit _ = true |- _ => rewrite H; clear H end; done.
Qed.

Lemma stamp_instant Y M D h m s f : stamp_ok Y M D h m s f ->
  utc_instant (stamp Y M D h m s f) =
    (Authority.days_from_civil (decimal Y) (decimal M) (decimal D) * 86400 + decimal h * 3600 + decimal m * 60 + decimal s,
     decimal f).
Proof.
  intros Hok. destruct (stamp_fields _ _ _ _ _ _ _ Hok) as (E1 & E2 & E3 & E4 & E5 & E6 & El & Ef & _).
  unfold utc_instant. rewrite stamp_bytes by done. destruct Hok as (_ & _ & _ & _ & _ & _ & Hf). cbv zeta. rewrite E1, E2, E3, E4, E5, E6. f_equal.
  destruct Hf as [->|Hf9].
  - rewrite El. done.
  - destruct (decide (f = [])) as [->|Hne]; [by destruct Hf9|]. rewrite El at 1. cbn [Nat.ltb Nat.leb].
    rewrite Ef by done. destruct Hf9 as [-> _]. done.
Qed.

Lemma stamp_calendar Y M D h m s f n : stamp_ok Y M D h m s f -> 1 <= decimal M <= 12 -> days_in_month (decimal Y) (decimal M) = Some n ->
  1 <= decimal D <= n -> decimal h < 24 -> decimal m < 60 -> decimal s <= 60 ->
  calendar_valid (stamp Y M D h m s f) = true.
Proof.
  intros Hok H1 H2 H3 H4 H5 H6. destruct (stamp_fields _ _ _ _ _ _ _ Hok) as (E1 & E2 & E3 & E4 & E5 & E6 & _).
  unfold calendar_valid. rewrite stamp_bytes by done. cbv zeta. rewrite E1, E2, E3, E4, E5, E6, H2.
  assert (Em : in_range 1 (decimal M) 12 = true) by (unfold in_range; lia). rewrite Em. cbn [negb]. unfold in_range. lia.
Qed.

(** What [add_days] writes is the instant it computed. *)
Lemma render_instant_spec day ds ns : 0 <= (civil_from_days day).1.1 <= 9999 -> 0 <= ds < 86400 -> 0 <= ns < 10 ^ 9 ->
  wire_ok Timestamp_parse (render_instant day ds ns) /\ calendar_valid (render_instant day ds ns) = true /\
  utc_instant (render_instant day ds ns) = (day * 86400 + ds, ns).
Proof.
  intros Hy Hds Hns. unfold render_instant. destruct (civil_from_days day) as [[y m] d] eqn:Ec. cbn [fst] in Hy.
  apply civil_from_days_spec in Ec as (Hm & (n & Hn & Hd) & Hdays).
  assert (n <= 31).
  { unfold days_in_month in Hn. repeat case_match; simplify_eq; lia. }
  set (h := Z.quot ds 3600). set (mi := Z.quot (Z.rem ds 3600) 60). set (s := Z.rem ds 60).
  assert (Hh : 0 <= h < 24 /\ 0 <= mi < 60 /\ 0 <= s < 60 /\ h * 3600 + mi * 60 + s = ds)
    by (unfold h, mi, s; Z.to_euclidean_division_equations; lia). clearbody h mi s.
  destruct (padded_spec 4 y) as (Ly & Dy & Vy); [lia..|]. destruct (padded_spec 2 m) as (Lm & Dm & Vm); [lia..|].
  destruct (padded_spec 2 d) as (Ld & Dd & Vd); [lia..|]. destruct (padded_spec 2 h) as (Lh & Dh & Vh); [lia..|].
  destruct (padded_spec 2 mi) as (Li & Di & Vi); [lia..|]. destruct (padded_spec 2 s) as (Ls & Ds & Vs); [lia..|].
  destruct (padded_spec 9 ns) as (Lf & Df & Vf); [lia..|].
  set (f := if ns =? 0 then [] else padded 9 ns).
  assert (Ef : decimal f = ns) by (unfold f; destruct (Z.eqb_spec ns 0); [by subst|done]).
  assert (Hok : stamp_ok (padded 4 y) (padded 2 m) (padded 2 d) (padded 2 h) (padded 2 mi) (padded 2 s) f).
  { unfold stamp_ok, digits. split_and!; try done. unfold f. destruct (ns =? 0); [by left|by right]. }
  assert (Et : (if ns =? 0
    then (padded 4 y ++ lit "-" ++ padded 2 m ++ lit "-" ++ padded 2 d ++ lit "T" ++ padded 2 h ++ lit ":" ++
            padded 2 mi ++ lit ":" ++ padded 2 s) ++ lit "Z"
    else (padded 4 y ++ lit "-" ++ padded 2 m ++ lit "-" ++ padded 2 d ++ lit "T" ++ padded 2 h ++ lit ":" ++
            padded 2 mi ++ lit ":" ++ padded 2 s) ++ lit "." ++ padded 9 ns ++ lit "Z") =
    stamp (padded 4 y) (padded 2 m) (padded 2 d) (padded 2 h) (padded 2 mi) (padded 2 s) f).
  { unfold stamp, f. destruct (ns =? 0); rewrite <- !app_assoc; [done|].
    destruct (padded 9 ns) as [|c l]; [done|]. by rewrite <- ?app_assoc. }
  rewrite Et. clear Et. split; [|split].
  - split; [by apply stamp_fields|]. eapply Forall_impl; [by apply stamp_ascii|]. intros c ?. unfold is_scalar. cbn in *. lia.
  - apply (stamp_calendar _ _ _ _ _ _ _ n Hok); rewrite ?Vy, ?Vm, ?Vd, ?Vh, ?Vi, ?Vs; (done || lia).
  - rewrite stamp_instant, Vy, Vm, Vd, Vh, Vi, Vs, Ef, Hdays by (done || lia). f_equal. lia.
Qed.

(** * Windows *)

Lemma instant_cmp_nanos a b : timestamp_grammar a = true -> timestamp_grammar b = true ->
  timestamp_cmp a b = (nanos a ?= nanos b).
Proof.
  intros Ha%utc_nanoseconds_bound Hb%utc_nanoseconds_bound. unfold timestamp_cmp, instant_cmp, nanos.
  change (10 ^ 9) with 1000000000 in *.
  destruct (Z.compare_spec (utc_instant a).1 (utc_instant b).1) as [->|?|?].
  - symmetry. apply Z.add_compare_mono_l.
  - symmetry. apply Z.compare_lt_iff. lia.
  - symmetry. apply Z.compare_gt_iff. lia.
Qed.

Lemma is_gt_iff x y : is_gt (x ?= y) = true <-> y < x.
Proof. unfold is_gt. destruct (Z.compare_spec x y); split; (done || lia). Qed.

Lemma is_lt_iff x y : is_lt (x ?= y) = true <-> x < y.
Proof. unfold is_lt. destruct (Z.compare_spec x y); split; (done || lia). Qed.

Lemma is_eq_iff x y : is_eq (x ?= y) = true <-> x = y.
Proof. unfold is_eq. destruct (Z.compare_spec x y); split; (done || lia). Qed.

Definition DAY : Z := 86400 * 10 ^ 9.

Lemma add_days_spec t d u : timestamp_grammar t = true -> add_days t d = Ok u ->
  wire_ok Timestamp_parse u /\ calendar_valid u = true /\ nanos u = nanos t + d * DAY.
Proof.
  intros Ht. pose proof (utc_nanoseconds_bound t Ht) as Hn. unfold add_days, nanos.
  destruct (utc_instant t) as [sec ns] eqn:Et. cbn [fst snd] in *.
  assert (Hc : forall x, ok_or (checked_i64 x) RkInvalidWindow = Ok x \/ exists e, ok_or (checked_i64 x) RkInvalidWindow = Err e).
  { intros x. unfold checked_i64. destruct (_ && _); [by left|right; by eexists]. }
  destruct (Hc (d * 86400)) as [->|[? ->]]; cbn [rbind]; [|done].
  destruct (Hc (sec + d * 86400)) as [->|[? ->]]; cbn [rbind]; [|done]. cbv zeta.
  set (x := sec + d * 86400). pose proof (Z.mod_pos_bound x 86400 ltac:(lia)) as Hm. pose proof (Z.div_mod x 86400 ltac:(lia)) as Hx.
  destruct (civil_from_days (x / 86400)) as [[y m] dd] eqn:Ec.
  destruct (in_range 0 y 9999) eqn:Ey; cbn [negb]; [|done]. unfold in_range in Ey.
  destruct (render_instant_spec (x / 86400) (x mod 86400) ns) as (Hg & Hcal & Hu); [rewrite Ec; cbn; lia|lia|lia|].
  intros Hp. apply map_err_Ok in Hp. unfold Timestamp_parse in Hp. apply text_parse_Ok in Hp as [-> _].
  split; [done|]. split; [done|]. rewrite Hu. cbn [fst snd].
  unfold DAY, x in *. lia.
Qed.

(** A signing window of the certified length. *)
Definition window (from until : list Z) : Prop :=
  timestamp_grammar from = true /\ timestamp_grammar until = true /\
  nanos until = nanos from + RECEIPT_KEY_VALIDITY_DAYS * DAY.

Lemma validate_window_sound from until u : timestamp_grammar from = true -> timestamp_grammar until = true ->
  validate_window from until = Ok u -> window from until.
Proof.
  intros Hf Hu. unfold validate_window. rewrite instant_cmp_nanos by done.
  destruct (is_gt _) eqn:Eg; [done|]. intros (close & Hc & H)%rbind_Ok.
  apply add_days_spec in Hc as ([Hg _] & _ & Hn); [|done]. rewrite instant_cmp_nanos in H by done.
  destruct (is_eq _) eqn:Ee; [|done]. apply is_eq_iff in Ee. split_and!; [done..|]. congruence.
Qed.

Lemma validate_window_closes from until : timestamp_grammar from = true ->
  add_days from RECEIPT_KEY_VALIDITY_DAYS = Ok until -> validate_window from until = Ok tt.
Proof.
  intros Hf Ha. pose proof (add_days_spec _ _ _ Hf Ha) as ([Hu _] & _ & Hn).
  unfold validate_window. rewrite Ha. cbn [rbind]. rewrite !instant_cmp_nanos by done.
  rewrite (proj2 (is_eq_iff _ _) eq_refl). destruct (is_gt _) eqn:Eg; [|done]. apply is_gt_iff in Eg.
  unfold DAY, RECEIPT_KEY_VALIDITY_DAYS, RECEIPT_KEY_ROTATION_DAYS, RECEIPT_KEY_SIGNING_OVERLAP_DAYS in Hn. lia.
Qed.

(** * The schedule *)

Lemma max_by_snoc {A} (cmp : A -> A -> comparison) l x :
  max_by cmp (l ++ [x]) = Some (match max_by cmp l with Some b => if is_gt (cmp b x) then b else x | None => x end).
Proof. unfold max_by. rewrite fold_left_app. cbn. destruct (fold_left _ l None); [|done]. by destruct (is_gt _). Qed.

Lemma max_by_greatest {A} (cmp : A -> A -> comparison) (f : A -> Z) l :
  (forall a b, a ∈ l -> b ∈ l -> cmp a b = (f a ?= f b)) -> l <> [] ->
  exists m, max_by cmp l = Some m /\ m ∈ l /\ forall x, x ∈ l -> f x <= f m.
Proof.
  induction l as [|x l IH] using rev_ind; [done|]. intros Hcmp _. rewrite max_by_snoc.
  destruct l as [|y l'].
  { exists x. split_and!; [done|by apply list_elem_of_singleton|]. intros z ->%list_elem_of_singleton. lia. }
  destruct IH as (m & Em & Hm & Hmax); [intros; apply Hcmp; apply elem_of_app; by left|done|].
  rewrite Em. rewrite (Hcmp m x); [|apply elem_of_app; by left|apply elem_of_app; right; by apply list_elem_of_singleton].
  destruct (is_gt _) eqn:Eg.
  - apply is_gt_iff in Eg. exists m. split_and!; [done|apply elem_of_app; by left|].
    intros z [Hz| ->%list_elem_of_singleton]%elem_of_app; [by apply Hmax|lia].
  - assert (~ f x < f m) by (rewrite <- is_gt_iff, Eg; done).
    exists x. split_and!; [done|apply elem_of_app; right; by apply list_elem_of_singleton|].
    intros z [Hz| ->%list_elem_of_singleton]%elem_of_app; [|lia]. specialize (Hmax z Hz). lia.
Qed.

Section Schedule.
Context `{Signer}.

Definition start (k : CertifiedReceiptKey) : Z := nanos (valid_from (certificate k)).
Definition windowed (k : CertifiedReceiptKey) : Prop := window (valid_from (certificate k)) (valid_until (certificate k)).

(** The schedules rotation builds, with their keys in the order they came. *)
Inductive scheduled : ReceiptKeySchedule -> list CertifiedReceiptKey -> Prop :=
| scheduled_first k : windowed k -> scheduled (schedule_new k) [k]
| scheduled_next s ks k s' : scheduled s ks -> windowed k -> rotate s k = (s', Ok tt) -> scheduled s' (ks ++ [k]).

Definition id_of (k : CertifiedReceiptKey) : list Z := sk_key_id (signing_key k).

(** One key per id, thirty days apart. *)
Record schedule_inv (s : ReceiptKeySchedule) (ks : list CertifiedReceiptKey) : Prop := {
  inv_nonempty : ks <> [];
  inv_keys : forall i k, keys s !! i = Some k <-> k ∈ ks /\ id_of k = i;
  inv_windowed : Forall windowed ks;
  inv_tenant : Forall (fun k => sk_tenant (signing_key k) = sched_tenant s) ks;
  inv_spaced : forall i k, ks !! i = Some k ->
    start k = start (hd k ks) + Z.of_nat i * (RECEIPT_KEY_ROTATION_DAYS * DAY) }.

Lemma key_values_elem s k : k ∈ key_values s <-> exists i, keys s !! i = Some k.
Proof.
  unfold key_values. rewrite list_elem_of_In, in_map_iff. split.
  - intros ([i k'] & <- & Hin%list_elem_of_In). apply elem_of_sort_by, elem_of_map_to_list in Hin. by exists i.
  - intros (i & Hi). exists (i, k). split; [done|]. apply list_elem_of_In, elem_of_sort_by. by apply elem_of_map_to_list.
Qed.

Lemma inv_values s ks k : schedule_inv s ks -> k ∈ key_values s <-> k ∈ ks.
Proof.
  intros Hi. rewrite key_values_elem. split.
  - intros (i & Hk). by apply (inv_keys _ _ Hi) in Hk as [? _].
  - intros Hk. exists (id_of k). by apply (inv_keys _ _ Hi).
Qed.

Lemma start_cmp_nanos a b : windowed a -> windowed b -> start_cmp a b = (start a ?= start b).
Proof. intros (Ha & _) (Hb & _). by apply instant_cmp_nanos. Qed.

Lemma spaced_last s ks k l : schedule_inv s ks -> last ks = Some l -> k ∈ ks -> start k <= start l.
Proof.
  intros Hi Hl Hk. apply list_elem_of_lookup in Hk as [i Hk]. rewrite last_lookup in Hl.
  pose proof (inv_spaced _ _ Hi _ _ Hk) as E1. pose proof (inv_spaced _ _ Hi _ _ Hl) as E2.
  destruct ks as [|x ks]; [done|]. cbn [hd] in *. rewrite E1, E2. apply lookup_lt_Some in Hk.
  unfold RECEIPT_KEY_ROTATION_DAYS, DAY. cbn [length] in *. nia.
Qed.

Lemma spaced_start_inj s ks i j a b : schedule_inv s ks -> ks !! i = Some a -> ks !! j = Some b -> start a = start b -> i = j.
Proof.
  intros Hi Ha Hb E. pose proof (inv_spaced _ _ Hi _ _ Ha) as E1. pose proof (inv_spaced _ _ Hi _ _ Hb) as E2.
  destruct ks as [|x ks]; [done|]. cbn [hd] in *. unfold RECEIPT_KEY_ROTATION_DAYS, DAY in *. lia.
Qed.

Lemma scheduled_inv s ks : scheduled s ks -> schedule_inv s ks.
Proof.
  induction 1 as [k Hk|s ks k s' _ IH Hk Hr].
  - split; [done| |by apply Forall_singleton|by apply Forall_singleton|].
    + intros i k'. cbn [schedule_new keys]. rewrite lookup_singleton_Some, list_elem_of_singleton. naive_solver.
    + intros [|i] k'; [|done]. intros [= <-]. cbn. lia.
  - unfold rotate in Hr. case_bool_decide as Et; cbn [negb] in Hr; [|done]. case_bool_decide as En; [done|].
    destruct (max_by_greatest start_cmp start (key_values s)) as (m & Em & Hm & Hmax).
    { intros a b Ha Hb. pose proof (inv_windowed _ _ IH) as Hw. rewrite Forall_forall in Hw.
      apply start_cmp_nanos; apply Hw; by apply (inv_values _ _ _ IH). }
    { intros E. destruct ks as [|x ks']; [by apply (inv_nonempty _ _ IH)|].
      apply (elem_of_nil (A:=CertifiedReceiptKey) x). rewrite <- E. apply (inv_values _ _ _ IH). left. }
    rewrite Em in Hr. apply (inv_values _ _ _ IH) in Hm.
    destruct (add_days (valid_from (certificate m)) RECEIPT_KEY_ROTATION_DAYS) as [expected| |] eqn:Ea; [|done..].
    pose proof (inv_windowed _ _ IH) as Hw. rewrite Forall_forall in Hw. destruct (Hw m Hm) as (Gm & _).
    apply add_days_spec in Ea as ([Ge _] & _ & Hne); [|done].
    rewrite instant_cmp_nanos in Hr by (done || apply Hk). destruct (is_eq _) eqn:Ee; cbn [negb] in Hr; [|done].
    apply is_eq_iff in Ee. injection Hr as <-. split.
    + by destruct ks.
    + intros i k'. cbn [keys]. rewrite lookup_insert_Some, (inv_keys _ _ IH), elem_of_app, list_elem_of_singleton.
      split.
      * intros [[<- <-]|(_ & ? & ?)]; [by split; [right|]|by split; [left|]].
      * intros [[Hin| ->] Hi]; [right|by left]. split_and!; [|done..]. intros E. apply En. exists k'.
        apply (inv_keys _ _ IH). split; [done|]. unfold id_of in *. congruence.
    + apply Forall_app. split; [apply (inv_windowed _ _ IH)|by apply Forall_singleton].
    + apply Forall_app. split; [apply (inv_tenant _ _ IH)|by apply Forall_singleton].
    + destruct (last ks) as [l|] eqn:El; [|apply last_None in El; subst; by destruct (inv_nonempty _ _ IH)].
      assert (Hlm : start m = start l).
      { apply Z.le_antisymm; [by eapply spaced_last|]. apply Hmax. apply (inv_values _ _ _ IH).
        rewrite last_lookup in El. by eapply list_elem_of_lookup_2. }
      intros i k' Hi. apply lookup_snoc_Some in Hi as [[Hlt Hi]|[-> ->]].
      * rewrite (inv_spaced _ _ IH _ _ Hi). destruct ks; [done|]. done.
      * rewrite last_lookup in El. pose proof (inv_spaced _ _ IH _ _ El) as E2.
        assert (Ek : start k' = start m + RECEIPT_KEY_ROTATION_DAYS * DAY) by exact (eq_trans Ee Hne).
        destruct ks as [|x ks]; [done|]. cbn [hd app length] in *. rewrite Ek, Hlm, E2, Nat2Z.inj_succ. cbn [Nat.pred]. lia.
Qed.

Lemma valid_at_iff at_ k : timestamp_grammar at_ = true -> windowed k ->
  valid_at at_ k = true <-> start k <= nanos at_ <= start k + RECEIPT_KEY_VALIDITY_DAYS * DAY.
Proof.
  intros Ga (Gf & Gu & Hw). unfold valid_at. rewrite !instant_cmp_nanos by done.
  rewrite andb_true_iff, !negb_true_iff, <- !not_true_iff_false, !is_gt_iff, Hw. unfold start. lia.
Qed.

(** The newest key that has started. *)
Lemma newest_started s ks at_ k0 : schedule_inv s ks -> hd_error ks = Some k0 -> start k0 <= at_ ->
  exists i k, ks !! i = Some k /\ start k <= at_ /\ (S i = length ks \/ at_ < start k + RECEIPT_KEY_ROTATION_DAYS * DAY).
Proof.
  intros Hi Hk0 Hat. assert (Hsp := inv_spaced _ _ Hi). destruct ks as [|x ks]; [done|]. injection Hk0 as ->.
  cbn [hd] in Hsp. set (l := k0 :: ks) in *.
  assert (Hex : forall n, (n < length l)%nat -> exists i k, l !! i = Some k /\ start k <= at_ /\
    (i = n \/ at_ < start k + RECEIPT_KEY_ROTATION_DAYS * DAY)).
  { induction n as [|n IH]; intros Hn.
    - exists 0%nat, k0. split_and!; [done|done|by left].
    - destruct (IH ltac:(lia)) as (i & k & Hk & Hle & [->|Hlt]); [|by exists i, k; split_and!; [..|right]].
      destruct (lookup_lt_is_Some_2 l (S n) Hn) as [k' Hk'].
      destruct (Z.le_gt_cases (start k') at_); [by exists (S n), k'; split_and!; [..|left]|].
      exists n, k. split_and!; [done..|]. right. rewrite (Hsp _ _ Hk). rewrite (Hsp _ _ Hk') in H0. lia. }
  destruct (Hex (length l - 1)%nat) as (i & k & Hk & Hle & Hor); [unfold l; cbn; lia|].
  exists i, k. split_and!; [done..|]. destruct Hor as [->|]; [left|by right]. unfold l. cbn. lia.
Qed.

(** Between the first start and the end of the last window the schedule signs, with the
    newest key that has started; two keys valid at one instant are neighbours. *)
Lemma schedule_signs s ks at_ k0 kl : scheduled s ks -> timestamp_grammar at_ = true ->
  hd_error ks = Some k0 -> last ks = Some kl ->
  start k0 <= nanos at_ <= start kl + RECEIPT_KEY_VALIDITY_DAYS * DAY ->
  exists k, signing_key_at s at_ = Some k /\ k ∈ ks /\ valid_at at_ k = true /\
    (forall k', k' ∈ ks -> start k' <= nanos at_ -> start k' <= start k).
Proof.
  intros Hs%scheduled_inv Ga Hk0 Hl [Hlo Hhi]. pose proof (inv_windowed _ _ Hs) as Hw. rewrite Forall_forall in Hw.
  destruct (newest_started s ks (nanos at_) k0 Hs Hk0 Hlo) as (i & k & Hk & Hle & Hor).
  assert (Hin : k ∈ ks) by (by eapply list_elem_of_lookup_2).
  assert (Hv : valid_at at_ k = true).
  { apply valid_at_iff; [done|by apply Hw|]. split; [done|]. destruct Hor as [Hlast|Hlt].
    - assert (k = kl) as ->; [|lia]. rewrite last_lookup in Hl. replace (pred (length ks)) with i in Hl by lia. congruence.
    - unfold RECEIPT_KEY_VALIDITY_DAYS, RECEIPT_KEY_SIGNING_OVERLAP_DAYS, RECEIPT_KEY_ROTATION_DAYS, DAY in *. lia. }
  assert (Hmem : forall x, x ∈ List.filter (valid_at at_) (key_values s) <-> x ∈ ks /\ valid_at at_ x = true).
  { intros x. rewrite list_elem_of_In, filter_In, <- list_elem_of_In. by rewrite (inv_values _ _ _ Hs). }
  destruct (max_by_greatest start_cmp start (List.filter (valid_at at_) (key_values s))) as (m & Em & Hm & Hmax).
  { intros a b [Ha _]%Hmem [Hb _]%Hmem. apply start_cmp_nanos; by apply Hw. }
  { intros E. apply (elem_of_nil (A:=CertifiedReceiptKey) k). rewrite <- E. by apply Hmem. }
  apply Hmem in Hm as [Hmin Hmv]. exists m. split_and!; [done..|].
  intros k' Hk' Hst. apply list_elem_of_lookup in Hk' as [i' Hk'].
  assert (Hkm : start k <= start m) by (apply Hmax; by apply Hmem).
  enough (start k' <= start k) by lia.
  pose proof (inv_spaced _ _ Hs _ _ Hk) as E1. pose proof (inv_spaced _ _ Hs _ _ Hk') as E2.
  destruct ks as [|x ks]; [done|]. cbn [hd] in *. apply lookup_lt_Some in Hk'.
  unfold RECEIPT_KEY_ROTATION_DAYS, DAY in *. nia.
Qed.

Lemma valid_neighbours s ks at_ i j a b : scheduled s ks -> timestamp_grammar at_ = true ->
  ks !! i = Some a -> ks !! j = Some b -> valid_at at_ a = true -> valid_at at_ b = true -> (j <= i + 1)%nat.
Proof.
  intros Hs%scheduled_inv Ga Ha Hb. pose proof (inv_windowed _ _ Hs) as Hw. rewrite Forall_forall in Hw.
  rewrite !valid_at_iff by (done || (apply Hw; by eapply list_elem_of_lookup_2)).
  pose proof (inv_spaced _ _ Hs _ _ Ha) as E1. pose proof (inv_spaced _ _ Hs _ _ Hb) as E2.
  destruct ks as [|x ks]; [done|]. cbn [hd] in *.
  unfold RECEIPT_KEY_VALIDITY_DAYS, RECEIPT_KEY_SIGNING_OVERLAP_DAYS, RECEIPT_KEY_ROTATION_DAYS, DAY in *. lia.
Qed.
End Schedule.

(** * Seed files *)

Lemma seed_byte_digits b : is_byte b ->
  hex_digit (seed_digit (Z.shiftr b 4)) = Some (Z.shiftr b 4) /\ hex_digit (seed_digit (Z.land b 15)) = Some (Z.land b 15) /\
  Z.lor (Z.shiftl (Z.shiftr b 4) 4) (Z.land b 15) = b.
Proof.
  intros Hb. unfold is_byte in Hb.
  assert (Hall : Forall (fun b => hex_digit (seed_digit (Z.shiftr b 4)) = Some (Z.shiftr b 4) /\
    hex_digit (seed_digit (Z.land b 15)) = Some (Z.land b 15) /\ Z.lor (Z.shiftl (Z.shiftr b 4) 4) (Z.land b 15) = b)
    (map Z.of_nat (seq 0 256))).
  { apply (bool_decide_unpack _). vm_compute. exact I. }
  rewrite Forall_forall in Hall. apply Hall. apply list_elem_of_In, in_map_iff. exists (Z.to_nat b).
  split; [lia|]. apply in_seq. lia.
Qed.

(** The seed file [write_new] stores is the seed. *)
Lemma seed_file_reads seed : Forall is_byte seed -> length seed = 32%nat -> decode_seed (encode_seed seed) = Some seed.
Proof.
  intros Hb Hl. assert (Hgen : decode_hex_pairs (encode_seed seed) = Some seed /\
    forallb (fun b => is_some (hex_digit b)) (encode_seed seed) = true /\ length (encode_seed seed) = (2 * length seed)%nat).
  { clear Hl. induction Hb as [|b seed Hb _ (IH1 & IH2 & IH3)]; [done|]. destruct (seed_byte_digits b Hb) as (E1 & E2 & E3).
    unfold encode_seed in *. cbn [flat_map app decode_hex_pairs forallb length]. rewrite E1, E2, IH1, IH2, IH3. cbn [mbind option_bind is_some andb].
    rewrite E3. split_and!; [done..|]. cbn [length]. lia. }
  destruct Hgen as (E1 & E2 & E3). unfold decode_seed. rewrite E2, E3, Hl. done.
Qed.
