(* ===== verification/ReceiptIssue.v ===== *)
(** What receipts promise: certificates and records read back, what [verify] accepts
    is exactly the authentic receipts, and what a schedule of issued keys signs
    parses and verifies under the pinned root. *)

From stdpp Require Import gmap.
From S2P Require Import Prelude Text Json JsonFacts Sha256 Vocabulary Derivation Records Inventory Authority ControlRecord ControlRecordFacts TrustView RequestVerification Receipt ReceiptFacts.

Open Scope Z_scope.

(** * Certificates *)

Record cert_ok (c : ReceiptKeyCertificate) : Prop := {
  co_tenant : wire_ok TenantId_parse (cert_tenant c);
  co_public : wire_ok digest_parse (cert_public_key c);
  co_key : cert_key_id c = KeyId_from_public_key (cert_public_key c);
  co_from : wire_ok Timestamp_parse (valid_from c) /\ calendar_valid (valid_from c) = true;
  co_until : wire_ok Timestamp_parse (valid_until c) /\ calendar_valid (valid_until c) = true;
  co_window : validate_window (valid_from c) (valid_until c) = Ok tt;
  co_authority : wire_ok digest_parse (cert_authority c);
  co_signature : wire_ok Ed25519Signature_parse (cert_signature c) }.

Lemma certificate_table c : certificate_object c true = set_members (signed_fields (certificate_fields c) (cert_signature c)) [].
Proof. unfold signed_fields. by rewrite set_members_app. Qed.

Lemma int_member_Some o name n : int_member o name = Some n <-> object_get o (lit name) = Some (VInt n).
Proof. unfold int_member. destruct (object_get o (lit name)) as [[]|]; naive_solver. Qed.

Lemma parse_timestamp_Ok o name t : wf_value (VObject o) -> Forall is_scalar (lit name) -> parse_timestamp o name = Ok t <->
  wire_ok Timestamp_parse t /\ calendar_valid t = true /\ object_get o (lit name) = Some (VText t).
Proof.
  intros Hw Hn. unfold parse_timestamp. rewrite rbind_Ok. split.
  - intros (u & Hu & Hc). apply (typed_iff _ o Hw Timestamp_parse (lit name) u Hn) in Hu as [Hu Hg].
    destruct (calendar_valid u) eqn:E; [|done]. injection Hc as <-. done.
  - intros (Hu & Hc & Hg). exists t. rewrite Hc. split; [|done].
    apply (typed_iff _ o Hw Timestamp_parse (lit name) t Hn). done.
Qed.

(** [run_record], with this file's readers. *)
Ltac run_receipt Ho :=
  repeat first
    [progress run_record Ho
    |apply rbind_Ok; eexists; split;
     [lazymatch goal with
      | |- parse_timestamp ?o ?f = Ok _ =>
          apply (parse_timestamp_Ok o f _ Ho ltac:(scalar_name)); split_and!; cycle 2;
          [match goal with H : object_get o (lit f) = _ |- _ => exact H end|assumption|assumption]
      | |- validate_window _ _ = Ok _ => eassumption
      end|]; cbv beta].

Lemma certificate_exact v c : wf_value v -> Certificate_parse v = Ok c <->
  cert_ok c /\ v = VObject (certificate_object c true).
Proof.
  intros Hv. split.
  - destruct v as [| | | | |o]; try done. unfold Certificate_parse. intros Hp. split_record Hv.
    repeat match goal with H : parse_timestamp _ _ = Ok _ |- _ => apply parse_timestamp_Ok in H as (? & ? & ?); [|done|scalar_name] end.
    repeat match goal with H : int_member _ _ = Some _ |- _ => apply int_member_Some in H end. subst.
    match goal with H : validate_window _ _ = Ok ?u |- _ => destruct u end. split; [by split|]. f_equal. rewrite certificate_table.
    apply (closed_table CERTIFICATE_MEMBERS); [by apply wf_object_members|reflexivity|by apply (bool_decide_unpack _)|done|].
    unfold signed_fields, certificate_fields. cbn [app cert_tenant cert_key_id cert_public_key valid_from valid_until cert_authority cert_signature]. closed_lookups.
  - intros [[? ? Hkey [? ?] [? ?] ? ? ?] ->].
    pose proof (key_id_wire (cert_public_key c)) as Hkw. rewrite <- Hkey in Hkw.
    pose proof (certificate_table c) as Ho.
    assert (Hs : Forall (fun m => is_Some m.2) (signed_fields (certificate_fields c) (cert_signature c)))
      by (repeat (constructor; [by eexists|]); constructor).
    set (o := certificate_object c true) in *. clearbody o.
    assert (Hset : forall E (e : E), verify_member_set e o CERTIFICATE_MEMBERS = Ok tt)
      by exact (fun E => closed_members CERTIFICATE_MEMBERS _ o Ho eq_refl eq_refl Hs (E := E)).
    destruct (closed_object CERTIFICATE_MEMBERS _ o Ho eq_refl eq_refl Hs) as [_ Hf].
    unfold certificate_fields in Hf. known_members Hf. unfold Certificate_parse.
    assert (int_member o "certificate_version" = Some CERTIFICATE_VERSION) by (by apply int_member_Some).
    run_receipt Hv. by destruct c.
Qed.

(** * Key records *)

Record krec_ok (r : ReceiptKeyRecord) : Prop := {
  ko_tenant : wire_ok TenantId_parse (krec_tenant r);
  ko_public : wire_ok digest_parse (krec_public_key r);
  ko_key : krec_key_id r = KeyId_from_public_key (krec_public_key r);
  ko_from : wire_ok Timestamp_parse (krec_valid_from r) /\ calendar_valid (krec_valid_from r) = true;
  ko_until : wire_ok Timestamp_parse (krec_valid_until r) /\ calendar_valid (krec_valid_until r) = true;
  ko_signed : wire_ok Timestamp_parse (krec_signed_at r) /\ calendar_valid (krec_signed_at r) = true;
  ko_window : validate_window (krec_valid_from r) (krec_valid_until r) = Ok tt;
  ko_before : is_gt (timestamp_cmp (krec_signed_at r) (krec_valid_from r)) = false;
  ko_authority : wire_ok digest_parse (krec_authority r);
  ko_signature : wire_ok Ed25519Signature_parse (krec_signature r) }.

Lemma key_record_table r : key_record_object r true = set_members (signed_fields (record_fields r) (krec_signature r)) [].
Proof. unfold signed_fields. by rewrite set_members_app. Qed.

Lemma key_record_exact bytes r : KeyRecord_parse bytes = Ok r <->
  krec_ok r /\ Json.parse bytes = Ok (VObject (key_record_object r true)).
Proof.
  unfold KeyRecord_parse. split.
  - intros (o & Ho%record_object_Ok & Hp)%rbind_Ok. pose proof (parse_accepts _ _ _ _ Ho) as (Hv & _). split_record Hv.
    repeat match goal with H : parse_timestamp _ _ = Ok _ |- _ => apply parse_timestamp_Ok in H as (? & ? & ?); [|done|scalar_name] end.
    subst. match goal with H : validate_window _ _ = Ok ?u |- _ => destruct u end. split; [by split|].
    rewrite Ho. do 2 f_equal. rewrite key_record_table.
    apply (closed_table CONTROL_MEMBERS); [by apply wf_object_members|reflexivity|by apply (bool_decide_unpack _)|done|].
    unfold signed_fields, record_fields.
    cbn [app krec_tenant krec_key_id krec_public_key krec_valid_from krec_valid_until krec_signed_at krec_authority krec_signature].
    closed_lookups.
  - intros [[? ? Hkey [? ?] [? ?] [? ?] ? ? ? ?] Hj].
    pose proof (parse_accepts _ _ _ _ Hj) as (Hv & _). apply rbind_Ok. eexists. split; [by apply record_object_Ok|].
    pose proof (key_id_wire (krec_public_key r)) as Hkw. rewrite <- Hkey in Hkw.
    pose proof (key_record_table r) as Ho.
    assert (Hs : Forall (fun m => is_Some m.2) (signed_fields (record_fields r) (krec_signature r)))
      by (repeat (constructor; [by eexists|]); constructor).
    clear Hj. set (o := key_record_object r true) in *. clearbody o.
    assert (Hset : forall E (e : E), verify_member_set e o CONTROL_MEMBERS = Ok tt)
      by exact (fun E => closed_members CONTROL_MEMBERS _ o Ho eq_refl eq_refl Hs (E := E)).
    destruct (closed_object CONTROL_MEMBERS _ o Ho eq_refl eq_refl Hs) as [_ Hf].
    unfold record_fields in Hf. known_members Hf. run_receipt Hv. by destruct r.
Qed.

(** * Receipts *)

Section Receipts.
Context `{SignatureScheme} (root : PinnedAuthorityRoot) (fetch : Store).

(** The authority of the pinned chain signed the certificate. *)
Definition certified (c : ReceiptKeyCertificate) : Prop :=
  cert_tenant c = root_tenant_id root /\ exists r,
    verify_signing_authority root (cert_authority c) (valid_from c) fetch = Ok r /\
    verify (resolved_public_key r) (cert_unsigned_bytes c) (cert_signature c) = true.

Record authentic_receipt (o : Object) (x : VerifiedReceipt) : Prop := {
  ar_version : object_get o (lit "receipt_version") = Some (VInt RECEIPT_VERSION);
  ar_algorithm : object_get o (lit "signature_algorithm") = Some (VText ALGORITHM);
  ar_tenant : object_get o (lit "tenant_id") = Some (VText (ver_tenant x));
  ar_commit : wire_ok Timestamp_parse (ver_commit_time x) /\ calendar_valid (ver_commit_time x) = true /\
    object_get o (lit "commit_time") = Some (VText (ver_commit_time x));
  ar_key : object_get o (lit "receipt_key_id") = Some (VText (to_hex (ver_key_id x)));
  ar_certificate : object_get o (lit "certificate") = Some (VObject (certificate_object (ver_certificate x) true));
  ar_cert : cert_ok (ver_certificate x) /\ cert_tenant (ver_certificate x) = ver_tenant x /\
    cert_key_id (ver_certificate x) = ver_key_id x /\ certified (ver_certificate x);
  ar_window : nanos (valid_from (ver_certificate x)) <= nanos (ver_commit_time x) <= nanos (valid_until (ver_certificate x));
  ar_signed : exists g, wire_ok Ed25519Signature_parse g /\ object_get o (lit "signature") = Some (VText (to_hex g)) /\
    verify (cert_public_key (ver_certificate x)) (canonical_bytes (VObject (object_remove o (lit "signature")).2)) g = true }.

Lemma Certificate_verify_Ok c r : Certificate_verify root fetch c = Ok r <->
  cert_tenant c = root_tenant_id root /\ verify_signing_authority root (cert_authority c) (valid_from c) fetch = Ok r /\
  verify (resolved_public_key r) (cert_unsigned_bytes c) (cert_signature c) = true.
Proof.
  unfold Certificate_verify. split.
  - intros Hp. repeat match goal with
    | H : rbind _ _ = Ok _ |- _ => apply rbind_Ok in H as (? & ? & H)
    | H : unless _ _ = Ok _ |- _ => apply unless_Ok in H
    | H : negb _ = false |- _ => apply negb_false_iff in H
    | H : bool_decide _ = true |- _ => apply bool_decide_eq_true in H
    | H : map_err _ _ = Ok _ |- _ => apply map_err_Ok in H
    | H : Ok _ = Ok _ |- _ => injection H as <-
    end. done.
  - intros (Ht & Hr & Hv). rewrite bool_decide_true by done. cbn [negb unless rbind]. rewrite Hr. cbn [map_err rbind].
    by rewrite Hv.
Qed.

Lemma window_bounds a b c : timestamp_grammar a = true -> timestamp_grammar b = true -> timestamp_grammar c = true ->
  is_lt (timestamp_cmp a b) || is_gt (timestamp_cmp a c) = false <-> nanos b <= nanos a <= nanos c.
Proof.
  intros Ha Hb Hc. rewrite !instant_cmp_nanos, orb_false_iff, <- !not_true_iff_false, is_lt_iff, is_gt_iff by done. lia.
Qed.

Lemma receipt_verify_iff o x : wf_value (VObject o) -> Receipt_verify root fetch (VObject o) = Ok x <-> authentic_receipt o x.
Proof.
  intros Hw. split.
  - unfold Receipt_verify. intros Hp. cbv zeta in Hp. split_record Hw.
    match goal with H : ok_or _ _ = Ok _ |- _ => apply ok_or_Ok in H as Hcv end.
    pose proof (object_get_wf o (lit "certificate") _ Hw ltac:(scalar_name) Hcv) as Hcw.
    match goal with H : Certificate_parse _ = Ok _ |- _ => apply (certificate_exact _ _ Hcw) in H as [Hok ->] end.
    match goal with H : parse_timestamp _ _ = Ok _ |- _ => apply parse_timestamp_Ok in H as (Kv & ? & ?); [|done|scalar_name] end.
    match goal with H : int_member _ _ = Some _ |- _ => apply int_member_Some in H end.
    match goal with H : Certificate_verify _ _ _ = Ok _ |- _ => apply Certificate_verify_Ok in H as (? & ? & ?) end.
    destruct Hok as [Kt Kp Kk [Kf Kfc] [Ku Kuc] Kw Ka Ks].
    match goal with H1 : is_lt ?a = false, H2 : is_gt ?b = false |- _ =>
      pose proof (proj1 (window_bounds _ _ _ ltac:(apply Kv) ltac:(apply Kf) ltac:(apply Ku)) (proj2 (orb_false_iff _ _) (conj H1 H2))) end.
    constructor; cbn [ver_tenant ver_key_id ver_commit_time ver_certificate]; try assumption.
    + split_and!; assumption.
    + split; [constructor; try (split; assumption); assumption|]. split; [assumption|]. split; [assumption|].
      split; [assumption|]. eexists. split; eassumption.
    + eexists. split; [eassumption|]. split; eassumption.
  - intros [Hver Halg Hten (Hcw & Hcc & Hct) Hkey Hcert (Hok & Ect & Eck & Htr & r & Hr & Hvr) Hwin (g & Hg & Hgs & Hgv)].
    destruct x as [tenant key commit c]. cbn [ver_tenant ver_key_id ver_commit_time ver_certificate] in *.
    pose proof (co_tenant _ Hok) as Kt. pose proof (key_id_wire (cert_public_key c)) as Kk. rewrite <- (co_key _ Hok) in Kk.
    rewrite Ect in Kt. rewrite Eck in Kk. apply int_member_Some in Hver.
    pose proof (object_get_wf o (lit "certificate") _ Hw ltac:(scalar_name) Hcert) as Hcwf.
    unfold Receipt_verify. cbv zeta. run_receipt Hw.
    apply rbind_Ok. eexists. split; [apply ok_or_Ok; exact Hcert|].
    apply rbind_Ok. exists c. split; [by apply (certificate_exact _ _ Hcwf)|].
    apply rbind_Ok. exists tt. split; [apply unless_Ok; passes|].
    apply rbind_Ok. exists tt. split.
    { apply unless_Ok, window_bounds; [apply Hcw|apply (co_from _ Hok)|apply (co_until _ Hok)|done]. }
    apply rbind_Ok. exists r. split; [by apply Certificate_verify_Ok|]. run_receipt Hw. reflexivity.
Qed.
End Receipts.

(** * Issued receipts *)

Section Issued.
Context `{LawfulSigner} (root : PinnedAuthorityRoot) (fetch : Store).

(** The chain lets the authority's key certify at the start of the window. *)
Definition authority_stands (authority : SigningKey) (from : list Z) : Prop := exists r,
  verify_signing_authority root (sk_key_id authority) from fetch = Ok r /\
  resolved_public_key r = sk_public_key authority.

(** What [certify] builds. *)
Record issued_key (key : CertifiedReceiptKey) : Prop := {
  ik_tenant : sk_tenant (signing_key key) = cert_tenant (certificate key);
  ik_public : sk_public_key (signing_key key) = cert_public_key (certificate key);
  ik_cert : cert_ok (certificate key);
  ik_certified : certified root fetch (certificate key) }.

Lemma certify_issued k authority at_ from key : wire_ok TenantId_parse (sk_tenant k) ->
  wire_ok digest_parse (sk_public_key k) -> wire_ok Timestamp_parse from -> sk_tenant k = root_tenant_id root ->
  authority_stands authority from -> certify k authority at_ from = Ok key ->
  issued_key key /\ windowed key /\ signing_key key = k.
Proof.
  intros Ht Hp Hf Hroot (r & Hr & Hpk). unfold certify. case_bool_decide as Et; cbn [negb]; [|done].
  intros (until & Ha & Hk)%rbind_Ok. destruct (_ || _) eqn:Eb; [done|]. cbv zeta in Hk. injection Hk as <-.
  apply orb_false_iff in Eb as [[_ Hcal%negb_false_iff]%orb_false_iff _].
  destruct (add_days_spec from _ until ltac:(apply Hf) Ha) as (Gu & Cu & Nu).
  set (c0 := mkCertificate (sk_tenant k) (sk_key_id k) (sk_public_key k) from until (sk_key_id authority) (repeat 0 64)).
  set (g := sign (sk_seed authority) (cert_unsigned_bytes c0)).
  destruct (signature_bytes (sk_seed authority) (cert_unsigned_bytes c0)) as [Hgb Hgl]. fold g in Hgb, Hgl.
  assert (Hv : verify (sk_public_key authority) (cert_unsigned_bytes c0) g = true) by exact (sign_verifies _ _).
  split; [split|split].
  - reflexivity.
  - reflexivity.
  - cbn [certificate]. constructor; cbn [cert_tenant cert_key_id cert_public_key valid_from valid_until cert_authority cert_signature].
    + exact Ht.
    + exact Hp.
    + reflexivity.
    + split; [exact Hf|exact Hcal].
    + split; [exact Gu|exact Cu].
    + apply validate_window_closes; [apply Hf|exact Ha].
    + apply key_id_wire.
    + split; [exact Hgb|exact Hgl].
  - split; [exact Hroot|]. exists r. split; [exact Hr|]. rewrite Hpk. exact Hv.
  - cbn [certificate]. split; [apply Hf|]. split; [apply Gu|exact Nu].
  - reflexivity.
Qed.

(** What [Receipt_sign] adds. *)
Definition receipt_fields (key : CertifiedReceiptKey) : list (list Z * option Value) :=
  [int_field "receipt_version" RECEIPT_VERSION; text_field "receipt_key_id" (to_hex (sk_key_id (signing_key key)));
   (lit "certificate", Some (VObject (certificate_object (certificate key) true)));
   text_field "signature_algorithm" ALGORITHM].

Lemma receipt_fields_scalar key : Forall (fun m => Forall is_scalar m.1) (receipt_fields key) /\ NoDup (receipt_fields key).*1.
Proof.
  split; [repeat (constructor; [scalar_name|]); constructor|]. by apply (bool_decide_unpack _).
Qed.

(** Writing members keeps what the values share. *)
Lemma object_set_values (P : Value -> Prop) o n v : Forall is_scalar n -> wf_members o -> P v ->
  Forall (fun m => P m.2) o -> Forall (fun m => P m.2) (object_set o n v).
Proof.
  intros Hn Hw Hv Ho. apply Forall_forall. intros [n' v'] Hin.
  pose proof (object_set_wf _ _ v Hw Hn) as Hws. pose proof (wf_members_scalar _ _ _ Hws Hin) as Hn'.
  apply object_get_in in Hin; [|done..]. rewrite object_get_set in Hin by done. case_bool_decide.
  - by injection Hin as <-.
  - apply object_get_in in Hin; [|done..]. rewrite Forall_forall in Ho. by apply (Ho _ Hin).
Qed.

Lemma set_members_values (P : Value -> Prop) ms o : Forall (fun m => Forall is_scalar m.1) ms ->
  Forall (fun m => forall v, m.2 = Some v -> P v) ms -> wf_members o -> Forall (fun m => P m.2) o ->
  Forall (fun m => P m.2) (set_members ms o).
Proof.
  intros Hsc. revert o. induction Hsc as [|[n [v|]] ms Hn Hsc IH]; intros o Hms Hw Ho; [done|..];
    apply Forall_cons in Hms as [Hv Hms]; cbn in *; [|by apply IH].
  apply IH; [done|by apply object_set_wf|]. by apply object_set_values; [..|apply Hv|].
Qed.

Definition flat (v : Value) : Prop := wf_value v /\ depth v = 0%nat.

Lemma certificate_storable c : cert_ok c -> storable (Some (VObject (certificate_object c true))).
Proof.
  intros [Ht Hp Hk [Hf _] [Hu _] _ Ha Hs]. rewrite certificate_table.
  pose proof (key_id_wire (cert_public_key c)) as Hkw. rewrite <- Hk in Hkw.
  assert (Htext : forall t, Forall is_scalar t -> forall v, Some (VText t) = Some v -> flat v).
  { intros t Hts v [= <-]. split; [by constructor|done]. }
  assert (Hms : Forall (fun m => forall v, m.2 = Some v -> flat v) (signed_fields (certificate_fields c) (cert_signature c))).
  { unfold signed_fields, certificate_fields. cbn [app].
    repeat first [apply Forall_nil; exact I|apply Forall_cons; split; [cbn [snd text_field int_field]|]].
    - intros v [= <-]. split; [constructor; vm_compute; split; discriminate|done].
    - apply Htext, Ht.
    - apply Htext. exact (wire_scalar (parse := digest_parse) _ Hkw).
    - apply Htext. scalar_name.
    - apply Htext. exact (wire_scalar (parse := digest_parse) _ Hp).
    - apply Htext, Hf.
    - apply Htext, Hu.
    - apply Htext. exact (wire_scalar (parse := digest_parse) _ Ha).
    - apply Htext. exact (wire_scalar (parse := Ed25519Signature_parse) _ Hs). }
  assert (Hsc : Forall (fun m => Forall is_scalar m.1) (signed_fields (certificate_fields c) (cert_signature c))).
  { repeat (constructor; [scalar_name|]). constructor. }
  pose proof (set_members_values flat _ [] Hsc Hms wf_members_nil (Forall_nil_2 _)) as Hall.
  eexists. split; [reflexivity|]. split.
  - apply wf_object_iff. split; [apply set_members_wf; [done|apply wf_members_nil]|].
    eapply Forall_impl; [exact Hall|]. by intros m [? _].
  - apply Nat.le_lt_trans with 1%nat; [|unfold DEFAULT_MAX_DEPTH; lia]. apply object_depth.
    eapply Forall_impl; [exact Hall|]. intros m [_ ->]. lia.
Qed.

Definition signed_object (o : Object) (key : CertifiedReceiptKey) : Object :=
  set_members (receipt_fields key) o.

Definition signed_receipt (o : Object) (key : CertifiedReceiptKey) : Object :=
  object_set (signed_object o key) (lit "signature")
    (VText (to_hex (sign (sk_seed (signing_key key)) (canonical_bytes (VObject (signed_object o key)))))).

Lemma receipt_signed o key : wf_value (VObject o) -> existsb (object_contains o) RECEIPT_PROTECTED_MEMBERS = false ->
  let signed := signed_object o key in
  let v := signed_receipt o key in
  wf_members v /\
  (forall m, m ∈ receipt_fields key -> object_get v m.1 = m.2) /\
  (forall n, Forall is_scalar n -> n ∉ RECEIPT_PROTECTED_MEMBERS -> object_get v n = object_get o n) /\
  object_get v (lit "signature") = Some (VText (to_hex (sign (sk_seed (signing_key key)) (canonical_bytes (VObject signed))))) /\
  (object_remove v (lit "signature")).2 = signed.
Proof.
  intros Hw Hp signed v. destruct (proj1 (wf_object_iff o) Hw) as [Ho Hvals].
  destruct (receipt_fields_scalar key) as [Hsc Hnd].
  assert (Hws : wf_members signed) by (by apply set_members_wf).
  assert (Hsn : Forall is_scalar (lit "signature")) by scalar_name.
  split; [by apply object_set_wf|]. split; [|split; [|split]].
  - intros [n ov] Hin. assert (Hn : Forall is_scalar n) by (rewrite Forall_forall in Hsc; exact (Hsc _ Hin)).
    cbn [fst snd]. unfold v, signed_receipt. rewrite object_get_set by done. rewrite bool_decide_false.
    + unfold signed, signed_object. rewrite (object_get_set_members _ o n ov) by done.
      assert (Hs : Forall (fun m => is_Some m.2) (receipt_fields key)) by (repeat (constructor; [by eexists|]); constructor).
      rewrite Forall_forall in Hs. destruct (Hs _ Hin) as [x Hx]. cbn in Hx. by subst.
    + intros <-. apply (list_elem_of_fmap_2 fst) in Hin. revert Hin. by apply (bool_decide_unpack _).
  - intros n Hn Hni. unfold v, signed_receipt. rewrite object_get_set by done. rewrite bool_decide_false.
    + apply object_get_set_members_other; try done. intros Hin. apply Hni. 
      repeat (apply elem_of_cons in Hin as [->|Hin]; [by apply (bool_decide_unpack _)|]). by apply elem_of_nil in Hin.
    + intros <-. apply Hni. by apply (bool_decide_unpack _).
  - unfold v, signed_receipt. rewrite object_get_set by done. by rewrite bool_decide_true.
  - apply object_remove_set; [done..|]. unfold signed, signed_object. rewrite object_get_set_members_other; try done.
    + apply eq_None_not_Some. intros [x Hx]. apply not_true_iff_false in Hp. apply Hp, existsb_exists.
      exists (lit "signature"). split; [by apply list_elem_of_In, (bool_decide_unpack _)|].
      unfold object_contains. by rewrite Hx.
    + by apply (bool_decide_unpack _).
Qed.

(** The inputs [Receipt_sign] accepts, and what it makes of them. *)
Record receipt_input (o : Object) (tenant commit : list Z) : Prop := {
  ri_wf : wf_value (VObject o);
  ri_open : existsb (object_contains o) RECEIPT_PROTECTED_MEMBERS = false;
  ri_tenant : wire_ok TenantId_parse tenant /\ object_get o (lit "tenant_id") = Some (VText tenant);
  ri_commit : wire_ok Timestamp_parse commit /\ calendar_valid commit = true /\
    object_get o (lit "commit_time") = Some (VText commit) }.

Lemma Receipt_sign_Ok o key v : wf_value (VObject o) -> cert_ok (certificate key) -> Receipt_sign o key = Ok v <->
  exists commit, receipt_input o (sk_tenant (signing_key key)) commit /\
    nanos (valid_from (certificate key)) <= nanos commit <= nanos (valid_until (certificate key)) /\
    v = VObject (signed_receipt o key).
Proof.
  intros Hw Hc. unfold Receipt_sign. pose proof (co_from _ Hc) as [Gf _]. pose proof (co_until _ Hc) as [Gu _]. split.
  - destruct (existsb _ _) eqn:Ep; [done|]. intros (tenant & Ht & Hr)%rbind_Ok.
    apply (typed_iff _ o Hw TenantId_parse (lit "tenant_id") tenant ltac:(scalar_name)) in Ht as [Ht Hg].
    case_bool_decide as Et; cbn [negb] in Hr; [subst tenant|done].
    apply rbind_Ok in Hr as (commit & Hcm & Hr). apply parse_timestamp_Ok in Hcm as (Kw & Kc & Kg); [|done|scalar_name].
    destruct (_ || _) eqn:Eb; [done|]. apply window_bounds in Eb; [|apply Kw|apply Gf|apply Gu].
    cbv zeta in Hr. injection Hr as <-. exists commit. split; [by split|]. split; [exact Eb|].
    unfold signed_receipt, signed_object, receipt_fields. reflexivity.
  - intros (commit & [_ Hp [Ht Hg] (Kw & Kc & Kg)] & Hb & ->). rewrite Hp.
    assert (Hten : field RkMalformed TenantId_parse o "tenant_id" = Ok (sk_tenant (signing_key key))).
    { apply (typed_iff _ o Hw TenantId_parse (lit "tenant_id") _ ltac:(scalar_name)). done. }
    rewrite Hten. cbn [rbind]. rewrite bool_decide_true by done. cbn [negb].
    rewrite (proj2 (parse_timestamp_Ok o "commit_time" commit Hw ltac:(scalar_name)) (conj Kw (conj Kc Kg))). cbn [rbind].
    rewrite (proj2 (window_bounds _ _ _ ltac:(apply Kw) ltac:(apply Gf) ltac:(apply Gu)) Hb).
    unfold signed_receipt, signed_object, receipt_fields. reflexivity.
Qed.

Lemma signed_receipt_authentic o key commit : issued_key key -> receipt_input o (sk_tenant (signing_key key)) commit ->
  nanos (valid_from (certificate key)) <= nanos commit <= nanos (valid_until (certificate key)) ->
  authentic_receipt root fetch (signed_receipt o key)
    (mkVerified (sk_tenant (signing_key key)) (sk_key_id (signing_key key)) commit (certificate key)).
Proof.
  intros [Et Ep Hc Hcert] [Hw Hopen [Ht Hg] (Kw & Kc & Kg)] Hb.
  destruct (receipt_signed o key Hw Hopen) as (_ & Hf & Ho & Hs & Hr).
  assert (Ek : sk_key_id (signing_key key) = cert_key_id (certificate key)).
  { rewrite (co_key _ Hc), <- Ep. reflexivity. }
  constructor; cbn [ver_tenant ver_key_id ver_commit_time ver_certificate].
  - apply (Hf (int_field "receipt_version" RECEIPT_VERSION)). left.
  - apply (Hf (text_field "signature_algorithm" ALGORITHM)). right. right. right. left.
  - rewrite Ho; [done|scalar_name|by apply (bool_decide_unpack _)].
  - split; [done|]. split; [done|]. rewrite Ho; [done|scalar_name|by apply (bool_decide_unpack _)].
  - apply (Hf (text_field "receipt_key_id" (to_hex (sk_key_id (signing_key key))))). right. left.
  - apply (Hf (lit "certificate", Some (VObject (certificate_object (certificate key) true)))). right. right. left.
  - split; [done|]. split; [by symmetry|]. split; [by symmetry|done].
  - done.
  - eexists. split; [|split; [exact Hs|]].
    + exact (signature_bytes (sk_seed (signing_key key)) (canonical_bytes (VObject (signed_object o key)))).
    + rewrite Hr, <- Ep. exact (sign_verifies _ _).
Qed.

Lemma signed_receipt_wf o key : issued_key key -> wf_value (VObject o) -> (depth (VObject o) <= DEFAULT_MAX_DEPTH)%nat ->
  wf_value (VObject (signed_receipt o key)) /\ (depth (VObject (signed_receipt o key)) <= DEFAULT_MAX_DEPTH)%nat.
Proof.
  intros Hi Hw Hd. destruct (proj1 (wf_object_iff o) Hw) as [Ho Hvals]. destruct (receipt_fields_scalar key) as [Hsc _].
  assert (Hsn : Forall is_scalar (lit "signature")) by scalar_name.
  assert (Hks : forall k, Forall is_scalar (to_hex (sk_key_id k))).
  { intros k. exact (wire_scalar (parse := digest_parse) _ (key_id_wire _)). }
  assert (Hms : Forall (fun m => storable m.2) (receipt_fields key)).
  { unfold receipt_fields. repeat first [apply Forall_nil; exact I|apply Forall_cons; split; [cbn [snd text_field int_field]|]].
    - apply storable_int. unfold RECEIPT_VERSION, I64_MAX. lia.
    - apply storable_text, Hks.
    - apply certificate_storable, Hi.
    - apply storable_text. scalar_name. }
  assert (Hof : Forall (fun m => wf_value m.2 /\ depth m.2 < DEFAULT_MAX_DEPTH)%nat o).
  { apply object_depth in Hd. apply Forall_and. by split. }
  pose proof (set_members_storable _ Hsc Hms o Ho Hof) as Hall.
  pose proof (set_members_wf _ o Hsc Ho) as Hws.
  assert (Hsto : wf_value (VText (to_hex (sign (sk_seed (signing_key key)) (canonical_bytes (VObject (signed_object o key)))))) /\ (0 < DEFAULT_MAX_DEPTH)%nat).
  { pose proof (signature_bytes (sk_seed (signing_key key)) (canonical_bytes (VObject (signed_object o key)))) as Hg.
    split; [constructor|unfold DEFAULT_MAX_DEPTH; lia]. exact (wire_scalar (parse := Ed25519Signature_parse) _ Hg). }
  pose proof (object_set_values (fun v => wf_value v /\ depth v < DEFAULT_MAX_DEPTH)%nat _ _ _ Hsn Hws Hsto Hall) as Hfin.
  assert (Hval : Forall (fun m => wf_value m.2 /\ depth m.2 < DEFAULT_MAX_DEPTH)%nat (signed_receipt o key)) by exact Hfin. split.
  - apply wf_object_iff. split; [by apply object_set_wf|]. eapply Forall_impl; [exact Hval|]. by intros m [? _].
  - apply object_depth. eapply Forall_impl; [exact Hval|]. by intros m [_ ?].
Qed.
(** ** Certified and restored keys *)

Lemma key_record_storable r : krec_ok r ->
  wf_value (VObject (key_record_object r true)) /\ (depth (VObject (key_record_object r true)) <= DEFAULT_MAX_DEPTH)%nat.
Proof.
  intros [Ht Hp Hk [Hf _] [Hu _] [Ha _] _ _ Hau Hs]. rewrite key_record_table.
  pose proof (key_id_wire (krec_public_key r)) as Hkw. rewrite <- Hk in Hkw.
  apply (closed_storable CONTROL_MEMBERS); [reflexivity|]. unfold signed_fields, record_fields. cbn [app].
  repeat first [apply Forall_nil; exact I|apply Forall_cons; split; [cbn [snd text_field int_field]|]].
  all: first [by apply storable_text; scalar_name|by apply storable_text, Ht|by apply storable_text, Hf|by apply storable_text, Hu
    |by apply storable_text, Ha|exact (storable_wire digest_parse _ Hkw)|exact (storable_wire digest_parse _ Hp)
    |exact (storable_wire digest_parse _ Hau)|exact (storable_wire Ed25519Signature_parse _ Hs)].
Qed.

Lemma certify_record k authority at_ from key : wire_ok TenantId_parse (sk_tenant k) ->
  wire_ok digest_parse (sk_public_key k) -> wire_ok Timestamp_parse from -> wire_ok Timestamp_parse at_ ->
  sk_tenant k = root_tenant_id root -> authority_stands authority at_ -> certify k authority at_ from = Ok key ->
  krec_ok (key_record key) /\ (exists r, KeyRecord_verify root fetch (key_record key) = Ok r) /\
  cert_tenant (certificate key) = krec_tenant (key_record key) /\ cert_key_id (certificate key) = krec_key_id (key_record key) /\
  cert_public_key (certificate key) = krec_public_key (key_record key) /\
  valid_from (certificate key) = krec_valid_from (key_record key) /\
  valid_until (certificate key) = krec_valid_until (key_record key) /\
  cert_authority (certificate key) = krec_authority (key_record key).
Proof.
  intros Ht Hp Hf Hat Hroot (r & Hr & Hpk). unfold certify. case_bool_decide as Et; cbn [negb]; [|done].
  intros (until & Ha & Hk)%rbind_Ok. destruct (_ || _) eqn:Eb; [done|]. cbv zeta in Hk. injection Hk as <-.
  apply orb_false_iff in Eb as [[Hca%negb_false_iff Hcal%negb_false_iff]%orb_false_iff Hgt].
  destruct (add_days_spec from _ until ltac:(apply Hf) Ha) as (Gu & Cu & Nu).
  set (r0 := mkKeyRecord (sk_tenant k) (sk_key_id k) (sk_public_key k) from until at_ (sk_key_id authority) (repeat 0 64)).
  set (g := sign (sk_seed authority) (krec_unsigned_bytes r0)).
  pose proof (signature_bytes (sk_seed authority) (krec_unsigned_bytes r0)) as Hg. fold g in Hg.
  assert (Hv : verify (sk_public_key authority) (krec_unsigned_bytes r0) g = true) by exact (sign_verifies _ _).
  split; [|split; [|by split_and!]].
  - cbn [key_record]. constructor; cbn [krec_tenant krec_key_id krec_public_key krec_valid_from krec_valid_until krec_signed_at krec_authority krec_signature].
    + exact Ht.
    + exact Hp.
    + reflexivity.
    + exact (conj Hf Hcal).
    + exact (conj Gu Cu).
    + exact (conj Hat Hca).
    + apply validate_window_closes; [apply Hf|exact Ha].
    + exact Hgt.
    + apply key_id_wire.
    + exact Hg.
  - exists r. cbn [key_record]. unfold KeyRecord_verify. cbn [krec_tenant krec_authority krec_signed_at krec_signature].
    rewrite bool_decide_true by exact Hroot. cbn [negb unless rbind]. rewrite Hr. cbn [map_err rbind]. rewrite Hpk.
    change ((let! _ := unless (negb (verify (sk_public_key authority) (krec_unsigned_bytes r0) g)) RkSignature in Ok r) = Ok r).
    rewrite Hv. reflexivity.
Qed.

(** A key built from its public material is one the authority issued. *)
Lemma restored_issued c r resolved key : cert_ok c -> from_public_material c r resolved root fetch = Ok key ->
  issued_key key /\ certificate key = c /\ key_record key = r.
Proof.
  intros Hc. unfold from_public_material. destruct (_ || _) eqn:E1; [done|]. destruct (_ || _) eqn:E2 in |- *; [done|].
  intros (? & Hkr & (ra & Hcv & (k & Hk & Hf)%rbind_Ok)%rbind_Ok)%rbind_Ok. match type of Hf with (if ?b then _ else _) = _ => destruct b eqn:E3; [done|] end. injection Hf as <-.
  repeat match goal with
  | H : _ || _ = false |- _ => apply orb_false_iff in H as [? ?]
  | H : negb _ = false |- _ => apply negb_false_iff in H
  | H : bool_decide _ = true |- _ => apply bool_decide_eq_true in H
  end.
  apply Certificate_verify_Ok in Hcv as (Hct & Hr & Hv).
  unfold from_secret in Hk. apply rbind_Ok in Hk as (bytes & _ & (seed & _ & [= <-])%rbind_Ok). cbn [certificate key_record sk_tenant] in *.
  split; [|done]. split; cbn [certificate signing_key sk_tenant]; [congruence|congruence|done|].
  split; [done|]. by exists ra.
Qed.
Lemma issued_windowed key : issued_key key -> windowed key.
Proof.
  intros [_ _ [_ _ _ [[Gf _] _] [[Gu _] _] Hw _ _] _]. by eapply validate_window_sound.
Qed.

(** What the tenant authority certifies comes back whole: the published record and
    the certificate parse to themselves, and the public material with the seed file
    rebuilds the same signing key under the pinned root. *)
Theorem receipt_key_restored k authority at_ from key seed_file :
  wire_ok TenantId_parse (sk_tenant k) -> wire_ok digest_parse (sk_public_key k) ->
  wire_ok Timestamp_parse from -> wire_ok Timestamp_parse at_ ->
  sk_tenant k = root_tenant_id root -> authority_stands authority from -> authority_stands authority at_ ->
  decode_seed seed_file = Some (sk_seed k) ->
  certify k authority at_ from = Ok key ->
  zlen (krec_canonical_bytes (key_record key)) <= DEFAULT_MAX_BYTES ->
  KeyRecord_parse (krec_canonical_bytes (key_record key)) = Ok (key_record key) /\
  Certificate_parse (VObject (certificate_object (certificate key) true)) = Ok (certificate key) /\
  from_public_material (certificate key) (key_record key) (Ok seed_file) root fetch = Ok key.
Proof.
  intros Ht Hp Hf Hat Hroot Hsf Hsa Hseed Hk Hlen.
  destruct (certify_issued k authority at_ from key Ht Hp Hf Hroot Hsf Hk) as (Hi & _ & Ek).
  destruct (certify_record k authority at_ from key Ht Hp Hf Hat Hroot Hsa Hk) as (Hr & (rr & Hrv) & E1 & E2 & E3 & E4 & E5 & E6).
  destruct (key_record_storable _ Hr) as [Hwf Hd]. destruct (certificate_storable _ (ik_cert _ Hi)) as (v & [= <-] & Hcw & _).
  destruct (ik_certified _ Hi) as (Hct & rc & Hrc & Hvc).
  split; [|split].
  - apply key_record_exact. split; [done|]. by apply parse_canonical.
  - by apply certificate_exact; [|split; [apply ik_cert|]].
  - unfold from_public_material. rewrite <- E1, <- E2, <- E3, <- E4, <- E5, <- E6, !bool_decide_true by done. cbn [negb orb].
    rewrite Hrv. cbn [rbind].
    rewrite (proj2 (Certificate_verify_Ok root fetch (certificate key) rc)) by (by split_and!). cbn [rbind].
    unfold from_secret. cbn [map_err rbind]. rewrite Hseed. cbn [ok_or rbind].
    assert (Ekk : mkSigningKey (cert_tenant (certificate key)) (sk_seed k) = signing_key key).
    { rewrite <- (ik_tenant _ Hi), Ek. by destruct k. }
    rewrite Ekk, !bool_decide_true; [by destruct key|by apply (ik_public _ Hi)|].
    rewrite (co_key _ (ik_cert _ Hi)), <- (ik_public _ Hi). reflexivity.
Qed.

(** C24: A schedule of issued keys covers its whole life: for every commit time between
    the first key's start and the end of the last key's window, signing succeeds, with
    the newest key that has started, and the canonical bytes of the receipt parse back and
    verify offline under the pinned root, with the tenant, key, commit time and certificate
    they were signed with. *)
Theorem issued_receipts_verify s ks o commit k0 kl :
  scheduled s ks -> Forall issued_key ks -> hd_error ks = Some k0 -> last ks = Some kl ->
  receipt_input o (sched_tenant s) commit -> (depth (VObject o) <= DEFAULT_MAX_DEPTH)%nat ->
  start k0 <= nanos commit <= start kl + RECEIPT_KEY_VALIDITY_DAYS * DAY ->
  exists key v, sign_receipt s o = Ok v /\ key ∈ ks /\
    (forall k, k ∈ ks -> start k <= nanos commit -> start k <= start key) /\
    (zlen (canonical_bytes v) <= DEFAULT_MAX_BYTES ->
     Receipt_parse (canonical_bytes v) = Ok v /\
     Receipt_verify root fetch v = Ok (mkVerified (sched_tenant s) (sk_key_id (signing_key key)) commit (certificate key))).
Proof.
  intros Hs Hall H0 Hl Hin Hd Hb. pose proof (ri_commit _ _ _ Hin) as (Kw & Kc & Kg). pose proof (ri_wf _ _ _ Hin) as Hw.
  destruct (schedule_signs s ks commit k0 kl Hs ltac:(apply Kw) H0 Hl Hb) as (key & Hsk & Hkin & Hv & Hnew).
  rewrite Forall_forall in Hall. pose proof (Hall key Hkin) as Hi.
  pose proof (inv_tenant _ _ (scheduled_inv _ _ Hs)) as Hten. rewrite Forall_forall in Hten. specialize (Hten key Hkin).
  pose proof (issued_windowed key Hi) as (Gf & Gu & Hwin).
  apply valid_at_iff in Hv; [|apply Kw|by apply issued_windowed].
  assert (Hb' : nanos (valid_from (certificate key)) <= nanos commit <= nanos (valid_until (certificate key))) by (unfold start in Hv; lia).
  rewrite <- Hten in Hin. destruct (signed_receipt_wf o key Hi Hw Hd) as [Hwf Hdep].
  exists key, (VObject (signed_receipt o key)). split; [|split; [done|split; [done|]]].
  - unfold sign_receipt. rewrite (proj2 (parse_timestamp_Ok o "commit_time" commit Hw ltac:(scalar_name)) (conj Kw (conj Kc Kg))).
    cbn [rbind]. rewrite Hsk. cbn [ok_or rbind]. apply (Receipt_sign_Ok o key _ Hw (ik_cert _ Hi)). by exists commit.
  - intros Hlen. split.
    + unfold Receipt_parse. rewrite (proj2 (record_object_Ok RkMalformed _ (signed_receipt o key))); [done|]. by apply parse_canonical.
    + apply receipt_verify_iff; [done|]. rewrite <- Hten. by apply signed_receipt_authentic.
Qed.
End Issued.


(** Between the first key's start and the end of the last key's window a rotated
    schedule always has a signing key, the newest that has started, and two keys that are
    both valid at an instant are the same or neighbours in the rotation. *)
Theorem receipt_schedule_covers `{Signer} s ks at_ k0 kl :
  scheduled s ks -> timestamp_grammar at_ = true -> hd_error ks = Some k0 -> last ks = Some kl ->
  start k0 <= nanos at_ <= start kl + RECEIPT_KEY_VALIDITY_DAYS * DAY ->
  (exists k, signing_key_at s at_ = Some k /\ k ∈ ks /\ valid_at at_ k = true /\
    (forall k', k' ∈ ks -> start k' <= nanos at_ -> start k' <= start k)) /\
  (forall i j a b, ks !! i = Some a -> ks !! j = Some b -> valid_at at_ a = true -> valid_at at_ b = true ->
    (j <= i + 1 /\ i <= j + 1)%nat).
Proof.
  intros Hs Ga H0 Hl Hb. split; [by eapply schedule_signs|]. intros i j a b Ha Hj Va Vb.
  split; by eapply (valid_neighbours s ks at_).
Qed.
