(* ===== verification/ReceiptWitness.v ===== *)
(** Concrete instances of the theorems on receipts: two receipt keys certified by the
    sample authority thirty days apart, and a receipt committed in their overlap. *)

From stdpp Require Import gmap.
From S2P Require Import Prelude Text Json JsonFacts Sha256 Vocabulary Derivation Records Authority ControlRecord ControlRecordFacts TrustView RequestVerification AuthWitness Receipt ReceiptFacts ReceiptIssue.

Open Scope Z_scope.

Definition authority_signer : SigningKey := mkSigningKey sample_tenant sample_seed.
Definition first_key : SigningKey := mkSigningKey sample_tenant (replicate 32 11).
Definition second_key : SigningKey := mkSigningKey sample_tenant (replicate 32 13).
Definition first_start : list Z := lit "2026-10-01T00:00:00Z".
Definition second_start : list Z := lit "2026-10-31T00:00:00Z".
Definition overlap_commit : list Z := lit "2026-11-03T08:30:00.25Z".

Definition placeholder_key : CertifiedReceiptKey :=
  mkCertified first_key (mkCertificate [] [] [] [] [] [] []) (mkKeyRecord [] [] [] [] [] [] [] []).

Definition certified_or (r : receipt CertifiedReceiptKey) : CertifiedReceiptKey :=
  match r with Ok k => k | _ => placeholder_key end.

Definition first_certified : CertifiedReceiptKey := Eval vm_compute in
  certified_or (certify first_key authority_signer sample_at first_start).
Definition second_certified : CertifiedReceiptKey := Eval vm_compute in
  certified_or (certify second_key authority_signer sample_at second_start).

Lemma first_certify : certify first_key authority_signer sample_at first_start = Ok first_certified.
Proof. vm_compute. reflexivity. Qed.

Lemma second_certify : certify second_key authority_signer sample_at second_start = Ok second_certified.
Proof. vm_compute. reflexivity. Qed.

Lemma key_wires : wire_ok digest_parse (sk_public_key first_key) /\ wire_ok digest_parse (sk_public_key second_key) /\
  wire_ok Timestamp_parse first_start /\ wire_ok Timestamp_parse second_start /\ wire_ok Timestamp_parse overlap_commit.
Proof.
  split_and!; split; try reflexivity; try scalar_name; apply Forall_replicate; unfold is_byte; lia.
Qed.

Lemma authority_root_stands from : from = sample_at \/ from = first_start \/ from = second_start ->
  authority_stands published_root ∅ authority_signer from.
Proof.
  intros Hf. unfold authority_stands, sk_key_id, sk_public_key. cbn [public_key_from_seed sample_signer sk_seed authority_signer].
  rewrite authority_id_eq. destruct Hf as [->|[->| ->]]; (eexists; split; [vm_compute; reflexivity|reflexivity]).
Qed.

Lemma sample_keys_issued : Forall (issued_key published_root ∅) [first_certified; second_certified] /\
  windowed first_certified /\ windowed second_certified.
Proof.
  destruct sample_wires as (Ht & _). destruct key_wires as (H1 & H2 & Hf & Hs & _).
  destruct (certify_issued published_root ∅ first_key authority_signer sample_at first_start _ Ht H1 Hf eq_refl
    ltac:(apply authority_root_stands; tauto) first_certify) as (I1 & W1 & _).
  destruct (certify_issued published_root ∅ second_key authority_signer sample_at second_start _ Ht H2 Hs eq_refl
    ltac:(apply authority_root_stands; tauto) second_certify) as (I2 & W2 & _).
  split; [|exact (conj W1 W2)]. exact (proj2 (Forall_cons _ _ _) (conj I1 (proj2 (Forall_singleton _ _) I2))).
Qed.

Lemma receipt_key_restored_witness :
  KeyRecord_parse (krec_canonical_bytes (key_record first_certified)) = Ok (key_record first_certified) /\
  Certificate_parse (VObject (certificate_object (certificate first_certified) true)) = Ok (certificate first_certified) /\
  from_public_material (certificate first_certified) (key_record first_certified) (Ok (encode_seed (sk_seed first_key)))
    published_root ∅ = Ok first_certified.
Proof.
  destruct sample_wires as (Ht & _ & Ha & _). destruct key_wires as (H1 & _ & Hf & _).
  apply (receipt_key_restored published_root ∅ first_key authority_signer sample_at first_start first_certified
    (encode_seed (sk_seed first_key)) Ht H1 Hf Ha eq_refl).
  - apply authority_root_stands. tauto.
  - apply authority_root_stands. tauto.
  - vm_compute. reflexivity.
  - exact first_certify.
  - vm_compute. discriminate.
Defined.

(** * The schedule *)

Definition rotated_schedule : ReceiptKeySchedule := (rotate (schedule_new first_certified) second_certified).1.

Lemma sample_rotates : rotate (schedule_new first_certified) second_certified = (rotated_schedule, Ok tt).
Proof.
  assert (H : (rotate (schedule_new first_certified) second_certified).2 = Ok tt) by (vm_compute; reflexivity).
  rewrite (surjective_pairing (rotate _ _)), H. reflexivity.
Qed.

Lemma sample_scheduled : scheduled rotated_schedule [first_certified; second_certified].
Proof.
  destruct sample_keys_issued as (_ & W1 & W2).
  exact (scheduled_next _ _ _ _ (scheduled_first _ W1) W2 sample_rotates).
Qed.

Definition receipt_body : Object :=
  set_members [text_field "tenant_id" sample_tenant; text_field "commit_time" overlap_commit;
    text_field "payload" (lit "observed")] [].

Lemma receipt_body_input : receipt_input receipt_body (sched_tenant rotated_schedule) overlap_commit.
Proof.
  destruct sample_wires as (Ht & _). destruct key_wires as (_ & _ & _ & _ & Hc).
  assert (Et : sched_tenant rotated_schedule = sample_tenant) by (vm_compute; reflexivity). rewrite Et. split.
  - apply wf_object_iff. split; [apply set_members_wf; [repeat (constructor; [scalar_name|]); constructor|apply wf_members_nil]|].
    vm_compute receipt_body. repeat (constructor; [constructor; scalar_name|]). constructor.
  - vm_compute. reflexivity.
  - split; [exact Ht|vm_compute; reflexivity].
  - split; [exact Hc|]. split; vm_compute; reflexivity.
Qed.

Lemma issued_receipts_verify_witness : exists key v, sign_receipt rotated_schedule receipt_body = Ok v /\
  key ∈ [first_certified; second_certified] /\
  (forall k, k ∈ [first_certified; second_certified] -> start k <= nanos overlap_commit -> start k <= start key) /\
  (zlen (canonical_bytes v) <= DEFAULT_MAX_BYTES ->
   Receipt_parse (canonical_bytes v) = Ok v /\
   Receipt_verify published_root ∅ v =
     Ok (mkVerified (sched_tenant rotated_schedule) (sk_key_id (signing_key key)) overlap_commit (certificate key))).
Proof.
  apply (issued_receipts_verify published_root ∅ rotated_schedule [first_certified; second_certified] receipt_body overlap_commit
    first_certified second_certified sample_scheduled (proj1 sample_keys_issued) eq_refl eq_refl receipt_body_input).
  - apply Nat.leb_le. vm_compute. reflexivity.
  - vm_compute. split; discriminate.
Defined.
