(* ===== verification/ClientState.v ===== *)
(** The client's durable state
    ([crates/archivist-client-core/src/state/migrations.rs]): the tables the spool, the
    upload path and the acknowledgement read and write, with the columns they use and
    the constraints they rely on, and the effects of those modules on them and on the
    spool directory.

    A call that reaches SQLite or the file system takes the next [answer]: it works, is
    refused, is cut short, or the process dies before or after it.  Clock readings,
    entropy and probes are inputs.  A transaction that does not commit changes nothing;
    a committed one is durable ([synchronous = FULL]). *)

From stdpp Require Import gmap.
From S2P Require Import Prelude Text Sha256 Vocabulary.

Open Scope Z_scope.

(** * Tables *)

Module Entry.
Record EntryRow := mk
  { id : list Z; bundle_name : list Z; state : list Z; envelope_digest : list Z; size_bytes : Z;
    attempt_count : Z; next_attempt_at : option (list Z); created_at : list Z; updated_at : list Z }.
End Entry.

Module Frozen.
Record FrozenRow := mk
  { request_id : list Z; spool_entry_id : option (list Z); tenant_id : list Z; origin_client_id : list Z;
    uploader_client_id : list Z; occurrence_id : list Z; envelope_version : list Z; storage_profile : list Z;
    transport_encoding : option (list Z); canonical_digest : list Z; incoming_checksum : list Z;
    canonical_size : Z; transport_size : Z; source_at : option (list Z); captured_at : list Z;
    envelope_created_at : list Z; frozen_at : list Z }.
End Frozen.

Module Range.
Record RangeRow := mk
  { occurrence_id : list Z; generation_id : list Z; range_start : Z; range_end : Z; blob_digest : list Z;
    spool_entry_id : option (list Z) }.
End Range.

Module Attest.
Record AttestationRow := mk
  { attestation_id : list Z; tenant_id : list Z; occurrence_id : list Z; origin_client_id : list Z;
    uploader_client_id : list Z; request_id : list Z; relation : list Z; recorded_at : list Z }.
End Attest.

Module Evidence.
Record ReceiptRow := mk
  { request_id : list Z; receipt_key_id : list Z; signature : list Z; receipt_digest : list Z;
    commit_ordinal : Z; commit_time : list Z; signature_verified : Z; received_at : list Z;
    receipt_bytes : option (list Z) }.
End Evidence.

Module Source.
Record SourceRow := mk
  { source_id : list Z; harness : list Z; session_hash : list Z; last_cursor : option (list Z);
    last_acknowledged_range_end : Z; updated_at : list Z }.
End Source.

Module Generation.
Record GenerationRow := mk { generation_id : list Z; source_id : list Z }.
End Generation.

Module Quarantine.
Record QuarantineRow := mk { spool_entry_id : list Z; reason : list Z; quarantined_at : list Z }.
End Quarantine.

Record Db := mkDb
  { spool_entries : list Entry.EntryRow; frozen_requests : list Frozen.FrozenRow; ranges : list Range.RangeRow;
    upload_attestations : list Attest.AttestationRow; receipts : list Evidence.ReceiptRow; sources : list Source.SourceRow;
    generations : list Generation.GenerationRow; quarantined_uploads : list Quarantine.QuarantineRow }.

Definition set_entries (d : Db) x : Db :=
  mkDb x (frozen_requests d) (ranges d) (upload_attestations d) (receipts d) (sources d) (generations d) (quarantined_uploads d).
Definition set_frozen (d : Db) x : Db :=
  mkDb (spool_entries d) x (ranges d) (upload_attestations d) (receipts d) (sources d) (generations d) (quarantined_uploads d).
Definition set_attestations (d : Db) x : Db :=
  mkDb (spool_entries d) (frozen_requests d) (ranges d) x (receipts d) (sources d) (generations d) (quarantined_uploads d).
Definition set_receipts (d : Db) x : Db :=
  mkDb (spool_entries d) (frozen_requests d) (ranges d) (upload_attestations d) x (sources d) (generations d) (quarantined_uploads d).
Definition set_sources (d : Db) x : Db :=
  mkDb (spool_entries d) (frozen_requests d) (ranges d) (upload_attestations d) (receipts d) x (generations d) (quarantined_uploads d).
Definition set_quarantined (d : Db) x : Db :=
  mkDb (spool_entries d) (frozen_requests d) (ranges d) (upload_attestations d) (receipts d) (sources d) (generations d) x.

(** ** Constraints *)

Definition length_between (lo : Z) (t : list Z) (hi : Z) : bool := in_range lo (zlen t) hi.

Definition SPOOL_STATES : list (list Z) := map lit ["materialized"; "uploading"; "uploaded"; "acknowledged"]%string.

(** [CHECK]s of [spool_entries]. *)
Definition entry_checks (e : Entry.EntryRow) : bool :=
  (zlen (Entry.id e) =? 36) && length_between 1 (Entry.bundle_name e) 255 &&
  negb (bool_decide (47 ∈ Entry.bundle_name e)) && negb (bool_decide (92 ∈ Entry.bundle_name e)) &&
  bool_decide (Entry.state e ∈ SPOOL_STATES) && (zlen (Entry.envelope_digest e) =? 64) &&
  (0 <=? Entry.size_bytes e) && (0 <=? Entry.attempt_count e) &&
  match Entry.next_attempt_at e with None => true | Some t => length_between 20 t 35 end &&
  length_between 20 (Entry.created_at e) 35 && length_between 20 (Entry.updated_at e) 35.

(** [CHECK]s of [frozen_requests]. *)
Definition frozen_checks (f : Frozen.FrozenRow) : bool :=
  (zlen (Frozen.request_id f) =? 36) && (zlen (Frozen.tenant_id f) =? 36) && (zlen (Frozen.origin_client_id f) =? 36) &&
  (zlen (Frozen.uploader_client_id f) =? 36) && (zlen (Frozen.occurrence_id f) =? 64) &&
  length_between 1 (Frozen.envelope_version f) 64 && length_between 1 (Frozen.storage_profile f) 64 &&
  match Frozen.transport_encoding f with None => true | Some t => length_between 1 t 64 end &&
  (zlen (Frozen.canonical_digest f) =? 64) && length_between 1 (Frozen.incoming_checksum f) 128 &&
  (0 <=? Frozen.canonical_size f) && (0 <=? Frozen.transport_size f) &&
  match Frozen.source_at f with None => true | Some t => length_between 20 t 35 end &&
  length_between 20 (Frozen.captured_at f) 35 && length_between 20 (Frozen.envelope_created_at f) 35 &&
  length_between 20 (Frozen.frozen_at f) 35.

(** [CHECK]s of [upload_attestations]. *)
Definition attestation_checks (a : Attest.AttestationRow) : bool :=
  (zlen (Attest.attestation_id a) =? 64) && (zlen (Attest.tenant_id a) =? 36) && (zlen (Attest.occurrence_id a) =? 64) &&
  (zlen (Attest.origin_client_id a) =? 36) && (zlen (Attest.uploader_client_id a) =? 36) &&
  (zlen (Attest.request_id a) =? 36) && bool_decide (Attest.relation a ∈ map lit ["direct"; "relay"]%string) &&
  length_between 20 (Attest.recorded_at a) 35.

(** [CHECK]s of [receipts]. *)
Definition receipt_checks (r : Evidence.ReceiptRow) : bool :=
  length_between 1 (Evidence.receipt_key_id r) 64 && (zlen (Evidence.signature r) =? 128) &&
  (zlen (Evidence.receipt_digest r) =? 64) && (0 <=? Evidence.commit_ordinal r) &&
  length_between 20 (Evidence.commit_time r) 35 && in_range 0 (Evidence.signature_verified r) 1 &&
  length_between 20 (Evidence.received_at r) 35.

(** ** Inserts, with their keys and references *)

Definition insert_entry (e : Entry.EntryRow) (d : Db) : option Db :=
  if entry_checks e && negb (bool_decide (Entry.id e ∈ map Entry.id (spool_entries d)))
  then Some (set_entries d (spool_entries d ++ [e])) else None.

Definition insert_frozen (f : Frozen.FrozenRow) (d : Db) : option Db :=
  if frozen_checks f && negb (bool_decide (Frozen.request_id f ∈ map Frozen.request_id (frozen_requests d))) &&
     match Frozen.spool_entry_id f with
     | None => true
     | Some i => bool_decide (i ∈ map Entry.id (spool_entries d)) &&
                 negb (bool_decide (Some i ∈ map Frozen.spool_entry_id (frozen_requests d)))
     end
  then Some (set_frozen d (frozen_requests d ++ [f])) else None.

Definition insert_attestation (a : Attest.AttestationRow) (d : Db) : option Db :=
  if attestation_checks a &&
     negb (bool_decide (Attest.attestation_id a ∈ map Attest.attestation_id (upload_attestations d))) &&
     negb (bool_decide (Attest.request_id a ∈ map Attest.request_id (upload_attestations d)))
  then Some (set_attestations d (upload_attestations d ++ [a])) else None.

Definition insert_receipt (r : Evidence.ReceiptRow) (d : Db) : option Db :=
  if receipt_checks r && negb (bool_decide (Evidence.request_id r ∈ map Evidence.request_id (receipts d))) &&
     bool_decide (Evidence.request_id r ∈ map Frozen.request_id (frozen_requests d))
  then Some (set_receipts d (receipts d ++ [r])) else None.

(** [UPDATE .. WHERE ..]: the rows, and how many changed. *)
Definition update_rows {A} (where_ : A -> bool) (set_ : A -> A) (rows : list A) : list A * nat :=
  (map (fun r => if where_ r then set_ r else r) rows, length (List.filter where_ rows)).

(** * The spool directory *)

Record File := mkFile { content : list Z; synced : bool }.
Inductive DirEntry := Regular (f : File) | Special.

(** Names as the process sees them, as a power failure would leave them, and the number
    of entries whose names are not Unicode. *)
Record Directory := mkDirectory
  { live : gmap (list Z) DirEntry; on_disk : gmap (list Z) DirEntry; foreign : Z }.

Definition set_live (d : Directory) x : Directory := mkDirectory x (on_disk d) (foreign d).

(** [read_dir] lists every entry once, in an order of its own. *)
Class ReadDir := {
  read_order : gmap (list Z) DirEntry -> list (list Z * DirEntry);
  read_order_all d : read_order d ≡ₚ map_to_list d }.

(** * Effects *)

Inductive answer :=
| Fine
| Refused (busy : bool)
| Cut (n : nat) (died : bool)
| DiedBefore
| DiedAfter.

Record World := mkWorld
  { db : Db; dir : Directory;
    answers : list answer; clocks : list (list Z); entropy : list (option (Z * list Z)); probes : list Z }.

Definition with_db (w : World) x : World := mkWorld x (dir w) (answers w) (clocks w) (entropy w) (probes w).
Definition with_dir (w : World) x : World := mkWorld (db w) x (answers w) (clocks w) (entropy w) (probes w).
Definition with_answers (w : World) x : World := mkWorld (db w) (dir w) x (clocks w) (entropy w) (probes w).
Definition with_clocks (w : World) x : World := mkWorld (db w) (dir w) (answers w) x (entropy w) (probes w).
Definition with_entropy (w : World) x : World := mkWorld (db w) (dir w) (answers w) (clocks w) x (probes w).
Definition with_probes (w : World) x : World := mkWorld (db w) (dir w) (answers w) (clocks w) (entropy w) x.

(** A computation: its result, or [None] when the process died in it. *)
Definition act (E A : Type) : Type := World -> option (result E A) * World.

Section Acts.
Context {E : Type}.

Definition ret {A} (a : A) : act E A := fun w => (Some (Ok a), w).
Definition fail {A} (e : E) : act E A := fun w => (Some (Err e), w).
Definition lift {A} (r : result E A) : act E A := fun w => (Some r, w).

Definition abind {A B} (m : act E A) (k : A -> act E B) : act E B := fun w =>
  match m w with
  | (Some (Ok a), w') => k a w'
  | (Some (Err e), w') => (Some (Err e), w')
  | (Some OutOfFuel, w') => (Some OutOfFuel, w')
  | (None, w') => (None, w')
  end.

(** One call outside the process: [does] when it works, [partly] when it is cut short. *)
Definition effect_cut {A} (refused : bool -> E) (partly : nat -> World -> World) (does : World -> result E A * World)
    : act E A := fun w =>
  match answers w with
  | [] => let '(r, w') := does w in (Some r, w')
  | x :: rest =>
      let w := with_answers w rest in
      match x with
      | Fine => let '(r, w') := does w in (Some r, w')
      | Refused busy => (Some (Err (refused busy)), w)
      | Cut n died => (if died then None else Some (Err (refused false)), partly n w)
      | DiedBefore => (None, w)
      | DiedAfter => (None, (does w).2)
      end
  end.

Definition effect {A} (refused : bool -> E) : (World -> result E A * World) -> act E A :=
  effect_cut refused (fun _ w => w).

(** [SELECT]. *)
Definition query {A} (refused : bool -> E) (f : Db -> A) : act E A := effect refused (fun w => (Ok (f (db w)), w)).

(** [INSERT] and [UPDATE]; a constraint is refused as [violated]. *)
Definition execute {A} (refused : bool -> E) (violated : E) (f : Db -> option (Db * A)) : act E A :=
  effect refused (fun w => match f (db w) with Some (d, a) => (Ok a, with_db w d) | None => (Err violated, w) end).

(** [transaction] .. [commit]: dropped without its commit, it rolls back.  [commits] tells
    the results before which the code commits from those it returns early. *)
Definition transaction_when {A} (commits : A -> bool) (refused : bool -> E) (body : act E A) : act E A :=
  abind (effect refused (fun w => (Ok tt, w))) (fun _ w =>
    match body w with
    | (Some (Ok a), w') =>
        if commits a then effect refused (fun v => (Ok a, with_db v (db w'))) (with_db w' (db w))
        else (Some (Ok a), with_db w' (db w))
    | (r, w') => (r, with_db w' (db w))
    end).
Definition transaction {A} : (bool -> E) -> act E A -> act E A := transaction_when (fun _ => true).
End Acts.

Notation "'let*' x := m 'in' k" := (abind m (fun x => k))
  (at level 200, x name, m at level 100, k at level 200, right associativity).
Notation "'let*' ' p := m 'in' k" := (abind m (fun x => match x with p => k end))
  (at level 200, p pattern, m at level 100, k at level 200, right associativity).

(** The database clock, read and validated. *)
Definition clock {E} (refused : bool -> E) (malformed : E) : act E (list Z) :=
  let* text := effect refused (fun w =>
    match clocks w with t :: rest => (Ok t, with_clocks w rest) | [] => (Err (refused false), w) end) in
  match Timestamp_parse text with
  | Ok t => if calendar_valid t then ret t else fail malformed
  | _ => fail malformed
  end.
