(* ===== verification/Spool.v ===== *)
(** The spool ([crates/archivist-client-core/src/spool.rs]): bundles materialized under
    the pressure gate, reconciled at startup and removed after acknowledgement.
    Directory modes and the detail texts of errors are not modelled. *)

From stdpp Require Import gmap.
From S2P Require Import Prelude Text Sha256 Vocabulary Inventory Pressure ClientState.

Open Scope Z_scope.

Definition BUNDLE_SUFFIX : list Z := lit ".bundle".
Definition STAGING_SUFFIX : list Z := lit ".staging".
Definition UUIDV7_RANDOM_BYTES : nat := 10.
Definition STATE_MATERIALIZED : list Z := lit "materialized".
Definition STATE_ACKNOWLEDGED : list Z := lit "acknowledged".

Inductive SpoolErrorKind := SpUnavailable | SpUnsafePermissions | SpBusy | SpMaterializationPaused | SpMalformedName.

Abbreviation spool := (act SpoolErrorKind).

Definition classify_state_operation (busy : bool) : SpoolErrorKind := if busy then SpBusy else SpUnavailable.
Definition io_unavailable (busy : bool) : SpoolErrorKind := SpUnavailable.

Record MaterializedBundle := mkBundle
  { mb_entry_id : list Z; mb_bundle_name : list Z; mb_digest : list Z; mb_size : Z }.

Record ReconcileReport := mkReport
  { orphan_bundles_indexed : Z; acknowledged_bundles_removed : Z; staging_files_removed : Z;
    unclassified_entries : Z; spool_rows_missing_bundles : Z }.

Definition report_default : ReconcileReport := mkReport 0 0 0 0 0.
Definition is_quiescent (r : ReconcileReport) : bool :=
  (orphan_bundles_indexed r =? 0) && (acknowledged_bundles_removed r =? 0) && (staging_files_removed r =? 0) &&
  (unclassified_entries r =? 0) && (spool_rows_missing_bundles r =? 0).

Definition count_orphan (r : ReconcileReport) : ReconcileReport :=
  mkReport (orphan_bundles_indexed r + 1) (acknowledged_bundles_removed r) (staging_files_removed r) (unclassified_entries r) (spool_rows_missing_bundles r).
Definition count_removed (r : ReconcileReport) : ReconcileReport :=
  mkReport (orphan_bundles_indexed r) (acknowledged_bundles_removed r + 1) (staging_files_removed r) (unclassified_entries r) (spool_rows_missing_bundles r).
Definition count_staging (r : ReconcileReport) : ReconcileReport :=
  mkReport (orphan_bundles_indexed r) (acknowledged_bundles_removed r) (staging_files_removed r + 1) (unclassified_entries r) (spool_rows_missing_bundles r).
Definition count_unclassified (n : Z) (r : ReconcileReport) : ReconcileReport :=
  mkReport (orphan_bundles_indexed r) (acknowledged_bundles_removed r) (staging_files_removed r) (unclassified_entries r + n) (spool_rows_missing_bundles r).

(** * Names *)

Definition strip_suffix (suffix name : list Z) : option (list Z) :=
  if (length suffix <=? length name)%nat && bool_decide (drop (length name - length suffix) name = suffix)
  then Some (take (length name - length suffix) name) else None.

Definition is_bundle_name (name : list Z) : bool :=
  in_range 1 (zlen (as_bytes name)) 255 && negb (bool_decide (47 ∈ name)) && negb (bool_decide (92 ∈ name)) &&
  match strip_suffix BUNDLE_SUFFIX name with Some stem => is_ok (RequestId_parse stem) | None => false end.

(** [mint_uuid_v7], on a clock reading and ten random bytes. *)
Definition uuid_v7_layout (ms : Z) (random : list Z) : list Z :=
  drop 2 (to_be_bytes 8 ms) ++
  [Z.lor 0x70 (Z.shiftr (byte_at random 0) 4);
   Z.lor (Z.shiftl (byte_at random 0) 4 mod 256) (Z.shiftr (byte_at random 1) 4);
   Z.lor 0x80 (Z.shiftr (byte_at random 2) 2)] ++ drop 3 random.

Definition mint_uuid_v7 : spool (list Z) :=
  effect io_unavailable (fun w =>
    match entropy w with
    | Some (ms, random) :: rest => (Ok (canonical_uuid_text (uuid_v7_layout ms random)), with_entropy w rest)
    | None :: rest => (Err SpUnavailable, with_entropy w rest)
    | [] => (Err SpUnavailable, w)
    end).

(** * Directory calls *)

Definition on_live (w : World) (f : gmap (list Z) DirEntry -> gmap (list Z) DirEntry) : World :=
  with_dir w (set_live (dir w) (f (live (dir w)))).

Definition set_content (name bytes : list Z) (w : World) : World :=
  on_live w (fun d => match d !! name with Some (Regular f) => <[name := Regular (mkFile bytes (synced f))]> d | _ => d end).

Definition create_new (name : list Z) : spool unit :=
  effect io_unavailable (fun w =>
    match live (dir w) !! name with
    | Some _ => (Err SpUnavailable, w)
    | None => (Ok tt, on_live w (fun d => <[name := Regular (mkFile [] false)]> d))
    end).

Definition set_permissions : spool unit := effect io_unavailable (fun w => (Ok tt, w)).

Definition write_all (name payload : list Z) : spool unit :=
  effect_cut io_unavailable (fun n => set_content name (take n payload)) (fun w => (Ok tt, set_content name payload w)).

Definition sync_all (name : list Z) : spool unit :=
  effect io_unavailable (fun w =>
    (Ok tt, on_live w (fun d => match d !! name with Some (Regular f) => <[name := Regular (mkFile (content f) true)]> d | _ => d end))).

Definition rename (from to : list Z) : spool unit :=
  effect io_unavailable (fun w =>
    match live (dir w) !! from with
    | Some e => (Ok tt, on_live w (fun d => <[to := e]> (delete from d)))
    | None => (Err SpUnavailable, w)
    end).

Definition sync_directory : spool unit :=
  effect io_unavailable (fun w => (Ok tt, with_dir w (mkDirectory (live (dir w)) (live (dir w)) (foreign (dir w))))).

(** [std::fs::remove_file]: whether the file was there. *)
Definition remove_file (name : list Z) : spool bool :=
  effect io_unavailable (fun w =>
    match live (dir w) !! name with
    | Some (Regular _) => (Ok true, on_live w (fun d => delete name d))
    | Some Special => (Err SpUnavailable, w)
    | None => (Ok false, w)
    end).

Definition read_file (name : list Z) : spool (list Z) :=
  effect io_unavailable (fun w =>
    match live (dir w) !! name with Some (Regular f) => (Ok (content f), w) | _ => (Err SpUnavailable, w) end).

Definition write_and_sync_staging (staging payload : list Z) : spool unit :=
  let* _ := create_new staging in
  let* _ := set_permissions in
  let* _ := write_all staging payload in
  sync_all staging.

(** [let _ = remove_file(..)] after a failed write: only its death matters. *)
Definition swept (name : list Z) (m : spool unit) : spool unit := fun w =>
  match m w with
  | (Some (Err e), w') =>
      match remove_file name w' with (None, w'') => (None, w'') | (_, w'') => (Some (Err e), w'') end
  | r => r
  end.

(** * Rows *)

Definition now_utc : spool (list Z) := clock classify_state_operation SpUnavailable.

Definition recordable_size (payload : list Z) : spool Z :=
  if zlen payload <=? I64_MAX then ret (zlen payload) else fail SpUnavailable.

Definition insert_spool_entry (id bundle_name envelope_digest : list Z) (size_bytes : Z) (now : list Z) : spool unit :=
  execute classify_state_operation SpUnavailable (fun d =>
    d' ← insert_entry (Entry.mk id bundle_name STATE_MATERIALIZED envelope_digest size_bytes 0 None now now) d;
    Some (d', tt)).

(** The rows by bundle name, the last of a name winning. *)
Definition row_states (d : Db) : gmap (list Z) (list Z) :=
  fold_left (fun m e => <[Entry.bundle_name e := Entry.state e]> m) (spool_entries d) ∅.
Definition load_row_states : spool (gmap (list Z) (list Z)) := query classify_state_operation row_states.

Definition live_entries (d : Db) : list Entry.EntryRow :=
  List.filter (fun e => negb (bool_decide (Entry.state e = STATE_ACKNOWLEDGED))) (spool_entries d).

(** [SUM] fails on overflow. *)
Definition live_usage_bytes : spool Z :=
  let* total := query classify_state_operation (fun d => fold_right Z.add 0 (map Entry.size_bytes (live_entries d))) in
  if in_range 0 total I64_MAX then ret total else fail SpUnavailable.

Definition live_entry_count : spool Z :=
  query classify_state_operation (fun d => zlen (live_entries d)).

Definition free_space_bytes : spool Z :=
  effect io_unavailable (fun w => match probes w with p :: rest => (Ok p, with_probes w rest) | [] => (Err SpUnavailable, w) end).

(** * Materialization *)

Definition begin_bundle (payload : list Z) : spool MaterializedBundle :=
  let* size_bytes := recordable_size payload in
  let* id := mint_uuid_v7 in
  let bundle_name := id ++ BUNDLE_SUFFIX in
  let staging := id ++ STAGING_SUFFIX in
  let* _ := swept staging (write_and_sync_staging staging payload) in
  let* _ := rename staging bundle_name in
  let* _ := sync_directory in
  let* now := now_utc in
  let envelope_digest := encode_hex (digest payload) in
  let* _ := insert_spool_entry id bundle_name envelope_digest size_bytes now in
  ret (mkBundle id bundle_name envelope_digest size_bytes).

Definition measure : spool (Z * Z) :=
  let* spool_bytes := live_usage_bytes in
  let* free_bytes := free_space_bytes in
  ret (spool_bytes, free_bytes).

(** [materialize]: the gate is the caller's, latched also when nothing is written. *)
Definition materialize (gate : PressureGate) (payload : list Z) (w : World)
    : PressureGate * (option (result SpoolErrorKind MaterializedBundle) * World) :=
  match measure w with
  | (Some (Ok (spool_bytes, free_bytes)), w') =>
      let '(gate, status) := evaluate gate spool_bytes free_bytes in
      if negb (admits_materialization status) then (gate, (Some (Err SpMaterializationPaused), w'))
      else (gate, begin_bundle payload w')
  | (Some (Err e), w') => (gate, (Some (Err e), w'))
  | (Some OutOfFuel, w') => (gate, (Some OutOfFuel, w'))
  | (None, w') => (gate, (None, w'))
  end.

(** * Reconciliation *)

Definition index_orphan (id name now : list Z) : spool unit :=
  let* bytes := read_file name in
  let* size_bytes := recordable_size bytes in
  insert_spool_entry id name (encode_hex (digest bytes)) size_bytes now.

(** Removing an entry just listed. *)
Definition remove_listed (name : list Z) : spool unit :=
  let* present := remove_file name in
  if present then ret tt else fail SpUnavailable.

Definition reconcile_bundle (rows : gmap (list Z) (list Z)) (now name stem : list Z) (report : ReconcileReport)
    : spool ReconcileReport :=
  match rows !! name with
  | Some state =>
      if bool_decide (state = STATE_ACKNOWLEDGED)
      then let* _ := remove_listed name in ret (count_removed report)
      else ret report
  | None =>
      match RequestId_parse stem with
      | Ok id => let* _ := index_orphan id name now in ret (count_orphan report)
      | _ => ret (count_unclassified 1 report)
      end
  end.

Definition reconcile_staging (rows : gmap (list Z) (list Z)) (name stem : list Z) (report : ReconcileReport)
    : spool ReconcileReport :=
  if bool_decide (is_Some (rows !! name)) || negb (is_ok (RequestId_parse stem))
  then ret (count_unclassified 1 report)
  else let* _ := remove_listed name in ret (count_staging report).

Definition next_entry : spool unit := effect io_unavailable (fun w => (Ok tt, w)).

Definition reconcile_named (rows : gmap (list Z) (list Z)) (now name : list Z) (report : ReconcileReport)
    : spool ReconcileReport :=
  match strip_suffix BUNDLE_SUFFIX name with
  | Some stem => reconcile_bundle rows now name stem report
  | None =>
      match strip_suffix STAGING_SUFFIX name with
      | Some stem => reconcile_staging rows name stem report
      | None => ret (count_unclassified 1 report)
      end
  end.

Fixpoint reconcile_entries (rows : gmap (list Z) (list Z)) (now : list Z) (entries : list (list Z * DirEntry))
    (report : ReconcileReport) (seen : list (list Z)) : spool (ReconcileReport * list (list Z)) :=
  match entries with
  | [] => ret (report, seen)
  | (name, e) :: rest =>
      let* _ := next_entry in
      match e with
      | Special => reconcile_entries rows now rest (count_unclassified 1 report) seen
      | Regular _ =>
          let* report := reconcile_named rows now name report in
          reconcile_entries rows now rest report (name :: seen)
      end
  end.

Definition missing_bundles (rows : gmap (list Z) (list Z)) (seen : list (list Z)) : Z :=
  zlen (List.filter (fun r => negb (bool_decide (r.2 = STATE_ACKNOWLEDGED)) && negb (bool_decide (r.1 ∈ seen)))
    (map_to_list rows)).

Definition reconcile `{ReadDir} : spool ReconcileReport :=
  let* rows := load_row_states in
  let* now := now_utc in
  let* listing := effect io_unavailable (fun w => (Ok (read_order (live (dir w)), foreign (dir w)), w)) in
  let* out := reconcile_entries rows now listing.1 (count_unclassified listing.2 report_default) [] in
  let report := out.1 in
  ret (mkReport (orphan_bundles_indexed report) (acknowledged_bundles_removed report) (staging_files_removed report)
         (unclassified_entries report) (missing_bundles rows out.2)).

(** * Removal *)

Definition remove (bundle_name : list Z) : spool unit :=
  if negb (is_bundle_name bundle_name) then fail SpMalformedName
  else let* _ := remove_file bundle_name in ret tt.
