(* ===== verification/Upload.v ===== *)
(** The upload retry state ([crates/archivist-client-core/src/upload.rs]): freezing an
    upload's identity, claiming a due upload with its next attempt already scheduled,
    full-jitter backoff, the failure matrix and quarantine.  SQLite's [strftime] is a
    parameter; detail texts are not modelled. *)

From stdpp Require Import gmap.
From S2P Require Import Prelude Text Sha256 Vocabulary Derivation Json Authority Receipt ClientState Spool.

Open Scope Z_scope.

Definition INITIAL_BACKOFF_MS : Z := 1000.
Definition MAX_BACKOFF_MS : Z := 15 * 60 * 1000.

Inductive UploadErrorKind := UpUnavailable | UpBusy | UpInvalidInput | UpIdentityConflict | UpEntropyUnavailable.

Abbreviation upload := (act UploadErrorKind).

Definition classify_sql (busy : bool) : UploadErrorKind := if busy then UpBusy else UpUnavailable.

Record FrozenUpload := mkFrozenUpload { fu_request : list Z; fu_occurrence : list Z; fu_attestation : list Z }.

Inductive UploadRelation := Direct | Relay.
Definition relation_token (r : UploadRelation) : list Z :=
  match r with Direct => lit "direct" | Relay => lit "relay" end.

Record FreezeUpload := mkFreeze
  { fz_spool_entry_id : list Z; fz_tenant_id : list Z; fz_origin_client_id : list Z; fz_uploader_client_id : list Z;
    fz_occurrence_id : list Z; fz_envelope_version : list Z; fz_storage_profile : StorageProfile;
    fz_transport_encoding : option TransportEncoding; fz_canonical_digest : list Z; fz_incoming_checksum : list Z;
    fz_canonical_size : Z; fz_transport_size : Z; fz_source_at : option (list Z); fz_captured_at : list Z;
    fz_envelope_created_at : list Z; fz_relation : UploadRelation }.

Definition recorded_size (size : Z) : upload Z := if size <=? I64_MAX then ret size else fail UpInvalidInput.

Definition validate_freeze_timestamps (f : FreezeUpload) : upload unit :=
  if calendar_valid (fz_captured_at f) && calendar_valid (fz_envelope_created_at f) &&
     match fz_source_at f with None => true | Some t => calendar_valid t end
  then ret tt else fail UpInvalidInput.

(** [map_mint_error] after the spool's mint. *)
Definition map_mint_error (e : SpoolErrorKind) : UploadErrorKind :=
  match e with SpUnavailable => UpEntropyUnavailable | _ => UpUnavailable end.
Definition mint_request_id : upload (list Z) := fun w =>
  match mint_uuid_v7 w with
  | (Some r, w') => (Some (map_err map_mint_error r), w')
  | (None, w') => (None, w')
  end.

(** The database clock; any failure is the unavailable class. *)
Definition state_now : upload (list Z) := clock (fun _ => UpUnavailable) UpUnavailable.

(** * Freezing *)

Record CommittedFreeze := mkCommitted { cf_frozen : FrozenUpload; cf_row : Frozen.FrozenRow; cf_relation : list Z }.

(** The frozen request of an entry [LEFT JOIN] its attestation. *)
Definition frozen_of (id : list Z) (d : Db) : option (Frozen.FrozenRow * option Attest.AttestationRow) :=
  f ← head (List.filter (fun f => bool_decide (Frozen.spool_entry_id f = Some id)) (frozen_requests d));
  Some (f, head (List.filter (fun a => bool_decide (Attest.request_id a = Frozen.request_id f)) (upload_attestations d))).

Definition conflict {A} (r : result GrammarError A) : upload A := lift (map_err (fun _ => UpIdentityConflict) r).

Definition CommittedFreeze_load (id : list Z) : upload (option CommittedFreeze) :=
  let* row := query classify_sql (frozen_of id) in
  match row with
  | None => ret None
  | Some (f, None) => fail UpIdentityConflict
  | Some (f, Some a) =>
      let* request := conflict (RequestId_parse (Frozen.request_id f)) in
      let* occurrence := conflict (digest_parse (Frozen.occurrence_id f)) in
      let* attestation := conflict (digest_parse (Attest.attestation_id a)) in
      ret (Some (mkCommitted (mkFrozenUpload request occurrence attestation) f (Attest.relation a)))
  end.

Definition assert_matches (c : CommittedFreeze) (f : FreezeUpload) (canonical_size transport_size : Z) : upload unit :=
  let r := cf_row c in
  if bool_decide (fu_occurrence (cf_frozen c) = fz_occurrence_id f) &&
     bool_decide (Frozen.tenant_id r = fz_tenant_id f) &&
     bool_decide (Frozen.origin_client_id r = fz_origin_client_id f) &&
     bool_decide (Frozen.uploader_client_id r = fz_uploader_client_id f) &&
     bool_decide (Frozen.envelope_version r = fz_envelope_version f) &&
     bool_decide (Frozen.storage_profile r = token (fz_storage_profile f)) &&
     bool_decide (Frozen.transport_encoding r = token <$> fz_transport_encoding f) &&
     bool_decide (Frozen.canonical_digest r = to_hex (fz_canonical_digest f)) &&
     bool_decide (Frozen.incoming_checksum r = to_hex (fz_incoming_checksum f)) &&
     (Frozen.canonical_size r =? canonical_size) && (Frozen.transport_size r =? transport_size) &&
     bool_decide (Frozen.source_at r = fz_source_at f) &&
     bool_decide (Frozen.captured_at r = fz_captured_at f) &&
     bool_decide (Frozen.envelope_created_at r = fz_envelope_created_at f) &&
     bool_decide (cf_relation c = relation_token (fz_relation f)) &&
     bool_decide (attestation_id (fu_occurrence (cf_frozen c)) (fz_uploader_client_id f) (fu_request (cf_frozen c)) =
                  fu_attestation (cf_frozen c))
  then ret tt else fail UpIdentityConflict.

Definition frozen_row (f : FreezeUpload) (request : list Z) (canonical_size transport_size : Z) (now : list Z) : Frozen.FrozenRow :=
  Frozen.mk request (Some (fz_spool_entry_id f)) (fz_tenant_id f) (fz_origin_client_id f) (fz_uploader_client_id f)
    (to_hex (fz_occurrence_id f)) (fz_envelope_version f) (token (fz_storage_profile f)) (token <$> fz_transport_encoding f)
    (to_hex (fz_canonical_digest f)) (to_hex (fz_incoming_checksum f)) canonical_size transport_size (fz_source_at f)
    (fz_captured_at f) (fz_envelope_created_at f) now.

Definition attestation_row (f : FreezeUpload) (request attestation now : list Z) : Attest.AttestationRow :=
  Attest.mk (to_hex attestation) (fz_tenant_id f) (to_hex (fz_occurrence_id f)) (fz_origin_client_id f)
    (fz_uploader_client_id f) request (relation_token (fz_relation f)) now.

Definition entry_of (id : list Z) (d : Db) : option Entry.EntryRow :=
  head (List.filter (fun e => bool_decide (Entry.id e = id)) (spool_entries d)).

Definition freeze_new (f : FreezeUpload) (canonical_size transport_size : Z) : upload FrozenUpload :=
  let* request := mint_request_id in
  let attestation := attestation_id (fz_occurrence_id f) (fz_uploader_client_id f) request in
  let* now := state_now in
  let* _ := execute classify_sql UpUnavailable (fun d =>
    d' ← insert_frozen (frozen_row f request canonical_size transport_size now) d; Some (d', tt)) in
  let* _ := execute classify_sql UpUnavailable (fun d =>
    d' ← insert_attestation (attestation_row f request attestation now) d; Some (d', tt)) in
  ret (mkFrozenUpload request (fz_occurrence_id f) attestation).

Definition freeze_upload (f : FreezeUpload) : upload FrozenUpload :=
  let* canonical_size := recorded_size (fz_canonical_size f) in
  let* transport_size := recorded_size (fz_transport_size f) in
  let* _ := validate_freeze_timestamps f in
  transaction classify_sql (
    let* state := query classify_sql (fun d => Entry.state <$> entry_of (fz_spool_entry_id f) d) in
    match state with
    | None => fail UpInvalidInput
    | Some state =>
        if negb (bool_decide (state = STATE_MATERIALIZED)) then fail UpInvalidInput
        else
          let* existing := CommittedFreeze_load (fz_spool_entry_id f) in
          match existing with
          | Some committed => let* _ := assert_matches committed f canonical_size transport_size in ret (cf_frozen committed)
          | None => freeze_new f canonical_size transport_size
          end
    end).

Definition frozen_upload (id : list Z) : upload (option FrozenUpload) :=
  let* committed := CommittedFreeze_load id in ret (cf_frozen <$> committed).

(** * Authorization of one attempt *)

Record AttemptAuthorization := mkAuthorization
  { aa_uploader_key_id : list Z; aa_epoch : Z; aa_timestamp : list Z }.

Definition AttemptAuthorization_mint (key : list Z) (epoch : Z) (timestamp : list Z)
    : result UploadErrorKind AttemptAuthorization :=
  if epoch =? 0 then Err UpInvalidInput
  else if negb (calendar_valid timestamp) then Err UpInvalidInput
  else Ok (mkAuthorization key epoch timestamp).

Definition attempt_signing_input (a : AttemptAuthorization) (http_method route content_type request_content_digest
    envelope_digest payload_canonical_digest payload_transport_digest : list Z) : list Z :=
  ingest_attempt_signing_input http_method route content_type request_content_digest envelope_digest
    payload_canonical_digest payload_transport_digest (aa_uploader_key_id a) (aa_epoch a) (aa_timestamp a).

(** * Backoff *)

Record RetryPolicy := mkPolicy { base_ms : Z; cap_ms : Z }.
Definition RetryPolicy_new (base cap : Z) : RetryPolicy := mkPolicy (if base =? 0 then 1 else base) cap.
Definition RetryPolicy_plan : RetryPolicy := RetryPolicy_new INITIAL_BACKOFF_MS MAX_BACKOFF_MS.

Definition checked_mul_u64 (a b : Z) : option Z := if a * b <=? U64_MAX then Some (a * b) else None.

Definition upper_bound_ms (p : RetryPolicy) (failures : Z) : Z :=
  let doubled :=
    match (if failures <=? 0xFFFFFFFF then if failures <? 64 then checked_mul_u64 (base_ms p) (Z.shiftl 1 failures) else None
           else None) with
    | Some x => x
    | None => cap_ms p
    end in
  Z.min doubled (cap_ms p).

Definition uniform_below (bits upper : Z) : Z := Z.shiftr (bits * upper) 64.

(** [full_jitter_ms], on what [random_bits] answered. *)
Definition full_jitter_ms (p : RetryPolicy) (failures : Z) (random_bits : result UploadErrorKind Z) : result UploadErrorKind Z :=
  let bound := upper_bound_ms p failures in
  let! bits := random_bits in
  Ok (uniform_below bits bound).

(** * Claiming *)

Record RetryClaim := mkClaim
  { rc_frozen : FrozenUpload; rc_entry_id : list Z; rc_bundle_name : list Z; rc_digest : list Z; rc_size : Z;
    rc_attempt_count : Z; rc_retry_delay_ms : Z }.

(** [ORDER BY next_attempt_at, spool_entry_id], nulls first. *)
Definition schedule_leb (a b : Entry.EntryRow) : bool :=
  match Entry.next_attempt_at a, Entry.next_attempt_at b with
  | None, Some _ => true
  | Some _, None => false
  | None, None => text_leb (Entry.id a) (Entry.id b)
  | Some x, Some y => if bool_decide (as_bytes x = as_bytes y) then text_leb (Entry.id a) (Entry.id b) else text_leb x y
  end.

Definition quarantined (d : Db) (id : list Z) : bool :=
  existsb (fun q => bool_decide (Quarantine.spool_entry_id q = id)) (quarantined_uploads d).

Definition due (now : list Z) (d : Db) (e : Entry.EntryRow) : bool :=
  bool_decide (Entry.state e = STATE_MATERIALIZED) &&
  match Entry.next_attempt_at e with None => true | Some t => text_leb t now end &&
  negb (quarantined d (Entry.id e)) &&
  existsb (fun f => bool_decide (Frozen.spool_entry_id f = Some (Entry.id e))) (frozen_requests d).

Definition candidate (now : list Z) (d : Db) : option Entry.EntryRow :=
  head (sort_by schedule_leb (List.filter (due now d) (spool_entries d))).

(** [UPDATE spool_entries]: the changed rows keep the table's [CHECK]s. *)
Definition update_entries (where_ : Entry.EntryRow -> bool) (set_ : Entry.EntryRow -> Entry.EntryRow) (d : Db) : option (Db * nat) :=
  if forallb (fun e => entry_checks (set_ e)) (List.filter where_ (spool_entries d))
  then let '(rows, n) := update_rows where_ set_ (spool_entries d) in Some (set_entries d rows, n) else None.

Definition claimable (id : list Z) (r : Entry.EntryRow) : bool :=
  bool_decide (Entry.id r = id) && bool_decide (Entry.state r = STATE_MATERIALIZED).

Definition claim_row (now : list Z) (next : option (list Z)) (e : Entry.EntryRow) : Entry.EntryRow :=
  Entry.mk (Entry.id e) (Entry.bundle_name e) (Entry.state e) (Entry.envelope_digest e) (Entry.size_bytes e)
    (Entry.attempt_count e + 1) next (Entry.created_at e) now.

Definition delay_directive (ms : Z) : list Z :=
  lit "+" ++ i64_to_string (ms / 1000) ++ lit "." ++ padded 3 (ms mod 1000) ++ lit " seconds".

Definition claim_rows (id : list Z) (d : Db) : option (Entry.EntryRow * Frozen.FrozenRow * Attest.AttestationRow) :=
  e ← entry_of id d;
  f ← head (List.filter (fun f => bool_decide (Frozen.spool_entry_id f = Some id)) (frozen_requests d));
  a ← head (List.filter (fun a => bool_decide (Attest.request_id a = Frozen.request_id f)) (upload_attestations d));
  Some (e, f, a).

Definition load_claim (id : list Z) (retry_delay_ms : Z) : upload RetryClaim :=
  let* row := query classify_sql (claim_rows id) in
  match row with
  | None => fail UpUnavailable
  | Some (e, f, a) =>
      if (Entry.size_bytes e <? 0) || (Entry.attempt_count e <? 0) then fail UpUnavailable
      else
        let* request := conflict (RequestId_parse (Frozen.request_id f)) in
        let* occurrence := conflict (digest_parse (Frozen.occurrence_id f)) in
        let* attestation := conflict (digest_parse (Attest.attestation_id a)) in
        ret (mkClaim (mkFrozenUpload request occurrence attestation) id (Entry.bundle_name e) (Entry.envelope_digest e)
               (Entry.size_bytes e) (Entry.attempt_count e) retry_delay_ms)
  end.

Section Claim.
(** SQLite's [strftime('%Y-%m-%dT%H:%M:%fZ', now, directive)]. *)
Context (strftime : list Z -> list Z -> option (list Z)).

Definition claim_body (now : list Z) (policy : RetryPolicy) (random_bits : result UploadErrorKind Z)
    : upload (option RetryClaim) :=
  let* row := query classify_sql (candidate now) in
  match row with
  | None => ret None
  | Some e =>
      if Entry.attempt_count e <? 0 then fail UpUnavailable
      else
        let* id := lift (map_err (fun _ => UpUnavailable) (RequestId_parse (Entry.id e))) in
        let* retry_delay_ms := lift (full_jitter_ms policy (Entry.attempt_count e) random_bits) in
        let* changed := execute classify_sql UpUnavailable
          (update_entries (claimable id) (claim_row now (strftime now (delay_directive retry_delay_ms)))) in
        if negb (changed =? 1)%nat then fail UpUnavailable
        else let* claimed := load_claim id retry_delay_ms in ret (Some claimed)
  end.

Definition claim_due_upload (now : list Z) (policy : RetryPolicy) (random_bits : result UploadErrorKind Z)
    : upload (option RetryClaim) :=
  transaction_when is_some classify_sql (claim_body now policy random_bits).
End Claim.

(** * The failure matrix *)

Inductive UploadFailure := ResponseLost | Status (status : Z) | Registry (code : list Z) (retryable : bool).

Inductive RetryDecision :=
| Retry | Rechunk | QuarantineArtifact | QuarantineAndReportGap | PauseForLinking | StopSourceAndPage.

Definition action_token (d : RetryDecision) : list Z :=
  match d with
  | Retry => lit "backoff_and_retry"
  | Rechunk => lit "rechunk_and_resubmit"
  | QuarantineArtifact => lit "quarantine_artifact"
  | QuarantineAndReportGap => lit "quarantine_and_report_gap"
  | PauseForLinking => lit "pause_for_linking"
  | StopSourceAndPage => lit "stop_and_page_operator"
  end.

Definition decide_status (status : Z) : RetryDecision :=
  if existsb (Z.eqb status) [401; 403] then PauseForLinking
  else if status =? 409 then StopSourceAndPage
  else if status =? 413 then Rechunk
  else if existsb (Z.eqb status) [408; 425; 429; 500; 502; 503; 504] then Retry
  else QuarantineArtifact.

Definition one_of (code : list Z) (codes : list string) : bool := existsb (fun c => bool_decide (code = lit c)) codes.

Definition classify_registry_code (code : list Z) : option RetryDecision :=
  if one_of code ["envelope.malformed"; "envelope.version_unsupported"; "envelope.media_type_unsupported";
      "envelope.schema_invalid"; "envelope.size_exceeded"; "auth.epoch_unreached"; "auth.key_id_mismatch";
      "request.framing_invalid"]%string then Some QuarantineArtifact
  else if one_of code ["auth.unlinked"; "auth.revoked"; "auth.authorization_rejected"; "auth.forbidden"]%string
  then Some PauseForLinking
  else if one_of code ["storage.integrity_conflict"]%string then Some StopSourceAndPage
  else if one_of code ["request.payload_too_large"; "request.expansion_ratio_exceeded"]%string then Some Rechunk
  else if one_of code ["request.record_too_large"]%string then Some QuarantineAndReportGap
  else if one_of code ["request.deadline_exceeded"; "request.rate_limited"; "request.too_early"; "server.internal";
      "server.storage_failure"; "server.unavailable"; "server.partial_commit"; "server.upstream_timeout";
      "transport.connection_failed"; "transport.response_lost"]%string then Some Retry
  else None.

Definition decide_failure (failure : UploadFailure) : RetryDecision :=
  match failure with
  | ResponseLost => Retry
  | Status status => decide_status status
  | Registry code retryable =>
      match classify_registry_code code with
      | Some d => d
      | None => if retryable then Retry else QuarantineArtifact
      end
  end.

(** * Quarantine *)

Inductive QuarantineReason := PoisonInput | UnsplittableRecord.
Definition quarantine_token (r : QuarantineReason) : list Z :=
  match r with PoisonInput => lit "request_invalid" | UnsplittableRecord => lit "payload_limit_unsplittable" end.

(** [INSERT OR IGNORE]: a repeated key or a failed [CHECK] is ignored, a dangling
    reference is not. *)
Definition insert_quarantine (q : Quarantine.QuarantineRow) (d : Db) : option (Db * nat) :=
  if quarantined d (Quarantine.spool_entry_id q) || negb (zlen (Quarantine.spool_entry_id q) =? 36) ||
     negb (length_between 20 (Quarantine.quarantined_at q) 35) then Some (d, 0%nat)
  else if negb (bool_decide (Quarantine.spool_entry_id q ∈ map Entry.id (spool_entries d))) then None
  else Some (set_quarantined d (quarantined_uploads d ++ [q]), 1%nat).

Definition quarantine_upload (id : list Z) (reason : QuarantineReason) (now : list Z) : upload bool :=
  let* changed := execute classify_sql UpInvalidInput (insert_quarantine (Quarantine.mk id (quarantine_token reason) now)) in
  ret (changed =? 1)%nat.

Definition is_quarantined (id : list Z) : upload bool := query classify_sql (fun d => quarantined d id).
