(* ===== verification/Acknowledgement.v ===== *)
(** Durable acknowledgement ([crates/archivist-client-core/src/acknowledgement.rs]): a
    receipt is verified, bound to the frozen upload it answers and retained in the
    transaction that marks the spool entry acknowledged; the bundle goes only after the
    commit.  Detail texts are not modelled: every error carries its kind's default. *)

From stdpp Require Import gmap.
From S2P Require Import Prelude Text Json Sha256 Vocabulary Derivation ObjectKey Authority ControlRecord Receipt ClientState Spool Upload.

Open Scope Z_scope.

Inductive AcknowledgementErrorKind :=
| MalformedReceipt | UntrustedReceipt | AckIdentityMismatch | AckUnavailable | AckBusy | CleanupPending.

Abbreviation ack := (act AcknowledgementErrorKind).

Definition ack_sql (busy : bool) : AcknowledgementErrorKind := if busy then AckBusy else AckUnavailable.

Record AcknowledgementRequest := mkAckRequest { ack_receipt_bytes : list Z; ack_cursor : list Z }.

Record AcknowledgedReceipt := mkAcknowledged
  { acked_request_id : list Z; acked_receipt_digest : list Z; acked_cursor_advanced : bool }.

(** * The receipt's fields *)

Record ReceiptFields := mkFields
  { rf_tenant_id : list Z; rf_request_id : list Z; rf_occurrence_id : list Z; rf_attestation_id : list Z;
    rf_blob_digest : list Z; rf_blob_object_key : list Z; rf_occurrence_object_key : list Z;
    rf_attestation_object_key : list Z; rf_commit_time : list Z; rf_receipt_key_id : list Z; rf_signature : list Z }.

Abbreviation malformed := MalformedReceipt.

Definition ack_text (o : Object) (name : string) : result AcknowledgementErrorKind (list Z) :=
  match object_get o (lit name) with Some (VText t) => Ok t | _ => Err malformed end.

Definition ack_field {A} (parse : list Z -> result GrammarError A) (o : Object) (name : string)
    : result AcknowledgementErrorKind A :=
  let! t := ack_text o name in map_err (fun _ => malformed) (parse t).

Definition ack_timestamp (o : Object) (name : string) : result AcknowledgementErrorKind (list Z) :=
  let! t := ack_field Timestamp_parse o name in if calendar_valid t then Ok t else Err malformed.

Definition ReceiptFields_of (o : Object) : result AcknowledgementErrorKind ReceiptFields :=
  if negb (bool_decide (int_member o "receipt_version" = Some 1)) || negb (object_contains o (lit "certificate"))
  then Err malformed
  else
    let! _ := ack_field (enum_parse (E := SignatureAlgorithm)) o "signature_algorithm" in
    let! _ := ack_field (enum_parse (E := StorageOutcome)) o "blob_outcome" in
    let! _ := ack_field (enum_parse (E := StorageOutcome)) o "occurrence_outcome" in
    let! _ := ack_field (enum_parse (E := StorageOutcome)) o "attestation_outcome" in
    let! _ := match int_member o "authorization_epoch" with
              | Some value => if 1 <=? value then Ok tt else Err malformed
              | None => Err malformed
              end in
    let! _ := ack_field digest_parse o "authorization_key_id" in
    let! tenant := ack_field TenantId_parse o "tenant_id" in
    let! request := ack_field RequestId_parse o "request_id" in
    let! occurrence := ack_field digest_parse o "occurrence_id" in
    let! attestation := ack_field digest_parse o "attestation_id" in
    let! blob := ack_field digest_parse o "blob_digest" in
    let! blob_key := ack_text o "blob_object_key" in
    let! occurrence_key := ack_text o "occurrence_object_key" in
    let! attestation_key := ack_text o "attestation_object_key" in
    let! commit := ack_timestamp o "commit_time" in
    let! key := ack_field digest_parse o "receipt_key_id" in
    let! signature := ack_field Ed25519Signature_parse o "signature" in
    Ok (mkFields tenant request occurrence attestation blob blob_key occurrence_key attestation_key commit key signature).

Definition ReceiptFields_parse (bytes : list Z) : result AcknowledgementErrorKind ReceiptFields :=
  let! v := map_err (fun _ => malformed) (Json.parse bytes) in
  match v with VObject o => ReceiptFields_of o | _ => Err malformed end.

(** * The frozen upload *)

Record PendingUpload := mkPending
  { pu_bundle_name : list Z; pu_state : list Z; pu_source_id : list Z; pu_tenant_id : list Z;
    pu_origin_client_id : list Z; pu_uploader_client_id : list Z; pu_occurrence_id : list Z;
    pu_storage_profile : StorageProfile; pu_canonical_digest : list Z; pu_range_blob_digest : list Z;
    pu_range_end : Z; pu_harness : list Z; pu_session_hash : list Z; pu_last_cursor : option (list Z);
    pu_last_acknowledged_range_end : Z; pu_attestation_id : list Z; pu_attestation_tenant_id : list Z;
    pu_attestation_occurrence_id : list Z; pu_attestation_origin_client_id : list Z;
    pu_attestation_uploader_client_id : list Z; pu_attestation_request_id : list Z }.

Record PendingRow := mkPendingRow
  { pr_frozen : Frozen.FrozenRow; pr_entry : Entry.EntryRow; pr_range : Range.RangeRow; pr_attest : Attest.AttestationRow;
    pr_source : Source.SourceRow }.

(** The join of [load_pending]. *)
Definition pending_rows (request_id : list Z) (d : Db) : list PendingRow :=
  fr ← List.filter (fun f => bool_decide (Frozen.request_id f = request_id)) (frozen_requests d);
  se ← List.filter (fun e => bool_decide (Frozen.spool_entry_id fr = Some (Entry.id e))) (spool_entries d);
  r ← List.filter (fun r => bool_decide (Range.spool_entry_id r = Some (Entry.id se)) &&
                            bool_decide (Range.occurrence_id r = Frozen.occurrence_id fr)) (ranges d);
  ua ← List.filter (fun a => bool_decide (Attest.request_id a = Frozen.request_id fr)) (upload_attestations d);
  g ← List.filter (fun g => bool_decide (Generation.generation_id g = Range.generation_id r)) (generations d);
  s ← List.filter (fun s => bool_decide (Source.source_id s = Generation.source_id g)) (sources d);
  [mkPendingRow fr se r ua s].

Definition mismatch {A} (r : result GrammarError A) : result AcknowledgementErrorKind A := map_err (fun _ => AckIdentityMismatch) r.

Definition PendingUpload_from_row (p : PendingRow) : result AcknowledgementErrorKind PendingUpload :=
  let fr := pr_frozen p in let se := pr_entry p in let r := pr_range p in let ua := pr_attest p in let s := pr_source p in
  if (Range.range_end r <? 0) || (Source.last_acknowledged_range_end s <? -1) then Err AckIdentityMismatch
  else
    let! tenant := mismatch (TenantId_parse (Frozen.tenant_id fr)) in
    let! origin := mismatch (ClientId_parse (Frozen.origin_client_id fr)) in
    let! uploader := mismatch (ClientId_parse (Frozen.uploader_client_id fr)) in
    let! occurrence := mismatch (digest_parse (Frozen.occurrence_id fr)) in
    let! profile := mismatch (enum_parse (E := StorageProfile) (Frozen.storage_profile fr)) in
    let! canonical := mismatch (digest_parse (Frozen.canonical_digest fr)) in
    let! blob := mismatch (digest_parse (Range.blob_digest r)) in
    let! harness := mismatch (HarnessId_parse (Source.harness s)) in
    let! session := mismatch (digest_parse (Source.session_hash s)) in
    let! attestation := mismatch (digest_parse (Attest.attestation_id ua)) in
    let! a_tenant := mismatch (TenantId_parse (Attest.tenant_id ua)) in
    let! a_occurrence := mismatch (digest_parse (Attest.occurrence_id ua)) in
    let! a_origin := mismatch (ClientId_parse (Attest.origin_client_id ua)) in
    let! a_uploader := mismatch (ClientId_parse (Attest.uploader_client_id ua)) in
    let! a_request := mismatch (RequestId_parse (Attest.request_id ua)) in
    Ok (mkPending (Entry.bundle_name se) (Entry.state se) (Source.source_id s) tenant origin uploader occurrence profile
          canonical blob (Range.range_end r) harness session (Source.last_cursor s) (Source.last_acknowledged_range_end s)
          attestation a_tenant a_occurrence a_origin a_uploader a_request).

Definition load_pending (request_id : list Z) : ack PendingUpload :=
  let* rows := query ack_sql (fun d => take 2 (pending_rows request_id d)) in
  match rows with
  | [] => fail AckIdentityMismatch
  | row :: rest =>
      let* pending := lift (PendingUpload_from_row row) in
      match rest with [] => ret pending | _ => fail AckIdentityMismatch end
  end.

Definition validate_binding (p : PendingUpload) (f : ReceiptFields) : result AcknowledgementErrorKind unit :=
  if negb (bool_decide (pu_state p = STATE_ACKNOWLEDGED)) &&
     negb (bool_decide (pu_state p ∈ map lit ["materialized"; "uploading"; "uploaded"]%string))
  then Err AckIdentityMismatch
  else if negb (bool_decide (pu_tenant_id p = rf_tenant_id f)) ||
     negb (bool_decide (pu_occurrence_id p = rf_occurrence_id f)) ||
     negb (bool_decide (pu_canonical_digest p = rf_blob_digest f)) ||
     negb (bool_decide (pu_range_blob_digest p = rf_blob_digest f)) ||
     negb (bool_decide (pu_attestation_tenant_id p = pu_tenant_id p)) ||
     negb (bool_decide (pu_attestation_occurrence_id p = pu_occurrence_id p)) ||
     negb (bool_decide (pu_attestation_origin_client_id p = pu_origin_client_id p)) ||
     negb (bool_decide (pu_attestation_uploader_client_id p = pu_uploader_client_id p)) ||
     negb (bool_decide (pu_attestation_request_id p = rf_request_id f))
  then Err AckIdentityMismatch
  else
    let expected := attestation_id (pu_occurrence_id p) (pu_uploader_client_id p) (rf_request_id f) in
    if negb (bool_decide (expected = rf_attestation_id f)) || negb (bool_decide (expected = pu_attestation_id p))
    then Err AckIdentityMismatch
    else
      let blob_key := BlobObjectKey_new (pu_tenant_id p) (pu_storage_profile p) (rf_blob_digest f) in
      let occurrence_key := OccurrenceObjectKey_new (pu_tenant_id p) (pu_origin_client_id p) (pu_harness p)
                              (pu_session_hash p) (rf_occurrence_id f) in
      let attestation_key := AttestationObjectKey_new (pu_tenant_id p) (rf_occurrence_id f) (rf_attestation_id f) in
      if negb (bool_decide (rf_blob_object_key f = blob_key)) ||
         negb (bool_decide (rf_occurrence_object_key f = occurrence_key)) ||
         negb (bool_decide (rf_attestation_object_key f = attestation_key))
      then Err AckIdentityMismatch else Ok tt.

(** * The cursor and the entry *)

(** [CHECK]s of [sources] on the columns updated. *)
Definition source_checks (s : Source.SourceRow) : bool :=
  match Source.last_cursor s with None => true | Some c => zlen c <=? 1024 end &&
  (-1 <=? Source.last_acknowledged_range_end s) && length_between 20 (Source.updated_at s) 35.

Definition update_sources (where_ : Source.SourceRow -> bool) (set_ : Source.SourceRow -> Source.SourceRow) (d : Db) : option (Db * nat) :=
  if forallb (fun s => source_checks (set_ s)) (List.filter where_ (sources d))
  then let '(rows, n) := update_rows where_ set_ (sources d) in Some (set_sources d rows, n) else None.

Definition set_cursor (cursor : list Z) (range_end : Z) (now : list Z) (s : Source.SourceRow) : Source.SourceRow :=
  Source.mk (Source.source_id s) (Source.harness s) (Source.session_hash s) (Some cursor) range_end now.

Definition acknowledge_row (now : list Z) (e : Entry.EntryRow) : Entry.EntryRow :=
  Entry.mk (Entry.id e) (Entry.bundle_name e) STATE_ACKNOWLEDGED (Entry.envelope_digest e) (Entry.size_bytes e)
    (Entry.attempt_count e) (Entry.next_attempt_at e) (Entry.created_at e) now.

(** The entry of a request, by the subquery. *)
Definition entry_of_request (request_id : list Z) (d : Db) : option (list Z) :=
  f ← head (List.filter (fun f => bool_decide (Frozen.request_id f = request_id)) (frozen_requests d));
  Frozen.spool_entry_id f.

Definition ack_now : ack (list Z) := clock ack_sql AckUnavailable.

Definition one_changed (changed : nat) : ack unit := if (changed =? 1)%nat then ret tt else fail AckUnavailable.

Definition move_cursor (p : PendingUpload) (cursor now : list Z) : ack unit :=
  let range_end := pu_range_end p in
  if pu_last_acknowledged_range_end p <? range_end then
    let* changed := execute ack_sql AckUnavailable (update_sources
      (fun s => bool_decide (Source.source_id s = pu_source_id p) && (Source.last_acknowledged_range_end s <? range_end))
      (set_cursor cursor range_end now)) in
    one_changed changed
  else if negb (is_some (pu_last_cursor p)) && (pu_last_acknowledged_range_end p =? range_end) then
    let* changed := execute ack_sql AckUnavailable (update_sources
      (fun s => bool_decide (Source.source_id s = pu_source_id p) && (Source.last_acknowledged_range_end s =? range_end))
      (set_cursor cursor range_end now)) in
    one_changed changed
  else ret tt.

Definition update_cursor_and_acknowledge (p : PendingUpload) (cursor request_id : list Z) : ack bool :=
  let same_boundary := pu_last_acknowledged_range_end p =? pu_range_end p in
  if same_boundary && match pu_last_cursor p with Some previous => negb (bool_decide (previous = cursor)) | None => false end
  then fail AckIdentityMismatch
  else
    let* now := ack_now in
    let advanced := pu_last_acknowledged_range_end p <? pu_range_end p in
    let* _ := move_cursor p cursor now in
    let* changed := execute ack_sql AckUnavailable (fun d => update_entries
      (fun e => bool_decide (entry_of_request request_id d = Some (Entry.id e)) &&
                negb (bool_decide (Entry.state e = STATE_ACKNOWLEDGED))) (acknowledge_row now) d) in
    if negb (bool_decide (pu_state p = STATE_ACKNOWLEDGED)) && negb (changed =? 1)%nat then fail AckUnavailable
    else ret advanced.

(** * Acknowledgement *)

Definition receipt_of (request_id : list Z) (d : Db) : option Evidence.ReceiptRow :=
  head (List.filter (fun r => bool_decide (Evidence.request_id r = request_id)) (receipts d)).

Definition fill_bytes (bytes : list Z) (r : Evidence.ReceiptRow) : Evidence.ReceiptRow :=
  Evidence.mk (Evidence.request_id r) (Evidence.receipt_key_id r) (Evidence.signature r) (Evidence.receipt_digest r)
    (Evidence.commit_ordinal r) (Evidence.commit_time r) (Evidence.signature_verified r) (Evidence.received_at r) (Some bytes).

(** [COALESCE(MAX(commit_ordinal), -1) + 1]. *)
Definition next_ordinal (d : Db) : Z := fold_right Z.max (-1) (map Evidence.commit_ordinal (receipts d)) + 1.

Definition retain_receipt (p : PendingUpload) (f : ReceiptFields) (receipt_digest canonical_bytes : list Z) : ack unit :=
  let* existing := query ack_sql (receipt_of (rf_request_id f)) in
  match existing with
  | Some r =>
      if bool_decide (Evidence.receipt_digest r = receipt_digest) && (Evidence.signature_verified r =? 1)
      then
        execute ack_sql AckUnavailable (fun d =>
          Some (set_receipts d (update_rows (fun r => bool_decide (Evidence.request_id r = rf_request_id f) &&
                  negb (is_some (Evidence.receipt_bytes r))) (fill_bytes canonical_bytes) (receipts d)).1, tt))
      else fail AckIdentityMismatch
  | None =>
      if bool_decide (pu_state p = STATE_ACKNOWLEDGED) then fail AckIdentityMismatch
      else
        let* ordinal := query ack_sql next_ordinal in
        let* received_at := ack_now in
        execute ack_sql AckUnavailable (fun d =>
          d' ← insert_receipt (Evidence.mk (rf_request_id f) (to_hex (rf_receipt_key_id f)) (to_hex (rf_signature f))
                 receipt_digest ordinal (rf_commit_time f) 1 received_at (Some canonical_bytes)) d;
          Some (d', tt))
  end.

(** Inside the transaction: the bundle's name and whether the cursor moved. *)
Definition acknowledge_body (f : ReceiptFields) (cursor receipt_digest canonical_bytes : list Z) : ack (list Z * bool) :=
  let* pending := load_pending (rf_request_id f) in
  let* _ := lift (validate_binding pending f) in
  let* _ := retain_receipt pending f receipt_digest canonical_bytes in
  let* advanced := update_cursor_and_acknowledge pending cursor (rf_request_id f) in
  ret (pu_bundle_name pending, advanced).

Definition acknowledge_state (f : ReceiptFields) (cursor receipt_digest canonical_bytes : list Z) : ack (list Z * bool) :=
  transaction ack_sql (acknowledge_body f cursor receipt_digest canonical_bytes).

(** [spool.remove] after the commit. *)
Definition cleanup (bundle_name : list Z) : ack unit := fun w =>
  match remove bundle_name w with
  | (Some r, w') => (Some (map_err (fun e => match e with SpBusy => AckBusy | _ => CleanupPending end) r), w')
  | (None, w') => (None, w')
  end.

Section Acknowledge.
Context `{SignatureScheme} (root : PinnedAuthorityRoot) (authority_records : Store).

(** What is checked before the state is touched. *)
Definition verified_fields (receipt_bytes : list Z) : result AcknowledgementErrorKind (Value * ReceiptFields) :=
  let! receipt := map_err (fun _ => MalformedReceipt) (Receipt_parse receipt_bytes) in
  let! verified := map_err (fun _ => UntrustedReceipt) (Receipt_verify root authority_records receipt) in
  let! fields := ReceiptFields_parse (canonical_bytes receipt) in
  if negb (bool_decide (rf_tenant_id fields = ver_tenant verified)) ||
     negb (bool_decide (rf_receipt_key_id fields = ver_key_id verified)) ||
     negb (bool_decide (rf_commit_time fields = ver_commit_time verified))
  then Err AckIdentityMismatch else Ok (receipt, fields).

Definition acknowledge_receipt (request : AcknowledgementRequest) : ack AcknowledgedReceipt :=
  if 1024 <? zlen (ack_cursor request) then fail AckIdentityMismatch
  else
    let* checked := lift (verified_fields (ack_receipt_bytes request)) in
    let bytes := canonical_bytes checked.1 in
    let fields := checked.2 in
    let receipt_digest := encode_hex (digest bytes) in
    let* out := acknowledge_state fields (ack_cursor request) receipt_digest bytes in
    let* _ := cleanup out.1 in
    ret (mkAcknowledged (rf_request_id fields) receipt_digest out.2).
End Acknowledge.
