(* ===== verification/ClientSafety.v ===== *)
(** What the client's durable state promises: whatever calls are refused, cut short or
    die, a captured bundle stays on disk until a verified receipt that answers it is
    retained, and nothing recorded is taken back. *)

From stdpp Require Import gmap.
From S2P Require Import Prelude Text Json Sha256 Vocabulary Derivation ObjectKey Records Inventory Pressure Authority ControlRecord ControlRecordFacts Receipt ClientState Spool Upload Acknowledgement.

Open Scope Z_scope.

(** * Triples *)

Definition assertion : Type := Db -> Directory -> Prop.

Definition holds (P : assertion) (w : World) : Prop := P (db w) (dir w).

(** From [P], an [Ok] leaves [Q] and everything else, the process's death included, [J]. *)
Definition hoare {E A} (P : assertion) (m : act E A) (Q : A -> assertion) (J : assertion) : Prop :=
  forall w, holds P w -> match m w with (Some (Ok a), w') => holds (Q a) w' | (_, w') => holds J w' end.

Section Rules.
Context {E : Type}.

Lemma hoare_ret {A} (a : A) (P : assertion) (Q : A -> assertion) (J : assertion) : (forall d r, P d r -> Q a d r) -> hoare (E := E) P (ret a) Q J.
Proof. intros HQ w Hw. by apply HQ. Qed.

Lemma hoare_fail {A} (e : E) (P : assertion) (Q : A -> assertion) (J : assertion) : (forall d r, P d r -> J d r) -> hoare P (fail e) Q J.
Proof. intros HJ w Hw. by apply HJ. Qed.

Lemma hoare_lift {A} (x : result E A) (P : assertion) (Q : A -> assertion) (J : assertion) :
  (forall a, x = Ok a -> forall d r, P d r -> Q a d r) -> (forall d r, P d r -> J d r) -> hoare P (lift x) Q J.
Proof. intros HQ HJ w Hw. destruct x as [a|e|] eqn:Ex; cbn; [by apply (HQ a)|by apply HJ..]. Qed.

Lemma hoare_bind {A B} (m : act E A) (k : A -> act E B) (P : assertion) R Q (J : assertion) :
  hoare P m R J -> (forall a, hoare (R a) (k a) Q J) -> hoare P (abind m k) Q J.
Proof.
  intros Hm Hk w Hw. unfold abind. specialize (Hm w Hw). destruct (m w) as [[[a|e|]|] w'] eqn:Em; [|done..].
  by apply Hk.
Qed.

Lemma hoare_pre {A} (m : act E A) (P P' : assertion) (Q : A -> assertion) (J : assertion) : (forall d r, P d r -> P' d r) -> hoare P' m Q J -> hoare P m Q J.
Proof. intros HP Hm w Hw. apply Hm. by apply HP. Qed.

Lemma hoare_post {A} (m : act E A) (P : assertion) (Q Q' : A -> assertion) (J : assertion) :
  (forall a d r, Q' a d r -> Q a d r) -> hoare P m Q' J -> hoare P m Q J.
Proof.
  intros HQ Hm w Hw. specialize (Hm w Hw). destruct (m w) as [[[a|e|]|] w']; [by apply HQ|done..].
Qed.

Lemma hoare_fails {A} (m : act E A) (P : assertion) (Q : A -> assertion) (J J' : assertion) :
  (forall d r, J' d r -> J d r) -> hoare P m Q J' -> hoare P m Q J.
Proof.
  intros HJ Hm w Hw. specialize (Hm w Hw). destruct (m w) as [[[a|e|]|] w']; [done|by apply HJ..].
Qed.

(** A fact that does not depend on the state. *)
Lemma hoare_pure {A} (m : act E A) (X : Prop) (P : assertion) (Q : A -> assertion) (J : assertion) :
  (X -> hoare P m Q J) -> hoare (fun d r => X /\ P d r) m Q J.
Proof. intros Hm w [HX Hw]. by apply (Hm HX). Qed.

Lemma hoare_effect_cut {A} (refused : bool -> E) partly (does : World -> result E A * World) (P : assertion) (Q : A -> assertion) (J : assertion) :
  (forall d r, P d r -> J d r) ->
  (forall n w, holds P w -> holds J (partly n w)) ->
  (forall w, holds P w -> match does w with (Ok a, w') => holds (Q a) w' /\ holds J w' | (_, w') => holds J w' end) ->
  hoare P (effect_cut refused partly does) Q J.
Proof.
  intros HJ Hpart Hd w Hw. unfold effect_cut. destruct (answers w) as [|x rest] eqn:Ea.
  { specialize (Hd w Hw). by destruct (does w) as [[a|e|] w']; [destruct Hd|..]. }
  assert (Hw' : holds P (with_answers w rest)) by exact Hw.
  pose proof (Hd _ Hw') as Hd'. destruct x as [|busy|n [|]| |]; cbn.
  - by destruct (does _) as [[a|e|] w']; [destruct Hd'|..].
  - by apply HJ.
  - by apply Hpart.
  - by apply Hpart.
  - by apply HJ.
  - by destruct (does _) as [[a|e|] w']; [destruct Hd'|..].
Qed.

Lemma hoare_effect {A} (refused : bool -> E) (does : World -> result E A * World) (P : assertion) (Q : A -> assertion) (J : assertion) :
  (forall d r, P d r -> J d r) ->
  (forall w, holds P w -> match does w with (Ok a, w') => holds (Q a) w' /\ holds J w' | (_, w') => holds J w' end) ->
  hoare P (effect refused does) Q J.
Proof. intros HJ Hd. apply hoare_effect_cut; [done| |done]. intros n w Hw. by apply HJ. Qed.

Lemma hoare_query {A} (refused : bool -> E) (f : Db -> A) (P : assertion) (Q : A -> assertion) (J : assertion) :
  (forall d r, P d r -> J d r) -> (forall d r, P d r -> Q (f d) d r) -> hoare P (query refused f) Q J.
Proof. intros HJ HQ. apply hoare_effect; [done|]. intros w Hw. split; [by apply HQ|by apply HJ]. Qed.

Lemma hoare_execute {A} (refused : bool -> E) violated (f : Db -> option (Db * A)) (P : assertion) (Q : A -> assertion) (J : assertion) :
  (forall d r, P d r -> J d r) -> (forall d r d' a, P d r -> f d = Some (d', a) -> Q a d' r /\ J d' r) ->
  hoare P (execute refused violated f) Q J.
Proof.
  intros HJ HQ. apply hoare_effect; [done|]. intros w Hw. destruct (f (db w)) as [[d' a]|] eqn:Ef; [|by apply HJ].
  by apply (HQ (db w) (dir w) d' a).
Qed.

(** The body works on a copy: only its result, committed, is seen. *)
Lemma hoare_transaction {A} commits (refused : bool -> E) (body : act E A) (P : assertion) (Q : A -> assertion) (J : assertion) :
  (forall d r, P d r -> J d r) -> (forall a d r, commits a = false -> P d r -> Q a d r) ->
  (forall d0, hoare (fun d r => d = d0 /\ P d r) body (fun a d r => P d0 r /\ Q a d r /\ J d r) (fun _ r => P d0 r)) ->
  hoare P (transaction_when commits refused body) Q J.
Proof.
  intros HJ Hn Hb. unfold transaction_when. apply hoare_bind with (R := fun _ => P).
  { apply hoare_effect; [done|]. intros w Hw. split; [done|by apply HJ]. }
  intros [] w Hw. specialize (Hb (db w) w (conj eq_refl Hw)).
  destruct (body w) as [[[a|e|]|] w'] eqn:Eb; [|by apply HJ..].
  destruct Hb as (HP & HQ & HJ'). destruct (commits a) eqn:Ea; [|by apply Hn].
  apply (hoare_effect refused (fun v => (Ok a, with_db v (db w'))) (fun d r => d = db w /\ r = dir w') Q J); [|..|done].
  - intros d r [-> ->]. by apply HJ.
  - intros v [Hv1 Hv2]. unfold holds in *. cbn. rewrite Hv2. done.
Qed.

Lemma hoare_clock refused malformed (P J : assertion) : (forall d r, P d r -> J d r) -> hoare P (@clock E refused malformed) (fun _ => P) J.
Proof.
  intros HJ. unfold clock. apply hoare_bind with (R := fun _ => P).
  - apply hoare_effect; [done|]. intros w Hw. destruct (clocks w); [by apply HJ|split; [exact Hw|by apply HJ]].
  - intros text. destruct (Timestamp_parse text); [|by apply hoare_fail..].
    destruct (calendar_valid a); [by apply hoare_ret|by apply hoare_fail].
Qed.
End Rules.

(** * The invariant *)

(** A retained receipt answers the frozen request: it verified under the pinned root, and
    names its tenant, request, occurrence, blob and attestation. *)
Definition answers_request `{SignatureScheme} (root : PinnedAuthorityRoot) (fr : Frozen.FrozenRow) (rc : Evidence.ReceiptRow) : Prop :=
  Evidence.request_id rc = Frozen.request_id fr /\ Evidence.signature_verified rc = 1 /\
  exists v fetch x fields,
    Evidence.receipt_bytes rc = Some (canonical_bytes v) /\
    Evidence.receipt_digest rc = encode_hex (digest (canonical_bytes v)) /\
    Receipt_verify root fetch v = Ok x /\
    ReceiptFields_parse (canonical_bytes v) = Ok fields /\
    rf_tenant_id fields = ver_tenant x /\
    rf_request_id fields = Frozen.request_id fr /\
    TenantId_parse (Frozen.tenant_id fr) = Ok (rf_tenant_id fields) /\
    digest_parse (Frozen.occurrence_id fr) = Ok (rf_occurrence_id fields) /\
    digest_parse (Frozen.canonical_digest fr) = Ok (rf_blob_digest fields) /\
    (exists uploader, ClientId_parse (Frozen.uploader_client_id fr) = Ok uploader /\
       rf_attestation_id fields = attestation_id (rf_occurrence_id fields) uploader (rf_request_id fields)).

Section Invariant.
Context `{SignatureScheme} (root : PinnedAuthorityRoot).

(** The bundle of an entry holds exactly the recorded bytes. *)
Definition bundle_held (e : Entry.EntryRow) (r : Directory) : Prop := exists f,
  live r !! Entry.bundle_name e = Some (Regular f) /\ Entry.envelope_digest e = encode_hex (digest (content f)) /\
  Entry.size_bytes e = zlen (content f).

Definition receipted (e : Entry.EntryRow) (d : Db) : Prop := exists fr rc,
  fr ∈ frozen_requests d /\ Frozen.spool_entry_id fr = Some (Entry.id e) /\ rc ∈ receipts d /\ answers_request root fr rc.

Definition entry_good (d : Db) (r : Directory) (e : Entry.EntryRow) : Prop :=
  Entry.bundle_name e = Entry.id e ++ BUNDLE_SUFFIX /\
  (Entry.state e <> STATE_ACKNOWLEDGED -> bundle_held e r) /\
  (Entry.state e = STATE_ACKNOWLEDGED -> receipted e d).

Record client_inv (d : Db) (r : Directory) : Prop := {
  ci_ids : NoDup (map Entry.id (spool_entries d));
  ci_requests : NoDup (map Frozen.request_id (frozen_requests d));
  ci_receipts : forall rc, rc ∈ receipts d -> exists fr, fr ∈ frozen_requests d /\ answers_request root fr rc;
  ci_entries : forall e, e ∈ spool_entries d -> entry_good d r e }.

(** What one state keeps of another: every entry with its bundle and acknowledgement,
    every frozen request and receipt, and each source's watermark or a later one. *)
Record extends (d d' : Db) : Prop := {
  ex_entries : forall e, e ∈ spool_entries d -> exists e', e' ∈ spool_entries d' /\ Entry.id e' = Entry.id e /\
    Entry.bundle_name e' = Entry.bundle_name e /\ Entry.envelope_digest e' = Entry.envelope_digest e /\
    Entry.size_bytes e' = Entry.size_bytes e /\
    (Entry.state e = STATE_ACKNOWLEDGED -> Entry.state e' = STATE_ACKNOWLEDGED);
  ex_frozen : forall f, f ∈ frozen_requests d -> f ∈ frozen_requests d';
  ex_receipts : forall rc, rc ∈ receipts d -> exists rc', rc' ∈ receipts d' /\ Evidence.request_id rc' = Evidence.request_id rc /\
    Evidence.receipt_digest rc' = Evidence.receipt_digest rc;
  ex_sources : forall s, s ∈ sources d -> exists s', s' ∈ sources d' /\ Source.source_id s' = Source.source_id s /\
    Source.last_acknowledged_range_end s <= Source.last_acknowledged_range_end s' }.

#[export] Instance extends_preorder : PreOrder extends.
Proof.
  split.
  - intros d. split; [intros e ?; by exists e|done|intros rc ?; by exists rc|intros s ?; by exists s].
  - intros a b c [E1 F1 R1 S1] [E2 F2 R2 S2]. split.
    + intros e He. destruct (E1 e He) as (e1 & K1 & ? & ? & ? & ? & ?).
      destruct (E2 e1 K1) as (e2 & K2 & ? & ? & ? & ? & ?). exists e2. split_and!; (congruence || auto).
    + auto.
    + intros rc Hr. destruct (R1 rc Hr) as (r1 & K1 & ? & ?). destruct (R2 r1 K1) as (r2 & K2 & ? & ?).
      exists r2. split_and!; congruence.
    + intros s Hs. destruct (S1 s Hs) as (s1 & K1 & ? & ?). destruct (S2 s1 K1) as (s2 & K2 & ? & ?).
      exists s2. split_and!; [done|congruence|lia].
Qed.

(** The assertion every step keeps, from the state [d0] it started in. *)
Definition kept (d0 : Db) : assertion := fun d r => client_inv d r /\ extends d0 d.

Lemma bundle_name_inj a b : a ++ BUNDLE_SUFFIX = b ++ BUNDLE_SUFFIX -> a = b.
Proof. apply app_inv_tail. Qed.

(** Changes of the directory that leave the held bundles alone. *)
Lemma inv_dir d r r' : client_inv d r ->
  (forall e, e ∈ spool_entries d -> Entry.state e <> STATE_ACKNOWLEDGED -> live r' !! Entry.bundle_name e = live r !! Entry.bundle_name e) ->
  client_inv d r'.
Proof.
  intros [Hi Hq Hr He] Hl. split; [done..|]. intros e Hin. destruct (He e Hin) as (Hn & Hb & Ha). split; [done|]. split; [|done].
  intros Hs. destruct (Hb Hs) as (f & Hf & Hd & Hz). exists f. by rewrite Hl.
Qed.

Lemma inv_remove d r name r' : client_inv d r ->
  (forall e, e ∈ spool_entries d -> Entry.bundle_name e = name -> Entry.state e = STATE_ACKNOWLEDGED) ->
  live r' = delete name (live r) -> client_inv d r'.
Proof.
  intros Hi Hn Hl. apply (inv_dir d r); [done|]. intros e He Hs. rewrite Hl, lookup_delete_ne; [done|].
  intros E. by apply Hs, Hn.
Qed.

Lemma kept_entry d0 d d' r e : kept d0 d r -> insert_entry e d = Some d' ->
  Entry.bundle_name e = Entry.id e ++ BUNDLE_SUFFIX -> Entry.state e <> STATE_ACKNOWLEDGED -> bundle_held e r -> kept d0 d' r.
Proof.
  intros [Hi Hx] Hins Hn Hs Hb. unfold insert_entry in Hins.
  destruct (entry_checks e && negb (bool_decide (Entry.id e ∈ map Entry.id (spool_entries d)))) eqn:Ec; [|done].
  injection Hins as <-. apply andb_true_iff in Ec as [_ Hnew%negb_true_iff%bool_decide_eq_false]. split.
  - destruct Hi as [Hid Hq Hr He]. split; cbn [spool_entries set_entries frozen_requests receipts].
    + rewrite map_app. apply NoDup_app. split; [done|]. split; [|apply NoDup_singleton].
      intros x Hx1 ->%list_elem_of_singleton. done.
    + done.
    + done.
    + intros x [Hx1| ->%list_elem_of_singleton]%elem_of_app; [exact (He x Hx1)|]. by split.
  - etransitivity; [exact Hx|]. split; cbn [spool_entries set_entries frozen_requests receipts sources].
    + intros x Hx1. exists x. split_and!; try done. apply elem_of_app. by left.
    + done.
    + intros rc ?. by exists rc.
    + intros s ?. by exists s.
Qed.

(** ** The spool *)

(** No held bundle has this name. *)
Definition quiet (name : list Z) (d : Db) : Prop :=
  forall e, e ∈ spool_entries d -> Entry.state e <> STATE_ACKNOWLEDGED -> Entry.bundle_name e <> name.

Lemma kept_quiet d0 d r r' name : kept d0 d r -> quiet name d ->
  (forall n, n <> name -> live r' !! n = live r !! n) -> kept d0 d r'.
Proof.
  intros [Hi Hx] Hq Hl. split; [|done]. apply (inv_dir d r); [done|]. intros e He Hs. apply Hl. by apply Hq.
Qed.

Definition clear_of (d0 : Db) (staging bundle : list Z) : assertion := fun d r =>
  kept d0 d r /\ quiet staging d /\ quiet bundle d.

Definition holding (P : assertion) (name : list Z) (f : File -> Prop) : assertion := fun d r =>
  P d r /\ exists x, live r !! name = Some (Regular x) /\ f x.

Lemma set_content_live name bytes w n : live (dir (set_content name bytes w)) !! n =
  if decide (n = name) then match live (dir w) !! name with Some (Regular f) => Some (Regular (mkFile bytes (synced f))) | x => x end
  else live (dir w) !! n.
Proof.
  unfold set_content, on_live. cbn. destruct (decide (n = name)) as [->|Hn].
  - destruct (live (dir w) !! name) as [[f|]|] eqn:El; [by rewrite lookup_insert_eq|done..].
  - destruct (live (dir w) !! name) as [[f|]|]; [|done..]. by rewrite lookup_insert_ne.
Qed.

Lemma write_staging_kept d0 staging bundle payload : 
  hoare (clear_of d0 staging bundle) (write_and_sync_staging staging payload)
    (fun _ => holding (clear_of d0 staging bundle) staging (fun f => f = mkFile payload true)) (clear_of d0 staging bundle).
Proof.
  set (P := clear_of d0 staging bundle).
  assert (Hmove : forall d r r', P d r -> (forall n, n <> staging -> live r' !! n = live r !! n) -> P d r').
  { intros d r r' (Hk & Hs & Hb) Hl. split; [exact (kept_quiet d0 d r r' staging Hk Hs Hl)|done]. }
  unfold write_and_sync_staging.
  apply hoare_bind with (R := fun _ => holding P staging (fun _ => True)).
  { apply hoare_effect; [done|]. intros w Hw. destruct (live (dir w) !! staging) eqn:El; [done|].
    assert (P (db w) (dir (on_live w (fun d => <[staging := Regular (mkFile [] false)]> d)))).
    { apply (Hmove _ (dir w)); [done|]. intros n Hn. cbn. by rewrite lookup_insert_ne. }
    split; [|done]. split; [done|]. eexists. split; [cbn; by rewrite lookup_insert_eq|done]. }
  intros _. apply hoare_bind with (R := fun _ => holding P staging (fun _ => True)).
  { apply hoare_effect; [by intros d r [? _]|]. intros w Hw. split; [done|apply Hw]. }
  intros _. apply hoare_bind with (R := fun _ => holding P staging (fun f => content f = payload)).
  { assert (Hset : forall bytes w, holds (holding P staging (fun _ => True)) w ->
      P (db w) (dir (set_content staging bytes w)) /\ exists f, live (dir (set_content staging bytes w)) !! staging = Some (Regular f) /\ content f = bytes).
    { intros bytes w [HP (f & Hf & _)]. split.
      - apply (Hmove _ (dir w)); [done|]. intros n Hn. rewrite set_content_live. by rewrite decide_False.
      - eexists. rewrite set_content_live, decide_True, Hf by done. done. }
    apply hoare_effect_cut.
    - by intros d r [? _].
    - intros n w Hw. apply (Hset _ w Hw).
    - intros w Hw. destruct (Hset payload w Hw) as [HP Hf]. split; [by split|done]. }
  intros _. apply hoare_effect; [by intros d r [? _]|]. intros w [HP (f & Hf & Hc)].
  assert (HP' : P (db w) (dir (on_live w (fun d => match d !! staging with Some (Regular f) => <[staging := Regular (mkFile (content f) true)]> d | _ => d end)))).
  { apply (Hmove _ (dir w)); [done|]. intros n Hn. cbn. rewrite Hf. by rewrite lookup_insert_ne. }
  split; [|done]. split; [done|]. eexists. cbn. rewrite Hf, lookup_insert_eq, Hc. done.
Qed.

Lemma remove_file_quiet name (P : assertion) (J : assertion) :
  (forall d r, P d r -> J d r) -> (forall d r, P d r -> J d (set_live r (delete name (live r)))) ->
  hoare P (remove_file name) (fun _ => J) J.
Proof.
  intros HJ HD. apply hoare_effect; [done|]. intros w Hw. destruct (live (dir w) !! name) as [[f|]|]; [|by apply HJ|by split; apply HJ].
  split; by apply HD.
Qed.

Lemma swept_kept d0 staging bundle payload :
  hoare (clear_of d0 staging bundle) (swept staging (write_and_sync_staging staging payload))
    (fun _ => holding (clear_of d0 staging bundle) staging (fun f => f = mkFile payload true)) (kept d0).
Proof.
  intros w Hw. unfold swept. pose proof (write_staging_kept d0 staging bundle payload w Hw) as Hs.
  destruct (write_and_sync_staging staging payload w) as [[[a|e|]|] w']; [done| |apply Hs..].
  assert (Hr : hoare (clear_of d0 staging bundle) (remove_file staging) (fun _ => kept d0) (kept d0)).
  { apply remove_file_quiet; [by intros d r [? _]|]. intros d r (Hk & Hq & _). apply (kept_quiet d0 d r _ staging); [done..|].
    intros n Hn. cbn. by rewrite lookup_delete_ne. }
  specialize (Hr w' Hs). by destruct (remove_file staging w') as [[[b|e'|]|] w''].
Qed.

Lemma suffixes_differ a b : a ++ BUNDLE_SUFFIX <> b ++ STAGING_SUFFIX.
Proof. intros E. apply (f_equal last) in E. rewrite !last_app in E. vm_compute in E. discriminate. Qed.

Lemma strip_suffix_Some suffix name stem : strip_suffix suffix name = Some stem -> name = stem ++ suffix.
Proof.
  unfold strip_suffix. destruct (_ && _) eqn:Ec; [|done]. intros [= <-].
  apply andb_true_iff in Ec as [_ Hd%bool_decide_eq_true]. rewrite <- Hd at 2. by rewrite take_drop.
Qed.

Lemma named_bundles d r e : client_inv d r -> e ∈ spool_entries d -> Entry.bundle_name e = Entry.id e ++ BUNDLE_SUFFIX.
Proof. intros Hi He. by destruct (ci_entries _ _ Hi e He). Qed.

Lemma staging_quiet d r id : client_inv d r -> quiet (id ++ STAGING_SUFFIX) d.
Proof. intros Hi e He _. rewrite (named_bundles d r e Hi He). apply suffixes_differ. Qed.

Lemma absent_quiet d r name : client_inv d r -> live r !! name = None -> quiet name d.
Proof.
  intros Hi Hn e He Hs E. destruct (ci_entries _ _ Hi e He) as (_ & Hb & _). destruct (Hb Hs) as (f & Hf & _). congruence.
Qed.

Definition minted (w : World) (id : list Z) : Prop := exists ms random rest,
  entropy w = Some (ms, random) :: rest /\ id = canonical_uuid_text (uuid_v7_layout ms random).

(** The identity the entropy source gives next names no file of the spool. *)
Definition fresh (w : World) : Prop := forall id, minted w id -> live (dir w) !! (id ++ BUNDLE_SUFFIX) = None.

Definition materialized (payload : list Z) (b : MaterializedBundle) : assertion := fun d r =>
  mb_bundle_name b = mb_entry_id b ++ BUNDLE_SUFFIX /\ mb_digest b = encode_hex (digest payload) /\ mb_size b = zlen payload /\
  (exists e, e ∈ spool_entries d /\ Entry.id e = mb_entry_id b /\ Entry.bundle_name e = mb_bundle_name b /\
     Entry.state e = STATE_MATERIALIZED /\ Entry.envelope_digest e = mb_digest b /\ Entry.size_bytes e = mb_size b) /\
  live r !! mb_bundle_name b = Some (Regular (mkFile payload true)) /\
  on_disk r !! mb_bundle_name b = Some (Regular (mkFile payload true)).

Lemma insert_entry_elem e d d' : insert_entry e d = Some d' -> e ∈ spool_entries d'.
Proof.
  unfold insert_entry. destruct (_ && _); [|done]. intros [= <-]. cbn. apply elem_of_app. right. by apply list_elem_of_singleton.
Qed.

Lemma renamed_kept d0 staging bundle payload : staging <> bundle ->
  hoare (holding (clear_of d0 staging bundle) staging (fun f => f = mkFile payload true)) (rename staging bundle)
    (fun _ => holding (clear_of d0 staging bundle) bundle (fun f => f = mkFile payload true)) (kept d0).
Proof.
  intros Hne. apply hoare_effect; [by intros d r [[? _] _]|]. intros w [(Hk & Hs & Hb) (f & Hf & ->)]. rewrite Hf.
  set (w' := on_live w _).
  assert (Hk' : kept d0 (db w') (dir w')).
  { destruct Hk as [Hi Hx]. split; [|done]. apply (inv_dir _ (dir w)); [done|]. intros e He Hst. cbn.
    rewrite lookup_insert_ne by (intros ?; by apply (Hb e)). by rewrite lookup_delete_ne by (intros ?; by apply (Hs e)). }
  split; [|done]. split; [by split|]. eexists. cbn. by rewrite lookup_insert_eq.
Qed.

Lemma begin_bundle_kept d0 payload w : holds (kept d0) w -> fresh w ->
  match begin_bundle payload w with
  | (Some (Ok b), w') => holds (kept d0) w' /\ holds (materialized payload b) w'
  | (_, w') => holds (kept d0) w'
  end.
Proof.
  intros Hw Hf. unfold begin_bundle. unfold recordable_size. destruct (zlen payload <=? I64_MAX); [|done].
  unfold abind at 1. cbn [ret]. unfold abind at 1.
  assert (Hm : match mint_uuid_v7 w with
    | (Some (Ok id), w') => minted w id /\ db w' = db w /\ dir w' = dir w | (_, w') => db w' = db w /\ dir w' = dir w end).
  { unfold mint_uuid_v7, effect, effect_cut, minted. destruct (answers w) as [|[| |n []| |] rest];
      cbn; destruct (entropy w) as [|[[ms rnd]|] rest'] eqn:Ee; cbn; rewrite ?Ee; try done; (split; [by eexists _, _, _|done]). }
  destruct (mint_uuid_v7 w) as [[[id|e|]|] w1]; [|destruct Hm as [E1 E2]; unfold holds in *; by rewrite E1, E2..].
  destruct Hm as (Hid & E1 & E2). specialize (Hf id Hid).
  assert (Hc : holds (clear_of d0 (id ++ STAGING_SUFFIX) (id ++ BUNDLE_SUFFIX)) w1).
  { unfold holds. rewrite E1, E2. split; [exact Hw|]. destruct Hw as [Hi _]. split; [by eapply staging_quiet|by eapply absent_quiet]. }
  cbv zeta. match goal with |- match ?m w1 with _ => _ end => cut (hoare (clear_of d0 (id ++ STAGING_SUFFIX) (id ++ BUNDLE_SUFFIX)) m
    (fun b d r => kept d0 d r /\ materialized payload b d r) (kept d0)) end.
  { intros Hh. exact (Hh w1 Hc). }
  eapply hoare_bind; [apply swept_kept|]. intros []. eapply hoare_bind; [apply renamed_kept; intros E; by apply (suffixes_differ id id)|].
  intros []. set (bundle := id ++ BUNDLE_SUFFIX) in *.
  set (R := fun (d : Db) (r : Directory) => kept d0 d r /\ live r !! bundle = Some (Regular (mkFile payload true)) /\
    on_disk r !! bundle = Some (Regular (mkFile payload true))).
  apply hoare_bind with (R := fun _ => R).
  { apply hoare_effect; [by intros d r [[? _] _]|]. intros v [(Hk & _) (f & Hl & ->)].
    assert (Hk' : kept d0 (db v) (mkDirectory (live (dir v)) (live (dir v)) (foreign (dir v)))).
    { destruct Hk as [Hi Hx]. split; [|done]. by apply (inv_dir _ (dir v)). }
    split; [|exact Hk']. split; [exact Hk'|done]. }
  intros _. apply hoare_bind with (R := fun _ => R); [apply hoare_clock; by intros d r [? _]|]. intros now.
  set (e := Entry.mk id bundle STATE_MATERIALIZED (encode_hex (digest payload)) (zlen payload) 0 None now now).
  apply hoare_bind with (R := fun _ d r => R d r /\ e ∈ spool_entries d).
  { apply hoare_execute; [by intros d r [? _]|]. intros d r d' [] (Hk & Hl & Ho) Hins. fold e in Hins.
    destruct (insert_entry e d) as [d1|] eqn:Ei; [|done]. injection Hins as <-.
    assert (Hk' : kept d0 d1 r).
    { apply (kept_entry d0 d d1 r e Hk Ei); [done|by vm_compute|]. eexists. split; [exact Hl|done]. }
    split; [|done]. split; [done|]. by eapply insert_entry_elem. }
  intros _. apply hoare_ret. intros d r [(Hk & Hl & Ho) He]. split; [done|]. split_and!; try done. by exists e.
Qed.

(** Calls that only look leave the state and the entropy as they were. *)
Definition looks {A} (m : spool A) : Prop := forall w, match m w with (_, w') => db w' = db w /\ dir w' = dir w /\ entropy w' = entropy w end.

Lemma looks_bind {A B} (m : spool A) (k : A -> spool B) : looks m -> (forall a, looks (k a)) -> looks (abind m k).
Proof.
  intros Hm Hk w. unfold abind. specialize (Hm w). destruct (m w) as [[[a|e|]|] w1]; [|done..].
  specialize (Hk a w1). destruct (k a w1) as [o w2]. destruct Hm as (-> & -> & ->) in Hk. done.
Qed.

Lemma measure_looks : looks measure.
Proof.
  assert (Hu : looks live_usage_bytes).
  { unfold live_usage_bytes. apply looks_bind.
    - intros w. unfold query, effect, effect_cut. by destruct (answers w) as [|[| |n []| |] rest].
    - intros a. by destruct (in_range 0 a I64_MAX). }
  apply looks_bind; [exact Hu|]. intros a. apply looks_bind; [|done].
  intros w. unfold free_space_bytes, effect, effect_cut. destruct (answers w) as [|[| |n []| |] rest]; cbn; by destruct (probes w).
Qed.

Lemma materialize_kept d0 gate payload w : holds (kept d0) w -> fresh w ->
  match (materialize gate payload w).2 with
  | (Some (Ok b), w') => holds (kept d0) w' /\ holds (materialized payload b) w'
  | (_, w') => holds (kept d0) w'
  end.
Proof.
  intros Hw Hf. unfold materialize. pose proof (measure_looks w) as Hm.
  destruct (measure w) as [[[[sb fb]|e|]|] w1]; destruct Hm as (E1 & E2 & E3);
    [|cbn; unfold holds in *; by rewrite E1, E2..].
  destruct (evaluate gate sb fb) as [g st]. destruct (negb _); [cbn; unfold holds in *; by rewrite E1, E2|].
  apply begin_bundle_kept; [unfold holds in *; by rewrite E1, E2|].
  intros id (ms & rnd & rest & He & ->). rewrite E2. apply Hf. exists ms, rnd, rest. by rewrite <- E3.
Qed.

(** ** Reconciliation *)

Lemma fold_insert_notin {A} (k v : A -> list Z) (l : list A) (m : gmap (list Z) (list Z)) (i : list Z) : i ∉ map k l ->
  fold_left (fun m e => <[k e := v e]> m) l m !! i = m !! i.
Proof.
  revert m. induction l as [|x l IH]; intros m Hi; [done|]. cbn in *. apply not_elem_of_cons in Hi as [Hne Hi].
  rewrite IH by done. by rewrite lookup_insert_ne.
Qed.

Lemma fold_insert_in {A} (k v : A -> list Z) (l : list A) (m : gmap (list Z) (list Z)) (e : A) : NoDup (map k l) -> e ∈ l ->
  fold_left (fun m e => <[k e := v e]> m) l m !! k e = Some (v e).
Proof.
  revert m. induction l as [|x l IH]; intros m Hn He; [by apply elem_of_nil in He|]. cbn in *.
  apply NoDup_cons in Hn as [Hx Hn]. apply elem_of_cons in He as [->|He]; [|by apply IH].
  rewrite fold_insert_notin by done. apply lookup_insert_eq.
Qed.

Lemma names_unique d r : client_inv d r -> NoDup (map Entry.bundle_name (spool_entries d)).
Proof.
  intros Hi. assert (E : map Entry.bundle_name (spool_entries d) = map (fun i => i ++ BUNDLE_SUFFIX) (map Entry.id (spool_entries d))).
  { rewrite map_map. apply map_ext_in. intros e He%list_elem_of_In. by eapply named_bundles. }
  rewrite E. apply (NoDup_fmap_2 (fun i => i ++ BUNDLE_SUFFIX)). apply (ci_ids _ _ Hi).
Qed.

(** The states loaded at the start are still those of their rows. *)
Definition rows_of (rows : gmap (list Z) (list Z)) (d : Db) : Prop :=
  forall e, e ∈ spool_entries d -> forall state, rows !! Entry.bundle_name e = Some state -> Entry.state e = state.

Lemma row_states_of d r : client_inv d r -> rows_of (row_states d) d.
Proof.
  intros Hi e He state Hs. unfold row_states in Hs. rewrite (fold_insert_in Entry.bundle_name Entry.state) in Hs; [congruence|by eapply names_unique|done].
Qed.

Definition reconciling (d0 : Db) (rows : gmap (list Z) (list Z)) : assertion := fun d r => kept d0 d r /\ rows_of rows d.

Lemma remove_listed_kept d0 rows name :
  (forall d r, reconciling d0 rows d r -> forall e, e ∈ spool_entries d -> Entry.bundle_name e = name -> Entry.state e = STATE_ACKNOWLEDGED) ->
  hoare (reconciling d0 rows) (remove_listed name) (fun _ => reconciling d0 rows) (kept d0).
Proof.
  intros Hn. unfold remove_listed. apply hoare_bind with (R := fun _ => reconciling d0 rows).
  - apply (hoare_fails _ _ _ _ (reconciling d0 rows)); [by intros d r [? _]|]. apply remove_file_quiet; [done|].
    intros d r HR. pose proof HR as [[Hi Hx] Hr]. split; [split|done]; [|done].
    apply (inv_remove d r name); [done|by apply (Hn d r)|done].
  - intros [|]; [by apply hoare_ret|]. apply hoare_fail. by intros d r [? _].
Qed.

Lemma index_orphan_kept d0 rows id name now : rows !! name = None -> name = id ++ BUNDLE_SUFFIX ->
  hoare (reconciling d0 rows) (index_orphan id name now) (fun _ => reconciling d0 rows) (kept d0).
Proof.
  intros Hn En. unfold index_orphan.
  apply hoare_bind with (R := fun bytes => holding (reconciling d0 rows) name (fun f => content f = bytes)).
  { apply hoare_effect; [by intros d r [? _]|]. intros w Hw. destruct (live (dir w) !! name) as [[f|]|] eqn:El; [|apply Hw..].
    split; [|apply Hw]. split; [done|]. by exists f. }
  intros bytes. unfold recordable_size. apply hoare_bind with (R := fun z d r => z = zlen bytes /\ holding (reconciling d0 rows) name (fun f => content f = bytes) d r).
  { destruct (zlen bytes <=? I64_MAX); [by apply hoare_ret|]. apply hoare_fail. by intros d r [[? _] _]. }
  intros z. apply hoare_pure. intros ->. apply hoare_execute; [by intros d r [[? _] _]|].
  intros d r d' [] [[Hk Hr] (f & Hf & Hc)] Hins.
  set (e := Entry.mk id name STATE_MATERIALIZED (encode_hex (digest bytes)) (zlen bytes) 0 None now now) in *.
  destruct (insert_entry e d) as [d1|] eqn:Ei; [|done]. cbn in Hins. injection Hins as ->.
  assert (Hk' : kept d0 d' r).
  { apply (kept_entry d0 d d' r e Hk Ei); [done|by vm_compute|]. exists f. split; [exact Hf|]. by rewrite Hc. }
  split; [|done]. split; [done|]. unfold insert_entry in Ei. destruct (_ && _); [|done]. injection Ei as <-.
  intros x [Hx| ->%list_elem_of_singleton]%elem_of_app state Hs; [by apply Hr|]. cbn in Hs. congruence.
Qed.

Lemma reconcile_named_kept d0 rows now name report :
  hoare (reconciling d0 rows) (reconcile_named rows now name report) (fun _ => reconciling d0 rows) (kept d0).
Proof.
  unfold reconcile_named. destruct (strip_suffix BUNDLE_SUFFIX name) as [stem|] eqn:Eb.
  { apply strip_suffix_Some in Eb. unfold reconcile_bundle. destruct (rows !! name) as [state|] eqn:Er.
    - case_bool_decide as Ea; [|by apply hoare_ret]. eapply hoare_bind; [apply remove_listed_kept|intros []; by apply hoare_ret].
      intros d r [_ Hr] e He En. apply (Hr e He). by rewrite En, Er, Ea.
    - destruct (RequestId_parse stem) as [id|e|] eqn:Ei; [|by apply hoare_ret..].
      unfold RequestId_parse in Ei. apply text_parse_Ok in Ei as [-> _].
      eapply hoare_bind; [by apply index_orphan_kept|]. intros []. by apply hoare_ret. }
  destruct (strip_suffix STAGING_SUFFIX name) as [stem|] eqn:Es; [|by apply hoare_ret].
  apply strip_suffix_Some in Es. unfold reconcile_staging. destruct (_ || _); [by apply hoare_ret|].
  eapply hoare_bind; [apply remove_listed_kept|intros []; by apply hoare_ret].
  intros d r [[Hi _] _] e He En. exfalso. rewrite (named_bundles d r e Hi He), Es in En. by apply suffixes_differ in En.
Qed.

Lemma reconcile_entries_kept d0 rows now entries report seen :
  hoare (reconciling d0 rows) (reconcile_entries rows now entries report seen) (fun _ => reconciling d0 rows) (kept d0).
Proof.
  revert report seen. induction entries as [|[name [f|]] entries IH]; intros report seen; cbn [reconcile_entries]; [by apply hoare_ret|..];
    (apply hoare_bind with (R := fun _ => reconciling d0 rows);
     [apply hoare_effect; [by intros d r [? _]|]; intros w Hw; split; [done|apply Hw]|intros _]).
  - eapply hoare_bind; [apply reconcile_named_kept|]. intros r'. apply IH.
  - apply IH.
Qed.

Lemma reconcile_kept `{ReadDir} d0 : hoare (kept d0) reconcile (fun _ => kept d0) (kept d0).
Proof.
  unfold reconcile. apply hoare_bind with (R := fun rows => reconciling d0 rows).
  { apply hoare_query; [done|]. intros d r Hk. split; [done|]. destruct Hk as [Hi _]. by eapply row_states_of. }
  intros rows. apply hoare_bind with (R := fun _ => reconciling d0 rows); [apply hoare_clock; by intros d r [? _]|].
  intros now. apply hoare_bind with (R := fun _ => reconciling d0 rows).
  { apply hoare_effect; [by intros d r [? _]|]. intros w Hw. split; [done|apply Hw]. }
  intros listing. eapply hoare_bind; [apply reconcile_entries_kept|]. intros out. apply hoare_ret. by intros d r [? _].
Qed.

(** ** Statements *)

Lemma kept_frame d0 d d' r : kept d0 d r -> spool_entries d' = spool_entries d -> frozen_requests d' = frozen_requests d ->
  receipts d' = receipts d ->
  (forall s, s ∈ sources d -> exists s', s' ∈ sources d' /\ Source.source_id s' = Source.source_id s /\
     Source.last_acknowledged_range_end s <= Source.last_acknowledged_range_end s') -> kept d0 d' r.
Proof.
  intros [[Hi Hq Hr He] Hx] E1 E2 E3 Hs. split.
  - split; rewrite ?E1, ?E2, ?E3; try done. intros e Hin. destruct (He e Hin) as (Hn & Hb & Ha). split; [done|]. split; [done|].
    intros Hst. destruct (Ha Hst) as (fr & rc & ? & ? & ? & ?). exists fr, rc. by rewrite E2, E3.
  - etransitivity; [exact Hx|]. split; rewrite ?E1, ?E2, ?E3; [|done| |done].
    + intros e ?. by exists e.
    + intros rc ?. by exists rc.
Qed.

Lemma kept_frozen d0 d d' r f : kept d0 d r -> insert_frozen f d = Some d' -> kept d0 d' r.
Proof.
  intros [[Hi Hq Hr He] Hx] Hins. unfold insert_frozen in Hins.
  destruct (frozen_checks f && negb (bool_decide (Frozen.request_id f ∈ map Frozen.request_id (frozen_requests d)))) eqn:Ec;
    cbn [andb] in Hins; [|done].
  destruct (match Frozen.spool_entry_id f with Some _ => _ | None => _ end); [|done]. injection Hins as <-.
  apply andb_true_iff in Ec as [_ Hnew%negb_true_iff%bool_decide_eq_false].
  assert (Hin : forall x, x ∈ frozen_requests d -> x ∈ frozen_requests d ++ [f]) by (intros x Hx'; apply elem_of_app; by left).
  split.
  - split; cbn [spool_entries set_frozen frozen_requests receipts].
    + done.
    + rewrite map_app. apply NoDup_app. split; [done|]. split; [|apply NoDup_singleton]. by intros x Hx1 ->%list_elem_of_singleton.
    + intros rc Hrc. destruct (Hr rc Hrc) as (fr & Hfr & Ha). exists fr. auto.
    + intros e Hin'. destruct (He e Hin') as (Hn & Hb & Ha). split; [done|]. split; [done|].
      intros Hst. destruct (Ha Hst) as (fr & rc & ? & ? & ? & ?). exists fr, rc. cbn. auto.
  - etransitivity; [exact Hx|]. split; cbn [spool_entries set_frozen frozen_requests receipts sources];
      [intros e ?; by exists e|auto|intros rc ?; by exists rc|intros s0 ?; by exists s0].
Qed.

Lemma update_rows_elem {A} (where_ : A -> bool) set_ rows x : x ∈ (update_rows where_ set_ rows).1 <->
  exists y, y ∈ rows /\ x = if where_ y then set_ y else y.
Proof.
  unfold update_rows. cbn. rewrite list_elem_of_In, in_map_iff. split.
  - intros (y & <- & Hy%list_elem_of_In). by exists y.
  - intros (y & Hy & ->). exists y. split; [done|]. by apply list_elem_of_In.
Qed.

(** Entries updated in place, their identity kept; an acknowledged row must be receipted. *)
Lemma kept_update d0 d d' r where_ set_ n : kept d0 d r -> update_entries where_ set_ d = Some (d', n) ->
  (forall e, Entry.id (set_ e) = Entry.id e /\ Entry.bundle_name (set_ e) = Entry.bundle_name e /\
     Entry.envelope_digest (set_ e) = Entry.envelope_digest e /\ Entry.size_bytes (set_ e) = Entry.size_bytes e) ->
  (forall e, e ∈ spool_entries d -> where_ e = true -> Entry.state (set_ e) = Entry.state e \/
     Entry.state (set_ e) = STATE_ACKNOWLEDGED /\ receipted e d) -> kept d0 d' r.
Proof.
  intros [[Hi Hq Hr He] Hx] Hu Hset Hst. unfold update_entries in Hu. destruct (forallb _ _); [|done].
  destruct (update_rows where_ set_ (spool_entries d)) as [rows k] eqn:Eu. injection Hu as <- <-.
  assert (Hel : forall x, x ∈ rows <-> exists y, y ∈ spool_entries d /\ x = if where_ y then set_ y else y).
  { intros x. change rows with ((rows, k).1). rewrite <- Eu. apply update_rows_elem. }
  split.
  - split; cbn [spool_entries set_entries frozen_requests receipts]; [|done..|].
    + assert (Em : map Entry.id rows = map Entry.id (spool_entries d)).
      { change rows with ((rows, k).1). rewrite <- Eu. unfold update_rows. cbn [fst]. rewrite map_map. apply map_ext. intros e.
        destruct (where_ e); [apply Hset|done]. }
      by rewrite Em.
    + intros x (y & Hy & ->)%Hel. destruct (He y Hy) as (Hn & Hb & Ha). destruct (where_ y) eqn:Ew; [|by split].
      destruct (Hset y) as (E1 & E2 & E3 & E4). split; [congruence|]. destruct (Hst y Hy Ew) as [Es|[Es Hrc]]; rewrite Es.
      * split.
        -- intros Hs. destruct (Hb Hs) as (f & ? & ? & ?). exists f. by rewrite E2, E3, E4.
        -- intros Hs. destruct (Ha Hs) as (fr & rc & ? & ? & ?). exists fr, rc. cbn. by rewrite E1.
      * split; [done|]. intros _. destruct Hrc as (fr & rc & ? & ? & ?). exists fr, rc. cbn. by rewrite E1.
  - etransitivity; [exact Hx|]. split; cbn [spool_entries set_entries frozen_requests receipts sources];
      [|done|intros rc ?; by exists rc|intros s0 ?; by exists s0].
    intros e Hin. exists (if where_ e then set_ e else e). split; [apply Hel; by exists e|].
    destruct (where_ e) eqn:Ew; [|done]. destruct (Hset e) as (E1 & E2 & E3 & E4). split_and!; try done.
    intros Hs. destruct (Hst e Hin Ew) as [->|[? _]]; done.
Qed.

Lemma kept_sources d0 d d' r where_ set_ n : kept d0 d r -> update_sources where_ set_ d = Some (d', n) ->
  (forall s, where_ s = true -> Source.source_id (set_ s) = Source.source_id s /\
     Source.last_acknowledged_range_end s <= Source.last_acknowledged_range_end (set_ s)) -> kept d0 d' r.
Proof.
  intros Hk Hu Hset. unfold update_sources in Hu. destruct (forallb _ _); [|done].
  destruct (update_rows where_ set_ (sources d)) as [rows k] eqn:Eu. injection Hu as <- <-.
  apply (kept_frame d0 d); [done..|]. cbn [sources set_sources]. intros s Hs. exists (if where_ s then set_ s else s). split.
  - change rows with ((rows, k).1). rewrite <- Eu. apply update_rows_elem. by exists s.
  - destruct (where_ s) eqn:Ew; [by apply Hset|]. split; [done|lia].
Qed.

(** Inside a transaction: the copy, and the state to fall back to. *)
Definition txn (d0 d1 : Db) : assertion := fun d r => kept d0 d r /\ kept d0 d1 r.
Definition backed (d0 d1 : Db) : assertion := fun _ r => kept d0 d1 r.

Lemma hoare_txn {E A} commits (refused : bool -> E) (body : act E A) d0 Q :
  (forall a d r, commits a = false -> Q a d r) ->
  (forall d1, hoare (txn d0 d1) body (fun a d r => txn d0 d1 d r /\ Q a d r) (backed d0 d1)) ->
  hoare (kept d0) (transaction_when commits refused body) (fun a d r => kept d0 d r /\ Q a d r) (kept d0).
Proof.
  intros Hn Hb. apply hoare_transaction; [done|by eauto|]. intros d1.
  apply (hoare_pre _ _ (txn d0 d1)); [by intros d r [-> ?]|].
  apply (hoare_post _ _ _ (fun a d r => txn d0 d1 d r /\ Q a d r)); [|apply Hb]. by intros a d r [[? ?] ?].
Qed.

Lemma txn_backed d0 d1 d r : txn d0 d1 d r -> backed d0 d1 d r.
Proof. by intros [? ?]. Qed.

Lemma txn_execute {E A} (refused : bool -> E) violated (f : Db -> option (Db * A)) d0 d1 P :
  (forall d r, P d r -> txn d0 d1 d r) ->
  (forall d r d' a, P d r -> f d = Some (d', a) -> kept d0 d' r) ->
  hoare P (execute refused violated f) (fun _ => txn d0 d1) (backed d0 d1).
Proof.
  intros HP Hf. apply hoare_execute; [intros d r Hd; apply txn_backed with d; by apply HP|].
  intros d r d' a Hd Ef. destruct (HP d r Hd) as [_ H1]. split; [split; [by eapply Hf|done]|done].
Qed.

(** ** Uploads *)

Lemma mint_request_kept P J : (forall d r, P d r -> J d r) -> hoare P mint_request_id (fun _ => P) J.
Proof.
  intros HJ w Hw. unfold mint_request_id.
  assert (Hm : hoare P mint_uuid_v7 (fun _ => P) P).
  { apply hoare_effect; [done|]. intros v Hv. destruct (entropy v) as [|[[ms rnd]|] rest]; [done|by split|done]. }
  specialize (Hm w Hw). destruct (mint_uuid_v7 w) as [[[id|e|]|] w']; cbn; [done|by apply HJ..].
Qed.

Lemma conflict_kept {A} (x : result GrammarError A) P J : (forall d r, P d r -> J d r) -> hoare P (conflict x) (fun _ => P) J.
Proof. intros HJ. by apply hoare_lift. Qed.

Lemma load_freeze_kept id P J : (forall d r, P d r -> J d r) -> hoare P (CommittedFreeze_load id) (fun _ => P) J.
Proof.
  intros HJ. unfold CommittedFreeze_load. apply hoare_bind with (R := fun _ => P); [by apply hoare_query|].
  intros [[f [a|]]|]; [|by apply hoare_fail|by apply hoare_ret].
  repeat (eapply hoare_bind; [by apply conflict_kept|intros ?]). by apply hoare_ret.
Qed.

Lemma assert_matches_kept c f cs ts P J : (forall d r, P d r -> J d r) -> hoare P (assert_matches c f cs ts) (fun _ => P) J.
Proof. intros HJ. unfold assert_matches. cbv zeta. destruct (_ && _); [by apply hoare_ret|by apply hoare_fail]. Qed.

Lemma freeze_new_kept d0 d1 f cs ts : hoare (txn d0 d1) (freeze_new f cs ts) (fun _ => txn d0 d1) (backed d0 d1).
Proof.
  unfold freeze_new. eapply hoare_bind; [apply mint_request_kept, txn_backed|]. intros request.
  generalize (attestation_id (fz_occurrence_id f) (fz_uploader_client_id f) request). intros attestation.
  apply hoare_bind with (R := fun _ => txn d0 d1); [apply hoare_clock, txn_backed|]. intros now.
  eapply hoare_bind; [apply (txn_execute _ _ _ d0 d1 (txn d0 d1)); [done|]|intros []].
  { intros d r d' [] [Hk _] (d2 & Ei & [= ->])%bind_Some. by eapply kept_frozen. }
  eapply hoare_bind; [apply (txn_execute _ _ _ d0 d1 (txn d0 d1)); [done|]|intros []; by apply hoare_ret].
  intros d r d' [] [Hk _] (d2 & Ei & [= ->])%bind_Some.
  unfold insert_attestation in Ei. destruct (_ && _ && _); [|done]. injection Ei as <-.
  apply (kept_frame d0 d); try done. intros s Hs. by exists s.
Qed.

Lemma freeze_kept d0 f : hoare (kept d0) (freeze_upload f) (fun _ => kept d0) (kept d0).
Proof.
  unfold freeze_upload, recorded_size, validate_freeze_timestamps.
  do 2 (apply hoare_bind with (R := fun _ => kept d0); [destruct (_ <=? I64_MAX); [by apply hoare_ret|by apply hoare_fail]|intros ?]).
  apply hoare_bind with (R := fun _ => kept d0); [destruct (_ && _); [by apply hoare_ret|by apply hoare_fail]|intros _].
  apply (hoare_post _ _ _ (fun _ d r => kept d0 d r /\ True)); [by intros a' d r [? _]|]. apply hoare_txn; [done|]. intros d1.
  apply (hoare_post _ _ _ (fun _ => txn d0 d1)); [by intros a' d r ?|].
  apply hoare_bind with (R := fun _ => txn d0 d1); [apply hoare_query; [apply txn_backed|by intros d r ?]|].
  intros [state|]; [|apply hoare_fail, txn_backed]. destruct (negb _); [apply hoare_fail, txn_backed|].
  eapply hoare_bind; [apply load_freeze_kept, txn_backed|]. intros [c|]; [|apply freeze_new_kept].
  eapply hoare_bind; [apply assert_matches_kept, txn_backed|]. intros []. by apply hoare_ret.
Qed.

Lemma claim_kept d0 strftime now policy bits :
  hoare (kept d0) (claim_due_upload strftime now policy bits) (fun _ => kept d0) (kept d0).
Proof.
  unfold claim_due_upload, claim_body. apply (hoare_post _ _ _ (fun _ d r => kept d0 d r /\ True)); [by intros a d r [? _]|].
  apply hoare_txn; [done|]. intros d1.
  apply hoare_bind with (R := fun _ => txn d0 d1); [apply hoare_query; [apply txn_backed|by intros d r ?]|].
  intros [e|]; [|apply hoare_ret; by intros d r ?]. destruct (_ <? 0); [apply hoare_fail, txn_backed|].
  eapply hoare_bind; [apply (hoare_lift _ _ (fun _ => txn d0 d1)); [done|apply txn_backed]|intros id].
  eapply hoare_bind; [apply (hoare_lift _ _ (fun _ => txn d0 d1)); [done|apply txn_backed]|intros delay].
  eapply hoare_bind; [apply (txn_execute _ _ _ d0 d1 (txn d0 d1)); [done|]|intros n].
  { intros d r d' n [Hk _] E. apply (kept_update d0 d d' r _ _ n Hk E); [done|]. intros x _ _. by left. }
  destruct (negb _); [apply hoare_fail, txn_backed|].
  apply hoare_bind with (R := fun _ => txn d0 d1); [|intros c; apply hoare_ret; by intros d r ?]. unfold load_claim.
  apply hoare_bind with (R := fun _ => txn d0 d1); [apply hoare_query; [apply txn_backed|by intros d r ?]|].
  intros [[[x f] a]|]; [|apply hoare_fail, txn_backed]. destruct (_ || _); [apply hoare_fail, txn_backed|].
  repeat (eapply hoare_bind; [apply conflict_kept, txn_backed|intros ?]). by apply hoare_ret.
Qed.

Lemma quarantine_kept d0 id reason now : hoare (kept d0) (quarantine_upload id reason now) (fun _ => kept d0) (kept d0).
Proof.
  unfold quarantine_upload. apply hoare_bind with (R := fun _ => kept d0); [|intros n; by apply hoare_ret].
  apply hoare_execute; [done|]. intros d r d' n Hk E. assert (kept d0 d' r); [|done]. unfold insert_quarantine in E.
  destruct (_ || _ || _); [by injection E as <- <-|]. destruct (negb _); [done|]. injection E as <- <-.
  apply (kept_frame d0 d); try done. intros s Hs. by exists s.
Qed.

(** ** Acknowledgement *)

(** The rows a pending upload was read from. *)
Definition pending_of (request_id : list Z) (p : PendingUpload) (d : Db) : Prop := exists row,
  row ∈ pending_rows request_id d /\ PendingUpload_from_row row = Ok p.

Lemma pending_rows_elem request_id d row : row ∈ pending_rows request_id d ->
  pr_frozen row ∈ frozen_requests d /\ Frozen.request_id (pr_frozen row) = request_id /\
  pr_entry row ∈ spool_entries d /\ Frozen.spool_entry_id (pr_frozen row) = Some (Entry.id (pr_entry row)) /\
  pr_source row ∈ sources d.
Proof.
  assert (Hf : forall A (f : A -> bool) l x, x ∈ List.filter f l -> x ∈ l /\ f x = true).
  { intros A f l x Hx%list_elem_of_In%filter_In. by rewrite list_elem_of_In. }
  unfold pending_rows. intros (fr & H1 & [Hfr Eq]%Hf)%list_elem_of_bind.
  apply list_elem_of_bind in H1 as (se & H2 & [Hse Es]%Hf). apply list_elem_of_bind in H2 as (rg & H3 & _).
  apply list_elem_of_bind in H3 as (ua & H4 & _). apply list_elem_of_bind in H4 as (g & H5 & _).
  apply list_elem_of_bind in H5 as (sr & H6 & [Hsr _]%Hf). apply list_elem_of_singleton in H6. subst row. cbn.
  apply bool_decide_eq_true in Eq, Es. done.
Qed.

Lemma load_pending_kept d0 d1 request_id :
  hoare (txn d0 d1) (load_pending request_id) (fun p d r => txn d0 d1 d r /\ pending_of request_id p d) (backed d0 d1).
Proof.
  unfold load_pending. apply hoare_bind with (R := fun rows d r => txn d0 d1 d r /\ forall row, row ∈ rows -> row ∈ pending_rows request_id d).
  { apply hoare_query; [apply txn_backed|]. intros d r Ht. split; [done|]. intros row Hr. rewrite <- (take_drop 2 (pending_rows request_id d)). apply elem_of_app. by left. }
  intros [|row rest]; [apply hoare_fail; by intros d r [? _]; apply txn_backed with d|].
  eapply hoare_bind; [apply (hoare_lift _ _ (fun p d r => txn d0 d1 d r /\ pending_of request_id p d))|].
  - intros p Hp d r [Ht Hr]. split; [done|]. exists row. split; [apply Hr; left|done].
  - intros d r [? _]. by apply txn_backed with d.
  - intros p. destruct rest; [by apply hoare_ret|]. apply hoare_fail. intros d r [? _]. by apply txn_backed with d.
Qed.

(** Take the reads of a row apart. *)
Ltac split_reads := repeat match goal with
  | H : rbind _ _ = Ok _ |- _ => apply rbind_Ok in H as (? & ? & H)
  | H : mismatch _ = Ok _ |- _ => apply map_err_Ok in H
  | H : Ok _ = Ok _ |- _ => injection H as <-
  end.

Lemma from_row_bound row p : PendingUpload_from_row row = Ok p ->
  pu_bundle_name p = Entry.bundle_name (pr_entry row) /\ pu_state p = Entry.state (pr_entry row) /\
  TenantId_parse (Frozen.tenant_id (pr_frozen row)) = Ok (pu_tenant_id p) /\
  ClientId_parse (Frozen.uploader_client_id (pr_frozen row)) = Ok (pu_uploader_client_id p) /\
  digest_parse (Frozen.occurrence_id (pr_frozen row)) = Ok (pu_occurrence_id p) /\
  digest_parse (Frozen.canonical_digest (pr_frozen row)) = Ok (pu_canonical_digest p) /\
  Source.source_id (pr_source row) = pu_source_id p /\
  Source.last_acknowledged_range_end (pr_source row) = pu_last_acknowledged_range_end p.
Proof.
  unfold PendingUpload_from_row. cbv zeta. destruct (_ || _); [done|]. intros Hp. split_reads. by split_and!.
Qed.

Lemma validate_binding_Ok p f u : validate_binding p f = Ok u ->
  pu_tenant_id p = rf_tenant_id f /\ pu_occurrence_id p = rf_occurrence_id f /\ pu_canonical_digest p = rf_blob_digest f /\
  attestation_id (pu_occurrence_id p) (pu_uploader_client_id p) (rf_request_id f) = rf_attestation_id f.
Proof.
  unfold validate_binding. cbv zeta.
  match goal with |- (if ?b then _ else _) = _ -> _ => destruct b; [done|] end.
  match goal with |- (if ?b then _ else _) = _ -> _ => destruct b eqn:E1; [done|] end.
  match goal with |- (if ?b then _ else _) = _ -> _ => destruct b eqn:E2; [done|] end. intros _.
  repeat match goal with
  | H : _ || _ = false |- _ => apply orb_false_iff in H as [? ?]
  | H : negb _ = false |- _ => apply negb_false_iff in H
  | H : bool_decide _ = true |- _ => apply bool_decide_eq_true in H
  end. split_and!; assumption.
Qed.

(** A receipt that passed [verified_fields]. *)
Definition checked_receipt (v : Value) (f : ReceiptFields) : Prop := exists fetch x,
  Receipt_verify root fetch v = Ok x /\ ReceiptFields_parse (canonical_bytes v) = Ok f /\ rf_tenant_id f = ver_tenant x.

Lemma receipt_answers row p f u v ordinal at_ : Frozen.request_id (pr_frozen row) = rf_request_id f ->
  PendingUpload_from_row row = Ok p -> validate_binding p f = Ok u -> checked_receipt v f ->
  answers_request root (pr_frozen row) (Evidence.mk (rf_request_id f) (to_hex (rf_receipt_key_id f)) (to_hex (rf_signature f))
    (encode_hex (digest (canonical_bytes v))) ordinal (rf_commit_time f) 1 at_ (Some (canonical_bytes v))).
Proof.
  intros Hq (_ & _ & Ht & Hu & Ho & Hc & _)%from_row_bound (B1 & B2 & B3 & B4)%validate_binding_Ok (fetch & x & Hv & Hf & Hx).
  rewrite B1 in Ht. rewrite B2 in Ho, B4. rewrite B3 in Hc.
  unfold answers_request. cbn [Evidence.request_id Evidence.signature_verified Evidence.receipt_bytes Evidence.receipt_digest].
  split; [by symmetry|]. split; [reflexivity|]. exists v, fetch, x, f.
  repeat (split; [first [reflexivity|assumption|(symmetry; assumption)]|]). exists (pu_uploader_client_id p).
  split; [assumption|]. symmetry. assumption.
Qed.

Lemma kept_receipt d0 d d' r rc fr : kept d0 d r -> insert_receipt rc d = Some d' -> fr ∈ frozen_requests d ->
  answers_request root fr rc -> kept d0 d' r.
Proof.
  intros [[Hi Hq Hr He] Hx] Hins Hfr Ha. unfold insert_receipt in Hins. destruct (_ && _ && _); [|done]. injection Hins as <-.
  assert (Hin : forall x, x ∈ receipts d -> x ∈ receipts d ++ [rc]) by (intros x Hx'; apply elem_of_app; by left). split.
  - split; cbn [spool_entries set_receipts frozen_requests receipts]; [done..| |].
    + intros x [Hx1| ->%list_elem_of_singleton]%elem_of_app; [by apply Hr|by exists fr].
    + intros e Hin'. destruct (He e Hin') as (Hn & Hb & Hc). split; [done|]. split; [done|].
      intros Hst. destruct (Hc Hst) as (f' & rc' & ? & ? & ? & ?). exists f', rc'. cbn. auto.
  - etransitivity; [exact Hx|]. split; cbn [spool_entries set_receipts frozen_requests receipts sources];
      [intros e ?; by exists e|done| |intros s0 ?; by exists s0]. intros x ?. exists x. auto.
Qed.

(** The request, its entry and a receipt that answers it. *)
Definition evidenced (request_id bundle_name receipt_digest : list Z) (state : list Z -> Prop) (d : Db) : Prop := exists fr se rc,
  fr ∈ frozen_requests d /\ Frozen.request_id fr = request_id /\ se ∈ spool_entries d /\
  Frozen.spool_entry_id fr = Some (Entry.id se) /\ Entry.bundle_name se = bundle_name /\ state (Entry.state se) /\
  rc ∈ receipts d /\ Evidence.receipt_digest rc = receipt_digest /\ answers_request root fr rc.

(** The source of a pending upload, its watermark as read. *)
Definition sourced (p : PendingUpload) (d : Db) : Prop := exists s, s ∈ sources d /\ Source.source_id s = pu_source_id p /\
  Source.last_acknowledged_range_end s = pu_last_acknowledged_range_end p.

(** The source's watermark covers the range. *)
Definition reached (p : PendingUpload) (d : Db) : Prop := exists s, s ∈ sources d /\ Source.source_id s = pu_source_id p /\
  pu_range_end p <= Source.last_acknowledged_range_end s.

Lemma head_filter {A} (f : A -> bool) l x : head (List.filter f l) = Some x -> x ∈ l /\ f x = true.
Proof.
  intros Hx. assert (Hin : x ∈ List.filter f l) by (destruct (List.filter f l); [done|injection Hx as ->; left]).
  apply list_elem_of_In, filter_In in Hin as [? ?]. by rewrite list_elem_of_In.
Qed.

Lemma request_unique d r a b : client_inv d r -> a ∈ frozen_requests d -> b ∈ frozen_requests d ->
  Frozen.request_id a = Frozen.request_id b -> a = b.
Proof.
  intros Hi Ha Hb E. apply list_elem_of_lookup in Ha as [i Ha]. apply list_elem_of_lookup in Hb as [j Hb].
  pose proof (ci_requests _ _ Hi) as Hn.
  assert (i = j); [|congruence].
  eapply NoDup_lookup; [exact Hn|apply list_lookup_fmap_Some; by exists a|apply list_lookup_fmap_Some; by exists b].
Qed.

(** Every retained receipt has its bytes: filling the column changes nothing. *)
Lemma fill_bytes_id d r bytes request_id : client_inv d r ->
  (update_rows (fun x => bool_decide (Evidence.request_id x = request_id) && negb (is_some (Evidence.receipt_bytes x)))
    (fill_bytes bytes) (receipts d)).1 = receipts d.
Proof.
  intros Hi. unfold update_rows. cbn [fst]. rewrite <- (map_id (receipts d)) at 2. apply map_ext_in. intros x Hx%list_elem_of_In.
  destruct (ci_receipts _ _ Hi x Hx) as (fr & _ & _ & _ & v & fetch & y & f & Hb & _). rewrite Hb.
  cbn [is_some negb]. by rewrite andb_false_r.
Qed.

Definition ready (d0 d1 : Db) (request_id bundle_name receipt_digest : list Z) (p : PendingUpload) : assertion := fun d r =>
  txn d0 d1 d r /\ evidenced request_id bundle_name receipt_digest (fun _ => True) d /\ sourced p d.

Lemma retain_kept d0 d1 p f u v : validate_binding p f = Ok u -> checked_receipt v f ->
  hoare (fun d r => txn d0 d1 d r /\ pending_of (rf_request_id f) p d)
    (retain_receipt p f (encode_hex (digest (canonical_bytes v))) (canonical_bytes v))
    (fun _ => ready d0 d1 (rf_request_id f) (pu_bundle_name p) (encode_hex (digest (canonical_bytes v))) p) (backed d0 d1).
Proof.
  intros Hb Hv. unfold retain_receipt. set (P := fun d r => txn d0 d1 d r /\ pending_of (rf_request_id f) p d).
  assert (HJ : forall d r, P d r -> backed d0 d1 d r) by (intros d r [? _]; by apply txn_backed with d).
  apply hoare_bind with (R := fun ex d r => ex = receipt_of (rf_request_id f) d /\ P d r); [by apply hoare_query|].
  intros [rc|].
  - destruct (bool_decide _ && _) eqn:Edg; [|apply hoare_fail; intros d r [_ ?]; by eapply HJ].
    apply andb_true_iff in Edg as [Edg%bool_decide_eq_true _].
    apply hoare_execute; [intros d r [_ ?]; by eapply HJ|]. intros d r d' [] [Erc [[Hk H1] (row & Hrow & Hp)]] Ed.
    pose proof Hk as [Hi _]. rewrite (fill_bytes_id d r _ _ Hi) in Ed.
    assert (d' = d) as -> by (destruct d; by injection Ed as <-).
    split; [|exact H1]. split; [done|].
    apply pending_rows_elem in Hrow as (Hfr & Hq & Hse & Hl & Hsr). apply from_row_bound in Hp as (Hn & _ & _ & _ & _ & _ & Hs1 & Hs2).
    split; [|by exists (pr_source row)].
    symmetry in Erc. apply head_filter in Erc as [Hrc Hrq%bool_decide_eq_true].
    destruct (ci_receipts _ _ Hi rc Hrc) as (fr' & Hfr' & Ha). pose proof Ha as [Ha1 _].
    assert (fr' = pr_frozen row) as -> by (eapply request_unique; [exact Hi|done..|congruence]).
    exists (pr_frozen row), (pr_entry row), rc. by split_and!.
  - destruct (bool_decide _); [apply hoare_fail; intros d r [_ ?]; by eapply HJ|].
    apply hoare_bind with (R := fun _ => P); [apply hoare_query; [intros d r [_ ?]; by eapply HJ|by intros d r [_ ?]]|]. intros ordinal.
    apply hoare_bind with (R := fun _ => P); [apply hoare_clock, HJ|]. intros at_.
    apply hoare_execute; [exact HJ|]. intros d r d' [] [[Hk H1] (row & Hrow & Hp)] (d2 & Ei & [= ->])%bind_Some.
    apply pending_rows_elem in Hrow as (Hfr & Hq & Hse & Hl & Hsr).
    pose proof (receipt_answers row p f u v ordinal at_ Hq Hp Hb Hv) as Ha.
    split; [|exact H1]. split; [split; [exact (kept_receipt d0 d d' r _ _ Hk Ei Hfr Ha)|exact H1]|].
    apply from_row_bound in Hp as (Hn & _ & _ & _ & _ & _ & Hs1 & Hs2). unfold insert_receipt in Ei.
    match type of Ei with (if ?b then _ else _) = _ => destruct b; [|done] end. injection Ei as <-.
    split; [|exists (pr_source row); split; [exact Hsr|split; [exact Hs1|exact Hs2]]].
    eexists (pr_frozen row), (pr_entry row), _. split; [exact Hfr|]. split; [exact Hq|]. split; [exact Hse|]. split; [exact Hl|].
    split; [by symmetry|]. split; [exact I|]. split; [|split; [|exact Ha]]; [|reflexivity]. cbn [receipts set_receipts]. apply elem_of_app. right. by apply list_elem_of_singleton.
Qed.

Lemma ready_backed d0 d1 q n g p d r : ready d0 d1 q n g p d r -> backed d0 d1 d r.
Proof. intros [? _]. by apply txn_backed with d. Qed.

(** Once the cursor is where it belongs. *)
Definition moved (d0 d1 : Db) (q n g : list Z) (p : PendingUpload) : assertion := fun d r =>
  txn d0 d1 d r /\ evidenced q n g (fun _ => True) d /\ reached p d.

Lemma moved_backed d0 d1 q n g p d r : moved d0 d1 q n g p d r -> backed d0 d1 d r.
Proof. intros [? _]. by apply txn_backed with d. Qed.

Lemma move_cursor_kept d0 d1 q n g p cursor now :
  hoare (ready d0 d1 q n g p) (move_cursor p cursor now) (fun _ => moved d0 d1 q n g p) (backed d0 d1).
Proof.
  assert (Hex : forall where_, (forall s, where_ s = true -> Source.source_id s = pu_source_id p /\ Source.last_acknowledged_range_end s <= pu_range_end p) ->
    hoare (ready d0 d1 q n g p) (let* changed := execute ack_sql AckUnavailable (update_sources where_ (set_cursor cursor (pu_range_end p) now)) in one_changed changed)
      (fun _ => moved d0 d1 q n g p) (backed d0 d1)).
  { intros where_ Hw. apply hoare_bind with (R := fun k d r => txn d0 d1 d r /\ evidenced q n g (fun _ => True) d /\ (k = 1%nat -> reached p d)).
    - apply hoare_execute; [apply ready_backed|]. intros d r d' k [[Hk H1] [He _]] Hu.
      assert (Hk' : kept d0 d' r) by (apply (kept_sources d0 d d' r _ _ k Hk Hu); intros s Hs; split; [done|by apply Hw]).
      split; [|exact H1]. split; [by split|]. unfold update_sources in Hu. destruct (forallb _ _); [|done].
      injection Hu as <- <-. split; [exact He|]. intros Hone.
      destruct (List.filter where_ (sources d)) as [|x l] eqn:Ef; [done|].
      assert (Hx : x ∈ List.filter where_ (sources d)) by (rewrite Ef; left).
      apply list_elem_of_In, filter_In in Hx as [Hx Ew]. exists (set_cursor cursor (pu_range_end p) now x).
      split; [apply update_rows_elem; exists x; rewrite Ew; by rewrite list_elem_of_In|]. split; [exact (proj1 (Hw x Ew))|cbn; lia].
    - intros k. unfold one_changed. destruct (Nat.eqb_spec k 1); [|apply hoare_fail; intros d r [? _]; by apply txn_backed with d].
      apply hoare_ret. intros d r (? & ? & Hr). split_and!; auto. }
  unfold move_cursor. cbv zeta. destruct (Z.ltb_spec (pu_last_acknowledged_range_end p) (pu_range_end p)).
  { apply Hex. intros s [Hs1%bool_decide_eq_true Hs2]%andb_true_iff. split; [done|lia]. }
  destruct (_ && _).
  { apply Hex. intros s [Hs1%bool_decide_eq_true Hs2]%andb_true_iff. split; [done|lia]. }
  apply hoare_ret. intros d r (? & ? & s & Hs & E1 & E2). split_and!; try done. exists s. split_and!; [done..|lia].
Qed.

(** What a committed acknowledgement leaves. *)
Definition cleared (q n g : list Z) (p : PendingUpload) (d : Db) : Prop :=
  evidenced q n g (fun state => state = STATE_ACKNOWLEDGED) d /\ reached p d.

Lemma ack_update_kept d0 d1 q n g p now :
  hoare (moved d0 d1 q n g p) (execute ack_sql AckUnavailable (fun d => update_entries
      (fun e => bool_decide (entry_of_request q d = Some (Entry.id e)) &&
                negb (bool_decide (Entry.state e = STATE_ACKNOWLEDGED))) (acknowledge_row now) d))
    (fun _ d r => txn d0 d1 d r /\ cleared q n g p d) (backed d0 d1).
Proof.
  apply hoare_execute; [apply moved_backed|].
  intros d r d' k [[Hk H1] [(fr & se & rc & Hfr & Hq & Hse & Hl & Hn & _ & Hrc & Hg & Ha) Hre]] Hu.
  pose proof Hk as [Hi _].
  assert (Hent : entry_of_request q d = Some (Entry.id se)).
  { unfold entry_of_request. destruct (head (List.filter _ (frozen_requests d))) as [f'|] eqn:Eh.
    - apply head_filter in Eh as [Hf' Eq%bool_decide_eq_true]. cbn.
      assert (f' = fr) as -> by (eapply request_unique; [exact Hi|done..|congruence]). done.
    - exfalso. assert (Hin : fr ∈ List.filter (fun f => bool_decide (Frozen.request_id f = q)) (frozen_requests d)).
      { apply list_elem_of_In, filter_In. split; [by apply list_elem_of_In|]. by apply bool_decide_eq_true. }
      destruct (List.filter _ (frozen_requests d)); [by apply elem_of_nil in Hin|done]. }
  assert (Hk' : kept d0 d' r).
  { apply (kept_update d0 d d' r _ _ k Hk Hu); [done|]. intros e He Hw. apply andb_true_iff in Hw as [Hw%bool_decide_eq_true _].
    right. split; [done|]. exists fr, rc. split_and!; try done. rewrite Hl. congruence. }
  split; [|exact H1]. split; [by split|]. unfold update_entries in Hu. destruct (forallb _ _); [|done].
  destruct (update_rows _ (acknowledge_row now) (spool_entries d)) as [rows m] eqn:Eu. injection Hu as <- <-.
  assert (Hel : forall y, y ∈ spool_entries d -> (if bool_decide (entry_of_request q d = Some (Entry.id y)) &&
    negb (bool_decide (Entry.state y = STATE_ACKNOWLEDGED)) then acknowledge_row now y else y) ∈ rows).
  { intros y Hy. change rows with ((rows, m).1). rewrite <- Eu. apply update_rows_elem. by exists y. }
  specialize (Hel se Hse). rewrite Hent, bool_decide_true in Hel by done. cbn [andb] in Hel. split; [|exact Hre].
  eexists fr, _, rc. split; [exact Hfr|]. split; [exact Hq|]. split; [exact Hel|].
  case_bool_decide as Es; cbn [negb]; by split_and!.
Qed.

Lemma update_cursor_kept d0 d1 q n g p cursor :
  hoare (ready d0 d1 q n g p) (update_cursor_and_acknowledge p cursor q) (fun _ d r => txn d0 d1 d r /\ cleared q n g p d) (backed d0 d1).
Proof.
  unfold update_cursor_and_acknowledge. cbv zeta. destruct (_ && _); [apply hoare_fail, ready_backed|].
  apply hoare_bind with (R := fun _ => ready d0 d1 q n g p); [apply hoare_clock, ready_backed|]. intros now.
  eapply hoare_bind; [apply move_cursor_kept|]. intros []. eapply hoare_bind; [apply ack_update_kept|]. intros k.
  destruct (_ && _); [apply hoare_fail; intros d r [? _]; by apply txn_backed with d|by apply hoare_ret].
Qed.

Lemma acknowledge_body_kept d0 d1 f cursor v : checked_receipt v f ->
  hoare (txn d0 d1) (acknowledge_body f cursor (encode_hex (digest (canonical_bytes v))) (canonical_bytes v))
    (fun out d r => txn d0 d1 d r /\ exists p, pu_bundle_name p = out.1 /\ cleared (rf_request_id f) out.1 (encode_hex (digest (canonical_bytes v))) p d)
    (backed d0 d1).
Proof.
  intros Hv. unfold acknowledge_body. eapply hoare_bind; [apply load_pending_kept|]. intros p. cbv beta.
  apply hoare_bind with (R := fun _ d r => (exists u, validate_binding p f = Ok u) /\ txn d0 d1 d r /\ pending_of (rf_request_id f) p d).
  { apply hoare_lift; [|intros d r [? _]; by apply txn_backed with d]. intros u Hu d r Ht. split; [by exists u|done]. }
  intros _. apply hoare_pure. intros [u Hu]. eapply hoare_bind; [by apply (retain_kept d0 d1 p f u v)|]. intros [].
  eapply hoare_bind; [apply update_cursor_kept|]. intros advanced. apply hoare_ret. intros d r [? ?]. split; [done|]. by exists p.
Qed.

Lemma acknowledge_state_kept d0 f cursor v : checked_receipt v f ->
  hoare (kept d0) (acknowledge_state f cursor (encode_hex (digest (canonical_bytes v))) (canonical_bytes v))
    (fun out d r => kept d0 d r /\ exists p, pu_bundle_name p = out.1 /\ cleared (rf_request_id f) out.1 (encode_hex (digest (canonical_bytes v))) p d)
    (kept d0).
Proof. intros Hv. apply hoare_txn; [done|]. intros d1. by apply acknowledge_body_kept. Qed.

Lemma cleanup_kept d0 n q g : hoare (fun d r => kept d0 d r /\ exists p, pu_bundle_name p = n /\ cleared q n g p d) (cleanup n) (fun _ => kept d0) (kept d0).
Proof.
  intros w Hw. unfold cleanup.
  assert (Hr : hoare (fun d r => kept d0 d r /\ exists p, pu_bundle_name p = n /\ cleared q n g p d) (remove n) (fun _ => kept d0) (kept d0)).
  { unfold remove. destruct (negb (is_bundle_name n)); [apply hoare_fail; by intros d r [? _]|].
    apply hoare_bind with (R := fun _ => kept d0); [|intros b; by apply hoare_ret].
    apply remove_file_quiet; [by intros d r [? _]|]. intros d r [[Hi Hx] (p & _ & (fr & e & rc & _ & _ & He & _ & En & Es & _) & _)]. split; [|done].
    apply (inv_remove d r n); [done| |done]. intros x Hx' Ex.
    assert (x = e) as ->; [|done]. pose proof (names_unique d r Hi) as Hnd.
    apply list_elem_of_lookup in He as [i He]. apply list_elem_of_lookup in Hx' as [j Hj].
    assert (i = j); [|congruence].
    eapply NoDup_lookup; [exact Hnd|apply list_lookup_fmap_Some; by exists e|apply list_lookup_fmap_Some; exists x; split; [|done]; congruence]. }
  specialize (Hr w Hw). destruct (remove n w) as [[[[]|e|]|] w']; done.
Qed.

Lemma verified_fields_checked fetch bytes v f : verified_fields root fetch bytes = Ok (v, f) -> checked_receipt v f.
Proof.
  unfold verified_fields. intros (v' & _ & (x & Hx%map_err_Ok & (f' & Hf & Hc)%rbind_Ok)%rbind_Ok)%rbind_Ok.
  match type of Hc with (if ?b then _ else _) = _ => destruct b eqn:Eb; [done|] end. injection Hc as -> ->.
  apply orb_false_iff in Eb as [[Et%negb_false_iff%bool_decide_eq_true _]%orb_false_iff _]. exists fetch, x. by split_and!.
Qed.

Lemma acknowledge_kept d0 fetch request :
  hoare (kept d0) (acknowledge_receipt root fetch request) (fun _ => kept d0) (kept d0).
Proof.
  unfold acknowledge_receipt. destruct (1024 <? _); [by apply hoare_fail|].
  apply hoare_bind with (R := fun x d r => checked_receipt x.1 x.2 /\ kept d0 d r).
  { apply hoare_lift; [|done]. intros [v f] Hv d r Hk. split; [by eapply verified_fields_checked|done]. }
  intros [v f]. apply hoare_pure. intros Hv. eapply hoare_bind; [by apply acknowledge_state_kept|]. intros out.
  eapply hoare_bind; [apply cleanup_kept|]. intros []. by apply hoare_ret.
Qed.
End Invariant.

(** * Executions *)

Definition after {X} (o : X * World) : Db * Directory := (db o.2, dir o.2).

(** What capture may record besides: generations and ranges, and new sources. *)
Definition captures (d d' : Db) : Prop :=
  spool_entries d' = spool_entries d /\ frozen_requests d' = frozen_requests d /\ receipts d' = receipts d /\
  upload_attestations d' = upload_attestations d /\ quarantined_uploads d' = quarantined_uploads d /\
  (forall s, s ∈ sources d -> s ∈ sources d').

(** Nothing recorded yet; the directory may hold anything. *)
Definition pristine (s : Db * Directory) : Prop :=
  spool_entries s.1 = [] /\ frozen_requests s.1 = [] /\ receipts s.1 = [].

(** A file after a power failure: what was not synchronized is lost or torn. *)
Definition survives (before after_ : option DirEntry) : Prop :=
  match before with
  | Some (Regular f) => if synced f then after_ = before else exists bytes, after_ = Some (Regular (mkFile bytes false))
  | _ => after_ = before
  end.

(** Each name is as the process saw it last or as it was on disk. *)
Definition power_loss (r r' : Directory) : Prop := forall n,
  survives (live r !! n) (live r' !! n) \/ survives (on_disk r !! n) (live r' !! n).

Section Executions.
Context `{SignatureScheme} `{ReadDir} (root : PinnedAuthorityRoot) (strftime : list Z -> list Z -> option (list Z)).

(** One call of the client, to its end or to the death of the process in it, whatever its
    effects are answered. *)
Inductive client_step : Db * Directory -> Db * Directory -> Prop :=
| step_materialize gate payload w : fresh w -> client_step (db w, dir w) (after (materialize gate payload w).2)
| step_reconcile w : client_step (db w, dir w) (after (reconcile w))
| step_freeze f w : client_step (db w, dir w) (after (freeze_upload f w))
| step_claim now policy bits w : client_step (db w, dir w) (after (claim_due_upload strftime now policy bits w))
| step_quarantine id reason now w : client_step (db w, dir w) (after (quarantine_upload id reason now w))
| step_acknowledge fetch request w : client_step (db w, dir w) (after (acknowledge_receipt root fetch request w))
| step_capture d d' r : captures d d' -> client_step (d, r) (d', r).

Lemma hoare_after {E A} (P : assertion) (m : act E A) w : hoare P m (fun _ => P) P -> P (db w) (dir w) ->
  P (after (m w)).1 (after (m w)).2.
Proof. intros Hm Hw. specialize (Hm w Hw). by destruct (m w) as [[[a|e|]|] w']. Qed.

Lemma step_kept a b : client_step a b -> client_inv root a.1 a.2 -> kept root a.1 b.1 b.2.
Proof.
  intros Hs Hi. assert (Hk : kept root a.1 a.1 a.2) by (by split).
  destruct Hs as [gate payload w Hf|w|f w|now policy bits w|id reason now w|fetch request w|d d' r (E1 & E2 & E3 & _ & _ & Hsrc)]; cbn [fst snd] in *.
  - pose proof (materialize_kept root (db w) gate payload w Hk Hf) as Hm.
    destruct (materialize gate payload w) as [g [[[b|e|]|] w']]; [by destruct Hm|done..].
  - apply (hoare_after (kept root (db w)) _ w); [apply reconcile_kept|done].
  - apply (hoare_after (kept root (db w)) _ w); [apply freeze_kept|done].
  - apply (hoare_after (kept root (db w)) _ w); [apply claim_kept|done].
  - apply (hoare_after (kept root (db w)) _ w); [apply quarantine_kept|done].
  - apply (hoare_after (kept root (db w)) _ w); [apply acknowledge_kept|done].
  - apply (kept_frame root d d); [done..|]. intros s Hs. exists s. split_and!; [auto|done|lia].
Qed.

Lemma steps_kept a b : rtc client_step a b -> client_inv root a.1 a.2 -> kept root a.1 b.1 b.2.
Proof.
  induction 1 as [a|a b c Hab _ IH]; intros Hi; [by split|]. destruct (step_kept a b Hab Hi) as [Hb Hx].
  destruct (IH Hb) as [Hc Hy]. split; [done|]. by etransitivity.
Qed.

Lemma pristine_inv a : pristine a -> client_inv root a.1 a.2.
Proof.
  destruct a as [d r]. intros (E1 & E2 & E3). cbn in *. split; cbn; rewrite ?E1, ?E2, ?E3.
  - apply NoDup_nil_2.
  - apply NoDup_nil_2.
  - by intros rc ?%elem_of_nil.
  - by intros e ?%elem_of_nil.
Qed.

(** C26: No captured bundle is lost.  However the client's calls follow each other, fail,
    are cut short or die, an entry recorded at any point is still recorded at every later
    one, with the same identity, digest and size; its bundle file is in the spool with
    exactly those bytes, unless the entry is acknowledged, and then a receipt is retained
    that verified under the pinned root and names its tenant, request, occurrence, blob and
    attestation.  Frozen requests, receipts and acknowledgements are never taken back and no
    source's watermark moves backwards.  Identities minted for bundles are new to the spool,
    and only these calls touch its files; power failures are not among the deaths. *)
Theorem captured_bundles_survive a b c : pristine a -> rtc client_step a b -> rtc client_step b c ->
  (forall e, e ∈ spool_entries b.1 -> exists e', e' ∈ spool_entries c.1 /\ Entry.id e' = Entry.id e /\
     Entry.envelope_digest e' = Entry.envelope_digest e /\ Entry.size_bytes e' = Entry.size_bytes e /\
     (bundle_held e' c.2 \/ Entry.state e' = STATE_ACKNOWLEDGED /\ receipted root e' c.1)) /\
  extends b.1 c.1.
Proof.
  intros Hp Hab Hbc. destruct (steps_kept a b Hab (pristine_inv a Hp)) as [Hb _].
  destruct (steps_kept b c Hbc Hb) as [Hc Hx]. split; [|done]. intros e He.
  destruct (ex_entries _ _ Hx e He) as (e' & He' & E1 & _ & E3 & E4 & _). exists e'. split_and!; [done..|].
  destruct (ci_entries _ _ _ Hc e' He') as (_ & Hh & Hr).
  destruct (decide (Entry.state e' = STATE_ACKNOWLEDGED)) as [Es|Es]; [right|left]; auto.
Qed.

(** C28: A materialized bundle is durable: when [materialize] returns, the entry is recorded
    with the digest and size of the payload, and the file under its name holds exactly the
    payload, also after a power failure. *)
Theorem materialized_bundle_durable gate payload w gate' b w' : client_inv root (db w) (dir w) -> fresh w ->
  materialize gate payload w = (gate', (Some (Ok b), w')) ->
  (exists e, e ∈ spool_entries (db w') /\ Entry.id e = mb_entry_id b /\ Entry.state e = STATE_MATERIALIZED /\
     Entry.bundle_name e = mb_bundle_name b /\
     Entry.envelope_digest e = encode_hex (digest payload) /\ Entry.size_bytes e = zlen payload) /\
  (forall r', r' = dir w' \/ power_loss (dir w') r' -> exists f, live r' !! mb_bundle_name b = Some (Regular f) /\ content f = payload).
Proof.
  intros Hi Hf Hm. pose proof (materialize_kept root (db w) gate payload w (conj Hi (reflexivity _)) Hf) as Hk.
  rewrite Hm in Hk. destruct Hk as [_ (_ & Hd & Hz & (e & He & E1 & E2 & E3 & E4 & E5) & Hl & Ho)]. split.
  - exists e. split_and!; congruence.
  - intros r' [->|Hr]; [by eexists|]. destruct (Hr (mb_bundle_name b)) as [Hs|Hs];
      [rewrite Hl in Hs|rewrite Ho in Hs]; cbn in Hs; by eexists.
Qed.
End Executions.
