(* ===== verification/ClientFacts.v ===== *)
(** The client's calls one by one: an acknowledgement is all or nothing, a claim schedules
    its retry before the attempt, backoff is the ideal schedule, and the directory that an
    interrupted spool leaves. *)

From stdpp Require Import gmap.
From S2P Require Import Prelude Text Json Sha256 Vocabulary Derivation Records Authority ControlRecord ControlRecordFacts Receipt ClientState Spool Upload Acknowledgement ClientSafety.

Open Scope Z_scope.

(** * Transactions *)

Lemma effect_cases {E A} (refused : bool -> E) (does : World -> result E A * World) w o w' : effect refused does w = (o, w') ->
  (exists e, (o = Some (Err e) \/ o = None) /\ db w' = db w /\ dir w' = dir w) \/
  (exists w1, db w1 = db w /\ dir w1 = dir w /\ w' = (does w1).2 /\ (o = None \/ o = Some (does w1).1)).
Proof.
  intros He. destruct w as [d r xs cl en pr]. unfold effect, effect_cut in He. cbn in He. destruct xs as [|x rest].
  { right. exists (mkWorld d r [] cl en pr). destruct (does _) as [a w1]. injection He as <- <-. cbn. auto. }
  destruct x as [|busy|n died| |]; cbn in He.
  - right. exists (mkWorld d r rest cl en pr). destruct (does _) as [a w1]. injection He as <- <-. cbn. auto.
  - left. injection He as <- <-. eauto 6.
  - left. injection He as <- <-. exists (refused false). destruct died; eauto 6.
  - left. injection He as <- <-. exists (refused false). eauto 6.
  - right. exists (mkWorld d r rest cl en pr). injection He as <- <-. auto.
Qed.

(** The directory is left alone. *)
Definition stays {E A} (m : act E A) : Prop := forall w, dir (m w).2 = dir w.

Section Stays.
Context {E : Type}.

Lemma stays_bind {A B} (m : act E A) (k : A -> act E B) : stays m -> (forall a, stays (k a)) -> stays (abind m k).
Proof.
  intros Hm Hk w. unfold abind. specialize (Hm w). destruct (m w) as [[[a|e|]|] w1]; cbn in *; [|done..].
  by rewrite Hk.
Qed.

Lemma stays_effect {A} (refused : bool -> E) (does : World -> result E A * World) :
  (forall w, dir (does w).2 = dir w) -> stays (effect refused does).
Proof.
  intros Hd w. destruct (effect refused does w) as [o w'] eqn:He.
  apply effect_cases in He as [(e & _ & _ & ?)|(w1 & _ & E2 & -> & _)]; [done|]. cbn. by rewrite Hd.
Qed.

Lemma stays_query {A} (refused : bool -> E) (f : Db -> A) : stays (query refused f).
Proof. by apply stays_effect. Qed.

Lemma stays_execute {A} (refused : bool -> E) violated (f : Db -> option (Db * A)) : stays (execute refused violated f).
Proof. apply stays_effect. intros w. by destruct (f (db w)) as [[d a]|]. Qed.

Lemma stays_clock (refused : bool -> E) malformed : stays (clock refused malformed).
Proof.
  apply stays_bind; [apply stays_effect; intros w; by destruct (clocks w)|].
  intros t. destruct (Timestamp_parse t) as [u| |]; [|done..]. by destruct (calendar_valid u).
Qed.
End Stays.

Create HintDb client.
#[export] Hint Resolve stays_bind stays_query stays_execute stays_clock : client.

(** A transaction is its body's result, committed, or nothing. *)
Lemma transaction_cases {E A} commits (refused : bool -> E) (body : act E A) w o w' : stays body -> transaction_when commits refused body w = (o, w') ->
  dir w' = dir w /\
  ((db w' = db w /\ forall a, o <> Some (Ok a)) \/
   (exists w1 a w2, db w1 = db w /\ dir w1 = dir w /\ body w1 = (Some (Ok a), w2) /\
      if commits a then db w' = db w2 /\ (o = Some (Ok a) \/ o = None) else db w' = db w /\ o = Some (Ok a))).
Proof.
  intros Hst Ht. unfold transaction_when, abind in Ht.
  destruct (effect refused (fun w => (Ok tt, w)) w) as [o1 w1] eqn:Eb.
  assert (Hw1 : db w1 = db w /\ dir w1 = dir w).
  { apply effect_cases in Eb as [(e & _ & ? & ?)|(v & ? & ? & -> & _)]; done. } destruct Hw1 as [E1 E2].
  destruct o1 as [[[]|e|]|]; [|injection Ht as <- <-; split; [done|]; left; split; [done|by intros a [=]]..].
  pose proof (Hst w1) as Hd. destruct (body w1) as [ob w2] eqn:Ew. cbn in Hd.
  destruct ob as [[a|e|]|]; [|injection Ht as <- <-; cbn; split; [congruence|]; left; split; [done|by intros a [=]]..].
  destruct (commits a) eqn:Ea.
  2: { injection Ht as <- <-. cbn. split; [congruence|]. right. exists w1, a, w2. by rewrite Ea. }
  apply effect_cases in Ht as [(e & Ho & F1 & F2)|(v & F1 & F2 & -> & Ho)]; cbn in *.
  - split; [congruence|]. left. split; [congruence|]. intros a' E'. destruct Ho; congruence.
  - split; [congruence|]. right. exists w1, a, w2. rewrite Ea. split_and!; [done..|]. destruct Ho; auto.
Qed.

(** * Acknowledgement *)

Lemma acknowledge_body_stays f cursor g bytes : stays (acknowledge_body f cursor g bytes).
Proof.
  unfold acknowledge_body, load_pending, retain_receipt, update_cursor_and_acknowledge, move_cursor, one_changed, ack_now.
  repeat first
    [apply stays_clock|apply stays_query|apply stays_execute|apply stays_bind; [|intros ?]
    |match goal with |- stays (match ?x with _ => _ end) => destruct x end|by intros w].
Qed.

Lemma cleanup_cases n w o w' : cleanup n w = (o, w') -> db w' = db w /\
  match o with
  | Some (Ok _) => live (dir w') !! n = None
  | Some (Err e) => e = CleanupPending /\ dir w' = dir w
  | Some OutOfFuel => False
  | None => True
  end.
Proof.
  unfold cleanup, remove. destruct (negb (is_bundle_name n)); [intros [= <- <-]; done|].
  unfold abind. destruct (remove_file n w) as [o1 w1] eqn:Er.
  assert (Hr : db w1 = db w /\ match o1 with Some (Ok _) => live (dir w1) !! n = None | Some (Err e) => e = SpUnavailable /\ dir w1 = dir w
    | Some OutOfFuel => False | None => True end).
  { unfold remove_file in Er. destruct w as [d r xs cl en pr]. unfold effect, effect_cut in Er. cbn in Er.
    destruct xs as [|[|busy|k [|]| |] rest]; cbn in Er; try (injection Er as <- <-; done);
      destruct (live r !! n) as [[f|]|] eqn:El; cbn in Er; injection Er as <- <-; cbn; try done; by rewrite lookup_delete_eq. }
  destruct Hr as [E1 Ho]. destruct o1 as [[b|e|]|]; intros [= <- <-]; cbn; (split; [done|]); try done.
  by destruct Ho as [-> ?].
Qed.


(** * Backoff *)

Lemma shiftl_one n : 0 <= n -> Z.shiftl 1 n = 2 ^ n.
Proof. intros Hn. rewrite Z.shiftl_mul_pow2 by lia. lia. Qed.

(** The backoff is the ideal schedule.  Although the code doubles in sixty-four bits and
    gives up on overflow, the bound after any number of failures is the base doubled that
    often, or the cap if that is less, so it never shrinks as failures add up; a draw lies
    below it, and with the plan's policy a retry waits less than fifteen minutes. *)
Theorem retry_backoff_exact p failures bits :
  1 <= base_ms p <= U64_MAX -> 1 <= cap_ms p <= U64_MAX -> 0 <= failures -> 0 <= bits <= U64_MAX ->
  upper_bound_ms p failures = Z.min (base_ms p * 2 ^ failures) (cap_ms p) /\
  upper_bound_ms p failures <= upper_bound_ms p (failures + 1) /\
  exists delay, full_jitter_ms p failures (Ok bits) = Ok delay /\ 0 <= delay < upper_bound_ms p failures.
Proof.
  intros Hb Hc Hf Hbits.
  assert (Hup : forall n, 0 <= n -> upper_bound_ms p n = Z.min (base_ms p * 2 ^ n) (cap_ms p)).
  { intros n Hn. unfold upper_bound_ms, checked_mul_u64. unfold U64_MAX in *.
    assert (Hp : 0 < 2 ^ n) by (apply Z.pow_pos_nonneg; lia).
    assert (Hbig : 64 <= n -> 18446744073709551615 < base_ms p * 2 ^ n).
    { intros H64. assert (2 ^ 64 <= 2 ^ n) by (apply Z.pow_le_mono_r; lia). change (2 ^ 64) with 18446744073709551616 in *. nia. }
    destruct (Z.leb_spec n 0xFFFFFFFF); destruct (Z.ltb_spec n 64); try rewrite (shiftl_one n Hn);
      try destruct (Z.leb_spec (base_ms p * 2 ^ n) (2 ^ 64 - 1)); cbv beta iota zeta; lia. }
  assert (Hpos : 0 < upper_bound_ms p failures).
  { rewrite Hup by lia. assert (0 < 2 ^ failures) by (apply Z.pow_pos_nonneg; lia). nia. }
  split; [by apply Hup|]. split.
  - rewrite !Hup by lia. rewrite Z.pow_add_r by lia. assert (0 < 2 ^ failures) by (apply Z.pow_pos_nonneg; lia). nia.
  - eexists. split; [reflexivity|]. unfold uniform_below. rewrite Z.shiftr_div_pow2 by lia. unfold U64_MAX in *. split.
    + apply Z.div_pos; [|lia]. apply Z.mul_nonneg_nonneg; lia.
    + apply Z.div_lt_upper_bound; [lia|]. change (2 ^ 64) with 18446744073709551616. nia.
Qed.

(** * Claims *)

Lemma schedule_leb_total a b : schedule_leb a b = true \/ schedule_leb b a = true.
Proof.
  unfold schedule_leb. destruct (Entry.next_attempt_at a) as [x|], (Entry.next_attempt_at b) as [y|]; auto; [|apply lex_leb_total].
  case_bool_decide as E1; case_bool_decide as E2; try congruence; apply lex_leb_total.
Qed.

Lemma schedule_leb_trans a b c : schedule_leb a b = true -> schedule_leb b c = true -> schedule_leb a c = true.
Proof.
  unfold schedule_leb. destruct (Entry.next_attempt_at a) as [x|], (Entry.next_attempt_at b) as [y|], (Entry.next_attempt_at c) as [z|];
    try done; [|by eauto using text_leb_trans].
  unfold text_leb. destruct (bool_decide_reflect (as_bytes x = as_bytes y)) as [E1|E1],
    (bool_decide_reflect (as_bytes y = as_bytes z)) as [E2|E2], (bool_decide_reflect (as_bytes x = as_bytes z)) as [E3|E3]; try congruence.
  - apply text_leb_trans.
  - intros Ha Hb. exfalso. apply E1. apply lex_leb_antisym; [done|]. by rewrite E3.
  - apply lex_leb_trans.
Qed.

(** The candidate is due, and no due entry comes before it. *)
Lemma candidate_first now d :
  match candidate now d with
  | Some e => e ∈ spool_entries d /\ due now d e = true /\
      forall e', e' ∈ spool_entries d -> due now d e' = true -> schedule_leb e e' = true
  | None => forall e, e ∈ spool_entries d -> due now d e = false
  end.
Proof.
  unfold candidate. set (l := List.filter (due now d) (spool_entries d)).
  assert (Hl : forall e, e ∈ l <-> e ∈ spool_entries d /\ due now d e = true).
  { intros e. unfold l. by rewrite list_elem_of_In, filter_In, <- list_elem_of_In. }
  pose proof (sort_by_sorted schedule_leb schedule_leb_total schedule_leb_trans l) as Hs.
  pose proof (fun x => elem_of_sort_by schedule_leb x l) as Hin.
  destruct (sort_by schedule_leb l) as [|e rest]; cbn [head].
  - intros e He. apply not_true_iff_false. intros Hd. apply (elem_of_nil (A := Entry.EntryRow) e). apply Hin, Hl. by split.
  - destruct (proj1 (Hl e)) as [He Hd]; [apply Hin; left|]. split_and!; [done..|]. intros e' He' Hd'.
    assert (Hx : e' ∈ e :: rest) by (apply Hin, Hl; by split). apply elem_of_cons in Hx as [->|Hx].
    + destruct (schedule_leb_total e e); done.
    + inversion Hs as [|? ? _ Hf]. subst. rewrite Forall_forall in Hf. apply Is_true_true. by apply Hf.
Qed.

(** ** What a successful call did *)

Section Succeeds.
Context {E : Type}.

Lemma abind_Ok {A B} (m : act E A) (k : A -> act E B) w b w' : abind m k w = (Some (Ok b), w') ->
  exists a w1, m w = (Some (Ok a), w1) /\ k a w1 = (Some (Ok b), w').
Proof. unfold abind. destruct (m w) as [[[a|e|]|] w1]; [eauto|done..]. Qed.

Lemma effect_Ok {A} (refused : bool -> E) (does : World -> result E A * World) w a w' : effect refused does w = (Some (Ok a), w') ->
  exists w1, db w1 = db w /\ dir w1 = dir w /\ does w1 = (Ok a, w').
Proof.
  intros He. apply effect_cases in He as [(e & [?|?] & _)|(w1 & E1 & E2 & -> & [?|Ho])]; [done..|].
  exists w1. split_and!; [done..|]. injection Ho as ->. by destruct (does w1).
Qed.

Lemma query_Ok {A} (refused : bool -> E) (f : Db -> A) w a w' : query refused f w = (Some (Ok a), w') -> a = f (db w) /\ db w' = db w.
Proof. intros (w1 & E1 & _ & [= <- <-])%effect_Ok. by rewrite E1. Qed.

Lemma execute_Ok {A} (refused : bool -> E) violated (f : Db -> option (Db * A)) w a w' :
  execute refused violated f w = (Some (Ok a), w') -> f (db w) = Some (db w', a).
Proof.
  intros (w1 & E1 & _ & Hd)%effect_Ok. rewrite <- E1. destruct (f (db w1)) as [[d b]|]; [|done]. by injection Hd as <- <-.
Qed.

(** Running on, and calls that are not refused. *)
Lemma abind_run {A B} (m : act E A) (k : A -> act E B) w a w1 : m w = (Some (Ok a), w1) -> abind m k w = k a w1.
Proof. unfold abind. by intros ->. Qed.

Lemma effect_fine {A} (refused : bool -> E) (does : World -> result E A * World) w : answers w = [] ->
  effect refused does w = (Some (does w).1, (does w).2).
Proof. intros Ha. unfold effect, effect_cut. rewrite Ha. by destruct (does w). Qed.

Lemma lift_Ok {A} (x : result E A) w a w' : lift x w = (Some (Ok a), w') -> x = Ok a /\ w' = w.
Proof. unfold lift. by intros [= -> ->]. Qed.
End Succeeds.

Lemma claim_body_stays strftime now policy bits : stays (claim_body strftime now policy bits).
Proof.
  unfold claim_body, load_claim, conflict.
  repeat first
    [apply stays_clock|apply stays_query|apply stays_execute|apply stays_bind; [|intros ?]
    |match goal with |- stays (match ?x with _ => _ end) => destruct x end|by intros w].
Qed.

Lemma conflict_Ok {A} (x : result GrammarError A) w a w' : conflict x w = (Some (Ok a), w') -> x = Ok a /\ w' = w.
Proof. intros [Hx ->]%lift_Ok. by apply map_err_Ok in Hx. Qed.

Lemma load_claim_Ok id delay w c w' : load_claim id delay w = (Some (Ok c), w') ->
  db w' = db w /\ rc_entry_id c = id /\ rc_retry_delay_ms c = delay /\
  exists e f a, claim_rows id (db w) = Some (e, f, a) /\ rc_attempt_count c = Entry.attempt_count e /\
    rc_bundle_name c = Entry.bundle_name e /\ rc_digest c = Entry.envelope_digest e /\ rc_size c = Entry.size_bytes e /\
    RequestId_parse (Frozen.request_id f) = Ok (fu_request (rc_frozen c)) /\
    digest_parse (Frozen.occurrence_id f) = Ok (fu_occurrence (rc_frozen c)) /\
    digest_parse (Attest.attestation_id a) = Ok (fu_attestation (rc_frozen c)).
Proof.
  unfold load_claim. intros (row & w1 & [-> E1]%query_Ok & Hk)%abind_Ok.
  destruct (claim_rows id (db w)) as [[[e f] a]|]; [|done]. destruct (_ || _); [done|].
  apply abind_Ok in Hk as (q & w2 & [Hq ->]%conflict_Ok & Hk). apply abind_Ok in Hk as (oc & w3 & [Ho ->]%conflict_Ok & Hk).
  apply abind_Ok in Hk as (at_ & w4 & [Ha ->]%conflict_Ok & Hk). injection Hk as <- <-.
  split; [done|]. split; [done|]. split; [done|]. by exists e, f, a.
Qed.

