(* ===== verification/SpoolFacts.v ===== *)
(** Startup reconciliation settles the spool: what one pass leaves, a second pass finds
    nothing to do with. *)

From stdpp Require Import gmap.
From S2P Require Import Prelude Text Sha256 Vocabulary Records Inventory Pressure Authority ControlRecord ControlRecordFacts Receipt ClientState Spool Upload Acknowledgement ClientSafety ClientFacts.

Open Scope Z_scope.

(** Reconciliation leaves this name as it is. *)
Definition leaves (rows : gmap (list Z) (list Z)) (name : list Z) : Prop :=
  match strip_suffix BUNDLE_SUFFIX name with
  | Some stem => match rows !! name with Some state => state <> STATE_ACKNOWLEDGED | None => is_ok (RequestId_parse stem) = false end
  | None =>
      match strip_suffix STAGING_SUFFIX name with
      | Some stem => bool_decide (is_Some (rows !! name)) || negb (is_ok (RequestId_parse stem)) = true
      | None => True
      end
  end.

(** The counters a settled pass leaves at zero. *)
Definition idle (r r' : ReconcileReport) : Prop :=
  orphan_bundles_indexed r' = orphan_bundles_indexed r /\ acknowledged_bundles_removed r' = acknowledged_bundles_removed r /\
  staging_files_removed r' = staging_files_removed r.

#[export] Instance idle_preorder : PreOrder idle.
Proof. split; [by intros r|intros a b c (? & ? & ?) (? & ? & ?); unfold idle; split_and!; congruence]. Qed.

Lemma leaves_named rows now name report w : leaves rows name ->
  exists report', reconcile_named rows now name report w = (Some (Ok report'), w) /\ idle report report'.
Proof.
  unfold leaves, reconcile_named. destruct (strip_suffix BUNDLE_SUFFIX name) as [stem|].
  - unfold reconcile_bundle. destruct (rows !! name) as [state|].
    + intros Hs. rewrite bool_decide_false by done. by exists report.
    + destruct (RequestId_parse stem); [done|by eexists..].
  - destruct (strip_suffix STAGING_SUFFIX name) as [stem|]; [|by eexists].
    unfold reconcile_staging. intros ->. by eexists.
Qed.

(** A pass over entries it leaves. *)
Lemma settled_entries rows now entries w : answers w = [] ->
  (forall name f, (name, Regular f) ∈ entries -> leaves rows name) -> forall report seen,
  exists out, reconcile_entries rows now entries report seen w = (Some (Ok out), w) /\ idle report out.1.
Proof.
  intros Ha. induction entries as [|[name [f|]] entries IH]; intros Hl report seen; cbn [reconcile_entries].
  - by exists (report, seen).
  - destruct (leaves_named rows now name report w) as (report' & Hr & Hi); [apply (Hl name f); left|].
    destruct (IH ltac:(intros n g Hn; apply (Hl n g); by right) report' (name :: seen)) as (out & Ho & Hi').
    exists out. split; [|by etransitivity]. unfold abind, next_entry, effect, effect_cut. rewrite Ha, Hr. exact Ho.
  - destruct (IH ltac:(intros n g Hn; apply (Hl n g); by right) (count_unclassified 1 report) seen) as (out & Ho & Hi').
    exists out. split; [|by etransitivity]. unfold abind, next_entry, effect, effect_cut. rewrite Ha. exact Ho.
Qed.

(** * One pass *)

(** The rows as loaded, and those indexed since. *)
Definition grown (rows rows' : gmap (list Z) (list Z)) : Prop := forall n,
  rows' !! n = rows !! n \/ rows !! n = None /\ rows' !! n = Some STATE_MATERIALIZED.

Lemma grown_leaves rows rows' name : grown rows rows' -> leaves rows name -> leaves rows' name.
Proof.
  intros Hg. unfold leaves. destruct (Hg name) as [->|[-> ->]]; [done|].
  destruct (strip_suffix BUNDLE_SUFFIX name); [by intros _|]. destruct (strip_suffix STAGING_SUFFIX name); [|done].
  rewrite bool_decide_false by (by intros [? ?]). cbn [orb]. intros Hn. rewrite Hn. by rewrite orb_true_r.
Qed.

(** After some entries: the rows grew, no name appeared, and the names seen are gone or left. *)
Record passed (rows : gmap (list Z) (list Z)) (before : gmap (list Z) DirEntry) (seen : list Z -> Prop) (d : Db) (r : Directory) : Prop := {
  ps_rows : grown rows (row_states d);
  ps_live : forall n f, live r !! n = Some f -> before !! n = Some f;
  ps_seen : forall n f, seen n -> live r !! n = Some (Regular f) -> leaves (row_states d) n }.

Lemma passed_removed rows before (seen : list Z -> Prop) name d r : passed rows before seen d r ->
  passed rows before (fun n => seen n \/ n = name) d (set_live r (delete name (live r))).
Proof.
  intros [Hr Hl Hs]. split; [done|..]; cbn.
  - intros n f [_ Hf]%lookup_delete_Some. eauto.
  - intros n f [Hn|Hn] [Hne Hf]%lookup_delete_Some; [eauto|congruence].
Qed.

Lemma passed_left rows before (seen : list Z -> Prop) name d r : passed rows before seen d r -> leaves rows name ->
  passed rows before (fun n => seen n \/ n = name) d r.
Proof.
  intros [Hr Hl Hs] Hn. split; [done..|]. intros n f [?| ->]; [eauto|]. intros _. by eapply grown_leaves.
Qed.

Lemma row_states_insert e d d' : insert_entry e d = Some d' -> row_states d' = <[Entry.bundle_name e := Entry.state e]> (row_states d).
Proof. unfold insert_entry. destruct (_ && _); [|done]. intros [= <-]. unfold row_states. cbn. by rewrite fold_left_app. Qed.

Lemma passed_indexed rows before (seen : list Z -> Prop) id name d d' r e : passed rows before seen d r -> rows !! name = None ->
  name = id ++ BUNDLE_SUFFIX -> insert_entry e d = Some d' -> Entry.bundle_name e = name -> Entry.state e = STATE_MATERIALIZED ->
  passed rows before (fun n => seen n \/ n = name) d' r.
Proof.
  intros [Hr Hl Hs] Hn En Hi Ee Es. pose proof (row_states_insert e d d' Hi) as Er. rewrite Ee, Es in Er.
  assert (Hg : grown (row_states d) (row_states d')).
  { rewrite Er. intros n. destruct (decide (n = name)) as [->|Hne].
    - rewrite lookup_insert_eq. destruct (Hr name) as [E|[_ E]]; [right; by rewrite E, Hn|left; by rewrite E].
    - left. by rewrite lookup_insert_ne. }
  split.
  - intros n. destruct (Hr n) as [E|[E1 E2]], (Hg n) as [F|[F1 F2]]; try (left; congruence); right; split; congruence.
  - done.
  - intros n f [Hsn| ->] Hf; [by eapply grown_leaves; [|eapply Hs]|].
    unfold leaves. assert (Hstrip : strip_suffix BUNDLE_SUFFIX name = Some id).
    { rewrite En. unfold strip_suffix. rewrite length_app.
      replace (length id + length BUNDLE_SUFFIX - length BUNDLE_SUFFIX)%nat with (length id) by lia.
      rewrite (proj2 (Nat.leb_le _ _)) by lia. cbn [andb]. rewrite drop_app_length, take_app_length. by rewrite bool_decide_true. }
    rewrite Hstrip, Er, lookup_insert_eq. by vm_compute.
Qed.

Section Pass.
Context (rows : gmap (list Z) (list Z)) (before : gmap (list Z) DirEntry).

Definition any : assertion := fun _ _ => True.

Lemma remove_listed_passed (seen : list Z -> Prop) name :
  hoare (passed rows before seen) (remove_listed name) (fun _ => passed rows before (fun n => seen n \/ n = name)) any.
Proof.
  unfold remove_listed. apply hoare_bind with (R := fun b d r => b = true -> passed rows before (fun n => seen n \/ n = name) d r).
  - apply hoare_effect; [done|]. intros w Hw. destruct (live (dir w) !! name) as [[f|]|]; [|done..].
    split; [|done]. intros _. by apply passed_removed.
  - intros [|]; [apply hoare_ret; auto|by apply hoare_fail].
Qed.

Lemma reconcile_named_passed (seen : list Z -> Prop) now name report :
  hoare (passed rows before seen) (reconcile_named rows now name report) (fun _ => passed rows before (fun n => seen n \/ n = name)) any.
Proof.
  assert (Hleft : leaves rows name -> forall report' : ReconcileReport, hoare (passed rows before seen) (ret (E := SpoolErrorKind) report')
    (fun _ => passed rows before (fun n => seen n \/ n = name)) any).
  { intros Hl report'. apply hoare_ret. intros d r Hp. by apply passed_left. }
  unfold leaves in Hleft. unfold reconcile_named. destruct (strip_suffix BUNDLE_SUFFIX name) as [stem|] eqn:Eb.
  { unfold reconcile_bundle. destruct (rows !! name) as [state|] eqn:Er.
    - case_bool_decide; [|by apply Hleft]. eapply hoare_bind; [apply remove_listed_passed|intros []; by apply hoare_ret].
    - destruct (RequestId_parse stem) as [id| |] eqn:Ei; [|by apply Hleft..].
      unfold RequestId_parse in Ei. apply text_parse_Ok in Ei as [-> _]. apply strip_suffix_Some in Eb.
      apply hoare_bind with (R := fun _ => passed rows before (fun n => seen n \/ n = name)); [|intros []; by apply hoare_ret].
      unfold index_orphan. apply hoare_bind with (R := fun _ => passed rows before seen).
      { apply hoare_effect; [done|]. intros w Hw. destruct (live (dir w) !! name) as [[f|]|]; by try split. }
      intros bytes. apply hoare_bind with (R := fun _ => passed rows before seen).
      { unfold recordable_size. destruct (_ <=? _); [by apply hoare_ret|by apply hoare_fail]. }
      intros z. apply hoare_execute; [done|]. intros d r d' [] Hp (d2 & Hi & [= ->])%bind_Some. split; [|done].
      by eapply (passed_indexed rows before seen stem name d d' r). }
  destruct (strip_suffix STAGING_SUFFIX name) as [stem|]; [|by apply Hleft].
  unfold reconcile_staging. destruct (_ || _); [by apply Hleft|].
  eapply hoare_bind; [apply remove_listed_passed|intros []; by apply hoare_ret].
Qed.

Lemma passed_weaken (seen seen' : list Z -> Prop) d r : (forall n, seen' n -> seen n) -> passed rows before seen d r -> passed rows before seen' d r.
Proof. intros Hs [? ? Hx]. split; [done..|]. eauto. Qed.

Lemma reconcile_entries_passed now entries : forall (seen : list Z -> Prop) report names,
  hoare (passed rows before seen) (reconcile_entries rows now entries report names)
    (fun _ => passed rows before (fun n => seen n \/ exists f, (n, Regular f) ∈ entries)) any.
Proof.
  induction entries as [|[name [f|]] entries IH]; intros seen report names; cbn [reconcile_entries].
  - apply hoare_ret. intros d r. apply passed_weaken. intros n [?|(f & Hf)]; [done|by apply elem_of_nil in Hf].
  - apply hoare_bind with (R := fun _ => passed rows before seen); [by apply hoare_effect|]. intros [].
    eapply hoare_bind; [apply reconcile_named_passed|]. intros report'.
    eapply hoare_post; [|apply IH]. intros a d r. apply passed_weaken. intros n [?|(g & [Hg|Hg]%elem_of_cons)]; [by left; left| |].
    + injection Hg as -> _. by left; right.
    + right. by exists g.
  - apply hoare_bind with (R := fun _ => passed rows before seen); [by apply hoare_effect|]. intros [].
    eapply hoare_post; [|apply IH]. intros a d r. apply passed_weaken. intros n [?|(g & [Hg|Hg]%elem_of_cons)]; [by left|done|].
    right. by exists g.
Qed.
End Pass.

(** After a pass that returned, every regular file still there is one reconciliation leaves. *)
Lemma reconcile_settled `{ReadDir} w report w' : reconcile w = (Some (Ok report), w') ->
  forall n f, live (dir w') !! n = Some (Regular f) -> leaves (row_states (db w')) n.
Proof.
  set (d0 := db w). set (before := live (dir w)).
  assert (Hh : hoare (fun d r => d = d0 /\ live r = before) reconcile (fun _ d r => forall n f, live r !! n = Some (Regular f) -> leaves (row_states d) n) any).
  { unfold reconcile. apply hoare_bind with (R := fun rows d r => rows = row_states d0 /\ d = d0 /\ live r = before).
    { apply hoare_query; [done|]. by intros d r [-> ?]. }
    intros rows. apply hoare_pure. intros ->. apply hoare_bind with (R := fun _ d r => d = d0 /\ live r = before); [by apply hoare_clock|].
    intros now. apply hoare_bind with (R := fun l d r => l.1 = read_order before /\ d = d0 /\ live r = before).
    { apply hoare_effect; [done|]. intros v [E1 E2]. split; [|done]. split; [by rewrite E2|done]. }
    intros [listing foreign]. apply hoare_pure. cbn [fst snd]. intros ->.
    apply (hoare_pre _ _ (passed (row_states d0) before (fun _ => False))).
    { intros d r [-> Hl]. split; [by left|by rewrite Hl|done]. }
    eapply hoare_bind; [apply reconcile_entries_passed|]. intros out. apply hoare_ret. intros d r [_ Hl Hs] n f Hf.
    apply (Hs n f); [|done]. right. exists f. rewrite read_order_all. apply elem_of_map_to_list. by apply Hl. }
  intros Hr. specialize (Hh w (conj eq_refl eq_refl)). by rewrite Hr in Hh.
Qed.

(** Reconciliation settles: after a pass that returned, however its calls were answered,
    a second pass over what it left, undisturbed, indexes nothing, removes nothing and changes
    neither the database nor the directory. *)
Theorem reconcile_settles `{ReadDir} w report w' v now rest : reconcile w = (Some (Ok report), w') ->
  db v = db w' -> dir v = dir w' -> answers v = [] -> clocks v = now :: rest ->
  Timestamp_parse now = Ok now -> calendar_valid now = true ->
  exists report' v', reconcile v = (Some (Ok report'), v') /\ db v' = db v /\ dir v' = dir v /\
    orphan_bundles_indexed report' = 0 /\ acknowledged_bundles_removed report' = 0 /\ staging_files_removed report' = 0.
Proof.
  intros Hr E1 E2 Ha Hc Hn Hcal. pose proof (reconcile_settled w report w' Hr) as Hl. rewrite <- E1, <- E2 in Hl.
  destruct v as [d r xs cl en pr]. cbn in *. subst xs cl.
  set (v1 := mkWorld d r [] rest en pr).
  destruct (settled_entries (row_states d) now (read_order (live r)) v1 eq_refl) with (report := count_unclassified (foreign r) report_default) (seen := @nil (list Z))
    as (out & Ho & I1 & I2 & I3).
  { intros n f Hin. rewrite read_order_all in Hin. apply elem_of_map_to_list in Hin. by apply (Hl n f). }
  assert (Hrun : reconcile (mkWorld d r [] (now :: rest) en pr) =
    (Some (Ok (mkReport (orphan_bundles_indexed out.1) (acknowledged_bundles_removed out.1) (staging_files_removed out.1)
       (unclassified_entries out.1) (missing_bundles (row_states d) out.2))), v1)).
  { set (v := mkWorld d r [] (now :: rest) en pr). unfold reconcile.
    rewrite (abind_run _ _ v (row_states d) v) by (unfold load_row_states, query; by rewrite effect_fine).
    rewrite (abind_run _ _ v now v1).
    2: { unfold now_utc, clock. rewrite (abind_run _ _ v now v1) by (by rewrite effect_fine). by rewrite Hn, Hcal. }
    rewrite (abind_run _ _ v1 (read_order (live r), foreign r) v1) by (by rewrite effect_fine).
    cbn [fst snd]. rewrite (abind_run _ _ v1 out v1) by exact Ho. reflexivity. }
  eexists _, v1. split; [exact Hrun|]. by split_and!.
Qed.
