(* ===== verification/ClientWitness.v ===== *)
(** A client at which the theorems on its durable state are applied: a payload is
    materialized, frozen, uploaded and acknowledged with a receipt of the sample tenant. *)

From stdpp Require Import gmap.
From S2P Require Import Prelude Text Json JsonFacts Sha256 Vocabulary Derivation ObjectKey Records Inventory Pressure Authority ControlRecord ControlRecordFacts TrustView RequestVerification AuthWitness Receipt ReceiptFacts ReceiptIssue ReceiptWitness ClientState Spool Upload Acknowledgement ClientSafety ClientFacts SpoolFacts.

Open Scope Z_scope.

#[export] Instance sample_order : ReadDir := {| read_order := map_to_list; read_order_all d := reflexivity _ |}.

Definition no_strftime (now directive : list Z) : option (list Z) := None.

Definition blank : Db := mkDb [] [] [] [] [] [] [] [].
Definition empty_spool : Directory := mkDirectory ∅ ∅ 0.
Definition stamp_text : list Z := lit "2026-10-02T00:00:00Z".
Definition random_bytes (n : Z) : list Z := replicate 10 n.

(** A world over a state, undisturbed. *)
Definition calm (s : Db * Directory) (n : Z) : World :=
  mkWorld s.1 s.2 [] (replicate 3 stamp_text) [Some (1790000000000, random_bytes n)] [10 ^ 12].

Definition sample_gate : PressureGate := gate_new (mkPressureLimits (2 * 2 ^ 30) (5 * 2 ^ 30) 80).
Definition sample_payload : list Z := lit "captured bytes".

(** * Capture and upload *)

Definition spooled : Db * Directory := after (materialize sample_gate sample_payload (calm (blank, empty_spool) 17)).2.
Definition entry_id : list Z := Eval vm_compute in canonical_uuid_text (uuid_v7_layout 1790000000000 (random_bytes 17)).
Definition request_id : list Z := Eval vm_compute in canonical_uuid_text (uuid_v7_layout 1790000000000 (random_bytes 34)).
Definition sample_occurrence : list Z := replicate 32 51.
Definition sample_blob : list Z := replicate 32 68.

Definition sample_freeze : FreezeUpload :=
  mkFreeze entry_id sample_tenant sample_client sample_client sample_occurrence (lit "envelope-v1") ZstdV1 None sample_blob
    sample_blob 14 14 None first_start first_start Direct.

Definition frozen_state : Db * Directory := after (freeze_upload sample_freeze (calm spooled 34)).

Definition session : list Z := replicate 32 85.
Definition sample_source : Source.SourceRow :=
  Source.mk (lit "44444444-4444-4444-8444-444444444444") (lit "claude-code") (to_hex session) None (-1) stamp_text.
Definition sample_range : Range.RangeRow :=
  Range.mk (to_hex sample_occurrence) (lit "generation") 0 14 (to_hex sample_blob) (Some entry_id).

Definition with_capture (d : Db) : Db :=
  mkDb (spool_entries d) (frozen_requests d) [sample_range] (upload_attestations d) (receipts d) [sample_source]
    [Generation.mk (lit "generation") (Source.source_id sample_source)] (quarantined_uploads d).
Definition uploaded : Db * Directory := (with_capture frozen_state.1, frozen_state.2).

(** * The receipt *)

Definition sample_attestation : list Z := Eval vm_compute in attestation_id sample_occurrence sample_client request_id.

Definition answer_body : Object := Eval vm_compute in
  set_members [text_field "tenant_id" sample_tenant; text_field "request_id" request_id;
    text_field "occurrence_id" (to_hex sample_occurrence); text_field "attestation_id" (to_hex sample_attestation);
    text_field "blob_digest" (to_hex sample_blob);
    text_field "blob_object_key" (BlobObjectKey_new sample_tenant ZstdV1 sample_blob);
    text_field "occurrence_object_key"
      (OccurrenceObjectKey_new sample_tenant sample_client (lit "claude-code") session sample_occurrence);
    text_field "attestation_object_key" (AttestationObjectKey_new sample_tenant sample_occurrence sample_attestation);
    text_field "blob_outcome" (lit "created"); text_field "occurrence_outcome" (lit "created");
    text_field "attestation_outcome" (lit "created"); text_field "authorization_key_id" (to_hex new_key_id);
    int_field "authorization_epoch" 2; text_field "commit_time" stamp_text] [].

Definition receipt_value : Value := Eval vm_compute in
  match Receipt_sign answer_body first_certified with Ok v => v | _ => VNull end.

Definition sample_request : AcknowledgementRequest := mkAckRequest (canonical_bytes receipt_value) (lit "14").
Definition acknowledgement : option (result AcknowledgementErrorKind AcknowledgedReceipt) * World :=
  acknowledge_receipt published_root ∅ sample_request (calm uploaded 1).

Lemma acknowledgement_succeeds : match acknowledgement.1 with Some (Ok a) => acked_cursor_advanced a | _ => false end = true.
Proof. vm_compute. reflexivity. Qed.

(** * The theorems at the sample *)

Lemma calm_eta (s : Db * Directory) n : (db (calm s n), dir (calm s n)) = s.
Proof. by destruct s. Qed.

Lemma spool_fresh : fresh (calm (blank, empty_spool) 17).
Proof. intros id _. apply lookup_empty. Qed.

Definition acknowledged_state : Db * Directory := after acknowledgement.

Lemma capture_steps : rtc (client_step published_root no_strftime) (blank, empty_spool) spooled.
Proof. apply rtc_once. exact (step_materialize published_root no_strftime sample_gate sample_payload _ spool_fresh). Qed.

Lemma sample_capture s : sources s.1 = [] -> client_step published_root no_strftime s (with_capture s.1, s.2).
Proof.
  destruct s as [d r]. cbn [fst snd]. intros Hs. apply step_capture. split_and!; [reflexivity..|].
  rewrite Hs. by intros x ?%elem_of_nil.
Qed.

Lemma upload_steps : rtc (client_step published_root no_strftime) spooled uploaded.
Proof.
  apply (rtc_l _ _ frozen_state).
  - pose proof (step_freeze published_root no_strftime sample_freeze (calm spooled 34)) as Hs. rewrite calm_eta in Hs. exact Hs.
  - apply rtc_once. apply (sample_capture frozen_state). vm_compute. reflexivity.
Qed.

Lemma acknowledge_steps : rtc (client_step published_root no_strftime) uploaded acknowledged_state.
Proof.
  apply rtc_once. pose proof (step_acknowledge published_root no_strftime ∅ sample_request (calm uploaded 1)) as Hs.
  rewrite calm_eta in Hs. exact Hs.
Qed.

Lemma uploaded_inv : client_inv published_root uploaded.1 uploaded.2.
Proof.
  apply (steps_kept published_root no_strftime (blank, empty_spool) uploaded); [|by apply pristine_inv].
  transitivity spooled; [exact capture_steps|exact upload_steps].
Qed.

Lemma spooled_entry : exists e, e ∈ spool_entries spooled.1 /\ Entry.id e = entry_id.
Proof.
  assert (E : map Entry.id (spool_entries spooled.1) = [entry_id]) by (vm_compute; reflexivity).
  destruct (spool_entries spooled.1) as [|e l]; [done|]. injection E as E _. exists e. split; [left|done].
Qed.

Lemma captured_bundles_survive_witness :
  (exists e', e' ∈ spool_entries acknowledged_state.1 /\ Entry.id e' = entry_id /\
     (bundle_held e' acknowledged_state.2 \/ Entry.state e' = STATE_ACKNOWLEDGED /\ receipted published_root e' acknowledged_state.1)) /\
  extends spooled.1 acknowledged_state.1.
Proof.
  destruct (captured_bundles_survive published_root no_strftime (blank, empty_spool) spooled acknowledged_state) as [Hs Hx].
  - by split_and!.
  - exact capture_steps.
  - transitivity uploaded; [exact upload_steps|exact acknowledge_steps].
  - split; [|exact Hx]. destruct spooled_entry as (e & He & Ee). destruct (Hs e He) as (e' & He' & E' & _ & _ & Hd).
    exists e'. split; [exact He'|]. split; [by rewrite E'|exact Hd].
Defined.


Lemma retry_backoff_exact_witness : upper_bound_ms RetryPolicy_plan 3 = 8000 /\
  exists delay, full_jitter_ms RetryPolicy_plan 3 (Ok (2 ^ 63)) = Ok delay /\ 0 <= delay < 8000.
Proof.
  destruct (retry_backoff_exact RetryPolicy_plan 3 (2 ^ 63)) as (E1 & _ & E3); [vm_compute; try split; discriminate..|].
  change (upper_bound_ms RetryPolicy_plan 3) with 8000 in E3. split; [exact E1|exact E3].
Defined.

(** ** A spool in which calls fail *)

Lemma materialized_bundle_durable_witness : exists b w', (materialize sample_gate sample_payload (calm (blank, empty_spool) 17)).2 = (Some (Ok b), w') /\
  (exists e, e ∈ spool_entries (db w') /\ Entry.id e = mb_entry_id b /\ Entry.envelope_digest e = encode_hex (digest sample_payload)) /\
  forall r', power_loss (dir w') r' -> exists f, live r' !! mb_bundle_name b = Some (Regular f) /\ content f = sample_payload.
Proof.
  assert (Hok : match (materialize sample_gate sample_payload (calm (blank, empty_spool) 17)).2.1 with Some (Ok _) => true | _ => false end = true)
    by (vm_compute; reflexivity).
  destruct (materialize sample_gate sample_payload (calm (blank, empty_spool) 17)) as [g [[[b|e|]|] w']] eqn:Hm; try discriminate Hok.
  exists b, w'. split; [reflexivity|].
  destruct (materialized_bundle_durable published_root sample_gate sample_payload (calm (blank, empty_spool) 17) g b w') as [(e & He & E1 & _ & _ & E2 & _) Hf].
  - apply (pristine_inv published_root (blank, empty_spool)). by split_and!.
  - exact spool_fresh.
  - exact Hm.
  - split; [exists e; by split_and!|]. intros r' Hr. apply Hf. by right.
Defined.

(** The process dies as it renames the staging file. *)
Definition killed : World :=
  mkWorld blank empty_spool (replicate 7 Fine ++ [DiedAfter]) [stamp_text] [Some (1790000000000, random_bytes 17)] [10 ^ 12].
Definition interrupted : Db * Directory := after (materialize sample_gate sample_payload killed).2.
Definition restarted : option (result SpoolErrorKind ReconcileReport) * World := reconcile (calm interrupted 1).

Lemma restarted_indexes : match restarted.1 with Some (Ok report) => orphan_bundles_indexed report =? 1 | _ => false end = true.
Proof. vm_compute. reflexivity. Qed.

Lemma reconcile_settles_witness : exists report' v', reconcile (calm (after restarted) 2) = (Some (Ok report'), v') /\
  orphan_bundles_indexed report' = 0 /\ acknowledged_bundles_removed report' = 0 /\ staging_files_removed report' = 0.
Proof.
  pose proof restarted_indexes as Hi. destruct restarted as [[[report|e|]|] w'] eqn:Er; try discriminate Hi.
  destruct (reconcile_settles (calm interrupted 1) report w' (calm (after (Some (Ok report) : option (result SpoolErrorKind ReconcileReport), w')) 2)
    stamp_text (replicate 2 stamp_text) Er) as (report' & v' & Hr & _ & _ & E1 & E2 & E3);
    [reflexivity|reflexivity|reflexivity|reflexivity|vm_compute; reflexivity|vm_compute; reflexivity|].
  exists report', v'. split; [exact Hr|]. by split_and!.
Defined.

(** Reconciliation after a death at the rename records the bundle although the directory was
    never synchronized: a power failure then leaves a recorded entry without its bundle. *)
Theorem orphan_indexed_before_directory_sync : exists e lost,
  e ∈ spool_entries (after restarted).1 /\ Entry.state e = STATE_MATERIALIZED /\
  power_loss (after restarted).2 lost /\ live lost !! Entry.bundle_name e = None.
Proof.
  assert (E : map Entry.state (spool_entries (after restarted).1) = [STATE_MATERIALIZED]) by (vm_compute; reflexivity).
  assert (D : on_disk (after restarted).2 = ∅) by (apply map_size_empty_inv; vm_compute; reflexivity).
  revert E D. generalize (after restarted). intros [d r]. cbn [fst snd]. intros E D.
  destruct (spool_entries d) as [|e l]; [done|]. injection E as Es _.
  exists e, empty_spool. split_and!; [left|done| |apply lookup_empty]. intros n. right. by rewrite D.
Qed.
