(* ===== verification/FileCapture.v ===== *)
(** File-source capture ([crates/archivist-adapter-sdk/src/file_capture.rs],
    [file_generation.rs] and the generations of [artifact.rs]): the split of a
    snapshot at its last complete record, the pass cursor, and the detection of a
    generation's end.  [None] is a panic of the code; the facts are in
    [CaptureFacts.v]. *)

From stdpp Require Import list.
From S2P Require Import Prelude Text Sha256.

Open Scope Z_scope.

(** * Record boundaries *)

Definition newline : Z := 10.

(** [usize] to [u64], saturating. *)
Definition measured (n : nat) : Z := Z.min U64_MAX (Z.of_nat n).

Record RecordBoundary := mkBoundary
  { complete_bytes : Z; complete_records : Z; incomplete_tail_bytes : Z }.

(** The loop over the enumerated bytes: the end of the last record and the count. *)
Fixpoint select_loop (index : nat) (source : list Z) (bytes records : nat) : nat * nat :=
  match source with
  | [] => (bytes, records)
  | byte :: rest =>
      if byte =? newline then select_loop (S index) rest (S index) (S records)
      else select_loop (S index) rest bytes records
  end.

Definition select (source : list Z) : RecordBoundary :=
  let '(bytes, records) := select_loop 0 source 0 0 in
  mkBoundary (measured bytes) (measured records) (measured (length source - bytes)).

(** [Iterator::rposition]. *)
Fixpoint rposition (test : Z -> bool) (l : list Z) : option nat :=
  match l with
  | [] => None
  | x :: rest =>
      match rposition test rest with
      | Some i => Some (S i)
      | None => if test x then Some 0%nat else None
      end
  end.

Definition complete_prefix (source : list Z) : list Z :=
  match rposition (Z.eqb newline) source with Some last => take (S last) source | None => [] end.

Definition incomplete_tail (source : list Z) : list Z := drop (length (complete_prefix source)) source.

(** [slice::split_inclusive]. *)
Fixpoint split_inclusive (test : Z -> bool) (l : list Z) : list (list Z) :=
  match l with
  | [] => []
  | x :: rest =>
      if test x then [x] :: split_inclusive test rest
      else match split_inclusive test rest with [] => [[x]] | r :: rs => (x :: r) :: rs end
  end.

Definition records (source : list Z) : list (list Z) := split_inclusive (Z.eqb newline) (complete_prefix source).

(** * The pass cursor *)

Record PassOutcome := mkOutcome { captured : list Z; pass_boundary : RecordBoundary }.
Inductive CaptureCursorError := SourceShrank.
Record CaptureCursor := mkCursor { position : Z; cursor_records : Z }.

Definition CaptureCursor_new : CaptureCursor := mkCursor 0 0.

Definition cursor_observe (c : CaptureCursor) (source : list Z) : CaptureCursor * result CaptureCursorError PassOutcome :=
  if zlen source <? position c then (c, Err SourceShrank)
  else
    let suffix := drop (Z.to_nat (position c)) source in
    let b := select suffix in
    let boundary := mkBoundary (sat_add64 (position c) (complete_bytes b)) (sat_add64 (cursor_records c) (complete_records b))
                      (incomplete_tail_bytes b) in
    (mkCursor (complete_bytes boundary) (complete_records boundary),
     Ok (mkOutcome (take (Z.to_nat (complete_bytes b)) suffix) boundary)).

(** * Generations *)

Inductive GenerationCause :=
| Initial | FileIdentityChange | DigestChange | Truncation | Rewind | IncompatibleRewrite | TailMismatch.

#[export] Instance GenerationCause_eq_dec : EqDecision GenerationCause.
Proof. solve_decision. Defined.

Definition is_detection (c : GenerationCause) : bool := match c with Initial => false | _ => true end.

Record SourceGeneration := mkGeneration { generation : list Z; cause : GenerationCause }.
#[export] Instance SourceGeneration_eq_dec : EqDecision SourceGeneration.
Proof. solve_decision. Defined.

Inductive GenerationError := InitialCauseNotADetection.

Definition SourceGeneration_initial (id : list Z) : SourceGeneration := mkGeneration id Initial.
Definition SourceGeneration_detected (id : list Z) (c : GenerationCause) : result GenerationError SourceGeneration :=
  if negb (is_detection c) then Err InitialCauseNotADetection else Ok (mkGeneration id c).

Record FileIdentity := mkIdentity { device : Z; inode : Z }.
#[export] Instance FileIdentity_eq_dec : EqDecision FileIdentity.
Proof. solve_decision. Defined.

(** * The acknowledged observation *)

Record AcknowledgedSource := mkAcknowledgedSource
  { ack_identity : FileIdentity; ack_complete_bytes : Z; ack_content : list Z; ack_head : list Z;
    ack_tail_start : Z; ack_tail : list Z }.

Definition last_record_start (prefix : list Z) : Z :=
  match rposition (Z.eqb newline) prefix with
  | None => 0
  | Some last =>
      match rposition (Z.eqb newline) (take last prefix) with Some previous => measured (previous + 1) | None => 0 end
  end.

(** [&prefix[from..to]] panics outside the slice. *)
Definition digest_range (prefix : list Z) (start end_ : Z) : option (list Z) :=
  if (start <=? end_) && (end_ <=? zlen prefix)
  then Some (digest (take (Z.to_nat end_ - Z.to_nat start) (drop (Z.to_nat start) prefix))) else None.

Definition acknowledge (identity : FileIdentity) (snapshot : list Z) : option AcknowledgedSource :=
  let bytes := complete_bytes (select snapshot) in
  let prefix := complete_prefix snapshot in
  let tail_start := last_record_start prefix in
  content ← digest_range prefix 0 bytes;
  head_ ← digest_range prefix 0 tail_start;
  tail_ ← digest_range prefix tail_start bytes;
  Some (mkAcknowledgedSource identity bytes content head_ tail_start tail_).

Inductive AcknowledgedSourceError := TailStartBeyondPrefix.

Definition from_parts (identity : FileIdentity) (bytes : Z) (content head_ : list Z) (tail_start : Z) (tail_ : list Z)
    : result AcknowledgedSourceError AcknowledgedSource :=
  if bytes <? tail_start then Err TailStartBeyondPrefix
  else Ok (mkAcknowledgedSource identity bytes content head_ tail_start tail_).

(** * Detection *)

Record SourceObservation := mkObservation { obs_identity : FileIdentity; obs_snapshot : list Z; obs_boundary : RecordBoundary }.
Definition SourceObservation_observe (identity : FileIdentity) (snapshot : list Z) : SourceObservation :=
  mkObservation identity snapshot (select snapshot).

Inductive GenerationDecision := Continue | Rotated (opened : SourceGeneration).

(** [id] is the identifier minted when a generation opens. *)
Definition rotated (id : list Z) (c : GenerationCause) : option GenerationDecision :=
  match SourceGeneration_detected id c with Ok g => Some (Rotated g) | _ => None end.

Definition detect_generation (id : list Z) (a : AcknowledgedSource) (o : SourceObservation) : option GenerationDecision :=
  let prefix := complete_prefix (obs_snapshot o) in
  let complete := complete_bytes (obs_boundary o) in
  if negb (bool_decide (obs_identity o = ack_identity a)) then rotated id FileIdentityChange
  else if complete <? ack_complete_bytes a then
    if ack_tail_start a <=? complete then
      head_ ← digest_range prefix 0 (ack_tail_start a);
      if negb (bool_decide (head_ = ack_head a)) then rotated id Rewind else rotated id Truncation
    else rotated id Truncation
  else
    content ← digest_range prefix 0 (ack_complete_bytes a);
    if bool_decide (content = ack_content a) then Some Continue
    else
      head_ ← digest_range prefix 0 (ack_tail_start a);
      if bool_decide (head_ = ack_head a) then rotated id TailMismatch
      else if complete =? ack_complete_bytes a then rotated id IncompatibleRewrite
      else rotated id DigestChange.

(** * The tracker *)

Record FileGenerationTracker := mkTracker
  { current : SourceGeneration; acknowledged : AcknowledgedSource; closed : list SourceGeneration }.

Definition tracker_begin (id : list Z) (identity : FileIdentity) (snapshot : list Z) : option FileGenerationTracker :=
  a ← acknowledge identity snapshot; Some (mkTracker (SourceGeneration_initial id) a []).

Definition tracker_observe (id : list Z) (t : FileGenerationTracker) (identity : FileIdentity) (snapshot : list Z)
    : option (FileGenerationTracker * GenerationDecision) :=
  decision ← detect_generation id (acknowledged t) (SourceObservation_observe identity snapshot);
  a ← acknowledge identity snapshot;
  Some (match decision with
        | Rotated opened => mkTracker opened a (closed t ++ [current t])
        | Continue => mkTracker (current t) a (closed t)
        end, decision).
