(* ===== verification/ClaudeCapture.v ===== *)
(** The capture of Claude Code's files ([crates/archivist-adapter-claude/src/lib.rs]): the
    formats told from a bounded header, the adapter's own SHA-256, and the two capture
    streams, of append-only JSONL and of whole objects, over the file core.  What a pass
    reads of the file is an input. *)

From stdpp Require Import list.
From S2P Require Import Prelude Text Sha256 FileCapture.

Open Scope Z_scope.

(** * SHA-256, over the padded message at once *)

Definition claude_INITIAL : list Z :=
  [0x6a09_e667; 0xbb67_ae85; 0x3c6e_f372; 0xa54f_f53a; 0x510e_527f; 0x9b05_688c; 0x1f83_d9ab; 0x5be0_cd19].

Definition claude_K : list Z :=
  [0x428a_2f98; 0x7137_4491; 0xb5c0_fbcf; 0xe9b5_dba5; 0x3956_c25b; 0x59f1_11f1; 0x923f_82a4;
   0xab1c_5ed5; 0xd807_aa98; 0x1283_5b01; 0x2431_85be; 0x550c_7dc3; 0x72be_5d74; 0x80de_b1fe;
   0x9bdc_06a7; 0xc19b_f174; 0xe49b_69c1; 0xefbe_4786; 0x0fc1_9dc6; 0x240c_a1cc; 0x2de9_2c6f;
   0x4a74_84aa; 0x5cb0_a9dc; 0x76f9_88da; 0x983e_5152; 0xa831_c66d; 0xb003_27c8; 0xbf59_7fc7;
   0xc6e0_0bf3; 0xd5a7_9147; 0x06ca_6351; 0x1429_2967; 0x27b7_0a85; 0x2e1b_2138; 0x4d2c_6dfc;
   0x5338_0d13; 0x650a_7354; 0x766a_0abb; 0x81c2_c92e; 0x9272_2c85; 0xa2bf_e8a1; 0xa81a_664b;
   0xc24b_8b70; 0xc76c_51a3; 0xd192_e819; 0xd699_0624; 0xf40e_3585; 0x106a_a070; 0x19a4_c116;
   0x1e37_6c08; 0x2748_774c; 0x34b0_bcb5; 0x391c_0cb3; 0x4ed8_aa4a; 0x5b9c_ca4f; 0x682e_6ff3;
   0x748f_82ee; 0x78a5_636f; 0x84c8_7814; 0x8cc7_0208; 0x90be_fffa; 0xa450_6ceb; 0xbef9_a3f7;
   0xc671_78f2].

(** [padded[i..i + 4]] read as one word. *)
Definition word_at (block : list Z) (index : nat) : Z := from_be_bytes (take 4 (drop (index * 4) block)).

(** The message words: sixteen from the block, then the loop over [16..64]. *)
Definition claude_words (block : list Z) : list Z :=
  fold_left (fun words index =>
    let x := word words (index - 15) in
    let y := word words (index - 2) in
    let s0 := Z.lxor (Z.lxor (rotate_right x 7) (rotate_right x 18)) (Z.shiftr x 3) in
    let s1 := Z.lxor (Z.lxor (rotate_right y 17) (rotate_right y 19)) (Z.shiftr y 10) in
    <[index := add32 (add32 (add32 (word words (index - 16)) s0) (word words (index - 7))) s1]> words)
    (seq 16 48) (map (word_at block) (seq 0 16) ++ replicate 48 0).

Definition claude_round (words : list Z) (v : working) (index : nat) : working :=
  let s1 := Z.lxor (Z.lxor (rotate_right (ve v) 6) (rotate_right (ve v) 11)) (rotate_right (ve v) 25) in
  let choice := Z.lxor (Z.land (ve v) (vf v)) (Z.land (not32 (ve v)) (vg v)) in
  let temp1 := add32 (add32 (add32 (add32 (vh v) s1) choice) (word claude_K index)) (word words index) in
  let s0 := Z.lxor (Z.lxor (rotate_right (va v) 2) (rotate_right (va v) 13)) (rotate_right (va v) 22) in
  let majority := Z.lxor (Z.lxor (Z.land (va v) (vb v)) (Z.land (va v) (vc v))) (Z.land (vb v) (vc v)) in
  let temp2 := add32 s0 majority in
  mkWorking (add32 temp1 temp2) (va v) (vb v) (vc v) (add32 (vd v) temp1) (ve v) (vf v) (vg v).

Definition claude_block (state block : list Z) : list Z :=
  let v := fold_left (claude_round (claude_words block)) (seq 0 64) (load state) in
  zip_with add32 state [va v; vb v; vc v; vd v; ve v; vf v; vg v; vh v].

Definition claude_padded (input : list Z) : list Z :=
  let bit_len := sat_mul64 (measured (length input)) 8 in
  let padded_len := ((length input + 9 + 63) / 64 * 64)%nat in
  let padded := copy_into (replicate padded_len 0) 0 input in
  let padded := <[length input := 0x80]> padded in
  copy_into padded (length padded - 8) (to_be_bytes 8 bit_len).

Definition claude_sha256 (input : list Z) : list Z :=
  let padded := claude_padded input in
  flat_map (to_be_bytes 4) (fold_left claude_block (chunks64 (length padded / 64) padded) claude_INITIAL).

(** * Probing a header *)

Definition MAX_HEADER_BYTES : nat := 16 * 1024.
Definition ACCOUNT_MEMBERS : list (list Z) := [lit "accountUuid"; lit "ownerAccountUuid"; lit "ownerOrganizationUuid"].

Definition is_ascii_whitespace (b : Z) : bool := bool_decide (b ∈ [9; 10; 12; 13; 32]).

(** [Iterator::position]. *)
Fixpoint position_of (test : Z -> bool) (l : list Z) : option nat :=
  match l with
  | [] => None
  | x :: rest => if test x then Some 0%nat else S <$> position_of test rest
  end.

Definition trim_ascii_space (bytes : list Z) : list Z :=
  let start := default (length bytes) (position_of (fun b => negb (is_ascii_whitespace b)) bytes) in
  let end_ := match rposition (fun b => negb (is_ascii_whitespace b)) bytes with Some i => S i | None => start end in
  take (end_ - start) (drop start bytes).

(** The first window equal to the needle. *)
Fixpoint find_window (needle bytes : list Z) : option nat :=
  if starts_with bytes needle then Some 0%nat
  else match bytes with [] => None | _ :: rest => S <$> find_window needle rest end.

Definition json_member_value (bytes key : list Z) : option (list Z) :=
  let needle := [34] ++ key ++ [34] in
  if (length bytes <? length needle)%nat then None
  else
    start ← find_window needle bytes;
    let rest := drop (start + length needle) bytes in
    colon ← position_of (Z.eqb 58) rest;
    Some (trim_ascii_space (drop (S colon) rest)).

Definition json_has_member (bytes key : list Z) : bool := bool_decide (is_Some (json_member_value bytes key)).

Definition json_string_member (bytes key : list Z) : option (list Z) :=
  start ← json_member_value bytes key;
  match start with
  | 34 :: rest => n ← position_of (Z.eqb 34) rest; from_utf8 (take n rest)
  | _ => None
  end.

(** [slice::split]. *)
Fixpoint split (test : Z -> bool) (l : list Z) : list (list Z) :=
  match l with
  | [] => [[]]
  | x :: rest =>
      if test x then [] :: split test rest
      else match split test rest with [] => [[x]] | r :: rs => (x :: r) :: rs end
  end.

Definition complete_lines (prefix : list Z) : list (list Z) :=
  let end_ := match last prefix with
              | Some 10 => length prefix
              | _ => match rposition (Z.eqb newline) prefix with Some i => S i | None => 0%nat end
              end in
  split (Z.eqb newline) (take end_ prefix).

Inductive ClaudeFormat := Jsonl (version : Z) | Sidecar | Unknown.
#[export] Instance ClaudeFormat_eq_dec : EqDecision ClaudeFormat.
Proof. solve_decision. Defined.

Definition format_supported (f : ClaudeFormat) : bool := match f with Unknown => false | _ => true end.

Definition SIDECAR_FINGERPRINT : list Z := lit "claude-sidecar-v1".
Definition JSONL_FINGERPRINTS : list (list Z) := [lit "claude-jsonl-v1"; lit "claude-jsonl-v2"].

Definition format_fingerprint (f : ClaudeFormat) : list Z :=
  match f with
  | Jsonl version => if version =? 1 then lit "claude-jsonl-v1" else if version =? 2 then lit "claude-jsonl-v2" else lit "claude-jsonl-unknown"
  | Sidecar => SIDECAR_FINGERPRINT
  | Unknown => lit "claude-unknown-format"
  end.

Definition detect_jsonl (prefix : list Z) : ClaudeFormat :=
  let '(saw_dialect, saw_account) := fold_left (fun '(dialect, account) line =>
      (dialect || (bool_decide (is_Some (json_string_member line (lit "type"))) &&
                   bool_decide (is_Some (json_string_member line (lit "sessionId")))),
       account || existsb (json_has_member line) ACCOUNT_MEMBERS))
    (complete_lines prefix) (false, false) in
  if negb saw_dialect then Unknown else Jsonl (if saw_account then 2 else 1).

Definition detect_sidecar (prefix : list Z) : ClaudeFormat :=
  if negb (bool_decide (head (trim_ascii_space prefix) = Some 123)) then Unknown else Sidecar.

(** * Sources *)

Inductive Role := Session | Subagent | ToolResult | SessionSidecar | UnknownRole.
Definition role_is_jsonl (r : Role) : bool := match r with Session | Subagent => true | _ => false end.
Definition role_supported (r : Role) : bool := match r with UnknownRole => false | _ => true end.

(** The role and format of a discovered file, and whether reading it was denied or failed. *)
Record ClaudeSource := mkSource { src_role : Role; src_format : ClaudeFormat; src_denied : option bool }.
Definition src_fingerprint (s : ClaudeSource) : list Z := format_fingerprint (src_format s).
Definition src_supported (s : ClaudeSource) : bool := role_supported (src_role s) && format_supported (src_format s).

Inductive ClaudeCaptureError :=
| Unsupported (fingerprint : list Z) | RootAbsent | PermissionDenied | ReadError | FormatChanged (fingerprint : list Z) | CursorSourceShrank.

(** What the file system answers to one pass: the metadata, the file as the header is read,
    and the file as it is read whole. *)
Inductive IoErrorKind := NotFound | AccessDenied | OtherIo.
Record Reads := mkReads
  { at_metadata : FileIdentity + IoErrorKind; at_prefix : list Z + IoErrorKind; at_read : list Z + IoErrorKind }.

Definition map_io_error (e : IoErrorKind) : ClaudeCaptureError :=
  match e with NotFound => RootAbsent | AccessDenied => PermissionDenied | OtherIo => ReadError end.

Definition answered {A} (x : A + IoErrorKind) : result ClaudeCaptureError A :=
  match x with inl a => Ok a | inr e => Err (map_io_error e) end.
Definition file_identity (r : Reads) : result ClaudeCaptureError FileIdentity := answered (at_metadata r).
Definition read_prefix (r : Reads) : result ClaudeCaptureError (list Z) :=
  let! bytes := answered (at_prefix r) in Ok (take MAX_HEADER_BYTES bytes).
Definition read_all (r : Reads) : result ClaudeCaptureError (list Z) := answered (at_read r).

(** * Chunks *)

Inductive ClaudeArtifactKind := JsonlArtifact | ObjectArtifact.
Record Chunk := mkChunk
  { artifact : ClaudeArtifactKind; chunk_generation : SourceGeneration; chunk_bytes : list Z; chunk_digest : list Z;
    range_start : Z; range_end : Z; chunk_sequence : Z; chunk_fingerprint : list Z }.

(** [?] in a pass: the stream as it is, and the error. *)
Definition reading {C A B} (c : C) (m : result ClaudeCaptureError A) (k : A -> option (C * result ClaudeCaptureError B))
    : option (C * result ClaudeCaptureError B) :=
  match m with Ok a => k a | Err e => Some (c, Err e) | OutOfFuel => Some (c, OutOfFuel) end.

(** The tracker's part of a pass: observe, or begin. *)
Definition track (id : list Z) (t : option FileGenerationTracker) (identity : FileIdentity) (snapshot : list Z)
    : option (FileGenerationTracker * bool) :=
  match t with
  | Some t =>
      '(t, decision) ← tracker_observe id t identity snapshot;
      Some (t, match decision with Rotated _ => true | Continue => false end)
  | None => t ← tracker_begin id identity snapshot; Some (t, false)
  end.

(** * JSONL capture *)

Record JsonlCapture := mkJsonl
  { jl_source : ClaudeSource; jl_tracker : option FileGenerationTracker; jl_cursor : CaptureCursor; jl_sequence : Z }.
Definition JsonlCapture_new (s : ClaudeSource) : JsonlCapture := mkJsonl s None CaptureCursor_new 0.

Definition checked_end (start : Z) (len : nat) : Z :=
  let sum := start + measured len in
  if (sum <=? U64_MAX) && (1 <=? sum) then sum - 1 else U64_MAX.

Definition jsonl_capture (id : list Z) (c : JsonlCapture) (identity : FileIdentity) (bytes : list Z)
    : option (JsonlCapture * result ClaudeCaptureError (option Chunk)) :=
  match track id (jl_tracker c) identity bytes with
  | None => None
  | Some (tracker, turned) =>
      let cursor := if turned then CaptureCursor_new else jl_cursor c in
      let sequence := if turned then 0 else jl_sequence c in
      let start := position cursor in
      match cursor_observe cursor bytes with
      | (cursor, Ok outcome) =>
          if bool_decide (captured outcome = []) then Some (mkJsonl (jl_source c) (Some tracker) cursor sequence, Ok None)
          else
            let chunk := mkChunk JsonlArtifact (current tracker) (captured outcome) (claude_sha256 (captured outcome))
              start (checked_end start (length (captured outcome))) sequence (src_fingerprint (jl_source c)) in
            Some (mkJsonl (jl_source c) (Some tracker) cursor (sat_add64 sequence 1), Ok (Some chunk))
      | (cursor, _) => Some (mkJsonl (jl_source c) (Some tracker) cursor sequence, Err CursorSourceShrank)
      end
  end.

Definition jsonl_next_chunk (id : list Z) (c : JsonlCapture) (r : Reads)
    : option (JsonlCapture * result ClaudeCaptureError (option Chunk)) :=
  reading c (file_identity r) (fun identity =>
  reading c (read_prefix r) (fun prefix =>
  let detected := detect_jsonl prefix in
  if negb (bool_decide (detected = src_format (jl_source c))) then Some (c, Err (FormatChanged (format_fingerprint detected)))
  else reading c (read_all r) (fun bytes => jsonl_capture id c identity bytes))).

(** * Whole-object capture *)

Record ObjectCapture := mkObject
  { oc_source : ClaudeSource; oc_tracker : option FileGenerationTracker; oc_last_digest : option (list Z); oc_sequence : Z }.
Definition ObjectCapture_new (s : ClaudeSource) : ObjectCapture := mkObject s None None 0.

Definition digest_probe (d : list Z) : list Z := d ++ [newline].

Definition object_capture (id : list Z) (c : ObjectCapture) (identity : FileIdentity) (bytes : list Z)
    : option (ObjectCapture * result ClaudeCaptureError (option Chunk)) :=
  let digest_ := claude_sha256 bytes in
  match track id (oc_tracker c) identity (digest_probe digest_) with
  | None => None
  | Some (tracker, turned) =>
      let changed := negb (bool_decide (oc_last_digest c = Some digest_)) in
      if (negb turned && negb changed) || bool_decide (bytes = [])
      then Some (mkObject (oc_source c) (Some tracker) (Some digest_) (oc_sequence c), Ok None)
      else
        let chunk := mkChunk ObjectArtifact (current tracker) bytes digest_ 0 (sat_sub (measured (length bytes)) 1)
          (oc_sequence c) (src_fingerprint (oc_source c)) in
        Some (mkObject (oc_source c) (Some tracker) (Some digest_) (sat_add64 (oc_sequence c) 1), Ok (Some chunk))
  end.

Definition object_next_chunk (id : list Z) (c : ObjectCapture) (r : Reads)
    : option (ObjectCapture * result ClaudeCaptureError (option Chunk)) :=
  reading c (file_identity r) (fun identity =>
  reading c (read_prefix r) (fun prefix =>
  if negb (bool_decide (detect_sidecar prefix = src_format (oc_source c)))
  then Some (c, Err (FormatChanged (format_fingerprint Unknown)))
  else reading c (read_all r) (fun bytes => object_capture id c identity bytes))).

(** * Opening a source *)

Inductive ClaudeCapture := JsonlStream (c : JsonlCapture) | ObjectStream (c : ObjectCapture).

Definition open_source (s : ClaudeSource) : result ClaudeCaptureError ClaudeCapture :=
  match src_denied s with
  | Some true => Err PermissionDenied
  | Some false => Err ReadError
  | None =>
      if negb (src_supported s) then Err (Unsupported (src_fingerprint s))
      else if negb (bool_decide (src_fingerprint s ∈ JSONL_FINGERPRINTS ++ [SIDECAR_FINGERPRINT])) then Err (Unsupported (src_fingerprint s))
      else Ok (if role_is_jsonl (src_role s) then JsonlStream (JsonlCapture_new s) else ObjectStream (ObjectCapture_new s))
  end.

Definition next_chunk (id : list Z) (c : ClaudeCapture) (r : Reads)
    : option (ClaudeCapture * result ClaudeCaptureError (option Chunk)) :=
  match c with
  | JsonlStream c => '(c, out) ← jsonl_next_chunk id c r; Some (JsonlStream c, out)
  | ObjectStream c => '(c, out) ← object_next_chunk id c r; Some (ObjectStream c, out)
  end.
