(* ===== verification/CaptureFacts.v ===== *)
(** What capture guarantees: the adapter's digest is SHA-256, a snapshot is split into whole
    records, a generation ends exactly on a discontinuity, and a stream's chunks are the
    complete records of its generation, once and in order. *)

From stdpp Require Import list.
From S2P Require Import Prelude Text Sha256 FileCapture ClaudeCapture.

Open Scope Z_scope.

(** * The adapter's SHA-256 *)

Lemma block_words block : length block = 64%nat -> map (word_at block) (seq 0 16) = be_words block.
Proof. intros Hl. do 64 (destruct block as [|? block]; [done|]). by destruct block. Qed.

Lemma words_extend n : forall i w, length w = i -> (16 <= i)%nat ->
  fold_left (fun words index => <[index := schedule_word words index]> words) (seq i n) (w ++ replicate n 0) = extend_schedule n i w.
Proof.
  induction n as [|n IH]; intros i w Hl Hi; [by rewrite app_nil_r|]. cbn [seq fold_left extend_schedule replicate].
  assert (Hw : forall j, (j < i)%nat -> word (w ++ 0 :: replicate n 0) j = word w j) by (intros j Hj; apply app_nth1; lia).
  assert (Hs : schedule_word (w ++ 0 :: replicate n 0) i = schedule_word w i).
  { unfold schedule_word. by rewrite !Hw by lia. }
  rewrite Hs, <- Hl, <- (Nat.add_0_r (length w)), insert_app_r. cbn [insert list_insert]. rewrite Nat.add_0_r, Hl.
  rewrite <- (IH (S i) (w ++ [schedule_word w i])) by (rewrite ?length_app; cbn; lia). by rewrite <- app_assoc.
Qed.

Lemma claude_words_schedule block : length block = 64%nat -> claude_words block = schedule block.
Proof.
  intros Hl. unfold claude_words, schedule. rewrite (block_words block Hl). apply words_extend; [|lia].
  do 64 (destruct block as [|? block]; [done|]). by destruct block.
Qed.

Lemma zip_nth (l k : list Z) : length l = length k -> zip l k = map (fun i => (word l i, word k i)) (seq 0 (length l)).
Proof.
  revert k. induction l as [|x l IH]; intros [|y k] Hk; try done. cbn [zip_with length seq map]. f_equal.
  injection Hk as Hk. by rewrite <- seq_shift, map_map, IH.
Qed.

Lemma length_extend n : forall i w, length (extend_schedule n i w) = (length w + n)%nat.
Proof. induction n as [|n IH]; intros i w; cbn; [lia|]. rewrite IH, length_app. cbn. lia. Qed.

Lemma claude_block_compress state block : length block = 64%nat -> claude_block state block = compress state block.
Proof.
  intros Hl. unfold claude_block, compress. rewrite (claude_words_schedule block Hl).
  assert (Hk : length (schedule block) = 64%nat).
  { unfold schedule. rewrite length_extend, <- (block_words block Hl). done. }
  rewrite zip_nth by (by rewrite Hk). change (length K) with 64%nat.
  assert (Hf : forall l v, fold_left (claude_round (schedule block)) l v =
    fold_left round (map (fun i => (word K i, word (schedule block) i)) l) v).
  { induction l as [|i l IH]; intros v; [done|]. cbn [fold_left map]. rewrite <- IH. reflexivity. }
  by rewrite Hf.
Qed.

Lemma padded_length n : ((n + 9 + 63) / 64 * 64 = n + 1 + pad_count (S n mod 64) + 8)%nat.
Proof.
  pose proof (Nat.div_mod_eq (S n) 64) as Hd. pose proof (Nat.mod_upper_bound (S n) 64 ltac:(lia)) as Hm.
  set (q := (S n / 64)%nat) in *. set (r := (S n mod 64)%nat) in *. unfold pad_count.
  destruct (Nat.leb_spec r 56).
  - replace (n + 9 + 63)%nat with (r + 7 + (q + 1) * 64)%nat by lia. rewrite Nat.div_add by lia.
    rewrite (Nat.div_small (r + 7)) by lia. lia.
  - replace (n + 9 + 63)%nat with (r - 57 + (q + 2) * 64)%nat by lia. rewrite Nat.div_add by lia.
    rewrite (Nat.div_small (r - 57)) by lia. lia.
Qed.

Lemma claude_padded_pad m : zlen m < 2 ^ 61 -> claude_padded m = pad m.
Proof.
  intros Hm. unfold claude_padded, pad. rewrite padded_length. set (p := pad_count (S (length m) mod 64)).
  assert (E1 : copy_into (replicate (length m + 1 + p + 8) 0) 0 m = m ++ 0 :: replicate (p + 8) 0).
  { unfold copy_into. rewrite take_0, drop_replicate. cbn [app]. f_equal. 
    replace (length m + 1 + p + 8 - (0 + length m))%nat with (S (p + 8)) by lia. done. }
  rewrite E1. cbv zeta.
  assert (E3 : <[length m := 0x80]> (m ++ 0 :: replicate (p + 8) 0) = m ++ 0x80 :: replicate (p + 8) 0).
  { rewrite <- (Nat.add_0_r (length m)) at 1. by rewrite insert_app_r. }
  rewrite E3.
  assert (E2 : sat_mul64 (measured (length m)) 8 = wrap_mul64 (zlen m mod u64_modulus) 8).
  { unfold sat_mul64, measured, wrap_mul64, zlen in *. change (2 ^ 61) with 2305843009213693952 in Hm.
    unfold U64_MAX, u64_modulus. change (2 ^ 64) with 18446744073709551616.
    rewrite (Z.mod_small (Z.of_nat (length m))) by lia. rewrite Z.mod_small by lia. lia. }
  rewrite E2. unfold copy_into. rewrite length_to_be_bytes.
  assert (Hl : length (m ++ 0x80 :: replicate (p + 8) 0) = (length m + 1 + p + 8)%nat).
  { rewrite length_app. cbn [length]. rewrite length_replicate. lia. }
  rewrite Hl. rewrite (drop_ge _ (_ + 8)) by lia. rewrite app_nil_r.
  replace (length m + 1 + p + 8 - 8)%nat with (length m + (1 + p))%nat by lia.
  rewrite take_app_add. cbn [Nat.add take]. rewrite take_replicate, Nat.min_l by lia. by rewrite <- app_assoc.
Qed.

Lemma claude_sha256_digest m : zlen m < 2 ^ 61 -> claude_sha256 m = digest m.
Proof.
  intros Hm. rewrite digest_spec. unfold claude_sha256, sha256_spec. rewrite (claude_padded_pad m Hm).
  assert (Hp : (length (pad m) / 64 * 64 <= length (pad m))%nat).
  { rewrite Nat.mul_comm. apply Nat.Div0.mul_div_le. }
  revert Hp. generalize (length (pad m) / 64)%nat as n. generalize (pad m) as l. intros l n Hn. f_equal.
  change claude_INITIAL with H0. generalize H0 as st. revert l Hn.
  induction n as [|n IH]; intros l Hn st; [done|]. cbn [chunks64 fold_left].
  rewrite claude_block_compress by (rewrite length_take; lia). apply IH. rewrite length_drop. lia.
Qed.

(** C32: The digest the adapter computes with its own routine, padding the whole message at once
    and filling the message schedule in place, is the streaming hasher's: SHA-256 of the bytes
    as FIPS 180-4 defines it, for every message shorter than two exbibytes. *)
Theorem adapter_sha256_exact m : zlen m < 2 ^ 61 -> claude_sha256 m = digest m /\ claude_sha256 m = sha256_spec m.
Proof. intros Hm. rewrite <- digest_spec. split; by apply claude_sha256_digest. Qed.

(** * Boundaries *)

(** Nothing, or ending with a newline. *)
Definition whole (l : list Z) : Prop := l = [] \/ exists a, l = a ++ [newline].
Definition line_free (l : list Z) : Prop := Forall (fun b => (newline =? b) = false) l.

Lemma line_free_app a b : line_free (a ++ b) <-> line_free a /\ line_free b.
Proof. apply Forall_app. Qed.

Lemma line_free_newline b : ~ line_free (newline :: b).
Proof. intros Hf. by inversion Hf. Qed.

Lemma rposition_spec test l :
  match rposition test l with
  | Some i => exists a x b, l = a ++ x :: b /\ length a = i /\ test x = true /\ Forall (fun y => test y = false) b
  | None => Forall (fun y => test y = false) l
  end.
Proof.
  induction l as [|x l IH]; cbn [rposition]; [done|]. destruct (rposition test l) as [i|].
  - destruct IH as (a & y & b & -> & <- & Hy & Hb). by exists (x :: a), y, b.
  - destruct (test x) eqn:Ex; [|by constructor]. by exists [], x, l.
Qed.

Lemma prefix_cases s : (line_free s /\ complete_prefix s = []) \/
  exists a b, s = a ++ newline :: b /\ line_free b /\ complete_prefix s = a ++ [newline].
Proof.
  unfold complete_prefix. pose proof (rposition_spec (Z.eqb newline) s) as Hs. destruct (rposition _ s) as [i|]; [right|by left].
  destruct Hs as (a & x & b & -> & <- & <-%Z.eqb_eq & Hb). exists a, b. split_and!; [done..|].
  replace (S (length a)) with (length a + 1)%nat by lia. by rewrite take_app_add.
Qed.

Lemma prefix_whole s : whole (complete_prefix s).
Proof. destruct (prefix_cases s) as [[_ ->]|(a & b & _ & _ & ->)]; [by left|right; eauto]. Qed.

Lemma prefix_tail s : s = complete_prefix s ++ incomplete_tail s /\ line_free (incomplete_tail s).
Proof.
  unfold incomplete_tail. destruct (prefix_cases s) as [[Hf ->]|(a & b & -> & Hf & ->)]; [done|].
  rewrite (cons_middle newline a b), app_assoc, drop_app_length. done.
Qed.

Lemma line_free_prefix l : line_free l -> complete_prefix l = [].
Proof.
  intros Hf. destruct (prefix_cases l) as [[_ ?]|(a & b & -> & _ & _)]; [done|].
  apply line_free_app in Hf as [_ Hf]. by apply line_free_newline in Hf.
Qed.

(** The split is the only one. *)
Lemma prefix_unique a b : whole a -> line_free b -> complete_prefix (a ++ b) = a.
Proof.
  intros [->|(a' & ->)] Hb; [by apply line_free_prefix|]. unfold complete_prefix. rewrite <- app_assoc. cbn [app].
  pose proof (rposition_spec (Z.eqb newline) (a' ++ newline :: b)) as Hs. destruct (rposition _ _) as [i|].
  - destruct Hs as (c & x & d & E & <- & <-%Z.eqb_eq & Hd).
    assert (Ed : c = a' /\ d = b); [|destruct Ed as [-> ->]].
    { apply app_eq_inv in E as [(k & -> & E)|(k & -> & E)].
      - destruct k as [|y k]; [by injection E as ->; rewrite app_nil_r|]. injection E as <- ->.
        apply (line_free_app k) in Hd as [_ Hd]. by apply line_free_newline in Hd.
      - destruct k as [|y k]; [injection E as ->; by rewrite app_nil_r|]. injection E as <- ->.
        apply line_free_app in Hb as [_ Hb]. by apply line_free_newline in Hb. }
    replace (S (length a')) with (length a' + 1)%nat by lia. by rewrite take_app_add.
  - apply (line_free_app a') in Hs as [_ Hs]. by apply line_free_newline in Hs.
Qed.

Lemma whole_app a b : whole a -> whole b -> whole (a ++ b).
Proof. intros Ha [->|(b' & ->)]; [by rewrite app_nil_r|]. right. exists (a ++ b'). by rewrite app_assoc. Qed.

Lemma prefix_extends p u : whole p -> complete_prefix (p ++ u) = p ++ complete_prefix u.
Proof.
  intros Hp. destruct (prefix_tail u) as [Hu Hf]. rewrite Hu at 1. rewrite app_assoc.
  apply prefix_unique; [|done]. apply whole_app; [done|apply prefix_whole].
Qed.

(** ** Records *)

Definition is_record (r : list Z) : Prop := exists a, line_free a /\ r = a ++ [newline].

Lemma split_line_free a l : line_free a ->
  split_inclusive (Z.eqb newline) (a ++ newline :: l) = (a ++ [newline]) :: split_inclusive (Z.eqb newline) l.
Proof.
  induction 1 as [|x a Hx _ IH]; [done|]. cbn [app split_inclusive]. rewrite Hx, IH. done.
Qed.

(** A whole sequence is its records. *)
Lemma whole_records l : whole l -> exists rs, l = concat rs /\ Forall is_record rs /\ split_inclusive (Z.eqb newline) l = rs.
Proof.
  remember (length l) as n eqn:En. revert l En. induction n as [n IH] using lt_wf_ind. intros l -> Hl.
  destruct Hl as [->|(a & ->)]; [by exists []|].
  assert (Hsplit : exists b c, a ++ [newline] = b ++ newline :: c /\ line_free b).
  { clear IH. induction a as [|x a (b & c & E & Hb)]; [exists [], []; by split; [|constructor]|]. destruct (newline =? x) eqn:Ex.
    - apply Z.eqb_eq in Ex as <-. exists [], (a ++ [newline]). by split; [|constructor].
    - exists (x :: b), c. cbn [app]. rewrite E. split; [done|]. by constructor. }
  destruct Hsplit as (b & c & E & Hb). rewrite E.
  assert (Hc : whole c).
  { destruct c as [|y c' _] using rev_ind; [by left|]. right. exists c'.
    rewrite (app_comm_cons c'), app_assoc in E. by apply app_inj_tail in E as [_ <-]. }
  destruct (IH (length c)) with (l := c) as (rs & Ec & Hrs & Hs); [|done|done|].
  { apply (f_equal length) in E. rewrite !length_app in E. rewrite length_app. cbn in *. lia. }
  exists ((b ++ [newline]) :: rs). rewrite split_line_free, Hs by done. split_and!; [|by constructor; [exists b|]|done].
  cbn [concat]. rewrite <- app_assoc, <- Ec. done.
Qed.


Lemma prefix_cons x s : complete_prefix (x :: s) =
  match complete_prefix s with [] => if newline =? x then [x] else [] | l => x :: l end.
Proof.
  unfold complete_prefix. cbn [rposition]. pose proof (rposition_spec (Z.eqb newline) s) as Hs.
  destruct (rposition (Z.eqb newline) s) as [i|].
  - destruct Hs as (a & y & b & -> & <- & _). cbn [take]. by destruct a.
  - by destruct (newline =? x).
Qed.

Lemma select_loop_spec s : forall index bytes count_, select_loop index s bytes count_ =
  (match complete_prefix s with [] => bytes | l => (index + length l)%nat end,
   (count_ + length (List.filter (Z.eqb newline) s))%nat).
Proof.
  induction s as [|x s IH]; intros index bytes count_; cbn [select_loop List.filter]; [cbn; f_equal; lia|].
  rewrite prefix_cons, (Z.eqb_sym x). destruct (newline =? x) eqn:Ex; rewrite IH.
  - cbn [length]. f_equal; [|lia]. destruct (complete_prefix s); cbn [length]; lia.
  - f_equal. destruct (complete_prefix s); cbn [length]; lia.
Qed.

Lemma filter_line_free l : line_free l -> List.filter (Z.eqb newline) l = [].
Proof. induction 1 as [|x l Hx _ IH]; [done|]. cbn [List.filter]. by rewrite Hx. Qed.

Lemma records_spec s : concat (records s) = complete_prefix s /\ Forall is_record (records s) /\
  length (records s) = length (List.filter (Z.eqb newline) s).
Proof.
  unfold records. destruct (whole_records (complete_prefix s) (prefix_whole s)) as (rs & E & Hr & ->).
  split_and!; [done..|]. destruct (prefix_tail s) as [Hs Hf]. rewrite Hs, E, List.filter_app, (filter_line_free _ Hf), app_nil_r.
  clear -Hr. induction Hr as [|r rs (a & Ha & ->) _ IH]; [done|]. cbn [concat length].
  rewrite !List.filter_app, (filter_line_free a Ha). cbn. by rewrite IH.
Qed.

(** What a slice can hold and the adapter's hash can measure. *)
Definition fits (l : list Z) : Prop := zlen l < 2 ^ 61.

Lemma fits_le l n : fits l -> (n <= length l)%nat -> measured n = Z.of_nat n.
Proof. unfold fits, measured, zlen, U64_MAX. change (2 ^ 61) with 2305843009213693952. lia. Qed.

Lemma length_prefix s : length s = (length (complete_prefix s) + length (incomplete_tail s))%nat.
Proof. destruct (prefix_tail s) as [Hs _]. rewrite Hs at 1. apply length_app. Qed.

Lemma length_records s : (length (records s) <= length (complete_prefix s))%nat.
Proof.
  destruct (records_spec s) as (E & Hr & _). rewrite <- E. clear E. induction Hr as [|r rs (a & _ & ->) _ IH]; [done|].
  cbn [concat length]. rewrite !length_app. cbn. lia.
Qed.

Lemma select_spec s : fits s ->
  select s = mkBoundary (zlen (complete_prefix s)) (zlen (records s)) (zlen (incomplete_tail s)).
Proof.
  intros Hs. unfold select. rewrite select_loop_spec. destruct (records_spec s) as (_ & _ & <-).
  pose proof (length_prefix s). pose proof (length_records s).
  assert (E : match complete_prefix s with [] => 0%nat | l => (0 + length l)%nat end = length (complete_prefix s)) by (by destruct (complete_prefix s)).
  rewrite E. cbn [Nat.add]. rewrite !(fits_le s) by (done || lia). unfold zlen. f_equal. lia.
Qed.

(** ** The cursor *)

Lemma fits_app a b : fits (a ++ b) -> fits a /\ fits b.
Proof. unfold fits. rewrite zlen_app. pose proof (zlen_nonneg a). pose proof (zlen_nonneg b). lia. Qed.

Lemma to_nat_zlen {A} (l : list A) : Z.to_nat (zlen l) = length l.
Proof. apply Nat2Z.id. Qed.

(** From a boundary, a pass captures exactly the records completed past it. *)
Lemma cursor_pass p u n : whole p -> fits (p ++ u) -> 0 <= n <= zlen p ->
  cursor_observe (mkCursor (zlen p) n) (p ++ u) =
    (mkCursor (zlen (complete_prefix (p ++ u))) (n + zlen (records u)),
     Ok (mkOutcome (complete_prefix u)
           (mkBoundary (zlen (complete_prefix (p ++ u))) (n + zlen (records u)) (zlen (incomplete_tail u))))).
Proof.
  intros Hp Hf Hn. destruct (fits_app _ _ Hf) as [_ Hu]. unfold cursor_observe. cbn [position cursor_records].
  rewrite zlen_app. pose proof (zlen_nonneg u). rewrite (proj2 (Z.ltb_ge _ _)) by lia.
  rewrite to_nat_zlen, drop_app_length. cbn [complete_bytes complete_records incomplete_tail_bytes].
  rewrite (select_spec u Hu). cbn [complete_bytes complete_records incomplete_tail_bytes]. rewrite to_nat_zlen.
  rewrite (prefix_extends p u Hp), zlen_app.
  assert (Hcap : take (length (complete_prefix u)) u = complete_prefix u).
  { destruct (prefix_tail u) as [E _]. rewrite E at 2. apply take_app_length. }
  pose proof (length_prefix u). pose proof (length_records u). unfold fits in Hf. rewrite zlen_app in Hf.
  rewrite Hcap. unfold sat_add64, U64_MAX. change (2 ^ 61) with 2305843009213693952 in Hf. unfold zlen in *.
  rewrite !Z.min_r by lia. reflexivity.
Qed.

(** * Detection *)

(** The complete records but the last. *)
Definition head_of (s : list Z) : list Z := concat (removelast (records s)).

Lemma rposition_unique a b : line_free b -> rposition (Z.eqb newline) (a ++ newline :: b) = Some (length a).
Proof.
  intros Hb. pose proof (rposition_spec (Z.eqb newline) (a ++ newline :: b)) as Hs.
  pose proof (prefix_unique (a ++ [newline]) b (or_intror (ex_intro _ a eq_refl)) Hb) as Hp.
  rewrite <- app_assoc in Hp. cbn [app] in Hp. unfold complete_prefix in Hp. destruct (rposition _ _) as [i|].
  - f_equal. destruct Hs as (c & x & d & E & <- & _ & _). apply (f_equal length) in Hp, E. rewrite length_take, !length_app in Hp.
    rewrite !length_app in E. cbn [length] in *. lia.
  - by destruct a.
Qed.

Lemma rposition_free l : line_free l -> rposition (Z.eqb newline) l = None.
Proof.
  intros Hf. pose proof (rposition_spec (Z.eqb newline) l) as Hs. destruct (rposition _ l) as [i|]; [|done].
  destruct Hs as (a & x & b & -> & _ & <-%Z.eqb_eq & _). apply line_free_app in Hf as [_ Hf]. by apply line_free_newline in Hf.
Qed.

Lemma concat_whole rs : Forall is_record rs -> whole (concat rs).
Proof.
  induction 1 as [|r rs (a & _ & ->) _ IH]; [by left|]. cbn [concat]. apply whole_app; [|done]. right. by exists a.
Qed.

Lemma head_spec s : fits s -> last_record_start (complete_prefix s) = zlen (head_of s) /\
  exists r, complete_prefix s = head_of s ++ r /\ whole (head_of s).
Proof.
  intros Hs. unfold head_of. destruct (records_spec s) as (E & Hr & _).
  destruct (records s) as [|r rs _] using rev_ind.
  { cbn in *. rewrite <- E. split; [done|]. exists []. split; [done|by left]. }
  rewrite removelast_last. rewrite concat_app in E. cbn [concat] in E. rewrite app_nil_r in E. rewrite <- E.
  apply Forall_app in Hr as [Hrs (a & Ha & ->)%Forall_singleton]. pose proof (concat_whole rs Hrs) as Hw.
  split; [|exists (a ++ [newline]); by split].
  unfold last_record_start. rewrite app_assoc. rewrite (rposition_unique _ []) by constructor. rewrite take_app_length.
  destruct Hw as [Ew|(h & Ew)]; rewrite Ew in *.
  - cbn [app]. by rewrite (rposition_free a Ha).
  - rewrite <- app_assoc. cbn [app]. rewrite (rposition_unique h a Ha).
    assert (Hl : (length h + 1 <= length s)%nat).
    { pose proof (length_prefix s) as Hl. rewrite <- E, !length_app in Hl. cbn in Hl. lia. }
    rewrite (fits_le s _ Hs Hl). unfold zlen. rewrite length_app. done.
Qed.

Lemma digest_range_take p n : 0 <= n <= zlen p -> digest_range p 0 n = Some (digest (take (Z.to_nat n) p)).
Proof.
  intros Hn. unfold digest_range. rewrite (proj2 (Z.leb_le _ _)) by lia. rewrite (proj2 (Z.leb_le _ _)) by lia. cbn [andb].
  change (Z.to_nat 0) with 0%nat. by rewrite Nat.sub_0_r, drop_0.
Qed.

Lemma fits_prefix s : fits s -> fits (complete_prefix s).
Proof. intros Hs. destruct (prefix_tail s) as [E _]. rewrite E in Hs. by apply fits_app in Hs as [? _]. Qed.

(** The acknowledgement of a snapshot never panics, and is of its complete records. *)
Lemma acknowledge_spec i s : fits s -> exists tail_, acknowledge i s =
  Some (mkAcknowledgedSource i (zlen (complete_prefix s)) (digest (complete_prefix s)) (digest (head_of s)) (zlen (head_of s)) tail_).
Proof.
  intros Hs. unfold acknowledge. rewrite (select_spec s Hs). cbn [complete_bytes].
  destruct (head_spec s Hs) as (-> & r & E & _).
  assert (Hl : 0 <= zlen (head_of s) <= zlen (complete_prefix s)).
  { rewrite E, zlen_app. pose proof (zlen_nonneg (head_of s)). pose proof (zlen_nonneg r). lia. }
  rewrite !digest_range_take by (pose proof (zlen_nonneg (complete_prefix s)); lia).
  rewrite !to_nat_zlen, firstn_all. cbn [mbind option_bind].
  assert (Et : take (length (head_of s)) (complete_prefix s) = head_of s) by (rewrite E; apply take_app_length).
  rewrite Et. unfold digest_range. rewrite (proj2 (Z.leb_le _ _)) by lia. rewrite (proj2 (Z.leb_le _ _)) by lia.
  cbn [andb mbind option_bind]. eexists. reflexivity.
Qed.

(** What an observation says of the one before it. *)
Definition discontinuity (i0 : FileIdentity) (s0 : list Z) (i1 : FileIdentity) (s1 : list Z) : option GenerationCause :=
  let p0 := complete_prefix s0 in
  let p1 := complete_prefix s1 in
  if negb (bool_decide (i1 = i0)) then Some FileIdentityChange
  else if bool_decide (p0 `prefix_of` p1) then None
  else if (length p1 <? length p0)%nat then
    if (length (head_of s0) <=? length p1)%nat && negb (bool_decide (head_of s0 `prefix_of` p1)) then Some Rewind else Some Truncation
  else if bool_decide (head_of s0 `prefix_of` p1) then Some TailMismatch
  else if (length p1 =? length p0)%nat then Some IncompatibleRewrite else Some DigestChange.

Definition decision_of (id : list Z) (c : option GenerationCause) : GenerationDecision :=
  match c with Some c => Rotated (mkGeneration id c) | None => Continue end.

(** The digest tells a region from the bytes now in its place. *)
Definition tells (region p : list Z) : Prop :=
  digest (take (length region) p) = digest region -> take (length region) p = region.

Lemma tells_prefix r p : tells r p -> bool_decide (digest (take (length r) p) = digest r) = bool_decide (r `prefix_of` p).
Proof.
  intros Ht. apply bool_decide_ext. split.
  - intros E%Ht. exists (drop (length r) p). rewrite <- E at 1. by rewrite take_drop.
  - intros [k ->]. by rewrite take_app_length.
Qed.

Lemma detect_spec id i0 s0 i1 s1 a : fits s0 -> fits s1 -> acknowledge i0 s0 = Some a ->
  tells (complete_prefix s0) (complete_prefix s1) -> tells (head_of s0) (complete_prefix s1) ->
  detect_generation id a (SourceObservation_observe i1 s1) = Some (decision_of id (discontinuity i0 s0 i1 s1)).
Proof.
  intros H0 H1 Ha T1 T2. destruct (acknowledge_spec i0 s0 H0) as (tail_ & E). rewrite E in Ha. injection Ha as <-.
  unfold detect_generation, discontinuity, SourceObservation_observe. cbn [obs_identity obs_snapshot obs_boundary ack_identity
    ack_complete_bytes ack_tail_start ack_head ack_content]. rewrite (select_spec s1 H1). cbn [complete_bytes].
  set (p0 := complete_prefix s0) in *. set (p1 := complete_prefix s1) in *. set (h := head_of s0) in *.
  assert (Hh : (length h <= length p0)%nat).
  { destruct (head_spec s0 H0) as (_ & r & Er & _). unfold p0, h. rewrite Er, length_app. lia. }
  destruct (negb _); [done|].
  destruct (Z.ltb_spec (zlen p1) (zlen p0)) as [Hlt|Hge].
  - assert (Hn : ~ p0 `prefix_of` p1) by (intros ?%prefix_length; unfold zlen in Hlt; lia).
    rewrite (bool_decide_false _ Hn). rewrite (proj2 (Nat.ltb_lt _ _)) by (unfold zlen in Hlt; lia).
    destruct (Nat.leb_spec (length h) (length p1)) as [Hle|Hgt]; cbn [andb].
    + rewrite (proj2 (Z.leb_le (zlen h) (zlen p1))) by (unfold zlen; lia).
      rewrite digest_range_take, to_nat_zlen by (unfold zlen; lia). cbn [mbind option_bind].
      rewrite (tells_prefix h p1 T2). by destruct (negb _).
    + by rewrite (proj2 (Z.leb_gt (zlen h) (zlen p1))) by (unfold zlen; lia).
  - rewrite (digest_range_take p1 (zlen p0)), to_nat_zlen by (pose proof (zlen_nonneg p0); lia). cbn [mbind option_bind].
    rewrite (tells_prefix p0 p1 T1). destruct (bool_decide (p0 `prefix_of` p1)); [done|].
    rewrite (proj2 (Nat.ltb_ge _ _)) by (unfold zlen in Hge; lia).
    rewrite (digest_range_take p1 (zlen h)), to_nat_zlen by (unfold zlen in *; lia). cbn [mbind option_bind].
    rewrite (tells_prefix h p1 T2). destruct (bool_decide _); [done|].
    unfold zlen in *. destruct (Nat.eqb_spec (length p1) (length p0)) as [El|El].
    + by rewrite El, Z.eqb_refl.
    + by rewrite (proj2 (Z.eqb_neq _ _)) by lia.
Qed.
