(* ===== verification/CaptureRun.v ===== *)
(** Passes over a growing, rewritten or replaced file: the decision of every pass, and the
    chunks of a JSONL stream, which are the complete records of the open generation. *)

From stdpp Require Import list.
From S2P Require Import Prelude Text Sha256 FileCapture ClaudeCapture CaptureFacts.

Open Scope Z_scope.

(** C31: A generation ends exactly on a discontinuity.  The acknowledgement of a snapshot never
    panics and can be restored from its persisted parts, and held against the next snapshot it
    decides by the bytes of the complete records: the generation continues exactly when the
    file is the same and the acknowledged records are still there, and otherwise the one cause
    of the table is named.  SHA-256 must tell the two acknowledged regions from the bytes now
    in their place. *)
Theorem generation_decision_exact id i0 s0 i1 s1 : fits s0 -> fits s1 ->
  tells (complete_prefix s0) (complete_prefix s1) -> tells (head_of s0) (complete_prefix s1) ->
  exists a, acknowledge i0 s0 = Some a /\
    from_parts (ack_identity a) (ack_complete_bytes a) (ack_content a) (ack_head a) (ack_tail_start a) (ack_tail a) = Ok a /\
    detect_generation id a (SourceObservation_observe i1 s1) = Some (decision_of id (discontinuity i0 s0 i1 s1)).
Proof.
  intros H0 H1 T1 T2. destruct (acknowledge_spec i0 s0 H0) as (tail_ & E). eexists. split; [exact E|]. split.
  - unfold from_parts. cbn [ack_identity ack_complete_bytes ack_content ack_head ack_tail_start ack_tail].
    destruct (head_spec s0 H0) as (_ & r & Er & _). rewrite (proj2 (Z.ltb_ge _ _)); [done|].
    rewrite Er, zlen_app. pose proof (zlen_nonneg r). lia.
  - by apply (detect_spec id i0 s0 i1 s1).
Qed.

(** * Passes *)

(** What a pass sees of the file, when it may be captured. *)
Definition snapshot_of (format : ClaudeFormat) (r : Reads) : option (FileIdentity * list Z) :=
  match at_metadata r, at_prefix r, at_read r with
  | inl identity, inl head_, inl bytes =>
      if bool_decide (detect_jsonl (take MAX_HEADER_BYTES head_) = format) then Some (identity, bytes) else None
  | _, _, _ => None
  end.

Lemma next_chunk_cases id c r :
  match snapshot_of (src_format (jl_source c)) r with
  | Some (identity, bytes) => jsonl_next_chunk id c r = jsonl_capture id c identity bytes
  | None => exists e, jsonl_next_chunk id c r = Some (c, Err e) /\ e <> CursorSourceShrank
  end.
Proof.
  unfold snapshot_of, jsonl_next_chunk, file_identity, read_prefix, read_all. destruct r as [[i|e] [h|e'] [b|e'']]; cbn;
    try (case_bool_decide; cbn); try done; eexists; (split; [reflexivity|]); by try destruct e; try destruct e'; try destruct e''.
Qed.

Definition pass : Type := list Z * Reads.

(** A stream over many passes; each carries the identifier minted should a generation open. *)
Fixpoint run_passes (c : JsonlCapture) (ps : list pass) : option (JsonlCapture * list (result ClaudeCaptureError (option Chunk))) :=
  match ps with
  | [] => Some (c, [])
  | (id, r) :: ps =>
      match jsonl_next_chunk id c r with
      | None => None
      | Some (c, out) => match run_passes c ps with None => None | Some (c, outs) => Some (c, out :: outs) end
      end
  end.

Definition chunk_of (out : result ClaudeCaptureError (option Chunk)) : option Chunk :=
  match out with Ok (Some chunk) => Some chunk | _ => None end.
Definition of_generation (g : SourceGeneration) (l : list Chunk) : list Chunk :=
  List.filter (fun ch => bool_decide (chunk_generation ch = g)) l.

(** Consecutive chunks: numbered from zero, each whole records with its digest, each starting
    where the one before it ended. *)
Fixpoint numbered (number start : Z) (l : list Chunk) : Prop :=
  match l with
  | [] => True
  | ch :: l =>
      chunk_sequence ch = number /\ range_start ch = start /\ range_end ch = start + zlen (chunk_bytes ch) - 1 /\
      chunk_bytes ch <> [] /\ whole (chunk_bytes ch) /\ chunk_digest ch = digest (chunk_bytes ch) /\
      numbered (number + 1) (start + zlen (chunk_bytes ch)) l
  end.

Definition content_of (l : list Chunk) : list Z := concat (map chunk_bytes l).

Lemma numbered_app l k : forall number start, numbered number start (l ++ k) <->
  numbered number start l /\ numbered (number + zlen l) (start + zlen (content_of l)) k.
Proof.
  induction l as [|ch l IH]; intros number start; cbn [app numbered].
  - change (zlen (@nil Chunk)) with 0. change (zlen (content_of [])) with 0. rewrite !Z.add_0_r. tauto.
  - rewrite IH. replace (number + zlen (ch :: l)) with (number + 1 + zlen l) by (rewrite zlen_cons; lia).
    replace (start + zlen (content_of (ch :: l))) with (start + zlen (chunk_bytes ch) + zlen (content_of l))
      by (unfold content_of; cbn [map concat]; rewrite zlen_app; lia). tauto.
Qed.

Lemma numbered_length l : forall number start, numbered number start l -> zlen l <= zlen (content_of l).
Proof.
  induction l as [|ch l IH]; intros number start; [done|]. intros (_ & _ & _ & Hne & _ & _ & Hl%IH).
  unfold content_of in *. cbn [map concat]. rewrite zlen_cons, zlen_app. destruct (chunk_bytes ch); [done|]. rewrite zlen_cons.
  pose proof (zlen_nonneg l0). lia.
Qed.

(** * One pass *)

Definition newlines (l : list Z) : Z := zlen (List.filter (Z.eqb newline) l).

Lemma newlines_app a b : newlines (a ++ b) = newlines a + newlines b.
Proof. unfold newlines. by rewrite List.filter_app, zlen_app. Qed.

Lemma newlines_prefix s : newlines (complete_prefix s) = newlines s.
Proof.
  destruct (prefix_tail s) as [E Hf]. rewrite E at 2. rewrite newlines_app. unfold newlines at 3.
  rewrite (filter_line_free _ Hf). change (zlen (@nil Z)) with 0. lia.
Qed.

Lemma newlines_le l : 0 <= newlines l <= zlen l.
Proof. unfold newlines, zlen. pose proof (filter_length_le (Z.eqb newline) l). lia. Qed.

(** The stream holds the chunks of generation [g], and its cursor stands behind them. *)
Record standing (g : SourceGeneration) (base : list Z) (mine : list Chunk) (cursor : CaptureCursor) (sequence : Z) : Prop := {
  st_cursor : cursor = mkCursor (zlen base) (newlines base);
  st_whole : whole base;
  st_content : content_of mine = base;
  st_numbered : numbered 0 0 mine;
  st_sequence : sequence = zlen mine }.

Lemma standing_new g : standing g [] [] CaptureCursor_new 0.
Proof. split; try done. by left. Qed.

(** The cursor's half of a pass from such a standing. *)
Lemma pass_stands g base mine cursor sequence u : standing g base mine cursor sequence -> fits (base ++ u) ->
  exists outcome, cursor_observe cursor (base ++ u) =
      (mkCursor (zlen (complete_prefix (base ++ u))) (newlines (complete_prefix (base ++ u))), Ok outcome) /\
    captured outcome = complete_prefix u /\
    forall chunk, chunk_sequence chunk = sequence -> range_start chunk = position cursor ->
      range_end chunk = checked_end (position cursor) (length (captured outcome)) -> chunk_bytes chunk = captured outcome ->
      chunk_digest chunk = claude_sha256 (captured outcome) -> captured outcome <> [] ->
      standing g (complete_prefix (base ++ u)) (mine ++ [chunk])
        (mkCursor (zlen (complete_prefix (base ++ u))) (newlines (complete_prefix (base ++ u)))) (sat_add64 sequence 1).
Proof.
  intros [-> Hw Hc Hn ->] Hf. destruct (fits_app _ _ Hf) as [Hb Hu]. eexists. split.
  { rewrite (cursor_pass base u (newlines base) Hw Hf (newlines_le base)). do 2 f_equal.
    rewrite newlines_prefix, newlines_app. f_equal. destruct (records_spec u) as (_ & _ & E). unfold newlines, zlen. by rewrite E. }
  split; [reflexivity|]. cbn [captured position]. intros chunk E1 E2 E3 E4 E5 Hne.
  rewrite (prefix_extends base u Hw). pose proof (numbered_length _ _ _ Hn) as Hlen. rewrite Hc in Hlen.
  assert (Hsize : zlen base + zlen (complete_prefix u) < 2 ^ 61).
  { pose proof (fits_prefix _ Hf) as Hp. rewrite (prefix_extends base u Hw) in Hp. unfold fits in Hp. by rewrite zlen_app in Hp. }
  change (2 ^ 61) with 2305843009213693952 in Hsize. pose proof (zlen_nonneg base). pose proof (zlen_nonneg (complete_prefix u)).
  split; [done|..].
  - apply whole_app; [done|apply prefix_whole].
  - unfold content_of. rewrite map_app, concat_app. cbn [map concat]. rewrite app_nil_r, E4. f_equal. exact Hc.
  - apply numbered_app. split; [done|]. rewrite Hc. cbn [numbered]. rewrite E1, E2, E3, E4, E5. split_and!; [lia|lia| |done|apply prefix_whole| |done].
    + unfold checked_end, measured, U64_MAX. fold (zlen (complete_prefix u)).
      assert (1 <= zlen (complete_prefix u)) by (destruct (complete_prefix u); [done|rewrite zlen_cons; pose proof (zlen_nonneg l); lia]).
      rewrite Z.min_r by lia. rewrite (proj2 (Z.leb_le _ _)) by lia. rewrite (proj2 (Z.leb_le _ _)) by lia. cbn [andb]. lia.
    + apply claude_sha256_digest. unfold fits in *. change (2 ^ 61) with 2305843009213693952. lia.
  - unfold sat_add64, U64_MAX. rewrite zlen_app. change (zlen [chunk]) with 1. lia.
Qed.

(** * Many passes *)

(** After the snapshots [snaps]: the last is acknowledged, and the chunks of the open
    generation are its complete records. *)
Definition following (ids : list (list Z)) (snaps : list (FileIdentity * list Z)) (chunks : list Chunk) (c : JsonlCapture) : Prop :=
  Forall (fun ch => generation (chunk_generation ch) ∈ ids) chunks /\
  match last snaps with
  | None => jl_tracker c = None /\ jl_cursor c = CaptureCursor_new /\ jl_sequence c = 0 /\ chunks = []
  | Some (i, s) => exists t, jl_tracker c = Some t /\ acknowledge i s = Some (acknowledged t) /\ generation (current t) ∈ ids /\
      standing (current t) (complete_prefix s) (of_generation (current t) chunks) (jl_cursor c) (jl_sequence c)
  end.

Definition told (s s' : FileIdentity * list Z) : Prop :=
  tells (complete_prefix s.2) (complete_prefix s'.2) /\ tells (head_of s.2) (complete_prefix s'.2).

Lemma of_generation_app g l k : of_generation g (l ++ k) = of_generation g l ++ of_generation g k.
Proof. apply List.filter_app. Qed.

Lemma of_generation_new id ca (ids : list (list Z)) chunks : id ∉ ids -> Forall (fun ch => generation (chunk_generation ch) ∈ ids) chunks ->
  of_generation (mkGeneration id ca) chunks = [].
Proof.
  intros Hid. induction 1 as [|ch l Hch _ IH]; [done|]. unfold of_generation in *. cbn [List.filter].
  rewrite bool_decide_false; [done|]. intros E. rewrite E in Hch. done.
Qed.

(** The tracker's half of a pass: the generation it leaves open, and where the cursor starts. *)
Lemma track_stands id ids snaps chunks c i s : following ids snaps chunks c -> id ∉ ids -> fits s ->
  (forall x, last snaps = Some x -> fits x.2 /\ told x (i, s)) ->
  exists t turned base u, track id (jl_tracker c) i s = Some (t, turned) /\ acknowledge i s = Some (acknowledged t) /\
    generation (current t) ∈ ids ++ [id] /\ s = base ++ u /\
    standing (current t) base (of_generation (current t) chunks)
      (if turned then CaptureCursor_new else jl_cursor c) (if turned then 0 else jl_sequence c).
Proof.
  intros [Hids Hc] Hid Hs Htold. destruct (acknowledge_spec i s Hs) as (tail_ & Ea). set (a := mkAcknowledgedSource _ _ _ _ _ _) in Ea.
  destruct (last snaps) as [[i0 s0]|].
  - destruct Hc as (t & Et & Ha0 & Hin & Hst). destruct (Htold _ eq_refl) as [H0 [T1 T2]]. cbn [snd] in *.
    pose proof (detect_spec id i0 s0 i s _ H0 Hs Ha0 T1 T2) as Hd.
    rewrite Et. unfold track, tracker_observe. rewrite Hd. cbn [mbind option_bind]. rewrite Ea. cbn [mbind option_bind].
    destruct (discontinuity i0 s0 i s) as [ca|] eqn:Edis; cbn [decision_of].
    + exists (mkTracker (mkGeneration id ca) a (closed t ++ [current t])), true, [], s. split_and!; try done.
      * cbn. apply elem_of_app. right. by apply list_elem_of_singleton.
      * cbn [current]. rewrite (of_generation_new id ca ids) by done. apply standing_new.
    + exists (mkTracker (current t) a (closed t)), false, (complete_prefix s0).
      unfold discontinuity in Edis. destruct (negb _); [done|]. case_bool_decide as Hp.
      2: { repeat match type of Edis with (if ?b then _ else _) = _ => destruct b end; done. }
      destruct Hp as [k Ek]. exists (k ++ incomplete_tail s). split_and!; try done.
      * cbn. apply elem_of_app. by left.
      * rewrite app_assoc, <- Ek. apply prefix_tail.
  - destruct Hc as (-> & -> & -> & ->). unfold track, tracker_begin. rewrite Ea. cbn [mbind option_bind].
    exists (mkTracker (SourceGeneration_initial id) a []), false, [], s. split_and!; try done.
    + cbn. apply elem_of_app. right. by apply list_elem_of_singleton.
    + apply standing_new.
Qed.

Lemma following_more ids id snaps chunks c : following ids snaps chunks c -> following (ids ++ [id]) snaps chunks c.
Proof.
  intros [Hids Hc]. split.
  - eapply Forall_impl; [exact Hids|]. intros ch Hch. apply elem_of_app. by left.
  - destruct (last snaps) as [[i s]|]; [|done]. destruct Hc as (t & E1 & E2 & E3 & E4). exists t. split_and!; try done.
    apply elem_of_app. by left.
Qed.

Lemma capture_stands id ids snaps chunks c i s : following ids snaps chunks c -> id ∉ ids -> fits s ->
  (forall x, last snaps = Some x -> fits x.2 /\ told x (i, s)) ->
  exists c' out, jsonl_capture id c i s = Some (c', out) /\ jl_source c' = jl_source c /\ out <> Err CursorSourceShrank /\
    following (ids ++ [id]) (snaps ++ [(i, s)]) (chunks ++ option_list (chunk_of out)) c'.
Proof.
  intros Hf Hid Hs Htold. destruct (track_stands id ids snaps chunks c i s Hf Hid Hs Htold) as (t & turned & base & u & Et & Ea & Hin & -> & Hst).
  unfold jsonl_capture. rewrite Et. cbv zeta.
  destruct (pass_stands _ _ _ _ _ u Hst Hs) as (outcome & Eo & Ecap & Hchunk). rewrite Eo.
  apply (following_more ids id) in Hf as [Hids _]. case_bool_decide as Hempty.
  - eexists _, _. split; [reflexivity|]. split; [done|]. split; [done|]. cbn [chunk_of option_list]. rewrite app_nil_r. split; [done|].
    rewrite last_snoc. exists t. split_and!; try done. cbn [jl_cursor jl_sequence].
    rewrite Hempty in Ecap. destruct Hst as [_ Hw Hc Hn Hq]. rewrite (prefix_extends base u Hw), <- Ecap, app_nil_r. by split.
  - set (chunk := mkChunk _ _ _ _ _ _ _ _). eexists _, _. split; [reflexivity|]. split; [done|]. split; [done|]. cbn [chunk_of].
    change (option_list (Some chunk)) with [chunk]. split; [apply Forall_app; split; [done|]; by apply Forall_singleton|].
    rewrite last_snoc. exists t. split_and!; try done. cbn [jl_cursor jl_sequence]. rewrite of_generation_app.
    assert (Eg : of_generation (current t) [chunk] = [chunk]) by (unfold of_generation; cbn [List.filter]; by rewrite bool_decide_true).
    rewrite Eg. by apply Hchunk.
Qed.

Definition snapshots (format : ClaudeFormat) (ps : list pass) : list (FileIdentity * list Z) :=
  omap (fun p => snapshot_of format p.2) ps.

(** Snapshots a slice can hold and SHA-256 tells apart. *)
Definition observable (snaps : list (FileIdentity * list Z)) : Prop :=
  forall x y, x ∈ snaps -> y ∈ snaps -> fits x.2 /\ told x y.

Lemma run_follows ps : forall ids snaps chunks c, following ids snaps chunks c -> NoDup (ids ++ map fst ps) ->
  observable (snaps ++ snapshots (src_format (jl_source c)) ps) ->
  exists c' outs, run_passes c ps = Some (c', outs) /\ Err CursorSourceShrank ∉ outs /\
    following (ids ++ map fst ps) (snaps ++ snapshots (src_format (jl_source c)) ps) (chunks ++ omap chunk_of outs) c'.
Proof.
  induction ps as [|[id r] ps IH]; intros ids snaps chunks c Hf Hnd Hobs.
  { exists c, []. cbn. rewrite !app_nil_r. split; [done|]. split; [apply not_elem_of_nil|done]. }
  cbn [map fst run_passes] in *. pose proof (next_chunk_cases id c r) as Hcase.
  assert (Hid : id ∉ ids).
  { apply NoDup_app in Hnd as (_ & Hnd & _). intros Hin. apply (Hnd id Hin). left. }
  unfold snapshots in *. cbn [omap list_omap snd] in *.
  destruct (snapshot_of (src_format (jl_source c)) r) as [[i s]|] eqn:Er.
  - assert (Hi : (i, s) ∈ snaps ++ (i, s) :: omap (fun p => snapshot_of (src_format (jl_source c)) p.2) ps)
      by (apply elem_of_app; right; left).
    destruct (capture_stands id ids snaps chunks c i s Hf Hid) as (c1 & out & Ec & Es & Hno & Hf1).
    { apply (Hobs (i, s) (i, s) Hi Hi). }
    { intros x [l ->]%last_Some. apply Hobs; [|done]. apply elem_of_app. left. apply elem_of_app. right. by apply list_elem_of_singleton. }
    rewrite Hcase, Ec. destruct (IH _ _ _ _ Hf1) as (c2 & outs & Er2 & Hn2 & Hf2).
    { by rewrite <- app_assoc. } { rewrite Es, <- app_assoc. exact Hobs. }
    rewrite Er2. exists c2, (out :: outs). split; [done|]. split; [by apply not_elem_of_cons|].
    rewrite Es, <- !app_assoc in Hf2. cbn [omap list_omap app] in *. revert Hf2. destruct (chunk_of out); auto.
  - destruct Hcase as (e & Ee & Hne). rewrite Ee. apply (following_more ids id) in Hf.
    destruct (IH _ _ _ _ Hf) as (c2 & outs & Er2 & Hn2 & Hf2).
    { by rewrite <- app_assoc. } { exact Hobs. }
    rewrite Er2. exists c2, (Err e :: outs). split; [done|]. split; [apply not_elem_of_cons; split; [congruence|done]|].
    rewrite <- !app_assoc in Hf2. exact Hf2.
Qed.

(** C30: A JSONL stream captures whole records, each once.  Over any passes, in which reads may
    fail, the format may not match, and the file may grow, be torn, rewritten or replaced, no
    pass panics or finds its cursor past the file; and after them the chunks of the open
    generation, put together, are exactly the complete records of the snapshot last read.
    They are numbered from zero, each begins where the one before it ended and carries its
    SHA-256.  Minted identifiers must be distinct and SHA-256 tell the snapshots apart. *)
Theorem jsonl_stream_exact source ps : NoDup (map fst ps) -> observable (snapshots (src_format source) ps) ->
  exists c outs, run_passes (JsonlCapture_new source) ps = Some (c, outs) /\ Err CursorSourceShrank ∉ outs /\
    match last (snapshots (src_format source) ps) with
    | None => omap chunk_of outs = []
    | Some (_, s) => exists t, jl_tracker c = Some t /\
        content_of (of_generation (current t) (omap chunk_of outs)) = complete_prefix s /\
        numbered 0 0 (of_generation (current t) (omap chunk_of outs)) /\
        position (jl_cursor c) = zlen (complete_prefix s)
    end.
Proof.
  intros Hnd Hobs. destruct (run_follows ps [] [] [] (JsonlCapture_new source)) as (c & outs & Er & Hn & _ & Hlast).
  - split; [done|]. done.
  - exact Hnd.
  - exact Hobs.
  - exists c, outs. split; [exact Er|]. split; [exact Hn|]. cbn [app] in Hlast. change (jl_source (JsonlCapture_new source)) with source in Hlast.
    destruct (last (snapshots (src_format source) ps)) as [[i s]|]; [|apply Hlast].
    destruct Hlast as (t & Et & _ & _ & Hst). exists t. split; [done|]. split; [apply Hst|]. split; [apply Hst|].
    by rewrite (st_cursor _ _ _ _ _ Hst).
Qed.
