(* ===== verification/CaptureWitness.v ===== *)
(** A session file at which the capture theorems are applied: it grows with a torn record,
    cannot be read, is completed, and is replaced; and two streams on which the code differs
    from its documentation. *)

From stdpp Require Import list.
From S2P Require Import Prelude Text Sha256 FileCapture ClaudeCapture CaptureFacts CaptureRun.

Open Scope Z_scope.

(** * Telling concrete snapshots apart *)

Definition tells_b (r p : list Z) : bool :=
  bool_decide (take (length r) p = r) || negb (bool_decide (digest (take (length r) p) = digest r)).

Lemma tells_b_sound r p : tells_b r p = true -> tells r p.
Proof.
  unfold tells_b. intros [Ht%bool_decide_eq_true|Hd%negb_true_iff%bool_decide_eq_false]%orb_true_iff He; [exact Ht|by destruct (Hd He)].
Qed.

Definition observable_b (snaps : list (FileIdentity * list Z)) : bool :=
  forallb (fun x => (zlen x.2 <? 2 ^ 61) && forallb (fun y =>
    tells_b (complete_prefix x.2) (complete_prefix y.2) && tells_b (head_of x.2) (complete_prefix y.2)) snaps) snaps.

Lemma observable_b_sound snaps : observable_b snaps = true -> observable snaps.
Proof.
  intros Hb x y Hx Hy. unfold observable_b in Hb. rewrite forallb_forall in Hb.
  apply list_elem_of_In in Hx, Hy. specialize (Hb x Hx). apply andb_true_iff in Hb as [Hf Hb].
  rewrite forallb_forall in Hb. specialize (Hb y Hy). apply andb_true_iff in Hb as [H1 H2].
  split; [by apply Z.ltb_lt|split; by apply tells_b_sound].
Qed.

(** * A session file *)

Definition quoted (s : string) : list Z := [34] ++ lit s ++ [34].
Definition header_line : list Z :=
  lit "{" ++ quoted "type" ++ lit ":" ++ quoted "user" ++ lit "," ++ quoted "sessionId" ++ lit ":" ++ quoted "s-1" ++ lit "}" ++ [newline].
Definition second_line : list Z := lit "{" ++ quoted "n" ++ lit ":2}" ++ [newline].
Definition account_line : list Z := lit "{" ++ quoted "accountUuid" ++ lit ":" ++ quoted "a" ++ lit "}" ++ [newline].

Definition first_file : FileIdentity := mkIdentity 1 100.
Definition other_file : FileIdentity := mkIdentity 1 101.
Definition session_source : ClaudeSource := mkSource Session (Jsonl 1) None.

Definition reads_of (i : FileIdentity) (bytes : list Z) : Reads := mkReads (inl i) (inl bytes) (inl bytes).
Definition torn : list Z := header_line ++ take 4 second_line.
Definition finished : list Z := header_line ++ second_line.

Definition session_passes : list pass :=
  [(lit "g1", reads_of first_file torn); (lit "g2", mkReads (inr OtherIo) (inr OtherIo) (inr OtherIo));
   (lit "g3", reads_of first_file finished); (lit "g4", reads_of other_file torn)].

Lemma adapter_sha256_exact_witness : zlen (lit "abc") < 2 ^ 61 /\ claude_sha256 (lit "abc") = sha256_spec (lit "abc").
Proof. split; [reflexivity|]. apply (adapter_sha256_exact (lit "abc")). reflexivity. Defined.

(** The torn record is completed: the generation continues. *)
Lemma generation_decision_exact_witness : exists a, acknowledge first_file torn = Some a /\
  detect_generation (lit "g3") a (SourceObservation_observe first_file finished) = Some Continue.
Proof.
  destruct (generation_decision_exact (lit "g3") first_file torn first_file finished) as (a & Ha & _ & Hd).
  - reflexivity.
  - reflexivity.
  - apply tells_b_sound. vm_compute. reflexivity.
  - apply tells_b_sound. vm_compute. reflexivity.
  - exists a. split; [exact Ha|]. rewrite Hd. vm_compute. reflexivity.
Defined.

Lemma jsonl_stream_exact_witness : exists c outs t, run_passes (JsonlCapture_new session_source) session_passes = Some (c, outs) /\
  Err CursorSourceShrank ∉ outs /\ jl_tracker c = Some t /\
  content_of (of_generation (current t) (omap chunk_of outs)) = header_line.
Proof.
  destruct (jsonl_stream_exact session_source session_passes) as (c & outs & Hr & Hn & Hl).
  - apply (bool_decide_eq_true_1 (NoDup (map fst session_passes))). vm_compute. reflexivity.
  - apply observable_b_sound. vm_compute. reflexivity.
  - assert (E : last (snapshots (src_format session_source) session_passes) = Some (other_file, torn)) by (vm_compute; reflexivity).
    rewrite E in Hl. destruct Hl as (t & Ht & Hc & _). exists c, outs, t. split; [exact Hr|]. split; [exact Hn|]. split; [exact Ht|].
    rewrite Hc. vm_compute. reflexivity.
Defined.

(** * Where the code differs from its documentation *)

(** The chunks of the earlier generation are whole too, and kept apart. *)
Example session_chunks : match run_passes (JsonlCapture_new session_source) session_passes with
  | Some (_, outs) => map (fun ch => (generation (chunk_generation ch), range_start ch, chunk_sequence ch)) (omap chunk_of outs)
  | None => []
  end = [(lit "g1", 0, 0); (lit "g1", zlen header_line, 1); (lit "g4", 0, 0)].
Proof. vm_compute. reflexivity. Qed.

(** A whole-object stream numbers on across generations, although a chunk's number is
    documented as its order within the generation. *)
Example object_sequence_not_reset :
  let s := ObjectCapture_new (mkSource SessionSidecar Sidecar None) in
  exists s1 ch1 s2 ch2, object_next_chunk (lit "g1") s (reads_of first_file (lit "{}")) = Some (s1, Ok (Some ch1)) /\
    object_next_chunk (lit "g2") s1 (reads_of other_file (lit "{ }")) = Some (s2, Ok (Some ch2)) /\
    generation (chunk_generation ch1) = lit "g1" /\ generation (chunk_generation ch2) = lit "g2" /\ chunk_sequence ch2 = 1.
Proof. do 4 eexists. split; [vm_compute; reflexivity|]. split; [vm_compute; reflexivity|]. vm_compute. done. Qed.

(** A file that grows by an ordinary record can change its dialect while its header window is
    not full: the open stream refuses it from then on as changed to an unsupported format,
    although the new dialect is supported. *)
Example append_changes_dialect :
  jsonl_next_chunk (lit "g2") (JsonlCapture_new session_source) (reads_of first_file (header_line ++ account_line)) =
    Some (JsonlCapture_new session_source, Err (FormatChanged (lit "claude-jsonl-v2"))) /\
  lit "claude-jsonl-v2" ∈ JSONL_FINGERPRINTS.
Proof. split; [vm_compute; reflexivity|]. right. left. Qed.
